(** * MRM reproducible-research scripts: extraction and matching core

    A shallow embedding of the text heuristics of
    - [scripts/sort_mrm_pdfs_by_acceptance_and_build_workbook.py]  (module [Sort]),
    - [scripts/add_affiliation_country_from_pdfs.py]               (module [Affil]),
    - [scripts/scan_keywords_update_workbook.py]                   (module [Scan]),
    over a small model of the Python runtime they call (module [Py]):
    [str] methods, the [re] backtracking matcher and [datetime.date].

    Text is a list of characters whose code points lie below 256 (one
    [ascii] per code point, Latin-1); the character classes of [re] and
    [str] are the ones CPython uses on that range. *)

From Stdlib Require Import String Ascii Bool Arith NArith Lia List Sorted.
Import ListNotations.
Open Scope list_scope.

Set Implicit Arguments.

(* ================================================================== *)
(** * Python runtime model *)
(* ================================================================== *)

Module Py.

(** Text: the characters of a Python [str] whose code points lie
    below 256.  A statement on text is a statement on such text. *)
Definition str := list ascii.

(** A literal of the source, as text. *)
Definition py (s : string) : str := list_ascii_of_string s.
Arguments py s%_string.

Definition code (c : ascii) : N := N_of_ascii c.

Definition between (lo hi : N) (c : ascii) : bool :=
  ((lo <=? code c) && (code c <=? hi))%N.

Definition is_char (x : ascii) (c : ascii) : bool := Ascii.eqb x c.

Definition one_of (cs : str) (c : ascii) : bool :=
  existsb (Ascii.eqb c) cs.

(** [str.isspace] on one character, also the class [\s] of [re]:
    TAB..CR, FS..US, SPACE, NEL and NO-BREAK SPACE. *)
Definition is_space (c : ascii) : bool :=
  between 9 13 c || between 28 32 c || (code c =? 133)%N || (code c =? 160)%N.

(** The class [\d] of [re] (decimal digits). *)
Definition is_digit (c : ascii) : bool := between 48 57 c.

(** The class [[A-Za-z]]. *)
Definition is_letter (c : ascii) : bool := between 65 90 c || between 97 122 c.

(** Word characters of [re] ([\w], used by [\b]): alphanumerics in the
    sense of [str.isalnum], and the underscore. *)
Definition is_word (c : ascii) : bool :=
  is_digit c || is_letter c || (code c =? 95)%N
  || (code c =? 170)%N || (code c =? 178)%N || (code c =? 179)%N
  || (code c =? 181)%N || (code c =? 185)%N || (code c =? 186)%N
  || between 188 190 c
  || between 192 214 c || between 216 246 c || between 248 255 c.

(** [str.lower] on one character below U+0100. *)
Definition lower_char (c : ascii) : ascii :=
  if between 65 90 c || (between 192 222 c && negb (code c =? 215)%N)
  then ascii_of_N (code c + 32) else c.

(** [s.lower()] on text below U+0100, where [str.lower] goes character
    by character and keeps the length.  On other text it does not
    (U+0130 lowers to two characters, a capital sigma lowers by its
    place in the word): what is proved of [lower] holds of [str.lower]
    on text below U+0100 only. *)
Definition lower (s : str) : str := map lower_char s.

Fixpoint dropwhile (p : ascii -> bool) (s : str) : str :=
  match s with
  | c :: s' => if p c then dropwhile p s' else s
  | [] => []
  end.

Fixpoint takewhile (p : ascii -> bool) (s : str) : str :=
  match s with
  | c :: s' => if p c then c :: takewhile p s' else []
  | [] => []
  end.

Definition lstrip (s : str) : str := dropwhile is_space s.
Definition rstrip (s : str) : str := rev (dropwhile is_space (rev s)).
(** [s.strip()] *)
Definition strip (s : str) : str := rstrip (lstrip s).

(** [s.rstrip(chars)] *)
Definition rstrip_chars (chars : str) (s : str) : str :=
  rev (dropwhile (one_of chars) (rev s)).

(** [s.replace(old, new)] for one-character [old] and [new]. *)
Definition replace_char (old new : ascii) (s : str) : str :=
  map (fun c => if Ascii.eqb c old then new else c) s.

(** [s.split(' ')[0]] *)
Definition first_field (s : str) : str :=
  takewhile (fun c => negb (is_char " " c)) s.

Definition str_eqb (a b : str) : bool :=
  if list_eq_dec ascii_dec a b then true else false.

Fixpoint starts_with (p s : str) : bool :=
  match p, s with
  | [], _ => true
  | x :: p', c :: s' => Ascii.eqb x c && starts_with p' s'
  | _ :: _, [] => false
  end.

(** [needle in hay] on strings. *)
Fixpoint str_in (needle hay : str) : bool :=
  starts_with needle hay ||
  match hay with
  | [] => false
  | _ :: hay' => str_in needle hay'
  end.

(** [int(s)] on a run of decimal digits. *)
Definition digit_val (c : ascii) : N := (code c - 48)%N.
Definition int_of (s : str) : N :=
  fold_left (fun acc c => (10 * acc + digit_val c)%N) s 0%N.

(** [str(n)] and the format spec [0Wd] for a natural number. *)
Definition digit_char (d : N) : ascii := ascii_of_N (48 + d).

Fixpoint digits_fuel (fuel : nat) (n : N) (acc : str) : str :=
  match fuel with
  | O => acc
  | S fuel' =>
      let acc' := digit_char (n mod 10) :: acc in
      if (n / 10 =? 0)%N then acc' else digits_fuel fuel' (n / 10)%N acc'
  end.

Definition str_of_N (n : N) : str := digits_fuel (S (N.size_nat n)) n [].

Definition zero_pad (width : nat) (n : N) : str :=
  let s := str_of_N n in
  repeat "0"%char (width - length s) ++ s.

(* ------------------------------------------------------------------ *)
(** ** The [re] matcher

    Patterns are abstract syntax; repetition is greedy and applies to a
    character class, which is all the scripts use.  The matcher is the
    backtracking one: alternatives are tried in priority order and the
    first overall success is the match. *)

Inductive regex : Type :=
| Eps
| Chr (p : ascii -> bool)
| WordB
| Cat (r1 r2 : regex)
| Rep (p : ascii -> bool) (lo : nat) (hi : option nat)
| Opt (r : regex)
| Grp (i : nat) (r : regex).

(** The cursor of the matcher; a capture is the pair of offsets
    [(m.start(i), m.end(i))] in the subject string. *)
Record mstate : Type := MState {
  consumed : list ascii;          (* text before the cursor, reversed *)
  remaining : list ascii;         (* text from the cursor on *)
  spans : list (nat * (nat * nat))  (* captures, latest first *)
}.

Definition head_is (p : ascii -> bool) (s : list ascii) : bool :=
  match s with c :: _ => p c | [] => false end.

(** [\b]: exactly one of the two neighbours is a word character. *)
Definition boundary (before rest : list ascii) : bool :=
  xorb (head_is is_word before) (head_is is_word rest).

Definition below (n : nat) (hi : option nat) : bool :=
  match hi with None => true | Some h => n <? h end.

Fixpoint rep {R : Type} (p : ascii -> bool) (lo : nat) (hi : option nat)
    (n : nat) (before rest : list ascii)
    (k : list ascii -> list ascii -> option R) : option R :=
  let stop := if lo <=? n then k before rest else None in
  match rest with
  | c :: rest' =>
      if p c && below n hi then
        match rep p lo hi (S n) (c :: before) rest' k with
        | Some x => Some x
        | None => stop
        end
      else stop
  | [] => stop
  end.

Fixpoint exec {R : Type} (r : regex) (st : mstate)
    (k : mstate -> option R) : option R :=
  match r with
  | Eps => k st
  | Chr p =>
      match remaining st with
      | c :: rest' =>
          if p c then k (MState (c :: consumed st) rest' (spans st)) else None
      | [] => None
      end
  | WordB => if boundary (consumed st) (remaining st) then k st else None
  | Cat r1 r2 => exec r1 st (fun st' => exec r2 st' k)
  | Rep p lo hi =>
      rep p lo hi 0 (consumed st) (remaining st)
          (fun b r' => k (MState b r' (spans st)))
  | Opt r1 =>
      match exec r1 st k with
      | Some x => Some x
      | None => k st
      end
  | Grp i r1 =>
      exec r1 st (fun st' =>
        k (MState (consumed st') (remaining st')
                  ((i, (length (consumed st), length (consumed st')))
                     :: spans st')))
  end.

(** Where a match ends, and its captures. *)
Definition found : Type := nat * list (nat * (nat * nat)).

(** A match starting exactly at the cursor. *)
Definition match_at (r : regex) (before rest : list ascii) : option found :=
  exec r (MState before rest [])
       (fun st => Some (length (consumed st), spans st)).

(** The leftmost match from the cursor on: its start and [found]. *)
Fixpoint search_from (r : regex) (before rest : list ascii)
    : option (nat * found) :=
  match match_at r before rest with
  | Some f => Some (length before, f)
  | None =>
      match rest with
      | c :: rest' => search_from r (c :: before) rest'
      | [] => None
      end
  end.

(** A match object: [m.string], [m.start()], [m.end()] and the spans
    of the numbered groups. *)
Record rmatch : Type := RMatch {
  m_string : str;
  m_start : nat;
  m_end : nat;
  m_spans : list (nat * (nat * nat))
}.

(** [s[a:b]] for [a <= b]. *)
Definition slice (a b : nat) (s : str) : str := firstn (b - a) (skipn a s).

(** [m.group(0)] *)
Definition m_text (m : rmatch) : str := slice (m_start m) (m_end m) (m_string m).

Fixpoint assoc_nat (i : nat) (l : list (nat * (nat * nat))) : option (nat * nat) :=
  match l with
  | (j, sp) :: l' => if i =? j then Some sp else assoc_nat i l'
  | [] => None
  end.

(** [m.group(i)] *)
Definition group (m : rmatch) (i : nat) : str :=
  match assoc_nat i (m_spans m) with
  | Some (a, b) => slice a b (m_string m)
  | None => []
  end.

Definition mk_match (s : str) (x : nat * found) : rmatch :=
  RMatch s (fst x) (fst (snd x)) (snd (snd x)).

(** [pattern.search(s)] *)
Definition re_search (r : regex) (s : str) : option rmatch :=
  option_map (mk_match s) (search_from r [] s).

(** Replacement templates such as [r'\1 \2']. *)
Inductive titem : Type :=
| TLit (s : str)
| TRef (i : nat).

Definition expand (tpl : list titem) (m : rmatch) : str :=
  flat_map (fun it => match it with TLit s => s | TRef i => group m i end) tpl.

(** [re.sub] on the subject [s]: the non-overlapping matches, left to
    right; [skip] counts the characters of the last match that are
    still to be passed. *)
Fixpoint sub_from (r : regex) (tpl : list titem) (s : str) (skip : nat)
    (before rest : list ascii) : str :=
  match skip with
  | S skip' =>
      match rest with
      | c :: rest' => sub_from r tpl s skip' (c :: before) rest'
      | [] => []
      end
  | O =>
      match match_at r before rest with
      | Some f =>
          let m := mk_match s (length before, f) in
          match rest with
          | c :: rest' =>
              match m_end m - m_start m with
              | O => expand tpl m ++ c :: sub_from r tpl s 0 (c :: before) rest'
              | S n => expand tpl m ++ sub_from r tpl s n (c :: before) rest'
              end
          | [] => expand tpl m
          end
      | None =>
          match rest with
          | c :: rest' => c :: sub_from r tpl s 0 (c :: before) rest'
          | [] => []
          end
      end
  end.

(** [re.sub(pattern, repl, s)] *)
Definition re_sub (r : regex) (tpl : list titem) (s : str) : str :=
  sub_from r tpl s 0 [] s.

(** Pattern builders. *)
Fixpoint lit (s : str) : regex :=
  match s with
  | [] => Eps
  | c :: s' => Cat (Chr (is_char c)) (lit s')
  end.

(** A literal under [re.IGNORECASE]. *)
Fixpoint lit_ci (s : str) : regex :=
  match s with
  | [] => Eps
  | c :: s' =>
      Cat (Chr (fun x => Ascii.eqb (lower_char x) (lower_char c))) (lit_ci s')
  end.

Definition star (p : ascii -> bool) : regex := Rep p 0 None.
Definition plus (p : ascii -> bool) : regex := Rep p 1 None.

Fixpoint cat (rs : list regex) : regex :=
  match rs with
  | [] => Eps
  | [r] => r
  | r :: rs' => Cat r (cat rs')
  end.

(* ------------------------------------------------------------------ *)
(** ** [datetime.date] *)

Record date : Type := Date { year : N; month : N; day : N }.

Definition is_leap (y : N) : bool :=
  ((y mod 4 =? 0) && (negb (y mod 100 =? 0) || (y mod 400 =? 0)))%N.

Definition days_in_month (y m : N) : N :=
  match m with
  | 2 => if is_leap y then 29 else 28
  | 4 | 6 | 9 | 11 => 30
  | _ => 31
  end%N.

Definition valid_date (y m d : N) : bool :=
  ((1 <=? y) && (y <=? 9999) && (1 <=? m) && (m <=? 12)
   && (1 <=? d) && (d <=? days_in_month y m))%N.

(** [dt.date(y, m, d)]; [None] stands for [ValueError]. *)
Definition mk_date (y m d : N) : option date :=
  if valid_date y m d then Some (Date y m d) else None.

(* ------------------------------------------------------------------ *)
(** ** Calls that may raise *)

Inductive outcome (A : Type) : Type :=
| Raised (msg : str)
| Returned (a : A).
Arguments Raised {A} msg.
Arguments Returned {A} a.

(** [x or the empty string] on an optional string. *)
Definition or_empty (o : option str) : str :=
  match o with Some s => s | None => [] end.

(** ** Dictionaries keyed by strings, in insertion order *)

Fixpoint dict_get {V : Type} (d : list (str * V)) (k : str) : option V :=
  match d with
  | (k', v) :: d' => if str_eqb k k' then Some v else dict_get d' k
  | [] => None
  end.

(** [d[k] = v]: an existing key keeps its place, a new one goes last. *)
Fixpoint dict_set {V : Type} (d : list (str * V)) (k : str) (v : V)
    : list (str * V) :=
  match d with
  | (k', v') :: d' =>
      if str_eqb k k' then (k', v) :: d' else (k', v') :: dict_set d' k v
  | [] => [(k, v)]
  end.

Definition dict_keys {V : Type} (d : list (str * V)) : list str := map fst d.

(* ------------------------------------------------------------------ *)
(** ** [str.splitlines]

    The line boundaries below code point 256: LF, VT, FF, CR (and CR LF
    as one), FS, GS, RS and NEL.  The boundaries are dropped, and a
    final boundary opens no further line. *)

Definition is_linebreak (c : ascii) : bool :=
  between 10 13 c || between 28 30 c || (code c =? 133)%N.

(** [cur] is the line being read, reversed. *)
Fixpoint splitlines_from (cur : list ascii) (s : str) : list str :=
  match s with
  | [] => match cur with [] => [] | _ :: _ => [rev cur] end
  | c :: s' =>
      if is_linebreak c then
        match s' with
        | n :: s'' =>
            if Ascii.eqb c "013" && Ascii.eqb n "010"
            then rev cur :: splitlines_from [] s''
            else rev cur :: splitlines_from [] s'
        | [] => rev cur :: splitlines_from [] s'
        end
      else splitlines_from (c :: cur) s'
  end.

Definition splitlines (s : str) : list str := splitlines_from [] s.

(** [x in l] and [l.index(x)] on lists of strings; [index] is only
    called under [x in l]. *)
Definition in_list (x : str) (l : list str) : bool := existsb (str_eqb x) l.

Fixpoint index (l : list str) (x : str) : nat :=
  match l with
  | y :: l' => if str_eqb x y then 0 else S (index l' x)
  | [] => 0
  end.

(* ------------------------------------------------------------------ *)
(** ** Patterns with alternation and anchors

    A second syntax adds, on top of [regex], what the affiliation
    heuristics use: alternation, tried left to right, and the anchors
    [^] and [$], each with the MULTILINE flag it is compiled under. *)

Inductive pattern : Type :=
| PRe (r : regex)
| PAlt (a b : pattern)
| PCat (a b : pattern)
| PGrp (i : nat) (a : pattern)
| PBol (multiline : bool)
| PEol (multiline : bool).

Definition newline : ascii := "010"%char.

(** [^]: the start of the subject and, under MULTILINE, after a newline. *)
Definition at_bol (multiline : bool) (before : list ascii) : bool :=
  match before with
  | [] => true
  | c :: _ => multiline && Ascii.eqb c newline
  end.

(** [$]: the end of the subject, or before its final newline; under
    MULTILINE before any newline. *)
Definition at_eol (multiline : bool) (rest : list ascii) : bool :=
  match rest with
  | [] => true
  | c :: rest' =>
      Ascii.eqb c newline
      && (multiline || match rest' with [] => true | _ :: _ => false end)
  end.

Fixpoint pexec {R : Type} (p : pattern) (st : mstate)
    (k : mstate -> option R) : option R :=
  match p with
  | PRe r => exec r st k
  | PAlt a b =>
      match pexec a st k with
      | Some x => Some x
      | None => pexec b st k
      end
  | PCat a b => pexec a st (fun st' => pexec b st' k)
  | PGrp i a =>
      pexec a st (fun st' =>
        k (MState (consumed st') (remaining st')
                  ((i, (length (consumed st), length (consumed st')))
                     :: spans st')))
  | PBol ml => if at_bol ml (consumed st) then k st else None
  | PEol ml => if at_eol ml (remaining st) then k st else None
  end.

Definition pmatch_at (p : pattern) (before rest : list ascii) : option found :=
  pexec p (MState before rest [])
        (fun st => Some (length (consumed st), spans st)).

(** [pattern.match(s)]: a match at the start of [s]. *)
Definition re_match (p : pattern) (s : str) : option rmatch :=
  option_map (fun f => mk_match s (0, f)) (pmatch_at p [] s).

Fixpoint psearch_from (p : pattern) (before rest : list ascii)
    : option (nat * found) :=
  match pmatch_at p before rest with
  | Some f => Some (length before, f)
  | None =>
      match rest with
      | c :: rest' => psearch_from p (c :: before) rest'
      | [] => None
      end
  end.

(** [re.search(pattern, s)] for a pattern of the second syntax. *)
Definition re_search_p (p : pattern) (s : str) : option rmatch :=
  option_map (mk_match s) (psearch_from p [] s).

Fixpoint pcat (ps : list pattern) : pattern :=
  match ps with
  | [] => PRe Eps
  | [p] => p
  | p :: ps' => PCat p (pcat ps')
  end.

(** [a|b|...], for at least one alternative. *)
Fixpoint palt (p : pattern) (ps : list pattern) : pattern :=
  match ps with
  | [] => p
  | q :: ps' => PAlt p (palt q ps')
  end.

End Py.

Import Py.

(* ================================================================== *)
(** * openpyxl workbooks, as the scripts use them *)
(* ================================================================== *)

Module Xl.

(** A cell value: [None] is the empty cell. *)
Definition cell := option str.

Record sheet : Type := Sheet {
  sheet_name : str;
  sheet_rows : list (list cell)   (* row 1 is the header *)
}.

(** Sheets in [wb.sheetnames] order. *)
Definition workbook := list sheet.

Definition sheetnames (wb : workbook) : list str := map sheet_name wb.

(** [wb[name]] *)
Fixpoint get_sheet (wb : workbook) (name : str) : option sheet :=
  match wb with
  | ws :: wb' => if str_eqb name (sheet_name ws) then Some ws else get_sheet wb' name
  | [] => None
  end.

(** [wb.create_sheet(name)] *)
Definition create_sheet (wb : workbook) (name : str) : workbook :=
  wb ++ [Sheet name []].

(** [wb[name].append(row)]; a workbook without that sheet is left as it is. *)
Fixpoint append_row (wb : workbook) (name : str) (row : list cell) : workbook :=
  match wb with
  | ws :: wb' =>
      if str_eqb name (sheet_name ws)
      then Sheet (sheet_name ws) (sheet_rows ws ++ [row]) :: wb'
      else ws :: append_row wb' name row
  | [] => []
  end.

(** [[c.value for c in ws[1]]] *)
Definition header (ws : sheet) : list cell := hd [] (sheet_rows ws).

(** [ws.max_row] *)
Definition max_row (ws : sheet) : nat := length (sheet_rows ws).

(** [ws.cell(r, col).value], rows and columns counted from 1. *)
Definition cell_value (ws : sheet) (r col : nat) : cell :=
  nth (col - 1) (nth (r - 1) (sheet_rows ws) []) None.

Definition cell_eqb (a b : cell) : bool :=
  match a, b with
  | Some x, Some y => str_eqb x y
  | None, None => true
  | _, _ => false
  end.

(** [name in header] *)
Definition has_column (h : list cell) (name : str) : bool :=
  existsb (cell_eqb (Some name)) h.

(** [header.index(name)]; [None] stands for [ValueError]. *)
Fixpoint index_of (h : list cell) (name : str) : option nat :=
  match h with
  | c :: h' =>
      if cell_eqb c (Some name) then Some 0
      else match index_of h' name with Some i => Some (S i) | None => None end
  | [] => None
  end.

Fixpoint set_nth {A : Type} (n : nat) (x d : A) (l : list A) : list A :=
  match n, l with
  | O, _ :: l' => x :: l'
  | O, [] => [x]
  | S n', y :: l' => y :: set_nth n' x d l'
  | S n', [] => d :: set_nth n' x d []
  end.

(** [ws.cell(r, col).value = v] *)
Definition set_cell (ws : sheet) (r col : nat) (v : cell) : sheet :=
  Sheet (sheet_name ws)
        (set_nth (r - 1) (set_nth (col - 1) v None (nth (r - 1) (sheet_rows ws) []))
                 [] (sheet_rows ws)).

Fixpoint set_sheet (wb : workbook) (ws : sheet) : workbook :=
  match wb with
  | ws0 :: wb' =>
      if str_eqb (sheet_name ws) (sheet_name ws0) then ws :: wb'
      else ws0 :: set_sheet wb' ws
  | [] => []
  end.

(** [ws.max_column]: the widest row, and 1 for a sheet without cells. *)
Definition max_column (ws : sheet) : nat :=
  Nat.max 1 (fold_right Nat.max 0 (map (@length cell) (sheet_rows ws))).

End Xl.

(* ================================================================== *)
(** * scripts/sort_mrm_pdfs_by_acceptance_and_build_workbook.py *)
(* ================================================================== *)

Module Sort.

Definition MONTH_NAMES : list str :=
  [py "January"; py "February"; py "March"; py "April"; py "May"; py "June";
   py "July"; py "August"; py "September"; py "October"; py "November";
   py "December"].

Definition COLUMNS : list str :=
  [py "Filename"; py "Month"; py "Keywords Matched";
   py "Data Availability Statement"; py "False Positive?"; py "Link";
   py "Shared code?"; py "Shared data?"; py "Language(s)";
   py "Additional notes"; py "First author gender"; py "Last author gender"].

(** The negated class of the DOI pattern: anything but whitespace,
    the angle brackets, the double quote and the apostrophe. *)
Definition doi_body (c : ascii) : bool :=
  negb (is_space c || one_of ["<"; ">"; "034"; "'"]%char c).

(** [\b10\.\d{4,9}/] [doi_body] [+\b]   (IGNORECASE changes nothing:
    the pattern has no letter and no positive letter class). *)
Definition DOI_RE : regex :=
  cat [WordB; lit (py "10"); Chr (is_char "."); Rep is_digit 4 (Some 9);
       Chr (is_char "/"); plus doi_body; WordB].

(** [\bAccepted\b\s*:?\s*], under IGNORECASE. *)
Definition accepted_prefix : list regex :=
  [WordB; lit_ci (py "Accepted"); WordB; star is_space;
   Opt (Chr (is_char ":")); star is_space].

(** [...(\d{1,2})\s+([A-Za-z]+)\s+(\d{4})\b] *)
Definition ACC_DMY : regex :=
  cat (accepted_prefix ++
       [Grp 1 (Rep is_digit 1 (Some 2)); plus is_space;
        Grp 2 (plus is_letter); plus is_space;
        Grp 3 (Rep is_digit 4 (Some 4)); WordB]).

(** [...([A-Za-z]+)\s+(\d{1,2})(?:,)?\s+(\d{4})\b] *)
Definition ACC_MDY : regex :=
  cat (accepted_prefix ++
       [Grp 1 (plus is_letter); plus is_space;
        Grp 2 (Rep is_digit 1 (Some 2)); Opt (Chr (is_char ","));
        plus is_space; Grp 3 (Rep is_digit 4 (Some 4)); WordB]).

(** [...(\d{4})-(\d{1,2})-(\d{1,2})\b] *)
Definition ACC_YMD_DASH : regex :=
  cat (accepted_prefix ++
       [Grp 1 (Rep is_digit 4 (Some 4)); Chr (is_char "-");
        Grp 2 (Rep is_digit 1 (Some 2)); Chr (is_char "-");
        Grp 3 (Rep is_digit 1 (Some 2)); WordB]).

(** [...(\d{1,2})/(\d{1,2})/(\d{4})\b] *)
Definition ACC_DMY_SLASH : regex :=
  cat (accepted_prefix ++
       [Grp 1 (Rep is_digit 1 (Some 2)); Chr (is_char "/");
        Grp 2 (Rep is_digit 1 (Some 2)); Chr (is_char "/");
        Grp 3 (Rep is_digit 4 (Some 4)); WordB]).

Definition MONTH_LOOKUP : list (str * N) :=
  [(py "jan", 1); (py "january", 1);
   (py "feb", 2); (py "february", 2);
   (py "mar", 3); (py "march", 3);
   (py "apr", 4); (py "april", 4);
   (py "may", 5);
   (py "jun", 6); (py "june", 6);
   (py "jul", 7); (py "july", 7);
   (py "aug", 8); (py "august", 8);
   (py "sep", 9); (py "sept", 9); (py "september", 9);
   (py "oct", 10); (py "october", 10);
   (py "nov", 11); (py "november", 11);
   (py "dec", 12); (py "december", 12)]%N.

(** [\s+] *)
Definition WS_RUN : regex := plus is_space.
(** [(\d)([A-Za-z])] *)
Definition DIGIT_LETTER : regex := Cat (Grp 1 (Chr is_digit)) (Grp 2 (Chr is_letter)).
(** [([A-Za-z])(\d)] *)
Definition LETTER_DIGIT : regex := Cat (Grp 1 (Chr is_letter)) (Grp 2 (Chr is_digit)).
(** The replacement [\1 \2]. *)
Definition SPACED : list titem := [TRef 1; TLit (py " "); TRef 2].

Definition normalize_text_for_dates (text : str) : str :=
  match text with
  | [] => []
  | _ =>
      let t := replace_char "009" " " (replace_char "160" " " text) in
      let t := re_sub WS_RUN [TLit (py " ")] t in
      let t := re_sub DIGIT_LETTER SPACED t in
      let t := re_sub LETTER_DIGIT SPACED t in
      strip t
  end.

Definition parse_doi (text : str) : str :=
  match re_search DOI_RE text with
  | None => []
  | Some m => lower (rstrip_chars (py ").,;]") (m_text m))
  end.

(** [MONTH_LOOKUP.get(mon.lower(), MONTH_LOOKUP.get(mon.lower()[:3]))] *)
Definition month_of_name (mon : str) : option N :=
  match dict_get MONTH_LOOKUP (lower mon) with
  | Some i => Some i
  | None => dict_get MONTH_LOOKUP (firstn 3 (lower mon))
  end.

Definition parse_accepted_date (text : str) : option date :=
  let t := normalize_text_for_dates text in
  match t with
  | [] => None
  | _ =>
    let dmy :=
      match re_search ACC_DMY t with
      | Some m =>
          let d := int_of (group m 1) in
          let mon := group m 2 in
          let y := int_of (group m 3) in
          match month_of_name mon with
          | Some mon_i => Some (mk_date y mon_i d)
          | None => None
          end
      | None => None
      end in
    match dmy with
    | Some r => r
    | None =>
    let mdy :=
      match re_search ACC_MDY t with
      | Some m =>
          let mon := group m 1 in
          let d := int_of (group m 2) in
          let y := int_of (group m 3) in
          match month_of_name mon with
          | Some mon_i => Some (mk_date y mon_i d)
          | None => None
          end
      | None => None
      end in
    match mdy with
    | Some r => r
    | None =>
    match re_search ACC_YMD_DASH t with
    | Some m =>
        let y := int_of (group m 1) in
        let mon := int_of (group m 2) in
        let d := int_of (group m 3) in
        mk_date y mon d
    | None =>
    match re_search ACC_DMY_SLASH t with
    | Some m =>
        let d := int_of (group m 1) in
        let mon := int_of (group m 2) in
        let y := int_of (group m 3) in
        mk_date y mon d
    | None => None
    end end end end
  end.


(** *** Gender inference

    The statistical detector and the remote oracle are libraries outside
    the repository; they are parameters.  The second component of the
    result lists the tiers that were consulted, in order. *)

Inductive tier : Type := CuratedTable | Detector | Oracle.

Section Gender.

(** [det.get_gender] *)
Variable det_get_gender : str -> str.
(** Whether the optional [genderize] package could be imported. *)
Variable HAVE_GENDERIZE : bool.
(** [Genderize().get([fn])]: the [gender] entry of each answer, or an
    exception. *)
Variable genderize_get : str -> outcome (list (option str)).

Definition is_male_or_female (g : str) : bool :=
  str_eqb g (py "male") || str_eqb g (py "female").

Definition oracle_tier (fn : str) : str :=
  match genderize_get fn with
  | Returned (Some g :: _) =>
      if is_male_or_female g then g else py "unknown"
  | Returned (None :: _) => py "unknown"
  | Returned [] => py "unknown"
  | Raised _ => py "unknown"
  end.

Definition infer_gender (firstname : str) (popular_map : list (str * str))
    (use_genderize : bool) : str * list tier :=
  let fn := first_field (strip firstname) in
  match fn with
  | [] => (py "unknown", [])
  | _ =>
    let key := lower fn in
    let curated :=
      match dict_get popular_map key with
      | Some v => if is_male_or_female v then Some v else None
      | None => None
      end in
    match curated with
    | Some v => (v, [CuratedTable])
    | None =>
      let gg := det_get_gender fn in
      if is_male_or_female gg then (gg, [CuratedTable; Detector])
      else if str_eqb gg (py "mostly_male") then (py "male", [CuratedTable; Detector])
      else if str_eqb gg (py "mostly_female") then (py "female", [CuratedTable; Detector])
      else if use_genderize && HAVE_GENDERIZE
           then (oracle_tier fn, [CuratedTable; Detector; Oracle])
           else (py "unknown", [CuratedTable; Detector])
    end
  end.

End Gender.

(** *** The workbook *)

Definition create_workbook : Xl.workbook :=
  let wb := fold_left
              (fun wb m => Xl.append_row (Xl.create_sheet wb m) m (map Some COLUMNS))
              MONTH_NAMES [] in
  Xl.append_row (Xl.create_sheet wb (py "Sheet7")) (py "Sheet7") (map Some COLUMNS).

Definition month_sheet_name (d : option date) : str :=
  match d with
  | None => py "Sheet7"
  | Some d => nth (N.to_nat (month d) - 1) MONTH_NAMES []
  end.

Definition month_cell_value (d : option date) : str :=
  match d with
  | None => []
  | Some d => zero_pad 4 (year d) ++ py "-" ++ zero_pad 2 (month d) ++ py "-01"
  end.

(** [d.isoformat()] *)
Definition isoformat (d : date) : str :=
  zero_pad 4 (year d) ++ py "-" ++ zero_pad 2 (month d) ++ py "-"
  ++ zero_pad 2 (day d).

(** [sep.join(parts)] *)
Fixpoint join (sep : str) (parts : list str) : str :=
  match parts with
  | [] => []
  | [x] => x
  | x :: rest => x ++ sep ++ join sep rest
  end.

Record LogRow : Type := MkLogRow {
  pdf : str;
  doi : str;
  accepted_date : str;
  status : str;
  note : str
}.

(** What [main] reads of one PDF: its path relative to the folder and
    the text of its first pages ([extract_text_pypdf2], empty when the
    file cannot be parsed). *)
Record pdf_input : Type := PdfInput {
  pdf_rel : str;
  pdf_text : str
}.

Section Main.

Variable det_get_gender : str -> str.
Variable HAVE_GENDERIZE : bool.
Variable genderize_get : str -> outcome (list (option str)).
(** [crossref_lookup(doi, mailto)]: title and the two given names. *)
Variable crossref_lookup : str -> str * str * str.
Variable popular_map : list (str * str).
Variable use_genderize : bool.

Definition is_empty (s : str) : bool := match s with [] => true | _ => false end.

(** The row [main] appends for one PDF, and the sheet it goes to. *)
Definition workbook_row (p : pdf_input) : str * list str * LogRow :=
  let text := pdf_text p in
  let doi := parse_doi text in
  let acc := parse_accepted_date text in
  let '(title, first_fn, last_fn) :=
    if is_empty doi then ([], [], []) else crossref_lookup doi in
  let note_parts :=
    (if is_empty text then [py "pdf_parse_failed"] else [])
    ++ (if is_empty doi then [py "doi_not_found"] else [])
    ++ (match acc with None => [py "accepted_not_found"] | Some _ => [] end)
    ++ (if is_empty title && negb (is_empty doi)
        then [py "crossref_lookup_failed"] else []) in
  let g_first := fst (infer_gender det_get_gender HAVE_GENDERIZE genderize_get
                                   first_fn popular_map use_genderize) in
  let g_last := fst (infer_gender det_get_gender HAVE_GENDERIZE genderize_get
                                  last_fn popular_map use_genderize) in
  let sheet := month_sheet_name acc in
  let month_val := month_cell_value acc in
  let doi_url := if is_empty doi then [] else py "https://doi.org/" ++ doi in
  let additional := join (py ";") note_parts in
  let row := [title; month_val; py "[]"; []; []; doi_url; []; []; [];
              additional; g_first; g_last] in
  let status :=
    match acc with
    | Some _ => if is_empty doi then py "needs_review" else py "ok"
    | None => py "needs_review"
    end in
  (sheet, row,
   MkLogRow (pdf_rel p) doi
            (match acc with Some d => isoformat d | None => [] end)
            status additional).

(** One turn of the loop of [main] (moving files apart). *)
Definition process_pdf (st : Xl.workbook * list LogRow) (p : pdf_input)
    : Xl.workbook * list LogRow :=
  let '(sheet, row, lg) := workbook_row p in
  (Xl.append_row (fst st) sheet (map Some row), snd st ++ [lg]).

(** The workbook and the log [main] writes for the sorted list of PDFs. *)
Definition main (pdfs : list pdf_input) : Xl.workbook * list LogRow :=
  fold_left process_pdf pdfs (create_workbook, []).

End Main.

(** *** Reading the first pages of a PDF

    What PyPDF2 gives for a file: the pages of the reader, each with the
    outcome of its [extract_text()], or the exception of opening it. *)
Definition pdf_source : Type := outcome (list (outcome (option str))).

(** [pages[i].extract_text() or the empty string], empty on an exception. *)
Definition page_chunk (p : outcome (option str)) : str :=
  match p with
  | Returned o => or_empty o
  | Raised _ => []
  end.

(** [max_pages] is the number of pages asked for (a negative number
    asks for none). *)
Definition extract_text_pypdf2 (path : pdf_source) (max_pages : nat) : str :=
  match path with
  | Raised _ => []
  | Returned pages => join [newline] (map page_chunk (firstn max_pages pages))
  end.

(** *** The table of popular names

    What [csv.DictReader] gives for the file: the field names of its
    first line and one dictionary per following line. *)
Record csv_table : Type := CsvTable {
  fieldnames : list str;
  csv_rows : list (list (str * str))
}.

(** [(row.get(col) or the empty string).strip()] *)
Definition field (row : list (str * str)) (col : str) : str :=
  strip (or_empty (dict_get row col)).

(** One row of the wide layout. *)
Definition add_wide (male_col female_col : str) (out : list (str * str))
    (row : list (str * str)) : list (str * str) :=
  let m := field row male_col in
  let out := match m with [] => out | _ => dict_set out (lower m) (py "male") end in
  let w := field row female_col in
  match w with [] => out | _ => dict_set out (lower w) (py "female") end.

(** One row of the long layout. *)
Definition add_long (name_col gender_col : str) (out : list (str * str))
    (row : list (str * str)) : list (str * str) :=
  let nm := field row name_col in
  let gd := lower (field row gender_col) in
  match nm with
  | [] => out
  | _ =>
      if in_list gd [py "m"; py "male"; py "man"]
      then dict_set out (lower nm) (py "male")
      else if in_list gd [py "f"; py "female"; py "woman"]
      then dict_set out (lower nm) (py "female")
      else dict_set out (lower nm) (py "unknown")
  end.

(** The column of the file whose stripped, lower-cased name is the
    first candidate present. *)
Fixpoint first_column (cands fieldnames fields : list str) : option str :=
  match cands with
  | [] => None
  | cand :: cands' =>
      if in_list cand fields then Some (nth (index fields cand) fieldnames [])
      else first_column cands' fieldnames fields
  end.

(** [path] is [None] when no file is named or the file does not exist. *)
Definition load_popular_names_csv (path : option csv_table) : list (str * str) :=
  match path with
  | None => []
  | Some reader =>
      match fieldnames reader with
      | [] => []
      | _ :: _ =>
          let fields := map (fun c => lower (strip c)) (fieldnames reader) in
          if in_list (py "male") fields && in_list (py "female") fields
             && (length fields =? 2)
          then
            let male_col := nth (index fields (py "male")) (fieldnames reader) [] in
            let female_col := nth (index fields (py "female")) (fieldnames reader) [] in
            fold_left (add_wide male_col female_col) (csv_rows reader) []
          else
            match first_column [py "name"; py "firstname"; py "first_name"; py "first"]
                               (fieldnames reader) fields,
                  first_column [py "gender"; py "sex"] (fieldnames reader) fields with
            | Some name_col, Some gender_col =>
                if is_empty name_col || is_empty gender_col then []
                else fold_left (add_long name_col gender_col) (csv_rows reader) []
            | _, _ => []
            end
      end
  end.

End Sort.

(* ================================================================== *)
(** * scripts/add_affiliation_country_from_pdfs.py *)
(* ================================================================== *)

Module Affil.

Definition DOI_RE : regex := Sort.DOI_RE.

Definition ALIASES : list (str * str) :=
  [(py "usa", py "United States");
   (py "u.s.a.", py "United States");
   (py "u.s.", py "United States");
   (py "united states of america", py "United States");
   (py "uk", py "United Kingdom");
   (py "u.k.", py "United Kingdom");
   (py "england", py "United Kingdom");
   (py "scotland", py "United Kingdom");
   (py "wales", py "United Kingdom");
   (py "russia", py "Russian Federation");
   (py "south korea", py "Korea, Republic of");
   (py "north korea", py "Korea, Democratic People's Republic of");
   (py "iran", py "Iran, Islamic Republic of");
   (py "tanzania", py "Tanzania, United Republic of");
   (py "viet nam", py "Viet Nam");
   (py "czech republic", py "Czechia");
   (py "bolivia", py "Bolivia, Plurinational State of");
   (py "venezuela", py "Venezuela, Bolivarian Republic of");
   (py "moldova", py "Moldova, Republic of");
   (py "laos", py "Lao People's Democratic Republic");
   (py "syria", py "Syrian Arab Republic")].

(** An entry of [pycountry.countries]; the registry itself is data of
    that package and is a parameter of [build_country_matchers]. *)
Record country : Type := Country {
  name : str;
  official_name : option str;
  common_name : option str
}.

Definition add_country (name_map : list (str * str)) (c : country)
    : list (str * str) :=
  let m := dict_set name_map (lower (name c)) (name c) in
  let m := match official_name c with
           | Some n => dict_set m (lower n) (name c)
           | None => m
           end in
  match common_name c with
  | Some n => dict_set m (lower n) (name c)
  | None => m
  end.

(** Stable insertion by decreasing length: [k] goes after every key at
    least as long. *)
Fixpoint insert_by_len (k : str) (l : list str) : list str :=
  match l with
  | [] => [k]
  | x :: l' => if length x <? length k then k :: l else x :: insert_by_len k l'
  end.

(** [sorted(keys, key=len, reverse=True)] *)
Definition sorted_len_desc (keys : list str) : list str :=
  fold_left (fun acc k => insert_by_len k acc) keys [].

Definition build_country_matchers (countries : list country)
    : list (str * str) * list str :=
  let name_map := fold_left add_country countries [] in
  let name_map :=
    fold_left (fun m kv => dict_set m (lower (fst kv)) (snd kv)) ALIASES name_map in
  (name_map, sorted_len_desc (dict_keys name_map)).

(** The class of the structural punctuation [()[]{};]. *)
Definition PUNCT : regex := Chr (one_of (py "()[]{};")).

(** The text [infer_country] searches: lower-cased, padded with
    spaces, punctuation and whitespace runs turned into one space. *)
Definition padded (text : str) : str :=
  let t := py " " ++ strip (lower text) ++ py " " in
  let t := re_sub PUNCT [TLit (py " ")] t in
  re_sub Sort.WS_RUN [TLit (py " ")] t.

(** The first key, in list order, that occurs between spaces. *)
Fixpoint first_hit (t : str) (keys : list str) : option str :=
  match keys with
  | [] => None
  | k :: keys' =>
      if str_in (py " " ++ k ++ py " ") t then Some k else first_hit t keys'
  end.

(** [name_map[k]] cannot fail on the keys of [name_map]; a key outside
    it (a [KeyError]) is rendered as the empty answer. *)
Definition infer_country (text : str) (name_map : list (str * str))
    (keys_sorted : list str) : str :=
  match text with
  | [] => []
  | _ =>
      match first_hit (padded text) keys_sorted with
      | Some k => match dict_get name_map k with Some v => v | None => [] end
      | None => []
      end
  end.

Definition parse_doi (s : str) : str :=
  match s with
  | [] => []
  | _ =>
      match re_search DOI_RE s with
      | Some m => lower (m_text m)
      | None => []
      end
  end.

(** *** Locating the first affiliation *)

Definition MONTH_SHEETS : list str := Sort.MONTH_NAMES ++ [py "Sheet7"].

Definition NEW_COL : str := py "First author affiliation country".

(** [(?im)^\s*abstract\s*$] *)
Definition ABSTRACT_RE : pattern :=
  pcat [PBol true;
        PRe (cat [star is_space; lit_ci (py "abstract"); star is_space]);
        PEol true].

(** The class of the dot: any character but the newline. *)
Definition not_newline (c : ascii) : bool := negb (Ascii.eqb c newline).
(** [\S] *)
Definition not_space (c : ascii) : bool := negb (is_space c).

(** [^\s*(\d+|[a-z])[\)\.\:]?\s+(.*\S)\s*$], under IGNORECASE. *)
Definition AFFIL_LEAD_RE : pattern :=
  pcat [PBol false;
        PRe (star is_space);
        PGrp 1 (PAlt (PRe (plus is_digit)) (PRe (Chr is_letter)));
        PRe (cat [Opt (Chr (one_of (py ").:"))); plus is_space;
                  Grp 2 (Cat (star not_newline) (Chr not_space));
                  star is_space]);
        PEol false].

(** [(?i)\b(department|university|institute|hospital|centre|center|laboratory|lab)\b] *)
Definition MARKER_RE : pattern :=
  pcat [PRe WordB;
        PGrp 1 (palt (PRe (lit_ci (py "department")))
                  (map (fun w => PRe (lit_ci w))
                     [py "university"; py "institute"; py "hospital";
                      py "centre"; py "center"; py "laboratory"; py "lab"]));
        PRe WordB].

(** A PDF on disk: its path and what pdfminer returns for its first
    [max_pages] pages. *)
Record pdf_doc : Type := PdfDoc {
  pdf_path : str;
  pdfminer_extract_text : nat -> outcome (option str)
}.

Definition extract_first_pages_text (f : pdf_doc) (max_pages : nat) : str :=
  match pdfminer_extract_text f max_pages with
  | Returned o => or_empty o
  | Raised _ => []
  end.

Definition is_abstract_heading (ln : str) : bool :=
  match re_match ABSTRACT_RE (strip ln) with Some _ => true | None => false end.

(** The lines before the first heading. *)
Fixpoint lines_before_abstract (lines : list str) : list str :=
  match lines with
  | [] => []
  | ln :: lines' =>
      if is_abstract_heading ln then [] else ln :: lines_before_abstract lines'
  end.

Definition split_pre_abstract (text : str) : str :=
  match text with
  | [] => []
  | _ => Sort.join [newline] (lines_before_abstract (splitlines text))
  end.

Definition is_blank (s : str) : bool := match s with [] => true | _ :: _ => false end.

(** [[ln.strip() for ln in text.splitlines() if ln.strip()]] *)
Definition stripped_lines (text : str) : list str :=
  map strip (filter (fun ln => negb (is_blank (strip ln))) (splitlines text)).

Section Pick.

Variable name_map : list (str * str).
Variable keys_sorted : list str.

(** First pass: enumerated lines, by the text after the enumerator. *)
Fixpoint enumerated_pass (lines : list str) : option (str * str) :=
  match lines with
  | [] => None
  | ln :: lines' =>
      match re_match AFFIL_LEAD_RE ln with
      | None => enumerated_pass lines'
      | Some m =>
          let body := group m 2 in
          let country := infer_country body name_map keys_sorted in
          if is_blank country then enumerated_pass lines' else Some (body, country)
      end
  end.

(** Second pass: lines with an affiliation marker. *)
Fixpoint marker_pass (lines : list str) : option (str * str) :=
  match lines with
  | [] => None
  | ln :: lines' =>
      match re_search_p MARKER_RE ln with
      | Some _ =>
          let country := infer_country ln name_map keys_sorted in
          if is_blank country then marker_pass lines' else Some (ln, country)
      | None => marker_pass lines'
      end
  end.

(** Third pass: any line. *)
Fixpoint any_pass (lines : list str) : option (str * str) :=
  match lines with
  | [] => None
  | ln :: lines' =>
      let country := infer_country ln name_map keys_sorted in
      if is_blank country then any_pass lines' else Some (ln, country)
  end.

Definition pick_first_affiliation_line (pre_abstract_text : str) : str * str :=
  match pre_abstract_text with
  | [] => ([], [])
  | _ =>
      let lines := stripped_lines pre_abstract_text in
      match enumerated_pass lines with
      | Some r => r
      | None =>
          match marker_pass lines with
          | Some r => r
          | None =>
              match any_pass lines with
              | Some r => r
              | None => ([], [])
              end
          end
      end
  end.

End Pick.

(** *** The workbook column and the index of PDFs *)

(** The sheet after the call, and the column number returned. *)
Definition ensure_column (ws : Xl.sheet) (col_name : str) : Xl.sheet * nat :=
  let header := Xl.header ws in
  match Xl.index_of header col_name with
  | Some i => (ws, i + 1)
  | None =>
      let col := Xl.max_column ws + 1 in
      (Xl.set_cell ws 1 col (Some col_name), col)
  end.

(** One turn of the loop of [index_pdfs_by_doi]. *)
Definition index_pdf (max_pages_for_doi : nat) (doi_to_pdf : list (str * pdf_doc))
    (f : pdf_doc) : list (str * pdf_doc) :=
  let text := extract_first_pages_text f max_pages_for_doi in
  let doi := parse_doi text in
  match doi with
  | [] => doi_to_pdf
  | _ =>
      match dict_get doi_to_pdf doi with
      | Some _ => doi_to_pdf
      | None => dict_set doi_to_pdf doi f
      end
  end.

(** [pdfs] are the PDF files under the year folder, in sorted order. *)
Definition index_pdfs_by_doi (pdfs : list pdf_doc) (max_pages_for_doi : nat)
    : list (str * pdf_doc) :=
  fold_left (index_pdf max_pages_for_doi) pdfs [].

(** *** The update of the workbook *)

Record log_row : Type := MkLog {
  log_sheet : str;
  log_row_number : nat;
  log_doi : str;
  log_pdf_path : str;
  log_country : str;
  log_status : str
}.

Definition data_rows (ws : Xl.sheet) : list nat := seq 2 (Xl.max_row ws - 1).

Section Main.

Variable name_map : list (str * str).
Variable keys_sorted : list str.
Variable doi_to_pdf : list (str * pdf_doc).
Variable max_pages_affil : nat.

(** One data row of a month sheet. *)
Definition process_row (sheet_name : str) (link_col out_col : nat)
    (st : Xl.sheet * list log_row) (r : nat) : Xl.sheet * list log_row :=
  let ws := fst st in
  let doi := parse_doi (or_empty (Xl.cell_value ws r link_col)) in
  match doi with
  | [] => st
  | _ =>
      match dict_get doi_to_pdf doi with
      | None =>
          (ws, snd st ++ [MkLog sheet_name r doi [] [] (py "pdf_not_found_for_doi")])
      | Some f =>
          let text := extract_first_pages_text f max_pages_affil in
          let pre_abs := split_pre_abstract text in
          let '(_, country) := pick_first_affiliation_line name_map keys_sorted pre_abs in
          match country with
          | [] =>
              (Xl.set_cell ws r out_col (Some []),
               snd st ++ [MkLog sheet_name r doi (pdf_path f) []
                                (py "country_not_found_in_pdf_text")])
          | _ =>
              (Xl.set_cell ws r out_col (Some country),
               snd st ++ [MkLog sheet_name r doi (pdf_path f) country (py "ok")])
          end
      end
  end.

(** One sheet name of [MONTH_SHEETS]. *)
Definition process_sheet (st : Xl.workbook * list log_row) (sheet_name : str)
    : Xl.workbook * list log_row :=
  match Xl.get_sheet (fst st) sheet_name with
  | None => st
  | Some ws =>
      match Xl.index_of (Xl.header ws) (py "Link") with
      | None => st
      | Some i =>
          let link_col := i + 1 in
          let '(ws1, out_col) := ensure_column ws NEW_COL in
          let '(ws2, rows) :=
            fold_left (process_row sheet_name link_col out_col) (data_rows ws1)
                      (ws1, []) in
          (Xl.set_sheet (fst st) ws2, snd st ++ rows)
      end
  end.

(** The workbook saved and the log written by [main]. *)
Definition main (wb : Xl.workbook) : Xl.workbook * list log_row :=
  fold_left process_sheet MONTH_SHEETS (wb, []).

End Main.

End Affil.

(* ================================================================== *)
(** * scripts/scan_keywords_update_workbook.py *)
(* ================================================================== *)

Module Scan.

Definition MONTH_NAMES : list str := Sort.MONTH_NAMES.

Definition SEARCH_TERMS : list str :=
  [py "open source"; py "open-source"; py "opensource"; py "open science";
   py "github"; py " git "; py "osf"; py "jupyter"; py "notebook";
   py "octave"; py "available online"; py "released"; py "shared";
   py " code "].

Definition DOI_RE : regex := Sort.DOI_RE.

(** A page of a PDF, as the two PyPDF2 calls see it: each returns an
    optional text or raises. *)
Record page : Type := Page {
  extractText : outcome (option str);
  extract_text : outcome (option str)
}.

(** A PDF in a month folder: [pdf.stem], [pdf.suffix], and the pages the
    reader yields, or the exception of opening it. *)
Record pdf_file : Type := PdfFile {
  stem : str;
  suffix : str;
  pages : outcome (list page)
}.

(** [pdf.name] *)
Definition pdf_name (f : pdf_file) : str := stem f ++ suffix f.

(** The page text of the keyword scan: [extractText()], and on an
    exception [extract_text()], and on another one the empty text. *)
Definition scan_text (p : page) : str :=
  match extractText p with
  | Returned o => or_empty o
  | Raised _ =>
      match extract_text p with
      | Returned o => or_empty o
      | Raised _ => []
      end
  end.

Section KeywordScan.

(** [re.search(keyword, text) is not None]: a term is compiled as a
    pattern, which raises [re.error] on a malformed one. *)
Variable re_compile : str -> outcome (str -> bool).

(** The inner loop: pages in order up to the first hit.  The second
    component lists the indices of the pages whose text was searched. *)
Fixpoint scan_pages (matches : str -> bool) (ps : list page) (i : nat)
    : bool * list nat :=
  match ps with
  | [] => (false, [])
  | p :: ps' =>
      if matches (scan_text p) then (true, [i])
      else let '(hit, probed) := scan_pages matches ps' (S i) in
           (hit, i :: probed)
  end.

Definition mem (k : str) (seen : list str) : bool := existsb (str_eqb k) seen.

(** The outer loop, with the [found] list, the [seen] set and the log
    of searches (term, page index). *)
Fixpoint scan_terms (terms : list str) (ps : list page)
    (found seen : list str) (probes : list (str * nat))
    : outcome (list str * list (str * nat)) :=
  match terms with
  | [] => Returned (found, probes)
  | keyword :: terms' =>
      if mem keyword seen then scan_terms terms' ps found seen probes
      else
        match ps with
        | [] => scan_terms terms' ps found seen probes
        | _ :: _ =>
            match re_compile keyword with
            | Raised e => Raised e
            | Returned matches =>
                let '(hit, probed) := scan_pages matches ps 0 in
                let probes' := probes ++ map (fun i => (keyword, i)) probed in
                if hit
                then scan_terms terms' ps (found ++ [keyword]) (keyword :: seen) probes'
                else scan_terms terms' ps found seen probes'
            end
        end
  end.

(** The scan of one opened document. *)
Definition scan_document (ps : list page) (search_terms : list str)
    : outcome (list str * list (str * nat)) :=
  scan_terms search_terms ps [] [] [].

Definition notebook_style_keyword_scan (f : pdf_file) (search_terms : list str)
    : outcome (list str) :=
  match pages f with
  | Raised e => Raised e
  | Returned ps =>
      match scan_document ps search_terms with
      | Raised e => Raised e
      | Returned (found, _) => Returned found
      end
  end.

End KeywordScan.

Definition parse_doi_from_link (link : str) : str :=
  match link with
  | [] => []
  | _ =>
      match re_search DOI_RE link with
      | Some m => lower (m_text m)
      | None => []
      end
  end.

(** The data rows of a sheet with their row numbers, from row 2 on. *)
Definition data_rows (ws : Xl.sheet) : list nat :=
  seq 2 (Xl.max_row ws - 1).

Definition build_workbook_index (wb : Xl.workbook)
    : list (str * list (str * nat)) :=
  fold_left
    (fun out ws =>
       let header := Xl.header ws in
       match Xl.index_of header (py "Link") with
       | Some i =>
           if Xl.has_column header (py "Filename")
              && Xl.has_column header (py "Keywords Matched")
           then
             let link_col := i + 1 in
             dict_set out (Xl.sheet_name ws)
               (map (fun r =>
                       (parse_doi_from_link (or_empty (Xl.cell_value ws r link_col)), r))
                    (data_rows ws))
           else out
       | None => out
       end)
    wb [].

(** The text the DOI lookup of the update loop reads of a page. *)
Definition doi_text (p : page) : str :=
  match extract_text p with
  | Returned o => or_empty o
  | Raised _ => []
  end.

Fixpoint first_doi (ps : list page) : str :=
  match ps with
  | [] => []
  | p :: ps' =>
      match re_search DOI_RE (doi_text p) with
      | Some m => lower (m_text m)
      | None => first_doi ps'
      end
  end.

(** [doi_in_pdf]: the first DOI of the first two pages. *)
Definition doi_in_pdf (f : pdf_file) : str :=
  match pages f with
  | Returned ps => first_doi (firstn 2 ps)
  | Raised _ => []
  end.

Definition nonempty (s : str) : bool := match s with [] => false | _ => true end.

Fixpoint find_row (doi_pdf : str) (rows : list (str * nat)) : option nat :=
  match rows with
  | [] => None
  | (doi, r) :: rows' =>
      if nonempty doi && str_eqb doi doi_pdf then Some r else find_row doi_pdf rows'
  end.

(** The row with the same DOI: sheets in index order, rows in order. *)
Fixpoint match_by_doi (index : list (str * list (str * nat))) (doi_pdf : str)
    : option (str * nat) :=
  match index with
  | [] => None
  | (sheet, rows) :: index' =>
      match find_row doi_pdf rows with
      | Some r => Some (sheet, r)
      | None => match_by_doi index' doi_pdf
      end
  end.

(** The test of the title heuristic on one title. *)
Definition title_matches (f : pdf_file) (title : str) : bool :=
  nonempty title
  && (str_in (lower title) (lower (pdf_name f))
      || str_in (lower (stem f)) (lower title)).

Fixpoint find_title_row (ws : Xl.sheet) (fn_col : nat) (f : pdf_file)
    (rows : list nat) : option nat :=
  match rows with
  | [] => None
  | r :: rows' =>
      if title_matches f (or_empty (Xl.cell_value ws r fn_col)) then Some r
      else find_title_row ws fn_col f rows'
  end.

(** The title heuristic, in the sheet of the month folder only;
    [Raised] is the [ValueError] of a sheet without a Filename column. *)
Definition match_by_title (wb : Xl.workbook) (month : str) (f : pdf_file)
    : outcome (option (str * nat)) :=
  match Xl.get_sheet wb month with
  | None => Returned None
  | Some ws =>
      match Xl.index_of (Xl.header ws) (py "Filename") with
      | None => Raised (py "ValueError")
      | Some i =>
          match find_title_row ws (i + 1) f (data_rows ws) with
          | Some r => Returned (Some (month, r))
          | None => Returned None
          end
      end
  end.

(** The row a document is matched to. *)
Definition match_row (wb : Xl.workbook) (index : list (str * list (str * nat)))
    (month : str) (f : pdf_file) : outcome (option (str * nat)) :=
  let doi := doi_in_pdf f in
  let by_doi := if nonempty doi then match_by_doi index doi else None in
  match by_doi with
  | Some hit => Returned (Some hit)
  | None => match_by_title wb month f
  end.

(** [str(kws)] for terms without quotes or escapes. *)
Definition repr_list (kws : list str) : str :=
  py "[" ++ Sort.join (py ", ") (map (fun k => py "'" ++ k ++ py "'") kws) ++ py "]".

(** A row of the log: month folder, file, keywords, status, DOI. *)
Definition log_row := list str.

Definition log_status (row : log_row) : str := nth 3 row [].

Section Update.

Variable re_compile : str -> outcome (str -> bool).

(** One turn of the loop over the PDFs of a month folder: the workbook
    and the log row after it. *)
Definition update_pdf (wb : Xl.workbook) (index : list (str * list (str * nat)))
    (month : str) (f : pdf_file) : outcome (Xl.workbook * log_row) :=
  match notebook_style_keyword_scan re_compile f SEARCH_TERMS with
  | Raised e => Returned (wb, [month; pdf_name f; []; py "scan_failed"; e])
  | Returned [] => Returned (wb, [month; pdf_name f; []; py "no_keywords"; []])
  | Returned kws =>
      let doi := doi_in_pdf f in
      match match_row wb index month f with
      | Raised e => Raised e
      | Returned None =>
          Returned (wb, [month; pdf_name f; repr_list kws; py "no_match_in_xlsx"; doi])
      | Returned (Some (matched_sheet, matched_row)) =>
          match Xl.get_sheet wb matched_sheet with
          | None => Raised (py "KeyError")
          | Some ws =>
              match Xl.index_of (Xl.header ws) (py "Keywords Matched") with
              | None => Raised (py "ValueError")
              | Some i =>
                  Returned
                    (Xl.set_sheet wb
                       (Xl.set_cell ws matched_row (i + 1) (Some (repr_list kws))),
                     [month; pdf_name f; repr_list kws;
                      py "updated:" ++ matched_sheet ++ py "!"
                        ++ str_of_N (N.of_nat matched_row);
                      doi])
              end
          end
      end
  end.

(** The PDFs of one month folder, in sorted order. *)
Fixpoint update_month (index : list (str * list (str * nat))) (month : str)
    (pdfs : list pdf_file) (st : Xl.workbook * list log_row)
    : outcome (Xl.workbook * list log_row) :=
  match pdfs with
  | [] => Returned st
  | f :: pdfs' =>
      match update_pdf (fst st) index month f with
      | Raised e => Raised e
      | Returned (wb', row) => update_month index month pdfs' (wb', snd st ++ [row])
      end
  end.

Fixpoint update_months (index : list (str * list (str * nat)))
    (year_folder : str -> option (list pdf_file)) (months : list str)
    (st : Xl.workbook * list log_row) : outcome (Xl.workbook * list log_row) :=
  match months with
  | [] => Returned st
  | month :: months' =>
      match year_folder month with
      | None => update_months index year_folder months' st
      | Some pdfs =>
          match update_month index month pdfs st with
          | Raised e => Raised e
          | Returned st' => update_months index year_folder months' st'
          end
      end
  end.

(** The workbook and the log after the whole run; [year_folder] gives
    the sorted PDFs of each month folder that exists.  The index is
    built once, before any update. *)
Definition update_keywords_in_workbook (wb : Xl.workbook)
    (year_folder : str -> option (list pdf_file))
    : outcome (Xl.workbook * list log_row) :=
  update_months (build_workbook_index wb) year_folder MONTH_NAMES (wb, []).

End Update.

(** Whether the DOI occurs, whatever the case, in one of the first
    [max_pages] pages. *)
Definition pdf_contains_doi (f : pdf_file) (doi : str) (max_pages : nat) : bool :=
  match doi with
  | [] => false
  | _ =>
      match pages f with
      | Raised _ => false
      | Returned ps =>
          existsb (fun p => str_in (lower doi) (lower (doi_text p)))
                  (firstn max_pages ps)
      end
  end.

End Scan.

(* ================================================================== *)
(** * Vocabulary of the statements *)
(* ================================================================== *)

(** ** Gender inference *)

Definition genders : list str := [py "male"; py "female"; py "unknown"].

(** The curated table answers for a key when it maps it to one of the
    two genders. *)
Definition curated_answer (popular_map : list (str * str)) (key : str) : option str :=
  match dict_get popular_map key with
  | Some v => if Sort.is_male_or_female v then Some v else None
  | None => None
  end.

(** The detector is conclusive on the four categories the code maps. *)
Definition detector_conclusive (gg : str) : bool :=
  Sort.is_male_or_female gg || str_eqb gg (py "mostly_male")
  || str_eqb gg (py "mostly_female").

(** ** Enumerations and date fields *)

(** The numbers below a bound, for checks by enumeration. *)
Definition upto (n : N) : list N := map N.of_nat (seq 0 (N.to_nat n)).

(** A year between 0 and 9999 is written with four digits that read
    back as the year. *)
Definition year_field_ok (y : N) : bool :=
  (length (zero_pad 4 y) =? 4) && (int_of (zero_pad 4 y) =? y)%N
  && forallb is_digit (zero_pad 4 y).

(** The same for the two digits of a month, together with the name of
    its sheet, which the month table of the parser reads back. *)
Definition month_field_ok (m : N) : bool :=
  (length (zero_pad 2 m) =? 2) && (int_of (zero_pad 2 m) =? m)%N
  && forallb is_digit (zero_pad 2 m)
  && match Sort.month_of_name (nth (N.to_nat m - 1) Sort.MONTH_NAMES []) with
     | Some i => (i =? m)%N
     | None => false
     end
  && existsb (str_eqb (nth (N.to_nat m - 1) Sort.MONTH_NAMES [])) Sort.MONTH_NAMES.

(** ** The keyword scan *)

(** Duplicates removed, first occurrences kept. *)
Fixpoint keep_first (l : list str) : list str :=
  match l with
  | [] => []
  | x :: l' => x :: filter (fun y => negb (str_eqb y x)) (keep_first l')
  end.

(** The index of the first page whose scan text satisfies [f]. *)
Fixpoint first_index (f : str -> bool) (ps : list Scan.page) : option nat :=
  match ps with
  | [] => None
  | p :: ps' =>
      if f (Scan.scan_text p) then Some 0
      else option_map S (first_index f ps')
  end.

Definition blank_page : Scan.page := Scan.Page (Returned None) (Returned None).

Definition page_at (ps : list Scan.page) (i : nat) : str :=
  Scan.scan_text (nth i ps blank_page).

Definition probes_of (kw : str) (probes : list (str * nat)) : list (str * nat) :=
  filter (fun pr => str_eqb (fst pr) kw) probes.

(** A term hits a document when it compiles and some page matches. *)
Definition term_hits (re_compile : str -> outcome (str -> bool))
    (ps : list Scan.page) (kw : str) : bool :=
  match re_compile kw with
  | Returned f => existsb (fun p => f (Scan.scan_text p)) ps
  | Raised _ => false
  end.

(** What the loop maintains: [seen] holds the terms found; a searched
    page is never after a matching one; a found term was searched once,
    on the pages up to its first match; a term searched without being
    found matches no page. *)
Record scan_inv (re_compile : str -> outcome (str -> bool))
    (ps : list Scan.page) (found seen : list str)
    (probes : list (str * nat)) : Prop := ScanInv {
  inv_seen : forall k, In k seen <-> In k found;
  inv_order : forall k i f, In (k, i) probes -> re_compile k = Returned f ->
                i < length ps /\ forall j, j < i -> f (page_at ps j) = false;
  inv_found : forall k, In k found ->
                exists f i, re_compile k = Returned f
                  /\ first_index f ps = Some i
                  /\ probes_of k probes = map (fun j => (k, j)) (seq 0 (S i));
  inv_missed : forall k i, ~ In k found -> In (k, i) probes -> term_hits re_compile ps k = false
}.

(** ** The country lexicon *)

(** A key occurs in a padded text when it stands between two spaces. *)
Definition occurs (k t : str) : bool := str_in (py " " ++ k ++ py " ") t.

(** Keys by decreasing length. *)
Definition longer_first (a b : str) : Prop := length b <= length a.

(** ** Row matching, and the documents of the examples *)

(** [a] is a block of [b]. *)
Definition substring (a b : str) : Prop := exists pre post, b = pre ++ a ++ post.

(** The title heuristic in words: a non-empty title that, case apart,
    is a block of the file name, or has the file stem as a block. *)
Definition title_contained (f : Scan.pdf_file) (title : str) : Prop :=
  title <> []
  /\ (substring (lower title) (lower (Scan.pdf_name f))
      \/ substring (lower (Scan.stem f)) (lower title)).

(** The title cell of a data row. *)
Definition title_at (ws : Xl.sheet) (fn_col r : nat) : str :=
  or_empty (Xl.cell_value ws r fn_col).

(** [re.search] in the examples: a term without metacharacters is
    searched as a block of the text.  The one term with a
    metacharacter that the examples use is [git(], a group left open,
    on which [re.search] raises [re.error]; the instance gives that
    answer for every term with a metacharacter. *)
Definition compile_plain (kw : str) : outcome (str -> bool) :=
  if existsb (one_of (py ".^$*+?{}[]\|()")) kw
  then Raised (py "re.error")
  else Returned (str_in kw).

(** A page as PyPDF2 3 gives it: [extractText] raises, [extract_text]
    returns the text. *)
Definition text_page (s : str) : Scan.page :=
  Scan.Page (Raised (py "DeprecationError")) (Returned (Some s)).

(** A data row under the header of [Sort.COLUMNS], as the builder
    writes it. *)
Definition osf_row (title link : str) : list Xl.cell :=
  map Some [title; []; py "[]"; []; []; link; []; []; []; []; py "unknown"; py "unknown"].

Definition osf_sheet (name : str) (rows : list (list Xl.cell)) : Xl.sheet :=
  Xl.Sheet name (map Some Sort.COLUMNS :: rows).

(** Two rows with the same identifier. *)
Definition wb_dup : Xl.workbook :=
  [osf_sheet (py "January")
     [osf_row (py "Paper A") (py "https://doi.org/10.1002/mrm.1");
      osf_row (py "Paper B") (py "https://doi.org/10.1002/mrm.1")]].

Definition doc_mrm1 : Scan.pdf_file :=
  Scan.PdfFile (py "paper") (py ".pdf")
    (Returned [text_page (py "Magn Reson Med. DOI: 10.1002/mrm.1 Code is on github.")]).

(** A row titled Smith 2024, and a file smith2024.pdf without identifier. *)
Definition wb_smith : Xl.workbook :=
  [osf_sheet (py "January") [osf_row (py "Smith 2024") []];
   osf_sheet (py "February") [osf_row (py "smith2024") []]].

Definition doc_smith : Scan.pdf_file :=
  Scan.PdfFile (py "smith2024") (py ".pdf")
    (Returned [text_page (py "The code is shared on github.")]).

(** The workbook of the examples with one more sheet, created and left
    empty: its first row holds no value. *)
Definition wb_blank_march : Xl.workbook :=
  Xl.create_sheet wb_smith (py "March").

(** ** The text normalizer *)

(** Every character, for facts on the character classes by enumeration. *)
Definition all_chars : list ascii := map ascii_of_nat (seq 0 256).

Definition for_all_chars (f : ascii -> bool) : bool := forallb f all_chars.

(** Whitespace runs replaced by one space; [in_run] says that the
    previous character was whitespace. *)
Fixpoint squeeze (in_run : bool) (s : str) : str :=
  match s with
  | [] => []
  | c :: s' =>
      if is_space c
      then if in_run then squeeze true s' else " "%char :: squeeze true s'
      else c :: squeeze false s'
  end.

(** A space put between each [p] character and the [q] character that
    follows it. *)
Fixpoint space_between (p q : ascii -> bool) (s : str) : str :=
  match s with
  | [] => []
  | a :: s' =>
      match s' with
      | b :: s'' =>
          if p a && q b
          then a :: " "%char :: b :: space_between p q s''
          else a :: space_between p q s'
      | [] => [a]
      end
  end.

(** [R] holds of each pair of neighbours. *)
Fixpoint chain (R : ascii -> ascii -> bool) (s : str) : bool :=
  match s with
  | a :: s' =>
      match s' with
      | b :: _ => R a b && chain R s'
      | [] => true
      end
  | [] => true
  end.

Definition plain_space (c : ascii) : bool := negb (is_space c) || is_char " " c.
Definition no_space_pair (a b : ascii) : bool := negb (is_space a && is_space b).
Definition no_digit_letter (a b : ascii) : bool := negb (is_digit a && is_letter b).
Definition no_letter_digit (a b : ascii) : bool := negb (is_letter a && is_digit b).

(** Normalized text: the only whitespace is the space, never doubled,
    never at an end, and no digit touches a letter. *)
Definition tidy (s : str) : bool :=
  forallb plain_space s
  && chain no_space_pair s && chain no_digit_letter s && chain no_letter_digit s
  && negb (head_is is_space s) && negb (head_is is_space (rev s)).

Definition PAIR (p q : ascii -> bool) : regex :=
  Cat (Grp 1 (Chr p)) (Grp 2 (Chr q)).

(** ** Identifiers *)

(** The text up to its last word character. *)
Fixpoint rtrim_word (s : str) : str :=
  match s with
  | [] => []
  | c :: s' =>
      match rtrim_word s' with
      | [] => if is_word c then [c] else []
      | t => c :: t
      end
  end.

(** The identifier that starts at the cursor, read directly: a word
    boundary, the text 10., the digits that follow (four to nine of
    them), a slash, and the characters allowed in a DOI up to the last
    word character among them. *)
Definition doi_token_at (before rest : str) : option str :=
  if boundary before rest && starts_with (py "10.") rest then
    let r1 := skipn 3 rest in
    let ds := takewhile is_digit r1 in
    let r2 := dropwhile is_digit r1 in
    if (4 <=? length ds) && (length ds <=? 9) && head_is (is_char "/") r2 then
      match rtrim_word (takewhile Sort.doi_body (tl r2)) with
      | [] => None
      | body => Some (py "10." ++ ds ++ py "/" ++ body)
      end
    else None
  else None.

(** The leftmost position where [f] answers, and its answer. *)
Fixpoint scan_left {A : Type} (f : str -> str -> option A)
    (before rest : str) : option (nat * A) :=
  match f before rest with
  | Some x => Some (length before, x)
  | None =>
      match rest with
      | c :: rest' => scan_left f (c :: before) rest'
      | [] => None
      end
  end.

(** The identifier extractor in words: the leftmost identifier, lower
    case; the empty text when there is none. *)
Definition leftmost_doi (s : str) : str :=
  match scan_left doi_token_at [] s with
  | Some (_, tok) => lower tok
  | None => []
  end.

(** The grammar of an identifier as the specification words it: 10.,
    four to nine digits, a slash, one or more allowed characters. *)
Definition doi_grammar (tok : str) : Prop :=
  exists ds body,
    tok = py "10." ++ ds ++ py "/" ++ body
    /\ 4 <= length ds <= 9 /\ forallb is_digit ds = true
    /\ body <> [] /\ forallb Sort.doi_body body = true.

(** ** Accepted dates *)

(** How a pattern lays out a date in its groups: the numbers of the
    year, month and day groups, and whether the month is a name. *)
Record layout : Type := Layout {
  year_group : nat;
  month_group : nat;
  day_group : nat;
  month_by_name : bool
}.

(** The year, month and day a match is read as; nothing when the
    month name is not in the table. *)
Definition read_fields (l : layout) (m : rmatch) : option (N * N * N) :=
  let mon := if month_by_name l
             then Sort.month_of_name (group m (month_group l))
             else Some (int_of (group m (month_group l))) in
  match mon with
  | Some mo => Some (int_of (group m (year_group l)), mo, int_of (group m (day_group l)))
  | None => None
  end.

(** The four Accepted patterns in the order the parser tries them. *)
Definition accepted_patterns : list (regex * layout) :=
  [(Sort.ACC_DMY, Layout 3 2 1 true);
   (Sort.ACC_MDY, Layout 3 1 2 true);
   (Sort.ACC_YMD_DASH, Layout 1 2 3 false);
   (Sort.ACC_DMY_SLASH, Layout 3 2 1 false)].

(** The reading of the first pattern that matches and resolves. *)
Fixpoint first_reading (ps : list (regex * layout)) (t : str) : option (N * N * N) :=
  match ps with
  | [] => None
  | (r, l) :: ps' =>
      match re_search r t with
      | Some m =>
          match read_fields l m with
          | Some ymd => Some ymd
          | None => first_reading ps' t
          end
      | None => first_reading ps' t
      end
  end.

(** ** Patterns that do not tell digits apart *)

(** Two characters are alike when they are equal or both digits. *)
Definition alike (c c' : ascii) : Prop :=
  c = c' \/ (is_digit c = true /\ is_digit c' = true).

(** A class that does not tell one digit from another. *)
Definition digit_blind (p : ascii -> bool) : Prop :=
  forall c c', alike c c' -> p c = p c'.

Fixpoint pattern_digit_blind (r : regex) : Prop :=
  match r with
  | Eps | WordB => True
  | Chr p => digit_blind p
  | Cat r1 r2 => pattern_digit_blind r1 /\ pattern_digit_blind r2
  | Rep p _ _ => digit_blind p
  | Opt r1 => pattern_digit_blind r1
  | Grp _ r1 => pattern_digit_blind r1
  end.

(** Texts alike character by character. *)
Definition alike_text : str -> str -> Prop := Forall2 alike.

Definition alike_state (st st' : mstate) : Prop :=
  alike_text (consumed st) (consumed st')
  /\ alike_text (remaining st) (remaining st')
  /\ spans st = spans st'.

(** The check, by enumeration, that a class gives every digit the
    answer it gives to 0. *)
Definition same_on_digits (p : ascii -> bool) : bool :=
  for_all_chars (fun c => negb (is_digit c) || Bool.eqb (p c) (p "0"%char)).

(** ** Accepted phrases *)

Inductive date_form : Type :=
| DayMonthYear          (* 2 April 2025 *)
| MonthDayYear          (* April 2, 2025 *)
| YearMonthDay          (* 2025-04-02 *)
| DaySlashMonthYear     (* 02/04/2025 *).

Definition form_index (f : date_form) : nat :=
  match f with
  | DayMonthYear => 0
  | MonthDayYear => 1
  | YearMonthDay => 2
  | DaySlashMonthYear => 3
  end.

Definition month_name (m : N) : str := nth (N.to_nat m - 1) Sort.MONTH_NAMES [].

(** The word Accepted, the optional colon and a space. *)
Definition accepted_head (colon : bool) : str :=
  py "Accepted" ++ (if colon then py ":" else []) ++ py " ".

(** The phrase before and after the four digits of the year. *)
Definition phrase_parts (colon : bool) (f : date_form) (m d : N) : str * str :=
  match f with
  | DayMonthYear =>
      (accepted_head colon ++ str_of_N d ++ py " " ++ month_name m ++ py " ", [])
  | MonthDayYear =>
      (accepted_head colon ++ month_name m ++ py " " ++ str_of_N d ++ py ", ", [])
  | YearMonthDay =>
      (accepted_head colon, py "-" ++ zero_pad 2 m ++ py "-" ++ zero_pad 2 d)
  | DaySlashMonthYear =>
      (accepted_head colon ++ zero_pad 2 d ++ py "/" ++ zero_pad 2 m ++ py "/", [])
  end.

Definition accepted_phrase (colon : bool) (f : date_form) (y m d : N) : str :=
  fst (phrase_parts colon f m d) ++ zero_pad 4 y ++ snd (phrase_parts colon f m d).

(** Checks on the phrase with the year 0000: where the year group
    lies, that the other groups lie beside it, and what they read. *)
Definition is_year_span (n : nat) (sp : nat * nat) : bool :=
  (fst sp =? n) && (snd sp =? n + 4).

Definition beside_year (n : nat) (sp : nat * nat) : bool :=
  (fst sp <=? snd sp) && ((snd sp <=? n) || (n + 4 <=? fst sp)).

Definition check_groups (l : layout) (sp : list (nat * (nat * nat)))
    (t0 : str) (n : nat) (m d : N) : bool :=
  match assoc_nat (year_group l) sp, assoc_nat (month_group l) sp,
        assoc_nat (day_group l) sp with
  | Some sy, Some sm, Some sd =>
      is_year_span n sy && beside_year n sm && beside_year n sd
      && match (if month_by_name l
                then Sort.month_of_name (slice (fst sm) (snd sm) t0)
                else Some (int_of (slice (fst sm) (snd sm) t0))) with
         | Some mo => (mo =? m)%N
         | None => false
         end
      && (int_of (slice (fst sd) (snd sd) t0) =? d)%N
  | _, _, _ => false
  end.

Fixpoint check_chain (ps : list (regex * layout)) (j : nat) (t0 : str)
    (n : nat) (m d : N) : bool :=
  match ps with
  | [] => false
  | (r, l) :: ps' =>
      match j, search_from r [] t0 with
      | O, Some (_, (_, sp)) => check_groups l sp t0 n m d
      | S j', None => check_chain ps' j' t0 n m d
      | _, _ => false
      end
  end.

Definition all_forms : list date_form :=
  [DayMonthYear; MonthDayYear; YearMonthDay; DaySlashMonthYear].

(** ** Inputs of the worked instances *)

(** A detector that knows no name, an oracle that is unreachable, a
    bibliographic service that answers nothing. *)
Definition det_none (_ : str) : str := py "unknown".
Definition oracle_down (_ : str) : outcome (list (option str)) :=
  Raised (py "ConnectionError").
Definition crossref_none (_ : str) : str * str * str := ([], [], []).

Definition popular_sample : list (str * str) :=
  [(py "kahina", py "female"); (py "john", py "male")].

(** A two-page document: github on both pages, osf on the second. *)
Definition two_pages : list Scan.page :=
  [text_page (py "Code: github.com/lab/recon");
   text_page (py "Data on osf.io, code on github")].

(** A few entries of the country registry. *)
Definition sample_registry : list Affil.country :=
  [Affil.Country (py "Canada") None None;
   Affil.Country (py "Korea, Republic of") None (Some (py "South Korea"));
   Affil.Country (py "Korea, Democratic People's Republic of") None
                 (Some (py "North Korea"));
   Affil.Country (py "United States") (Some (py "United States of America")) None].

(** PDFs with and without an Accepted line. *)
Definition pdf_april : Sort.pdf_input :=
  Sort.PdfInput (py "a.pdf")
    (py "Received: 1 March 2025 Accepted: 2 April 2025 DOI: 10.1002/mrm.30001").
Definition pdf_undated : Sort.pdf_input :=
  Sort.PdfInput (py "b.pdf") (py "DOI: 10.1002/mrm.30002 INTRODUCTION").

(** ** The link the builder writes *)

(** The Link cell for an identifier, as [main] of the builder writes it. *)
Definition doi_url (doi : str) : str := py "https://doi.org/" ++ doi.

(** ** The index of the keyword scanner *)

(** The sheets the index covers: those with the three columns. *)
Definition indexed (ws : Xl.sheet) : bool :=
  match Xl.index_of (Xl.header ws) (py "Link") with
  | Some _ =>
      Xl.has_column (Xl.header ws) (py "Filename")
      && Xl.has_column (Xl.header ws) (py "Keywords Matched")
  | None => false
  end.

(** The text of the Link cell of row [r]. *)
Definition link_at (ws : Xl.sheet) (r : nat) : str :=
  match Xl.index_of (Xl.header ws) (py "Link") with
  | Some i => or_empty (Xl.cell_value ws r (i + 1))
  | None => []
  end.

Definition index_entry (ws : Xl.sheet) : str * list (str * nat) :=
  (Xl.sheet_name ws,
   map (fun r => (Scan.parse_doi_from_link (link_at ws r), r)) (Scan.data_rows ws)).

(** ** The workbook of the builder, sheet by sheet *)

Definition sheet_names : list str := Sort.MONTH_NAMES ++ [py "Sheet7"].

(** The rows sent to the sheet [name] while the builder goes through
    [pdfs], in order. *)
Definition rows_sent (row_of : Sort.pdf_input -> str * list str * Sort.LogRow)
    (pdfs : list Sort.pdf_input) (name : str) : list (list Xl.cell) :=
  map (fun p => map Some (snd (fst (row_of p))))
      (filter (fun p => str_eqb (fst (fst (row_of p))) name) pdfs).

(** The number of rows below the headers, over all sheets. *)
Definition data_row_count (wb : Xl.workbook) : nat :=
  list_sum (map (fun ws => Xl.max_row ws - 1) wb).

(** The Link cell of the row the builder writes for a text. *)
Definition link_cell (text : str) : str :=
  if Sort.is_empty (Sort.parse_doi text) then [] else doi_url (Sort.parse_doi text).

(** ** The index of PDFs by identifier *)

(** The identifier read in the first [n] pages of a PDF. *)
Definition doi_of_pdf (n : nat) (f : Affil.pdf_doc) : str :=
  Affil.parse_doi (Affil.extract_first_pages_text f n).

(** ** Keys the country lookup can find *)

(** The structural punctuation [infer_country] turns into spaces. *)
Definition structural (c : ascii) : bool := one_of (py "()[]{};") c.

(** A key without structural punctuation. *)
Definition plain_key (k : str) : bool := forallb (fun c => negb (structural c)) k.

(** ** The lines before the abstract *)

(** A line that reads Abstract and nothing else, case and surrounding
    whitespace apart. *)
Definition reads_abstract (ln : str) : bool :=
  str_eqb (lower (strip ln)) (py "abstract").

(** The lines up to the first one that satisfies [stop]. *)
Fixpoint take_until (stop : str -> bool) (lines : list str) : list str :=
  match lines with
  | [] => []
  | ln :: lines' => if stop ln then [] else ln :: take_until stop lines'
  end.

(** The rest of [s] after a prefix that is [w] up to case. *)
Fixpoint ci_prefix (w s : str) : option str :=
  match w, s with
  | [], _ => Some s
  | x :: w', c :: s' =>
      if Ascii.eqb (lower_char c) (lower_char x) then ci_prefix w' s' else None
  | _ :: _, [] => None
  end.

Definition no_linebreak (s : str) : bool := forallb (fun c => negb (is_linebreak c)) s.

Definition not_blank (ln : str) : bool := negb (Affil.is_blank (strip ln)).

(** ** The run of the affiliation script, row by row *)

(** What the run finds for the data row [r] of a sheet: nothing when
    the Link cell has no identifier or no PDF has that identifier, and
    otherwise the country picked in the PDF (possibly the empty text). *)
Definition country_found (name_map : list (str * str)) (keys_sorted : list str)
    (doi_to_pdf : list (str * Affil.pdf_doc)) (max_pages_affil : nat)
    (ws : Xl.sheet) (link_col r : nat) : option str :=
  match Affil.parse_doi (or_empty (Xl.cell_value ws r link_col)) with
  | [] => None
  | c :: d =>
      match dict_get doi_to_pdf (c :: d) with
      | None => None
      | Some f =>
          Some (snd (Affil.pick_first_affiliation_line name_map keys_sorted
                       (Affil.split_pre_abstract
                          (Affil.extract_first_pages_text f max_pages_affil))))
      end
  end.

(** The sheet after the turn of the loop for row [r]. *)
Definition write_row (name_map : list (str * str)) (keys_sorted : list str)
    (doi_to_pdf : list (str * Affil.pdf_doc)) (max_pages_affil : nat)
    (link_col out_col : nat) (ws : Xl.sheet) (r : nat) : Xl.sheet :=
  match country_found name_map keys_sorted doi_to_pdf max_pages_affil ws link_col r with
  | Some v => Xl.set_cell ws r out_col (Some v)
  | None => ws
  end.

(** A month sheet after the run. *)
Definition sheet_after (name_map : list (str * str)) (keys_sorted : list str)
    (doi_to_pdf : list (str * Affil.pdf_doc)) (max_pages_affil : nat)
    (ws : Xl.sheet) : Xl.sheet :=
  match Xl.index_of (Xl.header ws) (py "Link") with
  | None => ws
  | Some i =>
      fold_left (write_row name_map keys_sorted doi_to_pdf max_pages_affil
                           (i + 1) (snd (Affil.ensure_column ws Affil.NEW_COL)))
                (Affil.data_rows (fst (Affil.ensure_column ws Affil.NEW_COL)))
                (fst (Affil.ensure_column ws Affil.NEW_COL))
  end.

(** ** Whitespace of any kind *)

(** A change of characters that maps whitespace to whitespace and
    leaves every other character as it is. *)
Definition respaces (g : ascii -> ascii) : Prop :=
  forall c, if is_space c then is_space (g c) = true else g c = c.

(** A line feed, as a page break of [extract_text_pypdf2], read as a space. *)
Definition break_to_space (c : ascii) : ascii :=
  if Ascii.eqb c newline then " "%char else c.

(** ** PDFs without text *)

(** The pages read yield no text: the file cannot be opened, or each of
    its first [max_pages] pages gives nothing or fails. *)
Definition textless (path : Sort.pdf_source) (max_pages : nat) : Prop :=
  match path with
  | Raised _ => True
  | Returned pages => Forall (fun pg => Sort.page_chunk pg = []) (firstn max_pages pages)
  end.

(** The number of pages read. *)
Definition pages_read (path : Sort.pdf_source) (max_pages : nat) : nat :=
  match path with
  | Raised _ => 0
  | Returned pages => Nat.min max_pages (length pages)
  end.

(** A scanned document of three pages: no text layer, one page fails. *)
Definition scanned_pdf : Sort.pdf_source :=
  Returned [Returned None; Raised (py "KeyError"); Returned (Some [])].

(** ** The table of popular names *)

(** A key as the table stores it: not empty, lower case, no whitespace
    around it. *)
Definition clean_key (k : str) : Prop := k <> [] /\ lower k = k /\ strip k = k.

(** A table with distinct clean keys and values among [vals]. *)
Definition table_ok (vals : list str) (out : list (str * str)) : Prop :=
  NoDup (dict_keys out)
  /\ forall k v, In (k, v) out -> clean_key k /\ In v vals.

(** ** Examples of the keyword scanner *)

(** A PDF whose second page carries an identifier. *)
Definition doc_second_page : Scan.pdf_file :=
  Scan.PdfFile (py "paper") (py ".pdf")
    (Returned [text_page (py "Magnetic Resonance in Medicine");
               text_page (py "https://doi.org/10.1002/MRM.30001 Received");
               text_page (py "third page")]).

(** ** What a run of the keyword scanner may change *)

(** The column of the keywords in a sheet, if it has one. *)
Definition keywords_col (ws : Xl.sheet) : option nat :=
  option_map (fun i => i + 1) (Xl.index_of (Xl.header ws) (py "Keywords Matched")).

(** [ws'] is [ws] but for cells of the keywords column below the header. *)
Definition same_but_keywords (ws ws' : Xl.sheet) : Prop :=
  Xl.header ws' = Xl.header ws
  /\ forall r c, 1 <= r -> 1 <= c -> Some c <> keywords_col ws ->
       Xl.cell_value ws' r c = Xl.cell_value ws r c.

Definition workbook_kept (wb wb' : Xl.workbook) : Prop :=
  Xl.sheetnames wb' = Xl.sheetnames wb
  /\ forall name,
       match Xl.get_sheet wb name, Xl.get_sheet wb' name with
       | Some ws, Some ws' => same_but_keywords ws ws'
       | None, None => True
       | _, _ => False
       end.

(** Every row number of the index is a data row. *)
Definition index_rows_ok (index : list (str * list (str * nat))) : Prop :=
  forall s rows d r, In (s, rows) index -> In (d, r) rows -> 2 <= r.

(** The PDFs a run goes through. *)
Definition scanned_pdfs (year_folder : str -> option (list Scan.pdf_file))
    : list Scan.pdf_file :=
  flat_map (fun m => match year_folder m with Some pdfs => pdfs | None => [] end)
           Scan.MONTH_NAMES.

(** A year folder with the January folder only. *)
Definition folder_january (month : str) : option (list Scan.pdf_file) :=
  if str_eqb month (py "January") then Some [doc_mrm1] else None.

(** ** Texts with spaces put in *)

(** [y] is [s] with spaces put in at some places. *)
Inductive spaced : str -> str -> Prop :=
| spaced_nil : spaced [] []
| spaced_keep (c : ascii) (s y : str) : spaced s y -> spaced (c :: s) (c :: y)
| spaced_put (s y : str) : spaced s y -> spaced s (" "%char :: y).

(** A run of letters. *)
Definition letters (w : str) : bool := forallb is_letter w.

(** ** A phrase inside a text *)

(** What stands before a phrase lets its first word begin: nothing, a
    character that is not a word character, or a digit (the
    normalizer parts a digit from the letter that follows it). *)
Definition opens_word (pre : str) : bool :=
  match rev pre with
  | [] => true
  | c :: _ => negb (is_word c) || is_digit c
  end.

(** What stands after a phrase lets its last number end: nothing, a
    character that is not a word character, or a letter (the
    normalizer parts a digit from the letter that follows it). *)
Definition closes_number (post : str) : bool :=
  match post with
  | [] => true
  | c :: _ => negb (is_word c) || is_letter c
  end.

(** ** The matcher on a block of a text *)

(** The answer of the matcher when it reads a block of a text (the
    window) and knows of the rest only whether the character before
    the window is a word character, and which character follows the
    window: a match, no match, or [Past] when the answer depends on
    more of the text than that. *)
Inductive verdict (R : Type) : Type :=
| Hit (x : R)
| Miss
| Past.
Arguments Hit {R} x.
Arguments Miss {R}.
Arguments Past {R}.

Section Window.

Variable word_before : bool.
Variable next : option ascii.

(** [boundary], [rep] and [exec] on the window: the same steps, with
    the two neighbours of the window where the text would be read. *)
Definition boundary_in (before rest : list ascii) : bool :=
  xorb (match before with c :: _ => is_word c | [] => word_before end)
       (match rest with
        | c :: _ => is_word c
        | [] => match next with Some c => is_word c | None => false end
        end).

Fixpoint rep_in {R : Type} (p : ascii -> bool) (lo : nat) (hi : option nat)
    (n : nat) (before rest : list ascii)
    (k : list ascii -> list ascii -> verdict R) : verdict R :=
  let stop := if lo <=? n then k before rest else Miss in
  match rest with
  | c :: rest' =>
      if p c && below n hi then
        match rep_in p lo hi (S n) (c :: before) rest' k with
        | Hit x => Hit x
        | Miss => stop
        | Past => Past
        end
      else stop
  | [] =>
      match next with
      | Some c => if p c && below n hi then Past else stop
      | None => stop
      end
  end.

Fixpoint exec_in {R : Type} (r : regex) (st : mstate)
    (k : mstate -> verdict R) : verdict R :=
  match r with
  | Eps => k st
  | Chr p =>
      match remaining st with
      | c :: rest' =>
          if p c then k (MState (c :: consumed st) rest' (spans st)) else Miss
      | [] =>
          match next with
          | Some c => if p c then Past else Miss
          | None => Miss
          end
      end
  | WordB => if boundary_in (consumed st) (remaining st) then k st else Miss
  | Cat r1 r2 => exec_in r1 st (fun st' => exec_in r2 st' k)
  | Rep p lo hi =>
      rep_in p lo hi 0 (consumed st) (remaining st)
             (fun b r' => k (MState b r' (spans st)))
  | Opt r1 =>
      match exec_in r1 st k with
      | Hit x => Hit x
      | Miss => k st
      | Past => Past
      end
  | Grp i r1 =>
      exec_in r1 st (fun st' =>
        k (MState (consumed st') (remaining st')
                  ((i, (length (consumed st), length (consumed st')))
                     :: spans st')))
  end.

(** A match starting at the first character of the window; offsets
    count from there. *)
Definition match_in (r : regex) (window : str) : verdict found :=
  exec_in r (MState [] window [])
          (fun st => Hit (length (consumed st), spans st)).

End Window.

(** Offsets of the window as offsets of the text. *)
Definition shift_spans (off : nat) (sp : list (nat * (nat * nat)))
    : list (nat * (nat * nat)) :=
  map (fun x => (fst x, (fst (snd x) + off, snd (snd x) + off))) sp.

(** The captures end in the first [n] characters. *)
Definition within (n : nat) (sp : list (nat * (nat * nat))) : bool :=
  forallb (fun x => snd (snd x) <=? n) sp.

(** A cursor in the window and the same cursor in the text; [B] is
    the text before the window, reversed, and [V] the text after it. *)
Definition placed (B V : str) (sw st : mstate) : Prop :=
  consumed st = consumed sw ++ B
  /\ remaining st = remaining sw ++ V
  /\ spans st = shift_spans (length B) (spans sw).

(** The verdict and the answer of the matcher say the same. *)
Definition agrees {R R' : Type} (f : R -> R') (v : verdict R) (o : option R') : Prop :=
  match v with
  | Hit x => o = Some (f x)
  | Miss => o = None
  | Past => True
  end.

(** The check of a phrase with the year 0000 as a window: the patterns
    before the one of its form do not match at it, that one does, its
    groups lie in the window and read the month and the day. *)
Fixpoint check_chain_in (next : option ascii) (ps : list (regex * layout))
    (j : nat) (w : str) (n : nat) (m d : N) : bool :=
  match ps with
  | [] => false
  | (r, l) :: ps' =>
      match j, match_in false next r w with
      | O, Hit (_, sp) => within (length w) sp && check_groups l sp w n m d
      | S j', Miss => check_chain_in next ps' j' w n m d
      | _, _ => false
      end
  end.

(** The classes of characters a pattern reads. *)
Fixpoint classes (r : regex) : list (ascii -> bool) :=
  match r with
  | Eps | WordB => []
  | Chr p => [p]
  | Cat r1 r2 => classes r1 ++ classes r2
  | Rep p _ _ => [p]
  | Opt r1 => classes r1
  | Grp _ r1 => classes r1
  end.

(** A character no class of the pattern takes, and not a word
    character: after the window it counts as the end of the text. *)
Definition inert (r : regex) (c : ascii) : bool :=
  negb (is_word c) && forallb (fun p => negb (p c)) (classes r).

(** What can follow the window in a normalized text when a number
    ends there, up to the characters that are inert. *)
Definition after_number : list (option ascii) :=
  [None; Some " "%char; Some ":"%char; Some ","%char; Some "-"%char; Some "/"%char].

(** The word accepted begins, in some case, at a place of [w] other
    than the first, as far as [w] goes. *)
Definition accepted_later (w : str) : bool :=
  existsb (fun o => starts_with (lower (firstn 8 (skipn o w))) (py "accepted"))
          (seq 1 (length w - 1)).

(** The checks on the phrase of a form, a month and a day, with the
    year 0000: it is normalized, begins with the word and ends with a
    digit, the word does not begin again in it, and the patterns
    answer as said whatever follows the phrase. *)
Definition check_phrase_in (colon : bool) (f : date_form) (m d : N) : bool :=
  let pre := fst (phrase_parts colon f m d) in
  let suf := snd (phrase_parts colon f m d) in
  let w := pre ++ py "0000" ++ suf in
  tidy w && starts_with (py "Accepted") w
  && head_is is_digit (rev w) && negb (accepted_later w)
  && forallb (fun next =>
       check_chain_in next accepted_patterns (form_index f) w (length pre) m d)
     after_number.

(** ** The identifier of a PDF, page by page *)

(** The first text of a list that is not empty. *)
Fixpoint first_nonempty (l : list str) : str :=
  match l with
  | [] => []
  | x :: l' =>
      match x with
      | [] => first_nonempty l'
      | _ :: _ => x
      end
  end.

(** The file of the keyword scanner as the builder reads it. *)
Definition builder_source (ps : list Scan.page) : Sort.pdf_source :=
  Returned (map Scan.extract_text ps).

(** A PDF of one page with an identifier, for the two scripts. *)
Definition april_pages : list Scan.page :=
  [text_page (py "Received: 1 March 2025 Accepted: 2 April 2025 DOI: 10.1002/mrm.30001")].
Definition doc_april : Scan.pdf_file :=
  Scan.PdfFile (py "a") (py ".pdf") (Returned april_pages).

(* ================================================================== *)
(** * Facts about the runtime model *)
(* ================================================================== *)

Section StrFacts.

Lemma str_eqb_eq (a b : str) : str_eqb a b = true <-> a = b.
Proof.
  unfold str_eqb. destruct (list_eq_dec ascii_dec a b); split; congruence.
Qed.

Lemma str_eqb_refl (a : str) : str_eqb a a = true.
Proof. apply str_eqb_eq. reflexivity. Qed.

Lemma str_eqb_neq (a b : str) : str_eqb a b = false <-> a <> b.
Proof.
  unfold str_eqb. destruct (list_eq_dec ascii_dec a b); split; congruence.
Qed.

Lemma dropwhile_all (p : ascii -> bool) (s : str) :
  forallb p s = true -> dropwhile p s = [].
Proof.
  induction s as [|c s IH]; simpl; auto.
  intros H. apply andb_true_iff in H. destruct H as [Hc Hs].
  rewrite Hc. auto.
Qed.

Lemma dropwhile_none (p : ascii -> bool) (s : str) :
  head_is p s = false -> dropwhile p s = s.
Proof. destruct s as [|c s]; simpl; auto. intros ->. reflexivity. Qed.

Lemma takewhile_all (p : ascii -> bool) (s : str) :
  forallb p s = true -> takewhile p s = s.
Proof.
  induction s as [|c s IH]; simpl; auto.
  intros H. apply andb_true_iff in H. destruct H as [Hc Hs].
  rewrite Hc. f_equal. auto.
Qed.

(** A blank string strips to the empty string. *)
Lemma strip_blank (s : str) : forallb is_space s = true -> strip s = [].
Proof.
  intros H. unfold strip, lstrip, rstrip.
  rewrite (dropwhile_all _ _ H). reflexivity.
Qed.

End StrFacts.

(* ================================================================== *)
(** * Gender inference *)
(* ================================================================== *)

Section GenderFacts.

Variable det_get_gender : str -> str.
Variable HAVE_GENDERIZE : bool.
Variable genderize_get : str -> outcome (list (option str)).

Local Abbreviation infer := (Sort.infer_gender det_get_gender HAVE_GENDERIZE genderize_get).

Lemma is_male_or_female_In (g : str) :
  Sort.is_male_or_female g = true <-> In g [py "male"; py "female"].
Proof.
  unfold Sort.is_male_or_female. rewrite orb_true_iff, !str_eqb_eq. simpl.
  intuition congruence.
Qed.

Lemma oracle_tier_range (fn : str) :
  In (Sort.oracle_tier genderize_get fn) genders.
Proof.
  unfold Sort.oracle_tier, genders.
  destruct (genderize_get fn) as [e|[|[g|] rest]]; simpl; auto.
  destruct (Sort.is_male_or_female g) eqn:Hg; simpl; auto.
  apply is_male_or_female_In in Hg. simpl in Hg. intuition.
Qed.


End GenderFacts.

(* ================================================================== *)
(** * The workbook builder *)
(* ================================================================== *)

Section WorkbookFacts.

Lemma mk_date_valid (y m d : N) (dt : date) :
  mk_date y m d = Some dt ->
  dt = Date y m d /\ valid_date y m d = true.
Proof.
  unfold mk_date. destruct (valid_date y m d); [|discriminate].
  intros H. injection H as <-. auto.
Qed.

(** Every date the parser returns is a calendar date. *)
Lemma parse_accepted_date_valid (text : str) (d : date) :
  Sort.parse_accepted_date text = Some d ->
  valid_date (year d) (month d) (day d) = true.
Proof.
  unfold Sort.parse_accepted_date.
  destruct (Sort.normalize_text_for_dates text) as [|c t]; [discriminate|].
  set (s := c :: t). clearbody s.
  assert (Hmk : forall y m k, mk_date y m k = Some d ->
                  valid_date (year d) (month d) (day d) = true).
  { intros y m k H. apply mk_date_valid in H. destruct H as [-> H]. exact H. }
  destruct (re_search Sort.ACC_DMY s) as [m1|].
  - destruct (Sort.month_of_name (group m1 2)) as [i1|]; [apply Hmk|].
    destruct (re_search Sort.ACC_MDY s) as [m2|].
    + destruct (Sort.month_of_name (group m2 1)) as [i2|]; [apply Hmk|].
      destruct (re_search Sort.ACC_YMD_DASH s) as [m3|]; [apply Hmk|].
      destruct (re_search Sort.ACC_DMY_SLASH s) as [m4|]; [apply Hmk|discriminate].
    + destruct (re_search Sort.ACC_YMD_DASH s) as [m3|]; [apply Hmk|].
      destruct (re_search Sort.ACC_DMY_SLASH s) as [m4|]; [apply Hmk|discriminate].
  - destruct (re_search Sort.ACC_MDY s) as [m2|].
    + destruct (Sort.month_of_name (group m2 1)) as [i2|]; [apply Hmk|].
      destruct (re_search Sort.ACC_YMD_DASH s) as [m3|]; [apply Hmk|].
      destruct (re_search Sort.ACC_DMY_SLASH s) as [m4|]; [apply Hmk|discriminate].
    + destruct (re_search Sort.ACC_YMD_DASH s) as [m3|]; [apply Hmk|].
      destruct (re_search Sort.ACC_DMY_SLASH s) as [m4|]; [apply Hmk|discriminate].
Qed.

Lemma valid_date_bounds (y m d : N) :
  valid_date y m d = true -> (1 <= y <= 9999 /\ 1 <= m <= 12 /\ 1 <= d <= 31)%N.
Proof.
  unfold valid_date. rewrite !andb_true_iff, !N.leb_le.
  intros [[[[[Hy1 Hy2] Hm1] Hm2] Hd1] Hd2].
  repeat split; auto.
  apply N.le_trans with (1 := Hd2). unfold days_in_month.
  destruct m as [|[[[|[]|]|[[]|[]|]|]|[[|[]|]|[[]|[]|]|]|]];
    try destruct (is_leap y); lia.
Qed.

Lemma In_upto (n x : N) : (x < n)%N -> In x (upto n).
Proof.
  intros H. unfold upto. apply in_map_iff. exists (N.to_nat x). split.
  - apply N2Nat.id.
  - apply in_seq. lia.
Qed.

Lemma year_field_all : forallb year_field_ok (upto 10000%N) = true.
Proof. vm_compute. reflexivity. Qed.

Lemma year_field (y : N) : (y <= 9999)%N -> year_field_ok y = true.
Proof.
  intros H. pose proof year_field_all as A.
  rewrite forallb_forall in A. apply A. apply In_upto. lia.
Qed.

Lemma month_field_all : forallb month_field_ok (tl (upto 13%N)) = true.
Proof. vm_compute. reflexivity. Qed.

Lemma month_field (m : N) : (1 <= m <= 12)%N -> month_field_ok m = true.
Proof.
  intros H. pose proof month_field_all as A.
  rewrite forallb_forall in A. apply A.
  assert (Hin : In m (upto 13%N)) by (apply In_upto; lia).
  change (upto 13%N) with (0%N :: tl (upto 13%N)) in Hin.
  destruct Hin as [H0|Hin]; [lia|exact Hin].
Qed.

(** Appending a row to a sheet: that sheet gets the row at its end and
    the other sheets stay. *)
Lemma get_sheet_append_same (wb : Xl.workbook) (name : str) (row : list Xl.cell)
    (ws : Xl.sheet) :
  Xl.get_sheet wb name = Some ws ->
  Xl.get_sheet (Xl.append_row wb name row) name
  = Some (Xl.Sheet (Xl.sheet_name ws) (Xl.sheet_rows ws ++ [row])).
Proof.
  induction wb as [|ws0 wb IH]; simpl; [discriminate|].
  destruct (str_eqb name (Xl.sheet_name ws0)) eqn:E; simpl.
  - rewrite E. intros H. injection H as <-. reflexivity.
  - rewrite E. exact IH.
Qed.

Lemma get_sheet_append_other (wb : Xl.workbook) (name other : str)
    (row : list Xl.cell) :
  other <> name ->
  Xl.get_sheet (Xl.append_row wb name row) other = Xl.get_sheet wb other.
Proof.
  intros Hne. induction wb as [|ws0 wb IH]; simpl; [reflexivity|].
  destruct (str_eqb name (Xl.sheet_name ws0)) eqn:E; simpl.
  - apply str_eqb_eq in E. subst name.
    destruct (str_eqb other (Xl.sheet_name ws0)) eqn:E2; [|reflexivity].
    apply str_eqb_eq in E2. contradiction.
  - rewrite IH. reflexivity.
Qed.

Lemma sheetnames_append (wb : Xl.workbook) (name : str) (row : list Xl.cell) :
  Xl.sheetnames (Xl.append_row wb name row) = Xl.sheetnames wb.
Proof.
  induction wb as [|ws0 wb IH]; simpl; [reflexivity|].
  destruct (str_eqb name (Xl.sheet_name ws0)); simpl; [reflexivity|].
  f_equal. exact IH.
Qed.

Lemma get_sheet_In (wb : Xl.workbook) (name : str) :
  In name (Xl.sheetnames wb) ->
  exists ws, Xl.get_sheet wb name = Some ws /\ Xl.sheet_name ws = name.
Proof.
  induction wb as [|ws0 wb IH]; simpl; [intros []|].
  intros H. destruct (str_eqb name (Xl.sheet_name ws0)) eqn:E.
  - apply str_eqb_eq in E. exists ws0. auto.
  - destruct H as [H|H]; [apply str_eqb_neq in E; congruence|auto].
Qed.

Lemma month_sheet_name_known (d : option date) :
  match d with
  | Some dt => valid_date (year dt) (month dt) (day dt) = true
  | None => True
  end ->
  In (Sort.month_sheet_name d) (Sort.MONTH_NAMES ++ [py "Sheet7"]).
Proof.
  destruct d as [dt|]; intros H.
  - apply valid_date_bounds in H. destruct H as (_ & Hm & _).
    pose proof (month_field Hm) as F. unfold month_field_ok in F.
    rewrite !andb_true_iff in F. destruct F as [_ F].
    apply existsb_exists in F. destruct F as (x & Hx & E).
    apply str_eqb_eq in E. apply in_or_app. left.
    unfold Sort.month_sheet_name. rewrite E. exact Hx.
  - apply in_or_app. right. simpl. auto.
Qed.

End WorkbookFacts.

Section MainFacts.

Variable det_get_gender : str -> str.
Variable HAVE_GENDERIZE : bool.
Variable genderize_get : str -> outcome (list (option str)).
Variable crossref_lookup : str -> str * str * str.
Variable popular_map : list (str * str).
Variable use_genderize : bool.

Local Abbreviation row_of :=
  (Sort.workbook_row det_get_gender HAVE_GENDERIZE genderize_get
                     crossref_lookup popular_map use_genderize).
Local Abbreviation step :=
  (Sort.process_pdf det_get_gender HAVE_GENDERIZE genderize_get
                    crossref_lookup popular_map use_genderize).
Local Abbreviation run :=
  (Sort.main det_get_gender HAVE_GENDERIZE genderize_get
             crossref_lookup popular_map use_genderize).

Lemma workbook_row_sheet (p : Sort.pdf_input) :
  fst (fst (row_of p))
  = Sort.month_sheet_name (Sort.parse_accepted_date (Sort.pdf_text p)).
Proof.
  unfold Sort.workbook_row.
  destruct (if Sort.is_empty (Sort.parse_doi (Sort.pdf_text p))
            then ([], [], [])
            else crossref_lookup (Sort.parse_doi (Sort.pdf_text p)))
    as [[title first_fn] last_fn].
  reflexivity.
Qed.

Lemma workbook_row_month (p : Sort.pdf_input) :
  nth 1 (snd (fst (row_of p))) []
  = Sort.month_cell_value (Sort.parse_accepted_date (Sort.pdf_text p)).
Proof.
  unfold Sort.workbook_row.
  destruct (if Sort.is_empty (Sort.parse_doi (Sort.pdf_text p))
            then ([], [], [])
            else crossref_lookup (Sort.parse_doi (Sort.pdf_text p)))
    as [[title first_fn] last_fn].
  reflexivity.
Qed.

Lemma process_pdf_workbook (st : Xl.workbook * list Sort.LogRow) (p : Sort.pdf_input) :
  fst (step st p)
  = Xl.append_row (fst st) (fst (fst (row_of p))) (map Some (snd (fst (row_of p)))).
Proof.
  unfold Sort.process_pdf. destruct (row_of p) as [[sheet row] lg]. reflexivity.
Qed.

(** The workbook of [main] keeps the thirteen sheets it was created with. *)
Lemma main_sheetnames (pdfs : list Sort.pdf_input) :
  Xl.sheetnames (fst (run pdfs)) = Sort.MONTH_NAMES ++ [py "Sheet7"].
Proof.
  unfold Sort.main.
  assert (G : forall st,
            Xl.sheetnames (fst (fold_left step pdfs st)) = Xl.sheetnames (fst st)).
  { induction pdfs as [|p ps IH]; intros st; simpl; [reflexivity|].
    rewrite IH, process_pdf_workbook. apply sheetnames_append. }
  rewrite G. reflexivity.
Qed.

(** C10. The row of a PDF without a parsed Accepted date is appended
    to the sheet Sheet7 with an empty Month cell; with a parsed date it
    is appended to the sheet that bears the name of the date's month,
    and the Month cell is the four digits of the year, a dash, the two
    digits of the month and the text -01. *)
Theorem row_goes_to_month_sheet (pdfs : list Sort.pdf_input) (p : Sort.pdf_input) :
  let acc := Sort.parse_accepted_date (Sort.pdf_text p) in
  let sheet := Sort.month_sheet_name acc in
  let row := snd (fst (row_of p)) in
  let wb := fst (run pdfs) in
  let wb' := fst (run (pdfs ++ [p])) in
  (exists old,
      Xl.get_sheet wb sheet = Some (Xl.Sheet sheet old)
      /\ Xl.get_sheet wb' sheet = Some (Xl.Sheet sheet (old ++ [map Some row])))
  /\ (forall other, other <> sheet -> Xl.get_sheet wb' other = Xl.get_sheet wb other)
  /\ nth 1 row [] = Sort.month_cell_value acc
  /\ (acc = None -> sheet = py "Sheet7" /\ nth 1 row [] = [])
  /\ (forall d, acc = Some d ->
        In sheet Sort.MONTH_NAMES
        /\ Sort.month_of_name sheet = Some (month d)
        /\ exists yyyy mm,
             nth 1 row [] = yyyy ++ py "-" ++ mm ++ py "-01"
             /\ length yyyy = 4 /\ length mm = 2
             /\ forallb is_digit yyyy = true /\ forallb is_digit mm = true
             /\ int_of yyyy = year d /\ int_of mm = month d).
Proof.
  intros acc sheet row wb wb'.
  assert (Hwb' : wb' = Xl.append_row wb sheet (map Some row)).
  { subst wb' wb. unfold Sort.main. rewrite fold_left_app. simpl.
    rewrite process_pdf_workbook. subst sheet acc.
    rewrite workbook_row_sheet. reflexivity. }
  assert (Hin : In sheet (Xl.sheetnames wb)).
  { subst wb. rewrite main_sheetnames. apply month_sheet_name_known.
    destruct acc as [d|] eqn:E; [|exact I].
    apply parse_accepted_date_valid with (1 := E). }
  destruct (get_sheet_In _ _ Hin) as (ws & Hws & Hname).
  split; [|split; [|split; [|split]]].
  - exists (Xl.sheet_rows ws). split.
    + rewrite Hws. destruct ws; simpl in *. subst. reflexivity.
    + rewrite Hwb'. rewrite (get_sheet_append_same _ _ _ Hws), Hname. reflexivity.
  - intros other Hne. rewrite Hwb'. apply get_sheet_append_other. exact Hne.
  - apply workbook_row_month.
  - intros E. subst row. rewrite workbook_row_month. subst sheet. fold acc.
    rewrite E. auto.
  - intros d E. pose proof (parse_accepted_date_valid _ E) as V.
    apply valid_date_bounds in V. destruct V as (Hy & Hm & _).
    pose proof (month_field Hm) as F. unfold month_field_ok in F.
    rewrite !andb_true_iff in F.
    destruct F as [[[[F1 F2] F3] F4] F5].
    assert (Y : year_field_ok (year d) = true) by (apply year_field; lia).
    unfold year_field_ok in Y. rewrite !andb_true_iff in Y.
    destruct Y as [[Y1 Y2] Y3].
    subst sheet. rewrite E. unfold Sort.month_sheet_name.
    split; [|split].
    + apply existsb_exists in F5. destruct F5 as (x & Hx & Ex).
      apply str_eqb_eq in Ex. rewrite Ex. exact Hx.
    + destruct (Sort.month_of_name _) as [i|]; [|discriminate].
      apply N.eqb_eq in F4. congruence.
    + exists (zero_pad 4 (year d)), (zero_pad 2 (month d)).
      subst row. rewrite workbook_row_month. fold acc. rewrite E.
      unfold Sort.month_cell_value.
      apply Nat.eqb_eq in F1, Y1. apply N.eqb_eq in F2, Y2.
      repeat split; auto.
Qed.

End MainFacts.

(* ================================================================== *)
(** * The keyword scan *)
(* ================================================================== *)

Section ScanFacts.

Variable re_compile : str -> outcome (str -> bool).

Lemma In_keep_first (l : list str) (x : str) : In x (keep_first l) <-> In x l.
Proof.
  induction l as [|y l IH]; simpl; [tauto|].
  rewrite filter_In, IH, negb_true_iff, str_eqb_neq.
  destruct (list_eq_dec ascii_dec y x); intuition.
Qed.

Lemma NoDup_keep_first (l : list str) : NoDup (keep_first l).
Proof.
  induction l as [|y l IH]; simpl; constructor.
  - rewrite filter_In, negb_true_iff, str_eqb_neq. intuition.
  - apply NoDup_filter. exact IH.
Qed.

Lemma filter_filter_absorb (P Q : str -> bool) (l : list str) :
  (forall x, P x = true -> Q x = true) ->
  filter P (filter Q l) = filter P l.
Proof.
  intros H. induction l as [|x l IH]; simpl; [reflexivity|].
  destruct (Q x) eqn:EQ; simpl.
  - destruct (P x); [f_equal|]; exact IH.
  - destruct (P x) eqn:EP; [|exact IH].
    apply H in EP. congruence.
Qed.

Lemma scan_pages_first (f : str -> bool) (ps : list Scan.page) (i0 : nat) :
  Scan.scan_pages f ps i0 =
  match first_index f ps with
  | Some i => (true, seq i0 (S i))
  | None => (false, seq i0 (length ps))
  end.
Proof.
  revert i0. induction ps as [|p ps IH]; intros i0; simpl; [reflexivity|].
  destruct (f (Scan.scan_text p)); [reflexivity|].
  rewrite IH. destruct (first_index f ps); reflexivity.
Qed.

Lemma first_index_some (f : str -> bool) (ps : list Scan.page) (i : nat) :
  first_index f ps = Some i ->
  i < length ps /\ f (page_at ps i) = true
  /\ forall j, j < i -> f (page_at ps j) = false.
Proof.
  revert i. induction ps as [|p ps IH]; intros i; simpl; [discriminate|].
  destruct (f (Scan.scan_text p)) eqn:E.
  - intros H. injection H as <-. repeat split; [lia|exact E|lia].
  - destruct (first_index f ps) as [i'|]; [|discriminate].
    simpl. intros H. injection H as <-.
    destruct (IH i' eq_refl) as (L & Hit & Before).
    repeat split; [lia|exact Hit|].
    intros [|j] Hj; [exact E|]. apply Before. lia.
Qed.

Lemma first_index_exists (f : str -> bool) (ps : list Scan.page) :
  existsb (fun p => f (Scan.scan_text p)) ps
  = match first_index f ps with Some _ => true | None => false end.
Proof.
  induction ps as [|p ps IH]; simpl; [reflexivity|].
  destruct (f (Scan.scan_text p)); simpl; [reflexivity|].
  rewrite IH. destruct (first_index f ps); reflexivity.
Qed.

Lemma mem_In (k : str) (seen : list str) : Scan.mem k seen = true <-> In k seen.
Proof.
  unfold Scan.mem. rewrite existsb_exists. split.
  - intros (x & Hx & E). apply str_eqb_eq in E. subst. exact Hx.
  - intros H. exists k. split; [exact H|apply str_eqb_refl].
Qed.

Lemma probes_of_app (kw : str) (a b : list (str * nat)) :
  probes_of kw (a ++ b) = probes_of kw a ++ probes_of kw b.
Proof. apply filter_app. Qed.

Lemma probes_of_same (kw : str) (l : list nat) :
  probes_of kw (map (fun i => (kw, i)) l) = map (fun i => (kw, i)) l.
Proof.
  induction l as [|i l IH]; simpl; [reflexivity|].
  rewrite str_eqb_refl. f_equal. exact IH.
Qed.

Lemma probes_of_other (kw k : str) (l : list nat) :
  k <> kw -> probes_of kw (map (fun i => (k, i)) l) = [].
Proof.
  intros Hne. induction l as [|i l IH]; simpl; [reflexivity|].
  apply str_eqb_neq in Hne. rewrite Hne. exact IH.
Qed.

Lemma probes_of_nil (kw : str) (probes : list (str * nat)) :
  (forall i, ~ In (kw, i) probes) -> probes_of kw probes = [].
Proof.
  induction probes as [|[k i] probes IH]; simpl; intros H; [reflexivity|].
  destruct (str_eqb k kw) eqn:E.
  - apply str_eqb_eq in E. subst. exfalso. apply (H i). auto.
  - apply IH. intros j Hj. apply (H j). auto.
Qed.

Lemma scan_inv_init (ps : list Scan.page) : scan_inv re_compile ps [] [] [].
Proof.
  constructor; simpl; try tauto.
  all: intros k [].
Qed.

Lemma scan_terms_spec (ps : list Scan.page) (terms : list str) :
  (forall kw, In kw terms -> exists f, re_compile kw = Returned f) ->
  forall found seen probes,
    scan_inv re_compile ps found seen probes ->
    exists found' probes',
      Scan.scan_terms re_compile terms ps found seen probes
      = Returned (found', probes')
      /\ found' = found
           ++ filter (fun k => term_hits re_compile ps k && negb (Scan.mem k seen))
                     (keep_first terms)
      /\ scan_inv re_compile ps found' found' probes'.
Proof.
  induction terms as [|kw terms IH]; intros Hc found seen probes Inv.
  - simpl. exists found, probes. rewrite app_nil_r.
    split; [reflexivity|]. split; [reflexivity|].
    destruct Inv as [HS HO HF HM].
    constructor; [intros k; tauto|exact HO|exact HF|exact HM].
  - assert (Hc' : forall k, In k terms -> exists f, re_compile k = Returned f)
      by (intros k Hk; apply Hc; simpl; auto).
    destruct (Hc kw (or_introl eq_refl)) as [f Hf].
    simpl Scan.scan_terms. simpl keep_first. simpl filter.
    destruct (Scan.mem kw seen) eqn:Hseen.
    + (* already found *)
      rewrite andb_false_r.
      destruct (IH Hc' found seen probes Inv) as (fo & pr & E & Efo & I').
      exists fo, pr. split; [exact E|]. split; [|exact I']. rewrite Efo. f_equal.
      symmetry. apply filter_filter_absorb.
      intros x Hx. apply andb_true_iff in Hx. destruct Hx as [_ Hx].
      apply negb_true_iff. apply str_eqb_neq. intros ->.
      rewrite Hseen in Hx. discriminate.
    + assert (Hnf : ~ In kw found).
      { intros Hin. apply (inv_seen Inv) in Hin. apply mem_In in Hin. congruence. }
      destruct ps as [|p0 ps0] eqn:Eps.
      * (* no page: nothing is searched *)
        assert (Hh : term_hits re_compile [] kw = false)
          by (unfold term_hits; destruct (re_compile kw); reflexivity).
        rewrite Hh. simpl.
        destruct (IH Hc' found seen probes Inv) as (fo & pr & E & Efo & I').
        exists fo, pr. split; [exact E|]. split; [|exact I']. rewrite Efo. f_equal.
        symmetry. apply filter_filter_absorb.
        intros x Hx. apply andb_true_iff in Hx. destruct Hx as [Hx _].
        unfold term_hits in Hx. destruct (re_compile x); discriminate.
      * rewrite <- Eps in *. rewrite Hf.
        rewrite scan_pages_first.
        assert (Hh : term_hits re_compile ps kw
                     = match first_index f ps with Some _ => true | None => false end).
        { unfold term_hits. rewrite Hf. apply first_index_exists. }
        destruct (first_index f ps) as [i|] eqn:Efi.
        -- (* a page matches: the term is recorded *)
           rewrite Hh. simpl andb.
           destruct (first_index_some _ _ Efi) as (Li & Hit & Before).
           assert (Inv' : scan_inv re_compile ps (found ++ [kw]) (kw :: seen)
                            (probes ++ map (fun j => (kw, j)) (seq 0 (S i)))).
           { destruct Inv as [HS HO HF HM]. constructor.
             - intros k. simpl. rewrite in_app_iff, HS. simpl. tauto.
             - intros k j g Hin Hg. apply in_app_or in Hin. destruct Hin as [Hin|Hin].
               + eapply HO; eauto.
               + apply in_map_iff in Hin. destruct Hin as (j' & Ej & Hj').
                 injection Ej as <- <-. apply in_seq in Hj'.
                 assert (g = f) by congruence. subst g.
                 split; [lia|]. intros j0 Hj0. apply Before. lia.
             - intros k Hk. apply in_app_or in Hk. destruct Hk as [Hk|Hk].
               + destruct (HF k Hk) as (g & j & Hg & Hj & Hp).
                 exists g, j. repeat split; auto.
                 rewrite probes_of_app, Hp, probes_of_other, app_nil_r; auto.
                 intros ->. contradiction.
               + simpl in Hk. destruct Hk as [<-|[]].
                 exists f, i. repeat split; auto.
                 rewrite probes_of_app, probes_of_same, probes_of_nil; auto.
                 intros j Hj. pose proof (HM _ _ Hnf Hj) as Hm.
                 rewrite Hh in Hm. discriminate.
             - intros k j Hk Hin. apply in_app_or in Hin.
               destruct Hin as [Hin|Hin].
               + eapply HM; eauto. intros Hf'. apply Hk. apply in_or_app. auto.
               + apply in_map_iff in Hin. destruct Hin as (j' & Ej & _).
                 injection Ej as <- <-. exfalso. apply Hk.
                 apply in_or_app. right. simpl. auto. }
           destruct (IH Hc' _ _ _ Inv') as (fo & pr & E & Efo & I').
           exists fo, pr. split; [exact E|]. split; [|exact I'].
           rewrite Efo, <- app_assoc. simpl. f_equal. f_equal.
           rewrite <- (@filter_filter_absorb
                         (fun k => term_hits re_compile ps k && negb (str_eqb k kw || Scan.mem k seen))
                         (fun y => negb (str_eqb y kw)) (keep_first terms)).
           2:{ intros x Hx. apply andb_true_iff in Hx. destruct Hx as [_ Hx].
               apply negb_true_iff in Hx.
               apply orb_false_iff in Hx. destruct Hx as [Hx _].
               rewrite Hx. reflexivity. }
           apply filter_ext_in. intros x Hx. apply filter_In in Hx.
           destruct Hx as [_ Hx].
           apply negb_true_iff in Hx. rewrite Hx. reflexivity.
        -- (* no page matches *)
           rewrite Hh. simpl andb.
           assert (Inv' : scan_inv re_compile ps found seen
                            (probes ++ map (fun j => (kw, j)) (seq 0 (length ps)))).
           { destruct Inv as [HS HO HF HM]. constructor; auto.
             - intros k j g Hin Hg. apply in_app_or in Hin. destruct Hin as [Hin|Hin].
               + eapply HO; eauto.
               + apply in_map_iff in Hin. destruct Hin as (j' & Ej & Hj').
                 injection Ej as <- <-. apply in_seq in Hj'.
                 assert (g = f) by congruence. subst g.
                 split; [lia|]. intros j0 Hj0.
                 pose proof (first_index_exists f ps) as X. rewrite Efi in X.
                 destruct (f (page_at ps j0)) eqn:Ej0; [|reflexivity].
                 assert (Y : existsb (fun p => f (Scan.scan_text p)) ps = true).
                 { apply existsb_exists. exists (nth j0 ps blank_page).
                   split; [apply nth_In; lia|exact Ej0]. }
                 congruence.
             - intros k Hk. destruct (HF k Hk) as (g & j & Hg & Hj & Hp).
               exists g, j. repeat split; auto.
               rewrite probes_of_app, Hp, probes_of_other, app_nil_r; auto.
               intros ->. contradiction.
             - intros k j Hk Hin. apply in_app_or in Hin.
               destruct Hin as [Hin|Hin]; [eapply HM; eauto|].
               apply in_map_iff in Hin. destruct Hin as (j' & Ej & _).
               injection Ej as <- <-. exact Hh. }
           destruct (IH Hc' _ _ _ Inv') as (fo & pr & E & Efo & I').
           exists fo, pr. split; [exact E|]. split; [|exact I']. rewrite Efo. f_equal.
           symmetry. apply filter_filter_absorb.
           intros x Hx. apply andb_true_iff in Hx. destruct Hx as [Hx _].
           apply negb_true_iff. apply str_eqb_neq. intros ->. congruence.
Qed.

(** Without a page no term is searched, whatever the terms are. *)
Lemma scan_terms_no_page (terms found seen : list str) (probes : list (str * nat)) :
  Scan.scan_terms re_compile terms [] found seen probes = Returned (found, probes).
Proof.
  induction terms as [|kw terms IH]; simpl; [reflexivity|].
  destruct (Scan.mem kw seen); exact IH.
Qed.

Lemma term_hits_no_page (terms : list str) :
  filter (term_hits re_compile []) terms = [].
Proof.
  induction terms as [|kw terms IH]; simpl; [reflexivity|].
  unfold term_hits at 1. destruct (re_compile kw); exact IH.
Qed.

(** The first term that is not a pattern ends the scan of a document
    with a page: the terms seen so far are patterns, so it is searched. *)
Lemma scan_terms_raises (ps : list Scan.page) (kw e : str) (after : list str) :
  ps <> [] ->
  re_compile kw = Raised e ->
  forall before found seen probes,
    (forall k, In k before -> exists f, re_compile k = Returned f) ->
    (forall k, In k seen -> exists f, re_compile k = Returned f) ->
    Scan.scan_terms re_compile (before ++ kw :: after) ps found seen probes = Raised e.
Proof.
  intros Hps Hkw. induction before as [|k0 before IH]; intros found seen probes Hb Hs.
  - simpl. destruct (Scan.mem kw seen) eqn:M.
    + apply mem_In in M. destruct (Hs _ M) as [f Hf]. congruence.
    + destruct ps as [|p0 ps0]; [congruence|]. rewrite Hkw. reflexivity.
  - assert (Hb' : forall k, In k before -> exists f, re_compile k = Returned f)
      by (intros k Hk; apply Hb; simpl; auto).
    destruct (Hb k0 (or_introl eq_refl)) as [f Hf].
    simpl. destruct (Scan.mem k0 seen); [apply IH; assumption|].
    destruct ps as [|p0 ps0] eqn:Eps; [congruence|]. rewrite <- Eps in *.
    rewrite Hf. destruct (Scan.scan_pages f ps 0) as [hit probed].
    destruct hit; apply IH; try assumption.
    intros k [<-|Hk]; [exists f; exact Hf|apply Hs; exact Hk].
Qed.

(** C8, as the specification states it, fails: for the term list
    github, git(, osf and the two-page document, whose pages match
    github and osf, the scan returns no list: the search of the
    malformed term git( raises. *)
Lemma malformed_term_scan_raises :
  term_hits compile_plain two_pages (py "github") = true
  /\ term_hits compile_plain two_pages (py "osf") = true
  /\ compile_plain (py "git(") = Raised (py "re.error")
  /\ Scan.notebook_style_keyword_scan compile_plain
       (Scan.PdfFile (py "paper") (py ".pdf") (Returned two_pages))
       [py "github"; py "git("; py "osf"]
     = Raised (py "re.error").
Proof. repeat split; vm_compute; reflexivity. Qed.

(** C8, amended. When the document has no page or every term is a
    pattern, the scan of the document returns a list: the terms that
    match some page, in the order of the term list, each once; every
    search of a page happens before any matching page of that term,
    and a returned term was searched exactly on the pages up to its
    first matching page.  On a document with a page and a term list
    whose first malformed term is [kw], the scan raises the error of
    compiling [kw] and returns nothing. *)
Theorem keyword_scan_first_hits (ps : list Scan.page) (terms : list str)
    (stem suffix : str) :
  (ps = [] \/ (forall kw, In kw terms -> exists f, re_compile kw = Returned f) ->
   exists found probes,
     Scan.scan_document re_compile ps terms = Returned (found, probes)
     /\ Scan.notebook_style_keyword_scan re_compile
          (Scan.PdfFile stem suffix (Returned ps)) terms = Returned found
     /\ found = filter (term_hits re_compile ps) (keep_first terms)
     /\ NoDup found
     /\ (forall kw, In kw found <-> In kw terms /\ term_hits re_compile ps kw = true)
     /\ (forall kw i f, In (kw, i) probes -> re_compile kw = Returned f ->
           i < length ps /\ forall j, j < i -> f (page_at ps j) = false)
     /\ (forall kw, In kw found ->
           exists f i, re_compile kw = Returned f
             /\ i < length ps /\ f (page_at ps i) = true
             /\ (forall j, j < i -> f (page_at ps j) = false)
             /\ probes_of kw probes = map (fun j => (kw, j)) (seq 0 (S i))))
  /\ (forall before kw after e,
        terms = before ++ kw :: after ->
        (forall k, In k before -> exists f, re_compile k = Returned f) ->
        re_compile kw = Raised e ->
        ps <> [] ->
        Scan.scan_document re_compile ps terms = Raised e
        /\ Scan.notebook_style_keyword_scan re_compile
             (Scan.PdfFile stem suffix (Returned ps)) terms = Raised e).
Proof.
  split.
  - intros [->|Hc].
    + exists [], []. unfold Scan.notebook_style_keyword_scan, Scan.scan_document.
      cbn [Scan.pages]. rewrite scan_terms_no_page, term_hits_no_page.
      split; [reflexivity|]. split; [reflexivity|]. split; [reflexivity|].
      split; [constructor|]. split.
      { intros kw. split; [intros []|]. intros [_ H]. unfold term_hits in H.
        simpl in H. destruct (re_compile kw); discriminate. }
      split; [intros kw i f []|intros kw []].
    + destruct (@scan_terms_spec ps terms Hc [] [] [] (scan_inv_init ps))
        as (found & probes & E & Ef & Inv).
      assert (Ef' : found = filter (term_hits re_compile ps) (keep_first terms)).
      { rewrite Ef. simpl. apply filter_ext. intros k. apply andb_true_r. }
      exists found, probes. split; [exact E|]. split.
      { unfold Scan.notebook_style_keyword_scan, Scan.scan_document. cbn [Scan.pages].
        rewrite E. reflexivity. }
      split; [exact Ef'|]. split.
      { rewrite Ef'. apply NoDup_filter. apply NoDup_keep_first. }
      split.
      { intros kw. rewrite Ef', filter_In, In_keep_first. tauto. }
      split.
      { intros kw i f. apply (inv_order Inv). }
      intros kw Hkw. destruct (inv_found Inv _ Hkw) as (f & i & Hf & Hi & Hp).
      destruct (first_index_some _ _ Hi) as (L & Hit & Before).
      exists f, i. repeat split; auto.
  - intros before kw after e -> Hb Hkw Hps.
    assert (E : Scan.scan_document re_compile ps (before ++ kw :: after) = Raised e).
    { unfold Scan.scan_document.
      apply (@scan_terms_raises ps kw e after Hps Hkw before [] [] [] Hb).
      intros k []. }
    split; [exact E|].
    unfold Scan.notebook_style_keyword_scan. cbn [Scan.pages]. rewrite E. reflexivity.
Qed.

End ScanFacts.

(* ================================================================== *)
(** * Substrings and dictionaries *)
(* ================================================================== *)

Section ContainerFacts.

Lemma starts_with_spec (p s : str) :
  starts_with p s = true <-> exists post, s = p ++ post.
Proof.
  revert s. induction p as [|x p IH]; intros s; simpl.
  - split; [intros _; exists s; reflexivity|auto].
  - destruct s as [|c s].
    + split; [discriminate|]. intros [post H]. discriminate.
    + rewrite andb_true_iff, Ascii.eqb_eq, IH. split.
      * intros [-> [post ->]]. exists post. reflexivity.
      * intros [post H]. injection H as -> ->. split; [reflexivity|eauto].
Qed.

(** [needle in hay] holds exactly when [hay] has [needle] as a block. *)
Lemma str_in_spec (needle hay : str) :
  str_in needle hay = true <-> exists pre post, hay = pre ++ needle ++ post.
Proof.
  induction hay as [|c hay IH].
  - simpl. rewrite orb_false_r, starts_with_spec. split.
    + intros [post H]. exists [], post. exact H.
    + intros (pre & post & H). destruct pre; [|discriminate].
      exists post. exact H.
  - simpl. rewrite orb_true_iff, IH.
    change (match needle with
            | [] => true
            | x :: p' =>
                (x =? c)%char && starts_with p' hay
            end) with (starts_with needle (c :: hay)).
    rewrite starts_with_spec. split.
    + intros [[post H]|(pre & post & H)].
      * exists [], post. exact H.
      * exists (c :: pre), post. simpl. congruence.
    + intros (pre & post & H). destruct pre as [|x pre].
      * left. exists post. exact H.
      * right. simpl in H. injection H as -> H. eauto.
Qed.

Lemma str_in_length (needle hay : str) :
  str_in needle hay = true -> length needle <= length hay.
Proof.
  intros H. apply str_in_spec in H. destruct H as (pre & post & ->).
  rewrite !length_app. lia.
Qed.

Lemma str_in_same_length (needle hay : str) :
  str_in needle hay = true -> length needle = length hay -> needle = hay.
Proof.
  intros H L. apply str_in_spec in H. destruct H as (pre & post & ->).
  rewrite !length_app in L.
  destruct pre; [|simpl in L; lia]. destruct post; [|simpl in L; lia].
  simpl. rewrite app_nil_r. reflexivity.
Qed.

Lemma dict_get_set {V : Type} (d : list (str * V)) (k k' : str) (v : V) :
  dict_get (dict_set d k v) k' = if str_eqb k' k then Some v else dict_get d k'.
Proof.
  induction d as [|[k0 v0] d IH]; simpl.
  - destruct (str_eqb k' k); reflexivity.
  - destruct (str_eqb k k0) eqn:E; simpl.
    + apply str_eqb_eq in E. subst k0.
      destruct (str_eqb k' k); reflexivity.
    + destruct (str_eqb k' k0) eqn:E0.
      * apply str_eqb_eq in E0. subst k0.
        destruct (str_eqb k' k) eqn:E1; [|reflexivity].
        apply str_eqb_eq in E1. subst. rewrite str_eqb_refl in E. discriminate.
      * exact IH.
Qed.

Lemma dict_keys_set {V : Type} (d : list (str * V)) (k x : str) (v : V) :
  In x (dict_keys (dict_set d k v)) <-> x = k \/ In x (dict_keys d).
Proof.
  unfold dict_keys. induction d as [|[k0 v0] d IH]; simpl.
  - intuition.
  - destruct (str_eqb k k0) eqn:E; simpl.
    + apply str_eqb_eq in E. subst. intuition.
    + rewrite IH. intuition.
Qed.

Lemma dict_get_key {V : Type} (d : list (str * V)) (k : str) :
  In k (dict_keys d) -> exists v, dict_get d k = Some v.
Proof.
  unfold dict_keys. induction d as [|[k0 v0] d IH]; simpl; [intros []|].
  intros H. destruct (str_eqb k k0) eqn:E; [eauto|].
  destruct H as [H|H]; [|auto].
  subst. rewrite str_eqb_refl in E. discriminate.
Qed.

End ContainerFacts.

(* ================================================================== *)
(** * The country lexicon *)
(* ================================================================== *)

Section LexiconFacts.

Lemma insert_by_len_In (k x : str) (l : list str) :
  In x (Affil.insert_by_len k l) <-> x = k \/ In x l.
Proof.
  induction l as [|y l IH]; simpl; [intuition|].
  destruct (length y <? length k); simpl; [intuition|].
  rewrite IH. intuition.
Qed.

Lemma insert_by_len_sorted (k : str) (l : list str) :
  StronglySorted longer_first l ->
  StronglySorted longer_first (Affil.insert_by_len k l).
Proof.
  induction 1 as [|y l Hs IH Hall]; simpl.
  - constructor; constructor.
  - destruct (length y <? length k) eqn:E.
    + apply Nat.ltb_lt in E. constructor; [constructor; assumption|].
      constructor; [unfold longer_first; lia|].
      rewrite Forall_forall in *. intros z Hz. specialize (Hall z Hz).
      unfold longer_first in *. lia.
    + apply Nat.ltb_ge in E. constructor; [exact IH|].
      rewrite Forall_forall in *. intros z Hz.
      apply insert_by_len_In in Hz. destruct Hz as [->|Hz]; [exact E|auto].
Qed.

Lemma sorted_len_desc_spec (keys : list str) :
  StronglySorted longer_first (Affil.sorted_len_desc keys)
  /\ forall x, In x (Affil.sorted_len_desc keys) <-> In x keys.
Proof.
  unfold Affil.sorted_len_desc.
  assert (G : forall acc,
            StronglySorted longer_first acc ->
            StronglySorted longer_first
              (fold_left (fun a k => Affil.insert_by_len k a) keys acc)
            /\ forall x, In x (fold_left (fun a k => Affil.insert_by_len k a) keys acc)
                         <-> In x acc \/ In x keys).
  { induction keys as [|k keys IH]; intros acc Hs; simpl.
    - split; [exact Hs|intuition].
    - destruct (IH _ (insert_by_len_sorted k Hs)) as [S1 S2].
      split; [exact S1|]. intros x. rewrite S2, insert_by_len_In. intuition. }
  destruct (G [] (SSorted_nil _)) as [S1 S2].
  split; [exact S1|]. intros x. rewrite S2. simpl. intuition.
Qed.

Lemma first_hit_cons (t y : str) (l : list str) :
  Affil.first_hit t (y :: l)
  = if occurs y t then Some y else Affil.first_hit t l.
Proof. reflexivity. Qed.

(** On keys by decreasing length the first hit is a longest key that
    occurs. *)
Lemma first_hit_longest (t : str) (keys : list str) :
  StronglySorted longer_first keys ->
  forall k, In k keys -> occurs k t = true ->
  exists kmax, Affil.first_hit t keys = Some kmax
    /\ In kmax keys /\ occurs kmax t = true
    /\ forall k2, In k2 keys -> occurs k2 t = true -> length k2 <= length kmax.
Proof.
  induction 1 as [|y l Hs IH Hall]; intros k Hin Hocc; [destruct Hin|].
  rewrite first_hit_cons. destruct (occurs y t) eqn:Ey.
  - exists y. split; [reflexivity|]. split; [simpl; auto|]. split; [exact Ey|].
    intros k2 [<-|H2] _; [lia|].
    rewrite Forall_forall in Hall. apply (Hall _ H2).
  - assert (Hk : In k l).
    { destruct Hin as [<-|Hin]; [congruence|exact Hin]. }
    destruct (IH k Hk Hocc) as (kmax & E & Hm & Om & Max).
    exists kmax. split; [exact E|]. split; [simpl; auto|]. split; [exact Om|].
    intros k2 [<-|H2] O2; [congruence|auto].
Qed.

Lemma first_hit_none (t : str) (keys : list str) :
  (forall k, In k keys -> occurs k t = false) -> Affil.first_hit t keys = None.
Proof.
  induction keys as [|y l IH]; intros H; [reflexivity|].
  rewrite first_hit_cons, (H y (or_introl eq_refl)).
  apply IH. intros k Hk. apply H. simpl. auto.
Qed.

(** The alias table is laid over whatever the registry gave. *)
Lemma overlay_get (aliases : list (str * str)) (base : list (str * str))
    (k v : str) :
  NoDup (map (fun kv => lower (fst kv)) aliases) ->
  In (k, v) aliases ->
  dict_get (fold_left (fun m kv => dict_set m (lower (fst kv)) (snd kv)) aliases base)
           (lower k) = Some v.
Proof.
  revert base. induction aliases as [|[k0 v0] al IH]; intros base Hnd Hin;
    [destruct Hin|].
  simpl in *. inversion Hnd as [|x l Hnotin Hnd']; subst.
  destruct Hin as [E|Hin].
  - injection E as -> ->. clear IH.
    assert (G : forall al' b,
              ~ In (lower k) (map (fun kv => lower (fst kv)) al') ->
              dict_get b (lower k) = Some v ->
              dict_get (fold_left (fun m kv => dict_set m (lower (fst kv)) (snd kv)) al' b)
                       (lower k) = Some v).
    { induction al' as [|[k1 v1] al' IH']; intros b Hni Hb; simpl; [exact Hb|].
      apply IH'; [simpl in Hni; tauto|].
      rewrite dict_get_set. simpl.
      destruct (str_eqb (lower k) (lower k1)) eqn:E; [|exact Hb].
      apply str_eqb_eq in E. simpl in Hni. exfalso. apply Hni. auto. }
    apply G; [exact Hnotin|]. rewrite dict_get_set. simpl.
    rewrite str_eqb_refl. reflexivity.
  - apply IH; assumption.
Qed.

Lemma overlay_keys (aliases base : list (str * str)) (k v : str) :
  In (k, v) aliases ->
  In (lower k)
     (dict_keys (fold_left (fun m kv => dict_set m (lower (fst kv)) (snd kv))
                           aliases base)).
Proof.
  revert base. induction aliases as [|[k0 v0] al IH]; intros base Hin;
    [destruct Hin|].
  simpl in *. destruct Hin as [E|Hin]; [|apply IH; exact Hin].
  injection E as -> ->.
  assert (G : forall al' (b : list (str * str)), In (lower k) (dict_keys b) ->
              In (lower k)
                 (dict_keys (fold_left
                    (fun m kv => dict_set m (lower (fst kv)) (snd kv)) al' b))).
  { induction al' as [|[k1 v1] al' IH']; intros b Hb; simpl; [exact Hb|].
    apply IH'. apply dict_keys_set. auto. }
  apply G. apply dict_keys_set. auto.
Qed.

Lemma aliases_distinct : NoDup (map (fun kv => lower (fst kv)) Affil.ALIASES).
Proof.
  apply (proj2 (NoDup_count_occ' (list_eq_dec ascii_dec) _)).
  intros x Hx. simpl in Hx.
  repeat (destruct Hx as [<-|Hx]; [vm_compute; reflexivity|]).
  destruct Hx.
Qed.

Variable countries : list Affil.country.

Local Abbreviation name_map := (fst (Affil.build_country_matchers countries)).
Local Abbreviation keys_sorted := (snd (Affil.build_country_matchers countries)).

Lemma keys_sorted_spec :
  StronglySorted longer_first keys_sorted
  /\ forall k, In k keys_sorted <-> In k (dict_keys name_map).
Proof. apply sorted_len_desc_spec. Qed.

Lemma alias_in_lexicon (k v : str) :
  In (k, v) Affil.ALIASES ->
  dict_get name_map (lower k) = Some v /\ In (lower k) keys_sorted.
Proof.
  intros Hin. split.
  - apply overlay_get; [apply aliases_distinct|exact Hin].
  - apply keys_sorted_spec. apply overlay_keys with (v := v). exact Hin.
Qed.

(** With any lexicon whose keys are listed by decreasing length, the
    answer comes from a longest key that occurs. *)
Lemma infer_country_longest (name_map : list (str * str)) (keys : list str)
    (text : str) :
  StronglySorted longer_first keys ->
  (forall k, In k keys -> In k (dict_keys name_map)) ->
  forall k, In k keys -> occurs k (Affil.padded text) = true ->
    exists kmax v,
      In kmax keys /\ occurs kmax (Affil.padded text) = true
      /\ dict_get name_map kmax = Some v
      /\ Affil.infer_country text name_map keys = v
      /\ forall k2, In k2 keys -> occurs k2 (Affil.padded text) = true ->
           length k2 <= length kmax.
Proof.
  intros Hs Hk k Hin Hocc.
  destruct (@first_hit_longest (Affil.padded text) _ Hs k Hin Hocc)
    as (kmax & E & Hm & Om & Max).
  destruct (@dict_get_key _ name_map kmax) as [v Hv]; [apply Hk; exact Hm|].
  exists kmax, v. split; [exact Hm|]. split; [exact Om|]. split; [exact Hv|].
  split; [|exact Max].
  unfold Affil.infer_country.
  destruct text as [|c text'] eqn:Et.
  - exfalso. unfold occurs in Hocc. apply str_in_length in Hocc.
    change (Affil.padded []) with (py " ") in Hocc.
    rewrite !length_app in Hocc. simpl in Hocc. lia.
  - rewrite E, Hv. reflexivity.
Qed.

(** C6. With the lexicon built from any registry and the alias table,
    keys by decreasing length: the answer comes from a longest key that
    occurs between spaces in the padded text, so a key never shadows a
    longer one that is present; and a text where south korea occurs,
    every other occurring key being a part of that phrase, gets the
    canonical name of South Korea. *)
Theorem longest_alias_first (text : str) :
  let t := Affil.padded text in
  (forall k, In k keys_sorted -> occurs k t = true ->
     exists kmax v,
       In kmax keys_sorted /\ occurs kmax t = true
       /\ dict_get name_map kmax = Some v
       /\ Affil.infer_country text name_map keys_sorted = v
       /\ forall k2, In k2 keys_sorted -> occurs k2 t = true ->
            length k2 <= length kmax)
  /\ (occurs (py "south korea") t = true ->
      (forall k, In k keys_sorted -> occurs k t = true ->
         str_in k (py "south korea") = true) ->
      Affil.infer_country text name_map keys_sorted = py "Korea, Republic of").
Proof.
  intros t. subst t.
  destruct keys_sorted_spec as [Hs Hk].
  assert (Hal : In (py "south korea", py "Korea, Republic of") Affil.ALIASES)
    by (simpl; auto 20).
  destruct (@alias_in_lexicon _ _ Hal) as [Hget Hkey].
  change (lower (py "south korea")) with (py "south korea") in Hget, Hkey.
  revert Hs Hk Hget Hkey.
  generalize name_map as nm. generalize keys_sorted as ks.
  intros ks nm Hs Hk Hget Hkey.
  assert (A : forall k, In k ks -> occurs k (Affil.padded text) = true ->
     exists kmax v,
       In kmax ks /\ occurs kmax (Affil.padded text) = true
       /\ dict_get nm kmax = Some v
       /\ Affil.infer_country text nm ks = v
       /\ forall k2, In k2 ks -> occurs k2 (Affil.padded text) = true ->
            length k2 <= length kmax).
  { apply infer_country_longest; [exact Hs|]. intros k Hin. apply Hk. exact Hin. }
  split; [exact A|].
  intros Hsk Honly.
  destruct (A _ Hkey Hsk) as (kmax & v & Hm & Om & Hv & Einf & Max).
  assert (kmax = py "south korea").
  { apply str_in_same_length; [apply Honly; assumption|].
    apply Nat.le_antisymm.
    - apply str_in_length. apply Honly; assumption.
    - apply Max; assumption. }
  subst kmax. congruence.
Qed.

End LexiconFacts.

(* ================================================================== *)
(** * Matching a document to a workbook row *)
(* ================================================================== *)

Section MatcherFacts.

Lemma title_matches_spec (f : Scan.pdf_file) (title : str) :
  Scan.title_matches f title = true <-> title_contained f title.
Proof.
  unfold Scan.title_matches, title_contained, substring.
  rewrite andb_true_iff, orb_true_iff, !str_in_spec.
  destruct title; simpl; intuition congruence.
Qed.

Lemma find_title_row_seq (ws : Xl.sheet) (fn_col : nat) (f : Scan.pdf_file)
    (n a : nat) :
  match Scan.find_title_row ws fn_col f (seq a n) with
  | Some r =>
      a <= r < a + n
      /\ Scan.title_matches f (title_at ws fn_col r) = true
      /\ forall r', a <= r' < r ->
           Scan.title_matches f (title_at ws fn_col r') = false
  | None =>
      forall r', a <= r' < a + n ->
        Scan.title_matches f (title_at ws fn_col r') = false
  end.
Proof.
  revert a. induction n as [|n IH]; intros a; simpl; [intros r' H; lia|].
  fold (title_at ws fn_col a).
  destruct (Scan.title_matches f (title_at ws fn_col a)) eqn:E.
  - split; [lia|]. split; [exact E|]. intros r' H. lia.
  - specialize (IH (S a)).
    destruct (Scan.find_title_row ws fn_col f (seq (S a) n)) as [r|].
    + destruct IH as (R & M & B). split; [lia|]. split; [exact M|].
      intros r' H. destruct (Nat.eq_dec r' a) as [->|Hne]; [exact E|].
      apply B. lia.
    + intros r' H. destruct (Nat.eq_dec r' a) as [->|Hne]; [exact E|].
      apply IH. lia.
Qed.

(** The row found for an identifier is the first one that carries it. *)
Lemma find_row_first (doi_pdf : str) (rows : list (str * nat)) (r : nat) :
  Scan.find_row doi_pdf rows = Some r ->
  exists before after,
    rows = before ++ (doi_pdf, r) :: after
    /\ doi_pdf <> []
    /\ forall d r', In (d, r') before -> d = [] \/ d <> doi_pdf.
Proof.
  induction rows as [|[d r0] rows IH]; simpl; [discriminate|].
  destruct (Scan.nonempty d && str_eqb d doi_pdf) eqn:E.
  - intros H. injection H as <-. apply andb_true_iff in E. destruct E as [N E].
    apply str_eqb_eq in E. subst d. exists [], rows.
    split; [reflexivity|]. split; [destruct doi_pdf; [discriminate|congruence]|].
    intros d r' [].
  - intros H. destruct (IH H) as (before & after & -> & Hne & Hb).
    exists ((d, r0) :: before), after. split; [reflexivity|]. split; [exact Hne|].
    intros d' r' [Ed|Hin]; [|eauto]. injection Ed as <- <-.
    apply andb_false_iff in E. destruct E as [E|E].
    + left. destruct d; [reflexivity|discriminate].
    + right. apply str_eqb_neq. exact E.
Qed.

Lemma match_by_doi_first (index : list (str * list (str * nat)))
    (doi_pdf sheet : str) (r : nat) :
  Scan.match_by_doi index doi_pdf = Some (sheet, r) ->
  exists earlier rows later,
    index = earlier ++ (sheet, rows) :: later
    /\ Scan.find_row doi_pdf rows = Some r
    /\ forall s rs, In (s, rs) earlier -> Scan.find_row doi_pdf rs = None.
Proof.
  induction index as [|[s rows] index IH]; simpl; [discriminate|].
  destruct (Scan.find_row doi_pdf rows) as [r0|] eqn:E.
  - intros H. injection H as <- <-. exists [], rows, index.
    split; [reflexivity|]. split; [exact E|]. intros s' rs [].
  - intros H. destruct (IH H) as (earlier & rows' & later & -> & F & B).
    exists ((s, rows) :: earlier), rows', later.
    split; [reflexivity|]. split; [exact F|].
    intros s' rs [Es|Hin]; [|eauto]. injection Es as <- <-. exact E.
Qed.

(** The statuses the update loop writes to its log. *)
Lemma update_pdf_status (re_compile : str -> outcome (str -> bool))
    (wb wb' : Xl.workbook) (index : list (str * list (str * nat)))
    (month : str) (f : Scan.pdf_file) (row : Scan.log_row) :
  Scan.update_pdf re_compile wb index month f = Returned (wb', row) ->
  In (Scan.log_status row) [py "scan_failed"; py "no_keywords"; py "no_match_in_xlsx"]
  \/ exists sheet r,
       Scan.match_row wb index month f = Returned (Some (sheet, r))
       /\ Scan.log_status row
          = py "updated:" ++ sheet ++ py "!" ++ str_of_N (N.of_nat r).
Proof.
  unfold Scan.update_pdf.
  destruct (Scan.notebook_style_keyword_scan re_compile f Scan.SEARCH_TERMS)
    as [e|[|kw kws]].
  - intros H. injection H as <- <-. left. simpl. auto.
  - intros H. injection H as <- <-. left. simpl. auto.
  - destruct (Scan.match_row wb index month f) as [e|[[sheet r]|]];
      [discriminate| |].
    + destruct (Xl.get_sheet wb sheet) as [ws|]; [|discriminate].
      destruct (Xl.index_of (Xl.header ws) (py "Keywords Matched")) as [i|];
        [|discriminate].
      intros H. injection H as <- <-. right. exists sheet, r.
      split; reflexivity.
    + intros H. injection H as <- <-. left. simpl. auto.
Qed.

(** C1. Two rows of the January sheet carry the identifier
    10.1002/mrm.1 and a document carries it too: the first of the two
    rows (row 2) gets the keywords, the other one is left as it was,
    and the log line says updated:January!2, with no word of the tie. *)
Theorem duplicate_identifier_first_row_unflagged :
  exists wb',
    Scan.update_pdf compile_plain wb_dup (Scan.build_workbook_index wb_dup)
                    (py "January") doc_mrm1
    = Returned (wb', [py "January"; py "paper.pdf"; py "['github']";
                      py "updated:January!2"; py "10.1002/mrm.1"])
    /\ Scan.match_row wb_dup (Scan.build_workbook_index wb_dup)
                      (py "January") doc_mrm1
       = Returned (Some (py "January", 2))
    /\ Scan.find_row (py "10.1002/mrm.1")
         [(py "10.1002/mrm.1", 2); (py "10.1002/mrm.1", 3)] = Some 2
    /\ option_map (fun ws => (Xl.cell_value ws 2 3, Xl.cell_value ws 3 3))
                  (Xl.get_sheet wb' (py "January"))
       = Some (Some (py "['github']"), Some (py "[]"))
    /\ str_in (py "ambiguous") (py "updated:January!2") = false.
Proof.
  eexists. split; [vm_compute; reflexivity|].
  split; [vm_compute; reflexivity|].
  split; [vm_compute; reflexivity|].
  split; vm_compute; reflexivity.
Qed.

(** C2, as the specification states it, fails: the file smith2024.pdf
    without identifier is not matched to the row titled Smith 2024 of
    its month sheet (neither text is a block of the other), nor to the
    row titled smith2024 of another sheet. *)
Lemma smith2024_not_matched :
  Scan.doi_in_pdf doc_smith = []
  /\ Scan.title_matches doc_smith (py "Smith 2024") = false
  /\ Scan.match_row wb_smith (Scan.build_workbook_index wb_smith)
                    (py "January") doc_smith = Returned None
  /\ exists wb',
       Scan.update_pdf compile_plain wb_smith (Scan.build_workbook_index wb_smith)
                       (py "January") doc_smith
       = Returned (wb', [py "January"; py "smith2024.pdf"; py "['github', 'shared', ' code ']";
                         py "no_match_in_xlsx"; []]).
Proof.
  split; [vm_compute; reflexivity|].
  split; [vm_compute; reflexivity|].
  split; [vm_compute; reflexivity|].
  eexists. vm_compute. reflexivity.
Qed.

(** C2, amended. A document without identifier is matched within the
    sheet of its month folder only.  When the workbook has no such
    sheet it is matched to nothing.  When the header row of the sheet
    has no Filename cell, the lookup of the column raises ValueError,
    and so does the turn of the update loop for a document in which a
    term was found.  Otherwise the document is matched to the first
    data row whose title is not empty and, case apart, is a block of
    the file name or has the file stem as a block, and to nothing when
    no row of the sheet is such. *)
Theorem no_identifier_title_match
    (wb : Xl.workbook) (index : list (str * list (str * nat)))
    (month : str) (f : Scan.pdf_file) :
  Scan.doi_in_pdf f = [] ->
  match Xl.get_sheet wb month with
  | None => Scan.match_row wb index month f = Returned None
  | Some ws =>
      match Xl.index_of (Xl.header ws) (py "Filename") with
      | None =>
          Scan.match_row wb index month f = Raised (py "ValueError")
          /\ forall re_compile kw kws,
               Scan.notebook_style_keyword_scan re_compile f Scan.SEARCH_TERMS
               = Returned (kw :: kws) ->
               Scan.update_pdf re_compile wb index month f = Raised (py "ValueError")
      | Some i =>
          (exists r,
              Scan.match_row wb index month f = Returned (Some (month, r))
              /\ 2 <= r <= Xl.max_row ws
              /\ title_contained f (title_at ws (i + 1) r)
              /\ forall r', 2 <= r' < r -> ~ title_contained f (title_at ws (i + 1) r'))
          \/ (Scan.match_row wb index month f = Returned None
              /\ forall r, 2 <= r <= Xl.max_row ws ->
                   ~ title_contained f (title_at ws (i + 1) r))
      end
  end.
Proof.
  intros Hdoi.
  assert (Hrow : Scan.match_row wb index month f = Scan.match_by_title wb month f).
  { unfold Scan.match_row. rewrite Hdoi. reflexivity. }
  unfold Scan.match_by_title in Hrow.
  destruct (Xl.get_sheet wb month) as [ws|]; [|exact Hrow].
  destruct (Xl.index_of (Xl.header ws) (py "Filename")) as [i|].
  - rewrite Hrow. unfold Scan.data_rows.
    pose proof (find_title_row_seq ws (i + 1) f (Xl.max_row ws - 1) 2) as F.
    destruct (Scan.find_title_row ws (i + 1) f (seq 2 (Xl.max_row ws - 1))) as [r|].
    + left. destruct F as (R & M & B). exists r.
      split; [reflexivity|]. split; [lia|]. split; [apply title_matches_spec; exact M|].
      intros r' H C. apply title_matches_spec in C. rewrite B in C; [discriminate|lia].
    + right. split; [reflexivity|].
      intros r H C. apply title_matches_spec in C. rewrite F in C; [discriminate|lia].
  - split; [exact Hrow|].
    intros re_compile kw kws Hscan. unfold Scan.update_pdf.
    rewrite Hscan, Hrow. reflexivity.
Qed.

End MatcherFacts.

(* ================================================================== *)
(** * The matcher: how repetition and search behave *)
(* ================================================================== *)

Section MatcherBasics.

Lemma rev_cons_app (c : ascii) (l b : list ascii) :
  rev (c :: l) ++ b = rev l ++ c :: b.
Proof. simpl. rewrite <- app_assoc. reflexivity. Qed.

Lemma takewhile_dropwhile (p : ascii -> bool) (s : str) :
  takewhile p s ++ dropwhile p s = s.
Proof.
  induction s as [|c s IH]; simpl; [reflexivity|].
  destruct (p c); simpl; [f_equal; exact IH|reflexivity].
Qed.

Lemma takewhile_forall (p : ascii -> bool) (s : str) :
  forallb p (takewhile p s) = true.
Proof.
  induction s as [|c s IH]; simpl; [reflexivity|].
  destruct (p c) eqn:E; simpl; [rewrite E; exact IH|reflexivity].
Qed.

Lemma dropwhile_head (p : ascii -> bool) (s : str) :
  head_is p (dropwhile p s) = false.
Proof.
  induction s as [|c s IH]; simpl; [reflexivity|].
  destruct (p c) eqn:E; simpl; [exact IH|exact E].
Qed.

(** A repetition whose head is not in the class stops at once. *)
Lemma rep_stop {R : Type} (p : ascii -> bool) (lo : nat) (hi : option nat)
    (n : nat) (before rest : list ascii)
    (k : list ascii -> list ascii -> option R) :
  head_is p rest = false ->
  rep p lo hi n before rest k = if lo <=? n then k before rest else None.
Proof. destruct rest as [|c rest]; simpl; [reflexivity|]. intros ->. reflexivity. Qed.

(** Greedy repetition: when what follows accepts the whole run, that
    is the match. *)
Lemma rep_greedy {R : Type} (p : ascii -> bool) (lo : nat)
    (k : list ascii -> list ascii -> option R) (x : R) :
  forall rest n before,
    k (rev (takewhile p rest) ++ before) (dropwhile p rest) = Some x ->
    lo <= n + length (takewhile p rest) ->
    rep p lo None n before rest k = Some x.
Proof.
  induction rest as [|c rest IH]; intros n before Hk Hlo; simpl in *.
  - rewrite Nat.add_0_r in Hlo. apply Nat.leb_le in Hlo. rewrite Hlo. exact Hk.
  - destruct (p c) eqn:E; simpl in *.
    + rewrite (IH (S n) (c :: before)); [reflexivity| |lia].
      rewrite <- app_assoc in Hk. exact Hk.
    + rewrite Nat.add_0_r in Hlo. apply Nat.leb_le in Hlo. rewrite Hlo. exact Hk.
Qed.

(** Repetition before something that cannot start inside the class:
    the whole run is taken, when its length is within the bounds. *)
Lemma rep_run {R : Type} (p : ascii -> bool) (lo : nat) (hi : option nat)
    (k : list ascii -> list ascii -> option R) :
  (forall b r, head_is p r = true -> k b r = None) ->
  forall rest n before,
    (match hi with Some h => n <= h | None => True end) ->
    rep p lo hi n before rest k =
    if (lo <=? n + length (takewhile p rest))
       && match hi with
          | Some h => n + length (takewhile p rest) <=? h
          | None => true
          end
    then k (rev (takewhile p rest) ++ before) (dropwhile p rest)
    else None.
Proof.
  intros Hk. induction rest as [|c rest IH]; intros n before Hn.
  - simpl. rewrite Nat.add_0_r.
    destruct hi as [h|]; [|rewrite andb_true_r; reflexivity].
    apply Nat.leb_le in Hn. rewrite Hn, andb_true_r. reflexivity.
  - simpl. destruct (p c) eqn:E; simpl.
    + assert (Hstop : (if lo <=? n then k before (c :: rest) else None) = None).
      { rewrite Hk; [destruct (lo <=? n); reflexivity|exact E]. }
      rewrite Hstop. unfold below.
      destruct hi as [h|].
      * destruct (n <? h) eqn:Eh.
        -- apply Nat.ltb_lt in Eh. rewrite IH by lia.
           rewrite <- app_assoc. cbn [Nat.add app]. rewrite !Nat.add_succ_r.
           destruct (_ && _); [|reflexivity].
           destruct (k (rev (takewhile p rest) ++ c :: before) (dropwhile p rest));
             reflexivity.
        -- apply Nat.ltb_ge in Eh.
           replace (n + S (length (takewhile p rest)) <=? h) with false.
           ++ rewrite andb_false_r. reflexivity.
           ++ symmetry. apply Nat.leb_gt. lia.
      * rewrite IH by exact I. rewrite <- app_assoc.
        cbn [Nat.add app]. rewrite !Nat.add_succ_r.
        destruct (_ && _); [|reflexivity].
        destruct (k (rev (takewhile p rest) ++ c :: before) (dropwhile p rest));
          reflexivity.
    + rewrite Nat.add_0_r.
      destruct hi as [h|]; [|rewrite andb_true_r; reflexivity].
      apply Nat.leb_le in Hn. rewrite Hn, andb_true_r. reflexivity.
Qed.

Lemma slice_mid (x y z : str) :
  slice (length x) (length x + length y) (x ++ y ++ z) = y.
Proof.
  unfold slice. rewrite skipn_app, skipn_all, Nat.sub_diag. simpl.
  replace (length x + length y - length x) with (length y) by lia.
  rewrite firstn_app, firstn_all, Nat.sub_diag. simpl. apply app_nil_r.
Qed.

(** The text between two cursor positions of one subject. *)
Lemma slice_cursor (before mid rest : list ascii) :
  slice (length before) (length (rev mid ++ before)) (rev before ++ mid ++ rest)
  = mid.
Proof.
  rewrite length_app, length_rev, Nat.add_comm.
  rewrite <- (length_rev before). apply slice_mid.
Qed.

End MatcherBasics.

(* ================================================================== *)
(** * The text normalizer *)
(* ================================================================== *)

Section NormalizerFacts.

Lemma for_all_chars_spec (f : ascii -> bool) :
  for_all_chars f = true -> forall c, f c = true.
Proof.
  unfold for_all_chars. rewrite forallb_forall. intros H c. apply H.
  unfold all_chars. apply in_map_iff. exists (nat_of_ascii c). split.
  - apply ascii_nat_embedding.
  - apply in_seq. pose proof (nat_ascii_bounded c). lia.
Qed.

Lemma digit_not_letter (c : ascii) : is_digit c = true -> is_letter c = false.
Proof.
  pose proof (for_all_chars_spec (fun c => negb (is_digit c && is_letter c))
                eq_refl c) as H.
  simpl in H. intros E. rewrite E in H. simpl in H.
  apply negb_true_iff in H. exact H.
Qed.

Lemma digit_not_space (c : ascii) : is_digit c = true -> is_space c = false.
Proof.
  pose proof (for_all_chars_spec (fun c => negb (is_digit c && is_space c))
                eq_refl c) as H.
  simpl in H. intros E. rewrite E in H. simpl in H.
  apply negb_true_iff in H. exact H.
Qed.

Lemma letter_not_space (c : ascii) : is_letter c = true -> is_space c = false.
Proof.
  pose proof (for_all_chars_spec (fun c => negb (is_letter c && is_space c))
                eq_refl c) as H.
  simpl in H. intros E. rewrite E in H. simpl in H.
  apply negb_true_iff in H. exact H.
Qed.

Lemma letter_not_digit (c : ascii) : is_letter c = true -> is_digit c = false.
Proof.
  intros E. destruct (is_digit c) eqn:D; [|reflexivity].
  apply digit_not_letter in D. congruence.
Qed.

(** *** The three substitutions, as plain functions *)

Lemma match_at_ws (before rest : list ascii) :
  match_at Sort.WS_RUN before rest =
  if head_is is_space rest
  then Some (length before + length (takewhile is_space rest), [])
  else None.
Proof.
  unfold match_at, Sort.WS_RUN, plus. cbn [exec consumed remaining spans].
  destruct (head_is is_space rest) eqn:E.
  - erewrite rep_greedy; [reflexivity| |].
    + cbn [consumed spans]. rewrite length_app, length_rev, Nat.add_comm.
      reflexivity.
    + destruct rest as [|c rest]; [discriminate|]. simpl in E. simpl.
      rewrite E. simpl. lia.
  - rewrite rep_stop by exact E. reflexivity.
Qed.

Lemma sub_ws (s : str) (rest : list ascii) :
  forall before,
    sub_from Sort.WS_RUN [TLit (py " ")] s 0 before rest = squeeze false rest
    /\ sub_from Sort.WS_RUN [TLit (py " ")] s
                (length (takewhile is_space rest)) before rest
       = squeeze true rest.
Proof.
  induction rest as [|c rest IH]; intros before.
  - split; reflexivity.
  - destruct (IH (c :: before)) as [IH0 IH1].
    assert (P0 : sub_from Sort.WS_RUN [TLit (py " ")] s 0 before (c :: rest)
                 = squeeze false (c :: rest)).
    { cbn [sub_from]. rewrite match_at_ws. cbn [head_is squeeze takewhile].
      destruct (is_space c) eqn:E.
      - cbn [mk_match m_end m_start fst snd length].
        replace (length before + S (length (takewhile is_space rest)) - length before)
          with (S (length (takewhile is_space rest))) by lia.
        rewrite IH1. reflexivity.
      - rewrite IH0. reflexivity. }
    split; [exact P0|].
    cbn [takewhile squeeze]. destruct (is_space c) eqn:E.
    + cbn [length sub_from]. exact IH1.
    + cbn [length]. rewrite P0. cbn [squeeze]. rewrite E. reflexivity.
Qed.

Lemma re_sub_ws (s : str) :
  re_sub Sort.WS_RUN [TLit (py " ")] s = squeeze false s.
Proof. unfold re_sub. apply sub_ws. Qed.

End NormalizerFacts.

Section PairSubstitution.

Variables p q : ascii -> bool.

Lemma match_at_pair (before rest : list ascii) :
  match_at (PAIR p q) before rest =
  match rest with
  | a :: b :: _ =>
      if p a && q b
      then Some (S (S (length before)),
                 [(2, (S (length before), S (S (length before))));
                  (1, (length before, S (length before)))])
      else None
  | _ => None
  end.
Proof.
  unfold match_at, PAIR. cbn [exec consumed remaining spans].
  destruct rest as [|a [|b rest]]; [reflexivity| |].
  - destruct (p a); reflexivity.
  - destruct (p a); [|reflexivity]. cbn [consumed remaining spans length].
    destruct (q b); reflexivity.
Qed.

Lemma slice_first (before : list ascii) (a : ascii) (z : list ascii) :
  slice (length before) (S (length before)) (rev before ++ a :: z) = [a].
Proof.
  pose proof (slice_mid (rev before) [a] z) as H.
  rewrite length_rev in H. simpl in H.
  replace (length before + 1) with (S (length before)) in H by lia. exact H.
Qed.

Lemma slice_second (before : list ascii) (a b : ascii) (z : list ascii) :
  slice (S (length before)) (S (S (length before))) (rev before ++ a :: b :: z) = [b].
Proof.
  pose proof (slice_first (a :: before) b z) as H.
  simpl in H. rewrite <- app_assoc in H. exact H.
Qed.

Lemma sub_pair (s : str) (n : nat) :
  forall rest before,
    length rest <= n ->
    s = rev before ++ rest ->
    sub_from (PAIR p q) Sort.SPACED s 0 before rest = space_between p q rest.
Proof.
  induction n as [|n IH]; intros rest before Hn Hs.
  - destruct rest; [reflexivity|simpl in Hn; lia].
  - destruct rest as [|a rest]; [reflexivity|].
    cbn [sub_from]. rewrite match_at_pair.
    destruct rest as [|b rest].
    + reflexivity.
    + cbn [space_between]. destruct (p a && q b).
      * cbn [mk_match m_end m_start fst snd].
        replace (S (S (length before)) - length before) with 2 by lia.
        cbn [sub_from].
        rewrite (IH rest (b :: a :: before)).
        -- unfold Sort.SPACED, expand, group, mk_match.
           cbn [flat_map m_spans assoc_nat Nat.eqb m_string fst snd].
           rewrite Hs, slice_first, slice_second. reflexivity.
        -- simpl in Hn. lia.
        -- rewrite Hs. simpl. rewrite <- !app_assoc. reflexivity.
      * rewrite (IH (b :: rest) (a :: before)); [reflexivity| |].
        -- simpl in *. lia.
        -- rewrite Hs. simpl. rewrite <- app_assoc. reflexivity.
Qed.

Lemma re_sub_pair (s : str) :
  re_sub (PAIR p q) Sort.SPACED s = space_between p q s.
Proof. unfold re_sub. apply sub_pair with (n := length s); [lia|reflexivity]. Qed.

Lemma space_between_cons2 (a b : ascii) (s : str) :
  space_between p q (a :: b :: s)
  = if p a && q b
    then a :: " "%char :: b :: space_between p q s
    else a :: space_between p q (b :: s).
Proof. reflexivity. Qed.

(** *** What the insertion of spaces keeps and makes *)

Hypothesis q_not_p : forall c, q c = true -> p c = false.

Lemma space_between_head (s : str) :
  hd_error (space_between p q s) = hd_error s.
Proof.
  destruct s as [|a [|b s]]; try reflexivity.
  rewrite space_between_cons2. destruct (p a && q b); reflexivity.
Qed.

Lemma chain_cons (R : ascii -> ascii -> bool) (a : ascii) (s : str) :
  chain R (a :: s)
  = match hd_error s with Some b => R a b | None => true end && chain R s.
Proof. destruct s; reflexivity. Qed.

Lemma space_between_plain (s : str) :
  forallb plain_space s = true -> forallb plain_space (space_between p q s) = true.
Proof.
  assert (G : forall n s, length s <= n ->
            forallb plain_space s = true ->
            forallb plain_space (space_between p q s) = true).
  { clear s. induction n as [|n IH]; intros s Hn H.
    - destruct s; [reflexivity|simpl in Hn; lia].
    - destruct s as [|a [|b s]]; [reflexivity|exact H|].
      rewrite space_between_cons2. simpl in H, Hn.
      apply andb_true_iff in H. destruct H as [Ha H].
      apply andb_true_iff in H. destruct H as [Hb H].
      destruct (p a && q b); cbn [forallb].
      + rewrite Ha, Hb. change (plain_space " "%char) with true. cbn [andb].
        apply IH; [lia|exact H].
      + rewrite Ha. cbn [andb]. apply IH; [simpl; lia|].
        cbn [forallb]. rewrite Hb. exact H. }
  apply G with (n := length s). lia.
Qed.

(** A relation on neighbours that the inserted space satisfies stays. *)
Lemma space_between_chain (R : ascii -> ascii -> bool) (s : str) :
  (forall a b, p a = true -> q b = true ->
     R a " "%char = true /\ R " "%char b = true) ->
  chain R s = true -> chain R (space_between p q s) = true.
Proof.
  intros HR.
  assert (G : forall n s, length s <= n ->
            chain R s = true -> chain R (space_between p q s) = true).
  { clear s. induction n as [|n IH]; intros s Hn H.
    - destruct s; [reflexivity|simpl in Hn; lia].
    - destruct s as [|a [|b s]]; [reflexivity|reflexivity|].
      rewrite space_between_cons2. rewrite chain_cons in H. cbn [hd_error] in H.
      apply andb_true_iff in H. destruct H as [Hab H].
      destruct (p a && q b) eqn:E.
      + apply andb_true_iff in E. destruct E as [Ea Eb].
        destruct (HR a b Ea Eb) as [R1 R2].
        rewrite chain_cons. cbn [hd_error]. rewrite R1. cbn [andb].
        rewrite chain_cons. cbn [hd_error]. rewrite R2. cbn [andb].
        rewrite chain_cons, space_between_head.
        rewrite chain_cons in H. apply andb_true_iff in H. destruct H as [H1 H2].
        rewrite H1. cbn [andb negb]. apply IH; [simpl in Hn; lia|exact H2].
      + rewrite chain_cons, space_between_head. cbn [hd_error].
        rewrite Hab. cbn [andb negb]. apply IH; [simpl in *; lia|exact H]. }
  apply G with (n := length s). lia.
Qed.

(** After the insertion no [p] character touches a [q] character. *)
Lemma space_between_apart (s : str) :
  p " "%char = false -> q " "%char = false ->
  chain (fun a b => negb (p a && q b)) (space_between p q s) = true.
Proof.
  intros Hp Hq.
  assert (G : forall n s, length s <= n ->
            chain (fun a b => negb (p a && q b)) (space_between p q s) = true).
  { clear s. induction n as [|n IH]; intros s Hn.
    - destruct s; [reflexivity|simpl in Hn; lia].
    - destruct s as [|a [|b s]]; [reflexivity|reflexivity|].
      rewrite space_between_cons2. destruct (p a && q b) eqn:E.
      + apply andb_true_iff in E. destruct E as [Ea Eb].
        rewrite chain_cons. cbn [hd_error]. rewrite Hq, andb_false_r. cbn [andb negb].
        rewrite chain_cons. cbn [hd_error]. rewrite Hp. cbn [andb negb].
        rewrite chain_cons, space_between_head.
        rewrite (@q_not_p _ Eb). cbn [andb negb].
        replace (match hd_error s with Some _ => true | None => true end) with true
          by (destruct (hd_error s); reflexivity).
        cbn [andb negb]. apply IH. simpl in Hn. lia.
      + rewrite chain_cons, space_between_head. cbn [hd_error].
        rewrite E. cbn [andb negb]. apply IH. simpl in *. lia. }
  apply G with (n := length s). lia.
Qed.

Lemma space_between_id (s : str) :
  chain (fun a b => negb (p a && q b)) s = true -> space_between p q s = s.
Proof.
  induction s as [|a s IH]; [reflexivity|].
  intros H. rewrite chain_cons in H. apply andb_true_iff in H.
  destruct H as [Hab H]. destruct s as [|b s]; [reflexivity|].
  cbn [hd_error] in Hab. apply negb_true_iff in Hab.
  rewrite space_between_cons2. rewrite Hab. f_equal. apply IH. exact H.
Qed.

End PairSubstitution.

Section NormalizerIdempotent.

Lemma head_is_hd (p : ascii -> bool) (s : str) :
  head_is p s = match hd_error s with Some c => p c | None => false end.
Proof. destruct s; reflexivity. Qed.

(** *** The squeeze of whitespace runs *)

Lemma squeeze_plain (s : str) (b : bool) : forallb plain_space (squeeze b s) = true.
Proof.
  revert b. induction s as [|c s IH]; intros b; simpl; [reflexivity|].
  destruct (is_space c) eqn:E.
  - destruct b; simpl; auto.
  - simpl. unfold plain_space at 1. rewrite E. simpl. auto.
Qed.

Lemma squeeze_head (s : str) : head_is is_space (squeeze true s) = false.
Proof.
  induction s as [|c s IH]; simpl; [reflexivity|].
  destruct (is_space c) eqn:E; [exact IH|]. simpl. exact E.
Qed.

Lemma squeeze_chain (s : str) (b : bool) : chain no_space_pair (squeeze b s) = true.
Proof.
  revert b. induction s as [|c s IH]; intros b; simpl; [reflexivity|].
  destruct (is_space c) eqn:E.
  - destruct b; [apply IH|].
    rewrite chain_cons, IH, andb_true_r.
    pose proof (squeeze_head s) as H. rewrite head_is_hd in H.
    destruct (hd_error (squeeze true s)); [|reflexivity].
    unfold no_space_pair. rewrite H, andb_false_r. reflexivity.
  - rewrite chain_cons, IH, andb_true_r.
    destruct (hd_error (squeeze false s)); [|reflexivity].
    unfold no_space_pair. rewrite E. reflexivity.
Qed.

Lemma plain_space_eq (c : ascii) :
  plain_space c = true -> is_space c = true -> c = " "%char.
Proof.
  unfold plain_space, is_char. intros H E. rewrite E in H. cbn [negb orb] in H.
  apply Ascii.eqb_eq in H. congruence.
Qed.

Lemma squeeze_id (s : str) (b : bool) :
  forallb plain_space s = true -> chain no_space_pair s = true ->
  (b = true -> head_is is_space s = false) ->
  squeeze b s = s.
Proof.
  revert b. induction s as [|c s IH]; intros b Hp Hc Hb; [reflexivity|].
  simpl in Hp. apply andb_true_iff in Hp. destruct Hp as [Hpc Hp].
  rewrite chain_cons in Hc. apply andb_true_iff in Hc. destruct Hc as [Hcc Hc].
  simpl. destruct (is_space c) eqn:E.
  - destruct b; [specialize (Hb eq_refl); simpl in Hb; congruence|].
    rewrite (plain_space_eq _ Hpc E). f_equal. apply IH; auto.
    intros _. rewrite head_is_hd. destruct (hd_error s); [|reflexivity].
    unfold no_space_pair in Hcc. rewrite E in Hcc. simpl in Hcc.
    apply negb_true_iff in Hcc. exact Hcc.
  - f_equal. apply IH; auto. discriminate.
Qed.

(** *** Replacing the no-break space and the tab *)

Lemma replace_char_id (old : ascii) (s : str) :
  is_space old = true -> old <> " "%char ->
  forallb plain_space s = true -> replace_char old " " s = s.
Proof.
  intros Ho Hne. induction s as [|c s IH]; [reflexivity|].
  simpl. intros H. apply andb_true_iff in H. destruct H as [Hc H].
  rewrite (IH H). destruct (Ascii.eqb c old) eqn:E; [|reflexivity].
  apply Ascii.eqb_eq in E. subst c.
  exfalso. apply Hne. apply plain_space_eq; assumption.
Qed.

(** *** Stripping *)

Lemma dropwhile_snoc (p : ascii -> bool) (l : list ascii) (c : ascii) :
  p c = false -> dropwhile p (l ++ [c]) = dropwhile p l ++ [c].
Proof.
  intros Hc. induction l as [|x l IH]; simpl; [rewrite Hc; reflexivity|].
  destruct (p x); [exact IH|reflexivity].
Qed.

Lemma rstrip_cons (c : ascii) (s : str) :
  is_space c = false -> rstrip (c :: s) = c :: rstrip s.
Proof.
  intros Hc. unfold rstrip. simpl. rewrite dropwhile_snoc by exact Hc.
  rewrite rev_app_distr. reflexivity.
Qed.

Lemma rstrip_prefix (s : str) : exists tail, s = rstrip s ++ tail.
Proof.
  unfold rstrip. exists (rev (takewhile is_space (rev s))).
  rewrite <- rev_app_distr, takewhile_dropwhile. symmetry. apply rev_involutive.
Qed.

Lemma lstrip_suffix (s : str) : exists front, s = front ++ lstrip s.
Proof.
  exists (takewhile is_space s). symmetry. apply takewhile_dropwhile.
Qed.

Lemma rstrip_last (s : str) : head_is is_space (rev (rstrip s)) = false.
Proof. unfold rstrip. rewrite rev_involutive. apply dropwhile_head. Qed.

Lemma strip_head (s : str) : head_is is_space (strip s) = false.
Proof.
  unfold strip. pose proof (dropwhile_head is_space s) as H. fold (lstrip s) in H.
  destruct (lstrip s) as [|c t]; [reflexivity|]. simpl in H.
  rewrite rstrip_cons by exact H. exact H.
Qed.

Lemma strip_id (s : str) :
  head_is is_space s = false -> head_is is_space (rev s) = false -> strip s = s.
Proof.
  intros H1 H2. unfold strip, lstrip, rstrip.
  rewrite (dropwhile_none _ _ H1), (dropwhile_none _ _ H2). apply rev_involutive.
Qed.

Lemma chain_app_l (R : ascii -> ascii -> bool) (x y : str) :
  chain R (x ++ y) = true -> chain R x = true.
Proof.
  induction x as [|a x IH]; [reflexivity|].
  simpl app. rewrite !chain_cons. intros H. apply andb_true_iff in H.
  destruct H as [H1 H2]. rewrite (IH H2), andb_true_r.
  destruct x; [reflexivity|exact H1].
Qed.

Lemma chain_app_r (R : ascii -> ascii -> bool) (x y : str) :
  chain R (x ++ y) = true -> chain R y = true.
Proof.
  induction x as [|a x IH]; [auto|].
  simpl app. rewrite chain_cons. intros H. apply andb_true_iff in H.
  destruct H as [_ H]. auto.
Qed.

Lemma strip_chain (R : ascii -> ascii -> bool) (s : str) :
  chain R s = true -> chain R (strip s) = true.
Proof.
  intros H. unfold strip.
  destruct (lstrip_suffix s) as [front Hf].
  destruct (rstrip_prefix (lstrip s)) as [tail Ht].
  rewrite Hf in H. apply chain_app_r in H.
  rewrite Ht in H. apply chain_app_l in H. exact H.
Qed.

Lemma strip_plain (s : str) :
  forallb plain_space s = true -> forallb plain_space (strip s) = true.
Proof.
  intros H. unfold strip.
  destruct (lstrip_suffix s) as [front Hf].
  destruct (rstrip_prefix (lstrip s)) as [tail Ht].
  rewrite Hf, forallb_app in H. apply andb_true_iff in H. destruct H as [_ H].
  rewrite Ht, forallb_app in H. apply andb_true_iff in H. destruct H as [H _].
  exact H.
Qed.

(** *** The normalizer *)

Lemma DIGIT_LETTER_is_pair : Sort.DIGIT_LETTER = PAIR is_digit is_letter.
Proof. reflexivity. Qed.

Lemma LETTER_DIGIT_is_pair : Sort.LETTER_DIGIT = PAIR is_letter is_digit.
Proof. reflexivity. Qed.

(** The normalizer as a composition of plain functions. *)
Lemma normalize_eq (text : str) :
  Sort.normalize_text_for_dates text =
  match text with
  | [] => []
  | _ =>
      strip (space_between is_letter is_digit
              (space_between is_digit is_letter
                (squeeze false
                  (replace_char "009" " " (replace_char "160" " " text)))))
  end.
Proof.
  unfold Sort.normalize_text_for_dates. destruct text as [|c t]; [reflexivity|].
  rewrite re_sub_ws, DIGIT_LETTER_is_pair, LETTER_DIGIT_is_pair, !re_sub_pair.
  reflexivity.
Qed.

(** Normalized text is tidy. *)
Lemma normalize_tidy (text : str) : tidy (Sort.normalize_text_for_dates text) = true.
Proof.
  rewrite normalize_eq. destruct text as [|c t]; [reflexivity|].
  set (s0 := replace_char "009" " " (replace_char "160" " " (c :: t))).
  set (s1 := squeeze false s0).
  set (s2 := space_between is_digit is_letter s1).
  set (s3 := space_between is_letter is_digit s2).
  assert (P1 : forallb plain_space s1 = true) by apply squeeze_plain.
  assert (C1 : chain no_space_pair s1 = true) by apply squeeze_chain.
  assert (P2 : forallb plain_space s2 = true) by (apply space_between_plain; exact P1).
  assert (P3 : forallb plain_space s3 = true) by (apply space_between_plain; exact P2).
  assert (C2 : chain no_space_pair s2 = true).
  { apply space_between_chain; [|exact C1]. intros a b Ha Hb.
    unfold no_space_pair. rewrite (digit_not_space _ Ha), (letter_not_space _ Hb).
    split; reflexivity. }
  assert (C3 : chain no_space_pair s3 = true).
  { apply space_between_chain; [|exact C2]. intros a b Ha Hb.
    unfold no_space_pair. rewrite (letter_not_space _ Ha), (digit_not_space _ Hb).
    split; reflexivity. }
  assert (D2 : chain no_digit_letter s2 = true).
  { apply space_between_apart; [apply letter_not_digit|reflexivity|reflexivity]. }
  assert (D3 : chain no_digit_letter s3 = true).
  { apply space_between_chain; [|exact D2]. intros a b Ha Hb.
    unfold no_digit_letter. split; [rewrite andb_false_r|]; reflexivity. }
  assert (L3 : chain no_letter_digit s3 = true).
  { apply space_between_apart; [apply digit_not_letter|reflexivity|reflexivity]. }
  unfold tidy.
  rewrite (strip_plain _ P3), (strip_chain _ _ C3), (strip_chain _ _ D3),
    (strip_chain _ _ L3), strip_head.
  unfold strip at 1. rewrite rstrip_last. reflexivity.
Qed.

(** Tidy text is left as it is. *)
Lemma normalize_fixed (s : str) :
  tidy s = true -> Sort.normalize_text_for_dates s = s.
Proof.
  unfold tidy. rewrite !andb_true_iff, !negb_true_iff.
  intros [[[[[P C] D] L] H1] H2].
  rewrite normalize_eq. destruct s as [|c t] eqn:Es; [reflexivity|].
  rewrite <- Es in *. clear Es.
  rewrite (replace_char_id (old := "160")); [|reflexivity|discriminate|exact P].
  rewrite (replace_char_id (old := "009")); [|reflexivity|discriminate|exact P].
  rewrite (@squeeze_id s false P C) by discriminate.
  rewrite (@space_between_id is_digit is_letter s D).
  rewrite (@space_between_id is_letter is_digit s L).
  apply strip_id; assumption.
Qed.

(** C7. The text normalizer is idempotent, and the empty text is
    normalized to the empty text (it is a total function). *)
Theorem normalize_idempotent (x : str) :
  Sort.normalize_text_for_dates (Sort.normalize_text_for_dates x)
  = Sort.normalize_text_for_dates x
  /\ Sort.normalize_text_for_dates [] = [].
Proof.
  split; [|reflexivity]. apply normalize_fixed. apply normalize_tidy.
Qed.

End NormalizerIdempotent.

(* ================================================================== *)
(** * The identifier extractor *)
(* ================================================================== *)

Section DoiFacts.

Lemma word_is_body (c : ascii) : is_word c = true -> Sort.doi_body c = true.
Proof.
  pose proof (for_all_chars_spec (fun c => negb (is_word c) || Sort.doi_body c)
                eq_refl c) as H.
  cbv beta in H. intros E. rewrite E in H. exact H.
Qed.

Lemma digit_not_slash (c : ascii) : is_digit c = true -> is_char "/" c = false.
Proof.
  pose proof (for_all_chars_spec (fun c => negb (is_digit c && is_char "/" c))
                eq_refl c) as H.
  cbv beta in H. intros E. rewrite E in H. apply negb_true_iff in H. exact H.
Qed.

Lemma closing_not_word (c : ascii) :
  is_word c = true -> one_of (py ").,;]") c = false.
Proof.
  pose proof (for_all_chars_spec
                (fun c => negb (is_word c && one_of (py ").,;]") c)) eq_refl c) as H.
  cbv beta in H. intros E. rewrite E in H. apply negb_true_iff in H. exact H.
Qed.

Lemma rtrim_word_cons (c : ascii) (s : str) :
  rtrim_word (c :: s)
  = match rtrim_word s with
    | [] => if is_word c then [c] else []
    | t => c :: t
    end.
Proof. reflexivity. Qed.

(** The trimmed text is a prefix, ends in a word character, and what
    is cut off has no word character. *)
Lemma rtrim_word_spec (s : str) :
  exists tail,
    s = rtrim_word s ++ tail
    /\ forallb (fun c => negb (is_word c)) tail = true
    /\ head_is is_word (rev (rtrim_word s)) = negb (Sort.is_empty (rtrim_word s)).
Proof.
  induction s as [|c s IH]; [exists []; auto|].
  destruct IH as (tail & Hs & Ht & Hl). rewrite rtrim_word_cons.
  destruct (rtrim_word s) as [|x t] eqn:E.
  - simpl in Hs. subst tail. destruct (is_word c) eqn:W.
    + exists s. simpl. rewrite W. auto.
    + exists (c :: s). simpl. rewrite W, Ht. auto.
  - exists tail. split; [simpl; rewrite Hs at 1; reflexivity|]. split; [exact Ht|].
    simpl in *. rewrite head_is_hd in *.
    destruct (rev t ++ [x]) eqn:R; [destruct (rev t); discriminate|].
    simpl. exact Hl.
Qed.

Lemma rtrim_nil_head (r : str) :
  rtrim_word (takewhile Sort.doi_body r) = [] -> head_is is_word r = false.
Proof.
  destruct r as [|c r]; [reflexivity|]. simpl.
  destruct (Sort.doi_body c) eqn:B.
  - rewrite rtrim_word_cons.
    destruct (rtrim_word (takewhile Sort.doi_body r)); [|discriminate].
    destruct (is_word c); [discriminate|reflexivity].
  - intros _. destruct (is_word c) eqn:W; [|reflexivity].
    apply word_is_body in W. congruence.
Qed.

(** The allowed characters followed by a word boundary: the run is
    taken up to its last word character. *)
Lemma rep_body_boundary (r : list ascii) :
  forall n b,
    rep Sort.doi_body 1 None n b r
        (fun b' r' => if boundary b' r' then Some (length b', []) else None)
    = match rtrim_word (takewhile Sort.doi_body r) with
      | [] => if (1 <=? n) && boundary b r
              then Some (length b, @nil (nat * (nat * nat))) else None
      | body => Some (length b + length body, [])
      end.
Proof.
  induction r as [|c r IH]; intros n b.
  - simpl. destruct n; reflexivity.
  - cbn [rep takewhile]. destruct (Sort.doi_body c) eqn:B; cbn [andb below].
    + rewrite IH, rtrim_word_cons.
      destruct (rtrim_word (takewhile Sort.doi_body r)) as [|x t] eqn:E.
      * apply rtrim_nil_head in E.
        unfold boundary at 1. cbn [head_is leb andb]. rewrite E, xorb_false_r.
        destruct (is_word c); [cbn [length]; f_equal; f_equal; lia|].
        destruct n; reflexivity.
      * cbn [length]. f_equal. f_equal. lia.
    + simpl. destruct n; reflexivity.
Qed.

Lemma starts_with_app (p s : str) :
  starts_with p s = true -> s = p ++ skipn (length p) s.
Proof.
  revert s. induction p as [|x p IH]; intros s; [reflexivity|].
  destruct s as [|c s]; simpl; [discriminate|].
  rewrite andb_true_iff, Ascii.eqb_eq. intros [-> H]. f_equal. auto.
Qed.

(** The pattern of the scripts matches exactly the identifier read
    directly. *)
Lemma match_at_doi (before rest : list ascii) :
  match_at Sort.DOI_RE before rest
  = option_map (fun tok => (length before + length tok, @nil (nat * (nat * nat))))
               (doi_token_at before rest).
Proof.
  unfold match_at, Sort.DOI_RE, doi_token_at, plus.
  cbn [cat lit py list_ascii_of_string exec consumed remaining spans].
  destruct (boundary before rest); [|reflexivity]. cbn [andb].
  destruct rest as [|c1 rest]; [reflexivity|]. cbn [starts_with].
  unfold is_char at 1. destruct (Ascii.eqb "1" c1) eqn:E1; [|reflexivity].
  destruct rest as [|c2 rest]; [reflexivity|]. cbn [andb consumed remaining spans].
  unfold is_char at 1. destruct (Ascii.eqb "0" c2) eqn:E2; [|reflexivity].
  destruct rest as [|c3 rest]; [reflexivity|]. cbn [andb consumed remaining spans].
  unfold is_char at 1. destruct (Ascii.eqb "." c3) eqn:E3; [|reflexivity].
  cbn [andb consumed remaining spans skipn].
  apply Ascii.eqb_eq in E1, E2, E3. subst c1 c2 c3.
  rewrite rep_run.
  - cbn [Nat.add].
    destruct ((4 <=? length (takewhile is_digit rest))
              && (length (takewhile is_digit rest) <=? 9)) eqn:Hlen;
      [|reflexivity].
    cbn [andb consumed remaining spans].
    destruct (dropwhile is_digit rest) as [|c4 r2] eqn:Er2; [reflexivity|].
    cbn [head_is tl]. destruct (is_char "/" c4) eqn:E4; [|reflexivity].
    cbn [consumed remaining spans].
    rewrite rep_body_boundary.
    destruct (rtrim_word (takewhile Sort.doi_body r2)) as [|x t]; [reflexivity|].
    cbn [option_map]. f_equal. f_equal.
    cbn [length]. rewrite !length_app, length_rev. cbn [length]. lia.
  - intros b r Hd. cbn [exec consumed remaining spans].
    destruct r as [|c r]; [reflexivity|]. simpl in Hd.
    rewrite (digit_not_slash _ Hd). reflexivity.
  - lia.
Qed.

Lemma scan_left_ext {A : Type} (f g : str -> str -> option A) :
  (forall b r, f b r = g b r) ->
  forall rest before, scan_left f before rest = scan_left g before rest.
Proof.
  intros H. induction rest as [|c rest IH]; intros before; simpl; rewrite H.
  - reflexivity.
  - destruct (g before (c :: rest)); [reflexivity|apply IH].
Qed.

Lemma search_from_scan (r : regex) (rest before : list ascii) :
  search_from r before rest = scan_left (match_at r) before rest.
Proof.
  revert before. induction rest as [|c rest IH]; intros before; simpl.
  - reflexivity.
  - destruct (match_at r before (c :: rest)); [reflexivity|apply IH].
Qed.

(** What [scan_left] finds is the leftmost answer. *)
Lemma scan_left_some {A : Type} (f : str -> str -> option A) (rest : str) :
  forall before i x,
    scan_left f before rest = Some (i, x) ->
    exists skipped rest',
      rest = skipped ++ rest'
      /\ i = length before + length skipped
      /\ f (rev skipped ++ before) rest' = Some x
      /\ forall sk' r', rest = sk' ++ r' -> length sk' < length skipped ->
           f (rev sk' ++ before) r' = None.
Proof.
  induction rest as [|c rest IH]; intros before i x; simpl.
  - destruct (f before []) as [y|] eqn:E; [|discriminate].
    intros H. injection H as <- <-. exists [], []. simpl.
    split; [reflexivity|]. split; [lia|]. split; [exact E|].
    intros sk' r' _ Hl. lia.
  - destruct (f before (c :: rest)) as [y|] eqn:E.
    + intros H. injection H as <- <-. exists [], (c :: rest). simpl.
      split; [reflexivity|]. split; [lia|]. split; [exact E|].
      intros sk' r' _ Hl. lia.
    + intros H. destruct (IH _ _ _ H) as (sk & r' & -> & -> & Hf & Hmin).
      exists (c :: sk), r'. simpl. rewrite <- app_assoc. simpl.
      split; [reflexivity|]. split; [lia|]. split; [exact Hf|].
      intros sk' r'' Hsplit Hl. destruct sk' as [|c' sk'].
      * simpl in *. subst r''. exact E.
      * simpl in Hsplit. injection Hsplit as <- Hsplit.
        simpl. rewrite <- app_assoc. simpl. apply Hmin; [exact Hsplit|simpl in Hl; lia].
Qed.

Lemma scan_left_none {A : Type} (f : str -> str -> option A) (rest : str) :
  forall before,
    scan_left f before rest = None ->
    forall sk r', rest = sk ++ r' -> f (rev sk ++ before) r' = None.
Proof.
  induction rest as [|c rest IH]; intros before; simpl.
  - destruct (f before []) eqn:E; [discriminate|].
    intros _ sk r' H. symmetry in H. apply app_eq_nil in H. destruct H as [-> ->].
    exact E.
  - destruct (f before (c :: rest)) eqn:E; [discriminate|].
    intros H sk r' Hs. destruct sk as [|c' sk].
    + simpl in *. subst r'. exact E.
    + simpl in Hs. injection Hs as <- Hs. simpl. rewrite <- app_assoc. simpl.
      apply (IH _ H). exact Hs.
Qed.

(** An identifier read at the cursor is a prefix of the text there,
    follows the grammar, is not preceded by a word character and ends
    in a word character. *)
Lemma doi_token_at_shape (before rest tok : str) :
  doi_token_at before rest = Some tok ->
  (exists post, rest = tok ++ post)
  /\ doi_grammar tok
  /\ head_is is_word before = false
  /\ head_is is_word (rev tok) = true.
Proof.
  unfold doi_token_at.
  destruct (boundary before rest) eqn:Hb; [|discriminate]. cbn [andb].
  destruct (starts_with (py "10.") rest) eqn:Hs; [|discriminate].
  apply starts_with_app in Hs. cbn [py list_ascii_of_string length] in Hs.
  set (r1 := skipn 3 rest) in *.
  destruct ((4 <=? length (takewhile is_digit r1))
            && (length (takewhile is_digit r1) <=? 9)) eqn:Hlen; [|discriminate].
  cbn [andb]. destruct (dropwhile is_digit r1) as [|c4 r2] eqn:Er2; [discriminate|].
  cbn [head_is tl]. destruct (is_char "/" c4) eqn:E4; [|discriminate].
  apply Ascii.eqb_eq in E4. subst c4.
  destruct (rtrim_word_spec (takewhile Sort.doi_body r2)) as (tail & Hrun & Htail & Hlast).
  destruct (rtrim_word (takewhile Sort.doi_body r2)) as [|x t] eqn:Ebody; [discriminate|].
  intros H. injection H as <-.
  apply andb_true_iff in Hlen. destruct Hlen as [L1 L2].
  apply Nat.leb_le in L1, L2.
  split; [|split; [|split]].
  - exists (tail ++ dropwhile Sort.doi_body r2).
    rewrite Hs at 1. cbn [py list_ascii_of_string app]. do 3 f_equal.
    rewrite <- (takewhile_dropwhile is_digit r1), Er2 at 1.
    rewrite <- !app_assoc. f_equal. cbn [app]. f_equal.
    rewrite <- (takewhile_dropwhile Sort.doi_body r2) at 1.
    rewrite Hrun at 1. rewrite <- !app_assoc. reflexivity.
  - exists (takewhile is_digit r1), (x :: t). split; [reflexivity|].
    split; [lia|]. split; [apply takewhile_forall|]. split; [discriminate|].
    pose proof (takewhile_forall Sort.doi_body r2) as F.
    rewrite Hrun, forallb_app in F. apply andb_true_iff in F. apply F.
  - unfold boundary in Hb. rewrite Hs in Hb. cbn [head_is] in Hb.
    change (is_word "1") with true in Hb.
    destruct (head_is is_word before); [discriminate|reflexivity].
  - change (head_is is_word
              (rev (py "10." ++ takewhile is_digit r1 ++ py "/" ++ x :: t)) = true).
    replace (py "10." ++ takewhile is_digit r1 ++ py "/" ++ x :: t)
      with ((py "10." ++ takewhile is_digit r1 ++ py "/") ++ x :: t)
      by (rewrite <- !app_assoc; reflexivity).
    rewrite rev_app_distr. cbn [Sort.is_empty negb] in Hlast.
    destruct (rev (x :: t)); [discriminate|exact Hlast].
Qed.

End DoiFacts.

Section DoiContract.

(** The search of the pattern finds the leftmost identifier, and the
    text of the match is that identifier. *)
Lemma search_doi (s : str) (rest : list ascii) :
  forall before,
    s = rev before ++ rest ->
    match scan_left doi_token_at before rest with
    | Some (i, tok) =>
        search_from Sort.DOI_RE before rest = Some (i, (i + length tok, []))
        /\ slice i (i + length tok) s = tok
    | None => search_from Sort.DOI_RE before rest = None
    end.
Proof.
  induction rest as [|c rest IH]; intros before Hs.
  - cbn [scan_left search_from]. rewrite match_at_doi.
    destruct (doi_token_at before []) as [tok|] eqn:E; cbn [option_map]; [|reflexivity].
    split; [reflexivity|]. destruct (doi_token_at_shape _ _ E) as [[post Hp] _].
    rewrite Hs, Hp, <- (length_rev before). apply slice_mid.
  - cbn [scan_left search_from]. rewrite match_at_doi.
    destruct (doi_token_at before (c :: rest)) as [tok|] eqn:E; cbn [option_map].
    + split; [reflexivity|]. destruct (doi_token_at_shape _ _ E) as [[post Hp] _].
      rewrite Hs, Hp, <- (length_rev before). apply slice_mid.
    + apply IH. rewrite Hs. simpl. rewrite <- app_assoc. reflexivity.
Qed.

Lemma rstrip_chars_word (chars tok : str) :
  (forall c, is_word c = true -> one_of chars c = false) ->
  head_is is_word (rev tok) = true -> rstrip_chars chars tok = tok.
Proof.
  intros Hc Hl. unfold rstrip_chars.
  destruct (rev tok) as [|c r] eqn:E; [discriminate|].
  simpl in Hl. simpl. rewrite (Hc _ Hl). rewrite <- E. apply rev_involutive.
Qed.

Lemma sort_parse_doi_leftmost (s : str) : Sort.parse_doi s = leftmost_doi s.
Proof.
  unfold Sort.parse_doi, leftmost_doi, re_search.
  pose proof (@search_doi s s [] eq_refl) as H.
  destruct (scan_left doi_token_at [] s) as [[i tok]|] eqn:E.
  - destruct H as [H1 H2]. rewrite H1. cbn [option_map].
    unfold m_text, mk_match. cbn [m_start m_end m_string fst snd]. rewrite H2.
    destruct (scan_left_some _ _ _ E) as (sk & r' & _ & _ & Hf & _).
    destruct (doi_token_at_shape _ _ Hf) as (_ & _ & _ & Hl).
    rewrite (@rstrip_chars_word _ tok closing_not_word Hl). reflexivity.
  - rewrite H. reflexivity.
Qed.

Lemma plain_parse_doi_leftmost (s : str) :
  match s with
  | [] => []
  | _ => match re_search Sort.DOI_RE s with
         | Some m => lower (m_text m)
         | None => []
         end
  end = leftmost_doi s.
Proof.
  destruct s as [|c s']; [reflexivity|]. set (s := c :: s').
  unfold leftmost_doi, re_search.
  pose proof (@search_doi s s [] eq_refl) as H.
  destruct (scan_left doi_token_at [] s) as [[i tok]|] eqn:E.
  - destruct H as [H1 H2]. rewrite H1. cbn [option_map].
    unfold m_text, mk_match. cbn [m_start m_end m_string fst snd]. rewrite H2. reflexivity.
  - rewrite H. reflexivity.
Qed.

(** C3, as the specification states it, fails: in x10.1234/abc the
    block 10.1234/abc follows the stated grammar, and the three
    extractors answer that there is no identifier. *)
Lemma glued_identifier_not_extracted :
  doi_grammar (py "10.1234/abc")
  /\ substring (py "10.1234/abc") (py "x10.1234/abc")
  /\ Sort.parse_doi (py "x10.1234/abc") = []
  /\ Affil.parse_doi (py "x10.1234/abc") = []
  /\ Scan.parse_doi_from_link (py "x10.1234/abc") = [].
Proof.
  split.
  { exists (py "1234"), (py "abc"). repeat split; try reflexivity; simpl; try lia.
    discriminate. }
  split; [exists (py "x"), []; reflexivity|].
  repeat split; vm_compute; reflexivity.
Qed.

(** C3, amended. The three extractors are one function: each returns,
    in lower case, the leftmost block that follows the grammar, is not
    preceded by a word character and runs to the last word character
    of the allowed characters after the slash, so that it never ends in
    closing punctuation; each returns the empty text when no position
    of the input starts such a block. *)
Theorem parse_doi_leftmost_token (s : str) :
  Sort.parse_doi s = leftmost_doi s
  /\ Affil.parse_doi s = leftmost_doi s
  /\ Scan.parse_doi_from_link s = leftmost_doi s
  /\ match scan_left doi_token_at [] s with
     | Some (i, tok) =>
         leftmost_doi s = lower tok
         /\ exists pre post,
              s = pre ++ tok ++ post /\ length pre = i
              /\ doi_grammar tok
              /\ head_is is_word (rev pre) = false
              /\ head_is is_word (rev tok) = true
              /\ rstrip_chars (py ").,;]") tok = tok
              /\ forall pre' rest', s = pre' ++ rest' -> length pre' < i ->
                   doi_token_at (rev pre') rest' = None
     | None =>
         leftmost_doi s = []
         /\ forall pre rest, s = pre ++ rest -> doi_token_at (rev pre) rest = None
     end.
Proof.
  split; [apply sort_parse_doi_leftmost|].
  split; [apply plain_parse_doi_leftmost|].
  split; [apply plain_parse_doi_leftmost|].
  unfold leftmost_doi.
  destruct (scan_left doi_token_at [] s) as [[i tok]|] eqn:E.
  - split; [reflexivity|].
    destruct (scan_left_some _ _ _ E) as (sk & r' & Hs & Hi & Hf & Hmin).
    destruct (doi_token_at_shape _ _ Hf) as ([post Hp] & Hg & Hb & Hl).
    exists sk, post. rewrite app_nil_r in *. simpl in Hi.
    split; [rewrite Hs, Hp; reflexivity|]. split; [auto|]. split; [exact Hg|].
    split; [exact Hb|]. split; [exact Hl|].
    split; [apply rstrip_chars_word; [apply closing_not_word|exact Hl]|].
    intros pre' rest' Hs' Hlt. specialize (Hmin pre' rest' Hs').
    rewrite app_nil_r in Hmin. apply Hmin. lia.
  - split; [reflexivity|]. intros pre rest Hs.
    pose proof (@scan_left_none _ doi_token_at s [] E pre rest Hs) as H.
    rewrite app_nil_r in H. exact H.
Qed.

End DoiContract.

(* ================================================================== *)
(** * The acceptance-date parser *)
(* ================================================================== *)

Section DateFacts.

(** The parser is the chain of the four patterns on the normalized
    text, the reading handed to [dt.date]. *)
Lemma parse_chain (text : str) :
  Sort.parse_accepted_date text =
  match Sort.normalize_text_for_dates text with
  | [] => None
  | t =>
      match first_reading accepted_patterns t with
      | Some (y, mo, d) => mk_date y mo d
      | None => None
      end
  end.
Proof.
  unfold Sort.parse_accepted_date.
  destruct (Sort.normalize_text_for_dates text) as [|c t]; [reflexivity|].
  set (s := c :: t). cbn [first_reading accepted_patterns].
  unfold read_fields.
  cbn [month_by_name year_group month_group day_group].
  destruct (re_search Sort.ACC_DMY s) as [m1|];
    [destruct (Sort.month_of_name (group m1 2)); [reflexivity|]|];
    (destruct (re_search Sort.ACC_MDY s) as [m2|];
     [destruct (Sort.month_of_name (group m2 1)); [reflexivity|]|];
     (destruct (re_search Sort.ACC_YMD_DASH s) as [m3|]; [reflexivity|];
      destruct (re_search Sort.ACC_DMY_SLASH s) as [m4|]; reflexivity)).
Qed.

Lemma no_match_in_empty (r : regex) (l : layout) :
  In (r, l) accepted_patterns -> re_search r [] = None.
Proof.
  simpl. intros [H|[H|[H|[H|[]]]]]; injection H as <- _; vm_compute; reflexivity.
Qed.

(** C4. When the first of the four patterns that matches the
    normalized text is read as a day, month and year that are not a
    calendar date, the parser returns nothing, whatever the later
    patterns would find. *)
Theorem invalid_first_match_absent (text : str)
    (earlier later : list (regex * layout)) (r : regex) (l : layout)
    (m : rmatch) (y mo d : N) :
  accepted_patterns = earlier ++ (r, l) :: later ->
  (forall r' l', In (r', l') earlier ->
     re_search r' (Sort.normalize_text_for_dates text) = None) ->
  re_search r (Sort.normalize_text_for_dates text) = Some m ->
  read_fields l m = Some (y, mo, d) ->
  valid_date y mo d = false ->
  Sort.parse_accepted_date text = None.
Proof.
  intros Hsplit Hearlier Hm Hread Hbad.
  rewrite parse_chain.
  assert (Hin : In (r, l) accepted_patterns).
  { rewrite Hsplit. apply in_or_app. right. left. reflexivity. }
  destruct (Sort.normalize_text_for_dates text) as [|c t] eqn:Et.
  { rewrite (no_match_in_empty Hin) in Hm. discriminate. }
  set (s := c :: t) in *.
  assert (G : forall ps, first_reading (earlier ++ (r, l) :: ps) s = Some (y, mo, d)).
  { clear Hsplit Hin. induction earlier as [|[r0 l0] earlier IH]; intros ps.
    - simpl. rewrite Hm, Hread. reflexivity.
    - simpl. rewrite (Hearlier r0 l0) by (left; reflexivity).
      apply IH. intros r' l' H. apply (Hearlier r' l'). right. exact H. }
  rewrite Hsplit, G. unfold mk_date. rewrite Hbad. reflexivity.
Qed.

End DateFacts.

(* ================================================================== *)
(** * The matcher sees digits only through the classes of a pattern *)
(* ================================================================== *)

Section DigitBlind.

Lemma same_on_digits_blind (p : ascii -> bool) :
  same_on_digits p = true -> digit_blind p.
Proof.
  intros H c c' [->|[D D']]; [reflexivity|].
  pose proof (for_all_chars_spec _ H c) as A.
  pose proof (for_all_chars_spec _ H c') as A'.
  cbv beta in A, A'. rewrite D in A. rewrite D' in A'. simpl in A, A'.
  apply Bool.eqb_prop in A, A'. congruence.
Qed.

Lemma is_word_blind : digit_blind is_word.
Proof. apply same_on_digits_blind. vm_compute. reflexivity. Qed.

Lemma alike_text_refl (s : str) : alike_text s s.
Proof. induction s; constructor; [left; reflexivity|assumption]. Qed.

Lemma alike_text_length (s s' : str) : alike_text s s' -> length s = length s'.
Proof. apply Forall2_length. Qed.

Lemma head_is_alike (p : ascii -> bool) (s s' : str) :
  digit_blind p -> alike_text s s' -> head_is p s = head_is p s'.
Proof. intros Hp H. destruct H; [reflexivity|]. simpl. apply Hp. assumption. Qed.

Lemma boundary_alike (b b' r r' : str) :
  alike_text b b' -> alike_text r r' -> boundary b r = boundary b' r'.
Proof.
  intros Hb Hr. unfold boundary.
  rewrite (head_is_alike is_word_blind Hb), (head_is_alike is_word_blind Hr).
  reflexivity.
Qed.

Lemma rep_alike {R : Type} (p : ascii -> bool) (lo : nat) (hi : option nat)
    (k k' : list ascii -> list ascii -> option R) :
  digit_blind p ->
  (forall b b' r r', alike_text b b' -> alike_text r r' -> k b r = k' b' r') ->
  forall rest rest', alike_text rest rest' ->
  forall n before before', alike_text before before' ->
    rep p lo hi n before rest k = rep p lo hi n before' rest' k'.
Proof.
  intros Hp Hk rest rest' Hr.
  induction Hr as [|c c' rest rest' Hc Hr IH]; intros n before before' Hb.
  - simpl. rewrite (Hk before before' [] []); [reflexivity|exact Hb|constructor].
  - simpl. rewrite (Hp c c' Hc).
    rewrite (IH (S n) (c :: before) (c' :: before')) by (constructor; assumption).
    rewrite (Hk before before' (c :: rest) (c' :: rest'));
      [reflexivity|exact Hb|constructor; assumption].
Qed.

Lemma exec_alike {R : Type} (r : regex) :
  pattern_digit_blind r ->
  forall (k k' : mstate -> option R) (st st' : mstate),
    alike_state st st' ->
    (forall s s', alike_state s s' -> k s = k' s') ->
    exec r st k = exec r st' k'.
Proof.
  induction r as [|p| |r1 IH1 r2 IH2|p lo hi|r1 IH1|i r1 IH1];
    intros Hr k k' st st' Hst Hk; cbn [exec].
  - apply Hk. exact Hst.
  - destruct Hst as (Hc & Hrem & Hsp).
    destruct Hrem as [|c c' rest rest' Hcc Hrest]; [reflexivity|].
    simpl in Hr. rewrite (Hr c c' Hcc). destruct (p c'); [|reflexivity].
    apply Hk. repeat split; cbn [consumed remaining spans]; auto.
    constructor; assumption.
  - destruct Hst as (Hc & Hrem & Hsp).
    rewrite (boundary_alike Hc Hrem). destruct (boundary _ _); [|reflexivity].
    apply Hk. repeat split; assumption.
  - destruct Hr as [Hr1 Hr2]. apply IH1; [exact Hr1|exact Hst|].
    intros s s' Hs. apply IH2; assumption.
  - destruct Hst as (Hc & Hrem & Hsp). simpl in Hr.
    apply rep_alike; try assumption.
    intros b b' r r' Hb Hr'. apply Hk. repeat split; cbn [consumed remaining spans]; auto.
  - simpl in Hr. rewrite (IH1 Hr k k' st st' Hst Hk).
    destruct (exec r1 st' k'); [reflexivity|]. apply Hk. exact Hst.
  - simpl in Hr. apply IH1; [exact Hr|exact Hst|].
    intros s s' (Hc & Hrem & Hsp). apply Hk.
    destruct Hst as (Hc0 & _ & _).
    repeat split; cbn [consumed remaining spans]; auto.
    rewrite (alike_text_length Hc0), (alike_text_length Hc), Hsp. reflexivity.
Qed.

Lemma match_at_alike (r : regex) (before before' rest rest' : str) :
  pattern_digit_blind r ->
  alike_text before before' -> alike_text rest rest' ->
  match_at r before rest = match_at r before' rest'.
Proof.
  intros Hr Hb Hrest. unfold match_at. apply exec_alike; [exact Hr| |].
  - repeat split; assumption.
  - intros s s' (Hc & _ & Hsp). rewrite (alike_text_length Hc), Hsp. reflexivity.
Qed.

(** On texts that differ in their digits only, a pattern that does not
    tell digits apart matches at the same place, with the same spans. *)
Lemma search_from_alike (r : regex) (rest rest' : str) :
  pattern_digit_blind r ->
  alike_text rest rest' ->
  forall before before', alike_text before before' ->
    search_from r before rest = search_from r before' rest'.
Proof.
  intros Hr Hrest.
  induction Hrest as [|c c' rest rest' Hc Hrest IH]; intros before before' Hb.
  - simpl. rewrite (match_at_alike r Hr Hb (Forall2_nil _)).
    rewrite (alike_text_length Hb). reflexivity.
  - simpl. rewrite (match_at_alike r Hr Hb (Forall2_cons _ _ Hc Hrest)).
    rewrite (alike_text_length Hb).
    destruct (match_at r before' (c' :: rest')); [reflexivity|].
    apply IH. constructor; assumption.
Qed.

End DigitBlind.

(* ================================================================== *)
(** * Accepted phrases in the four forms *)
(* ================================================================== *)

Section PhraseFacts.

Lemma accepted_patterns_blind :
  Forall (fun p => pattern_digit_blind (fst p)) accepted_patterns.
Proof.
  repeat constructor; cbn; repeat split;
    apply same_on_digits_blind; vm_compute; reflexivity.
Qed.

Lemma alike_text_rev (s s' : str) : alike_text s s' -> alike_text (rev s) (rev s').
Proof.
  induction 1 as [|c c' s s' Hc Hs IH]; [constructor|].
  simpl. apply Forall2_app; [exact IH|]. constructor; [exact Hc|constructor].
Qed.

Lemma forallb_alike (p : ascii -> bool) (s s' : str) :
  digit_blind p -> alike_text s s' -> forallb p s = forallb p s'.
Proof.
  intros Hp. induction 1 as [|c c' s s' Hc Hs IH]; [reflexivity|].
  simpl. rewrite (Hp c c' Hc), IH. reflexivity.
Qed.

Lemma chain_alike (R : ascii -> ascii -> bool) (s s' : str) :
  (forall a a' b b', alike a a' -> alike b b' -> R a b = R a' b') ->
  alike_text s s' -> chain R s = chain R s'.
Proof.
  intros HR. induction 1 as [|c c' s s' Hc Hs IH]; [reflexivity|].
  rewrite !chain_cons, IH. destruct Hs as [|b b' s s' Hb Hs]; [reflexivity|].
  cbn [hd_error]. rewrite (HR c c' b b' Hc Hb). reflexivity.
Qed.

Lemma is_space_blind : digit_blind is_space.
Proof. apply same_on_digits_blind. vm_compute. reflexivity. Qed.
Lemma is_digit_blind : digit_blind is_digit.
Proof. apply same_on_digits_blind. vm_compute. reflexivity. Qed.
Lemma is_letter_blind : digit_blind is_letter.
Proof. apply same_on_digits_blind. vm_compute. reflexivity. Qed.
Lemma plain_space_blind : digit_blind plain_space.
Proof. apply same_on_digits_blind. vm_compute. reflexivity. Qed.

Lemma tidy_alike (s s' : str) : alike_text s s' -> tidy s = tidy s'.
Proof.
  intros H. unfold tidy.
  rewrite (forallb_alike plain_space_blind H).
  rewrite (chain_alike no_space_pair (s := s) (s' := s')); [|  |exact H].
  2:{ intros a a' b b' Ha Hb. unfold no_space_pair.
      rewrite (@is_space_blind a a' Ha), (@is_space_blind b b' Hb). reflexivity. }
  rewrite (chain_alike no_digit_letter (s := s) (s' := s')); [|  |exact H].
  2:{ intros a a' b b' Ha Hb. unfold no_digit_letter.
      rewrite (@is_digit_blind a a' Ha), (@is_letter_blind b b' Hb). reflexivity. }
  rewrite (chain_alike no_letter_digit (s := s) (s' := s')); [|  |exact H].
  2:{ intros a a' b b' Ha Hb. unfold no_letter_digit.
      rewrite (@is_letter_blind a a' Ha), (@is_digit_blind b b' Hb). reflexivity. }
  rewrite (head_is_alike is_space_blind H).
  rewrite (head_is_alike is_space_blind (alike_text_rev H)).
  reflexivity.
Qed.

Lemma digits_alike (ys zs : str) :
  length ys = length zs -> forallb is_digit ys = true -> forallb is_digit zs = true ->
  alike_text ys zs.
Proof.
  revert zs. induction ys as [|y ys IH]; intros [|z zs] L Hy Hz;
    try discriminate; [constructor|].
  simpl in *. apply andb_true_iff in Hy, Hz.
  constructor; [right; tauto|]. apply IH; [lia|tauto|tauto].
Qed.

Lemma phrase_alike (pre suf ys zs : str) :
  length ys = length zs -> forallb is_digit ys = true -> forallb is_digit zs = true ->
  alike_text (pre ++ ys ++ suf) (pre ++ zs ++ suf).
Proof.
  intros L Hy Hz. apply Forall2_app; [apply alike_text_refl|].
  apply Forall2_app; [apply digits_alike; assumption|apply alike_text_refl].
Qed.

(** A slice beside the year is the same whatever the year. *)
Lemma slice_beside (pre suf ys zs : str) (a b : nat) :
  length ys = 4 -> length zs = 4 ->
  beside_year (length pre) (a, b) = true ->
  slice a b (pre ++ ys ++ suf) = slice a b (pre ++ zs ++ suf).
Proof.
  intros Ly Lz H. unfold beside_year in H. cbn [fst snd] in H.
  apply andb_true_iff in H. destruct H as [Hab H].
  apply Nat.leb_le in Hab. apply orb_true_iff in H. unfold slice.
  destruct H as [H|H]; apply Nat.leb_le in H.
  - rewrite !skipn_app.
    replace (a - length pre) with 0 by lia. cbn [skipn].
    rewrite !firstn_app. rewrite length_skipn.
    replace (b - a - (length pre - a)) with 0 by lia. reflexivity.
  - rewrite !skipn_app.
    rewrite (skipn_all2 pre) by lia.
    rewrite (skipn_all2 ys) by lia. rewrite (skipn_all2 zs) by lia.
    rewrite Ly, Lz. reflexivity.
Qed.

Lemma slice_year (pre suf ys : str) :
  length ys = 4 -> slice (length pre) (length pre + 4) (pre ++ ys ++ suf) = ys.
Proof. intros L. rewrite <- L. apply slice_mid. Qed.

(** What is checked on the year 0000 holds of every year. *)
Lemma check_chain_sound (pre suf ys : str) (m d : N) :
  length ys = 4 -> forallb is_digit ys = true ->
  forall ps j,
    Forall (fun p => pattern_digit_blind (fst p)) ps ->
    check_chain ps j (pre ++ py "0000" ++ suf) (length pre) m d = true ->
    first_reading ps (pre ++ ys ++ suf) = Some (int_of ys, m, d).
Proof.
  intros Ly Dy. set (t := pre ++ ys ++ suf). set (t0 := pre ++ py "0000" ++ suf).
  assert (Ht : alike_text t t0).
  { apply phrase_alike; [exact Ly|exact Dy|reflexivity]. }
  induction ps as [|[r l] ps IH]; intros j Hb Hc; [discriminate|].
  inversion Hb as [|x xs Hr Hps]; subst. cbn [fst] in Hr.
  cbn [check_chain] in Hc. cbn [first_reading]. unfold re_search.
  rewrite (@search_from_alike r t t0 Hr Ht [] [] (Forall2_nil _)).
  destruct j as [|j].
  - destruct (search_from r [] t0) as [[st [en sp]]|]; [|discriminate].
    cbn [option_map]. unfold read_fields, group, mk_match.
    cbn [m_spans m_string fst snd].
    unfold check_groups in Hc.
    destruct (assoc_nat (year_group l) sp) as [[ya yb]|]; [|discriminate].
    destruct (assoc_nat (month_group l) sp) as [[ma mb]|]; [|discriminate].
    destruct (assoc_nat (day_group l) sp) as [[da db]|]; [|discriminate].
    rewrite !andb_true_iff in Hc. destruct Hc as [[[[Hy Hm] Hd] Hmo] Hda].
    unfold is_year_span in Hy. cbn [fst snd] in *.
    apply andb_true_iff in Hy. destruct Hy as [Hy1 Hy2].
    apply Nat.eqb_eq in Hy1, Hy2. subst ya yb.
    unfold t. rewrite (slice_year pre suf ys Ly).
    rewrite (slice_beside pre suf ys (py "0000") ma mb Ly eq_refl Hm).
    rewrite (slice_beside pre suf ys (py "0000") da db Ly eq_refl Hd).
    fold t0. apply N.eqb_eq in Hda. rewrite Hda.
    destruct (if month_by_name l
              then Sort.month_of_name (slice ma mb t0)
              else Some (int_of (slice ma mb t0))) as [mo|]; [|discriminate].
    apply N.eqb_eq in Hmo. subst mo. reflexivity.
  - destruct (search_from r [] t0) as [x|]; [discriminate|].
    cbn [option_map]. apply (IH j Hps Hc).
Qed.


End PhraseFacts.

(* ================================================================== *)
(** * Worked instances *)
(* ================================================================== *)

Section Instances.

(** The file smith2024.pdf, without identifier, in the February
    folder: the row titled smith2024 of the February sheet; and in the
    folder of a month whose sheet is empty. *)
Lemma no_identifier_title_match_witness :
  Scan.doi_in_pdf doc_smith = []
  /\ Scan.match_row wb_smith (Scan.build_workbook_index wb_smith)
                    (py "February") doc_smith
     = Returned (Some (py "February", 2))
  /\ title_contained doc_smith (py "smith2024")
  /\ Scan.match_row wb_blank_march (Scan.build_workbook_index wb_blank_march)
                    (py "March") doc_smith
     = Raised (py "ValueError")
  /\ Scan.update_pdf compile_plain wb_blank_march
                     (Scan.build_workbook_index wb_blank_march) (py "March") doc_smith
     = Raised (py "ValueError").
Proof.
  split; [reflexivity|].
  pose proof (no_identifier_title_match wb_smith (Scan.build_workbook_index wb_smith)
                (py "February") doc_smith eq_refl) as H.
  pose proof (no_identifier_title_match wb_blank_march
                (Scan.build_workbook_index wb_blank_march)
                (py "March") doc_smith eq_refl) as K.
  assert (G : Xl.get_sheet wb_smith (py "February")
              = Some (osf_sheet (py "February") [osf_row (py "smith2024") []]))
    by reflexivity.
  assert (Gi : Xl.index_of
                 (Xl.header (osf_sheet (py "February") [osf_row (py "smith2024") []]))
                 (py "Filename") = Some 0)
    by reflexivity.
  rewrite G, Gi in H.
  assert (L : Xl.get_sheet wb_blank_march (py "March") = Some (Xl.Sheet (py "March") []))
    by reflexivity.
  assert (Li : Xl.index_of (Xl.header (Xl.Sheet (py "March") [])) (py "Filename") = None)
    by reflexivity.
  rewrite L, Li in K. destruct K as [K1 K2].
  destruct H as [(r & E & R & C & _)|[E _]].
  - vm_compute in E. injection E as <-.
    split; [reflexivity|]. split; [exact C|]. split; [exact K1|].
    apply (K2 compile_plain (py "github") [py "shared"; py " code "]).
    vm_compute. reflexivity.
  - vm_compute in E. discriminate E.
Defined.

(** An identifier in upper case, followed by closing punctuation. *)
Lemma parse_doi_leftmost_token_witness :
  Sort.parse_doi (py "see doi:10.1002/MRM.29000). Next") = py "10.1002/mrm.29000"
  /\ Affil.parse_doi (py "see doi:10.1002/MRM.29000). Next") = py "10.1002/mrm.29000"
  /\ Scan.parse_doi_from_link (py "see doi:10.1002/MRM.29000). Next")
     = py "10.1002/mrm.29000".
Proof.
  destruct (parse_doi_leftmost_token (py "see doi:10.1002/MRM.29000). Next"))
    as (H1 & H2 & H3 & _).
  rewrite H1, H2, H3. repeat split; vm_compute; reflexivity.
Defined.

(** Day 31 of April with the month by name; and the dashed pattern as
    the first to match, reading day 31 of April, where the slashed date
    that follows is not tried. *)
Lemma invalid_first_match_absent_witness :
  Sort.parse_accepted_date (py "Accepted 31 April 2025") = None
  /\ Sort.parse_accepted_date (py "Accepted: 2025-04-31 (Accepted: 02/04/2025)")
     = None.
Proof.
  split.
  - eapply (invalid_first_match_absent (py "Accepted 31 April 2025") []
              [(Sort.ACC_MDY, Layout 3 1 2 true);
               (Sort.ACC_YMD_DASH, Layout 1 2 3 false);
               (Sort.ACC_DMY_SLASH, Layout 3 2 1 false)]
              Sort.ACC_DMY (Layout 3 2 1 true)).
    + reflexivity.
    + intros r' l' [].
    + vm_compute. reflexivity.
    + vm_compute. reflexivity.
    + vm_compute. reflexivity.
  - eapply (invalid_first_match_absent
              (py "Accepted: 2025-04-31 (Accepted: 02/04/2025)")
              [(Sort.ACC_DMY, Layout 3 2 1 true); (Sort.ACC_MDY, Layout 3 1 2 true)]
              [(Sort.ACC_DMY_SLASH, Layout 3 2 1 false)]
              Sort.ACC_YMD_DASH (Layout 1 2 3 false)).
    + reflexivity.
    + intros r' l' [H|[H|[]]]; injection H as <- <-; vm_compute; reflexivity.
    + vm_compute. reflexivity.
    + vm_compute. reflexivity.
    + vm_compute. reflexivity.
Defined.

(** An affiliation line that ends in South Korea. *)
Lemma longest_alias_first_witness :
  Affil.infer_country (py "Department of Radiology, Seoul (South Korea)")
    (fst (Affil.build_country_matchers sample_registry))
    (snd (Affil.build_country_matchers sample_registry))
  = py "Korea, Republic of".
Proof.
  apply (proj2 (longest_alias_first sample_registry
                  (py "Department of Radiology, Seoul (South Korea)"))).
  - vm_compute. reflexivity.
  - intros k Hin Hocc.
    pose proof (proj1 (forallb_forall
                  (fun k => negb (occurs k (Affil.padded
                     (py "Department of Radiology, Seoul (South Korea)")))
                            || str_in k (py "south korea"))
                  (snd (Affil.build_country_matchers sample_registry)))
                  ltac:(vm_compute; reflexivity) k Hin) as H.
    cbv beta in H. rewrite Hocc in H. exact H.
Defined.

(** The two terms of the specification on the two-page document; and
    the same terms around a malformed one. *)
Lemma keyword_scan_first_hits_witness :
  Scan.notebook_style_keyword_scan compile_plain
    (Scan.PdfFile (py "paper") (py ".pdf") (Returned two_pages))
    [py "github"; py "osf"]
  = Returned [py "github"; py "osf"]
  /\ Scan.notebook_style_keyword_scan compile_plain
       (Scan.PdfFile (py "paper") (py ".pdf") (Returned two_pages))
       [py "github"; py "git("; py "osf"]
     = Raised (py "re.error").
Proof.
  split.
  - destruct (proj1 (keyword_scan_first_hits compile_plain two_pages
                       [py "github"; py "osf"] (py "paper") (py ".pdf")))
      as (found & probes & _ & E & Ef & _).
    + right. intros kw [<-|[<-|[]]]; eexists; vm_compute; reflexivity.
    + rewrite E, Ef. vm_compute. reflexivity.
  - apply (proj2 (keyword_scan_first_hits compile_plain two_pages
                    [py "github"; py "git("; py "osf"] (py "paper") (py ".pdf"))
             [py "github"] (py "git(") [py "osf"] (py "re.error")).
    + reflexivity.
    + intros k [<-|[]]. eexists. vm_compute. reflexivity.
    + vm_compute. reflexivity.
    + discriminate.
Defined.


(** A PDF accepted in April and one without an Accepted line. *)
Lemma row_goes_to_month_sheet_witness :
  (In (Sort.month_sheet_name (Sort.parse_accepted_date (Sort.pdf_text pdf_april)))
      Sort.MONTH_NAMES
   /\ Sort.month_of_name
        (Sort.month_sheet_name (Sort.parse_accepted_date (Sort.pdf_text pdf_april)))
      = Some 4%N)
  /\ (Sort.month_sheet_name (Sort.parse_accepted_date (Sort.pdf_text pdf_undated))
      = py "Sheet7"
      /\ nth 1 (snd (fst (Sort.workbook_row det_none true oracle_down crossref_none
                            popular_sample true pdf_undated))) [] = []).
Proof.
  split.
  - destruct (row_goes_to_month_sheet det_none true oracle_down crossref_none
                popular_sample true [] pdf_april) as (_ & _ & _ & _ & H).
    destruct (H (Date 2025 4 2) ltac:(vm_compute; reflexivity)) as (A & B & _).
    split; [exact A|exact B].
  - destruct (row_goes_to_month_sheet det_none true oracle_down crossref_none
                popular_sample true [] pdf_undated) as (_ & _ & _ & H & _).
    exact (H ltac:(vm_compute; reflexivity)).
Defined.

End Instances.

(* ================================================================== *)
(** * Identifiers through the scripts *)
(* ================================================================== *)

Section DoiRoundTrip.

Lemma lower_char_classes :
  for_all_chars (fun c =>
    Bool.eqb (is_digit (lower_char c)) (is_digit c)
    && Bool.eqb (is_word (lower_char c)) (is_word c)
    && Bool.eqb (Sort.doi_body (lower_char c)) (Sort.doi_body c)
    && Bool.eqb (is_space (lower_char c)) (is_space c)
    && Ascii.eqb (lower_char (lower_char c)) (lower_char c)
    && (negb (is_digit c) || Ascii.eqb (lower_char c) c)) = true.
Proof. vm_compute. reflexivity. Qed.

Lemma lower_char_facts (c : ascii) :
  is_digit (lower_char c) = is_digit c
  /\ is_word (lower_char c) = is_word c
  /\ Sort.doi_body (lower_char c) = Sort.doi_body c
  /\ is_space (lower_char c) = is_space c
  /\ lower_char (lower_char c) = lower_char c
  /\ (is_digit c = true -> lower_char c = c).
Proof.
  pose proof (for_all_chars_spec _ lower_char_classes c) as H.
  cbv beta in H.
  repeat (apply andb_prop in H; destruct H as [H ?]).
  split; [apply Bool.eqb_prop; assumption|].
  split; [apply Bool.eqb_prop; assumption|].
  split; [apply Bool.eqb_prop; assumption|].
  split; [apply Bool.eqb_prop; assumption|].
  split; [apply Ascii.eqb_eq; assumption|].
  intro Hd.
  match goal with
  | Hx : negb (is_digit c) || _ = true |- _ =>
      rewrite Hd in Hx; cbn [negb orb] in Hx; apply Ascii.eqb_eq; exact Hx
  end.
Qed.

Lemma lower_lower (s : str) : lower (lower s) = lower s.
Proof.
  unfold lower. rewrite map_map. apply map_ext.
  intro c. apply (lower_char_facts c).
Qed.

Lemma forallb_lower (p : ascii -> bool) (s : str) :
  (forall c, p (lower_char c) = p c) ->
  forallb p (lower s) = forallb p s.
Proof.
  intro Hp. induction s as [|c s IH]; [reflexivity|].
  cbn [lower map forallb]. fold (lower s). rewrite Hp, IH. reflexivity.
Qed.

Lemma lower_digits (ds : str) : forallb is_digit ds = true -> lower ds = ds.
Proof.
  induction ds as [|c ds IH]; [reflexivity|].
  cbn [forallb]. intro H. apply andb_prop in H. destruct H as [Hc Hds].
  cbn [lower map]. fold (lower ds).
  rewrite IH by assumption.
  rewrite (proj2 (proj2 (proj2 (proj2 (proj2 (lower_char_facts c))))) Hc).
  reflexivity.
Qed.

Lemma takewhile_app_stop (p : ascii -> bool) (x : str) (c : ascii) (y : str) :
  forallb p x = true -> p c = false ->
  takewhile p (x ++ c :: y) = x /\ dropwhile p (x ++ c :: y) = c :: y.
Proof.
  intros Hx Hc. induction x as [|a x IH].
  - cbn [app takewhile dropwhile]. rewrite Hc. split; reflexivity.
  - cbn [forallb] in Hx. apply andb_prop in Hx. destruct Hx as [Ha Hx].
    cbn [app takewhile dropwhile]. rewrite Ha.
    destruct (IH Hx) as [E1 E2]. rewrite E1, E2. split; reflexivity.
Qed.

Lemma rtrim_word_id (s : str) :
  head_is is_word (rev s) = true -> rtrim_word s = s.
Proof.
  intro H.
  destruct (rtrim_word_spec s) as [tail [E [Ht Hh]]].
  destruct tail as [|t tail].
  - rewrite app_nil_r in E. symmetry. exact E.
  - exfalso.
    rewrite E in H. rewrite rev_app_distr in H.
    assert (Hl : exists l x, rev (t :: tail) = x :: l /\ In x (t :: tail)).
    { destruct (rev (t :: tail)) as [|x l] eqn:Er.
      - apply (f_equal (@length ascii)) in Er. rewrite length_rev in Er.
        cbn in Er. discriminate.
      - exists l, x. split; [reflexivity|].
        apply in_rev. rewrite Er. left. reflexivity. }
    destruct Hl as [l [x [Er Hin]]].
    rewrite Er in H. cbn [app head_is] in H.
    rewrite forallb_forall in Ht. specialize (Ht x Hin).
    rewrite H in Ht. discriminate.
Qed.

(** A text that is one identifier is read back whole. *)
Lemma doi_token_at_whole (before ds body : str) :
  head_is is_word before = false ->
  forallb is_digit ds = true -> 4 <= length ds <= 9 ->
  forallb Sort.doi_body body = true ->
  head_is is_word (rev body) = true ->
  doi_token_at before (py "10." ++ ds ++ py "/" ++ body)
  = Some (py "10." ++ ds ++ py "/" ++ body).
Proof.
  intros Hb Hds Hlen Hbody Hlast.
  unfold doi_token_at.
  assert (Hbd : boundary before (py "10." ++ ds ++ py "/" ++ body) = true).
  { unfold boundary. rewrite Hb. reflexivity. }
  rewrite Hbd.
  change (py "10." ++ ds ++ py "/" ++ body)
    with ("1"%char :: "0"%char :: "."%char :: (ds ++ "/"%char :: body)).
  cbn [starts_with py list_ascii_of_string Ascii.eqb Bool.eqb andb skipn].
  destruct (@takewhile_app_stop is_digit ds "/"%char body Hds eq_refl) as [E1 E2].
  rewrite E1, E2.
  assert (H4 : (4 <=? length ds) = true) by (apply Nat.leb_le; lia).
  assert (H9 : (length ds <=? 9) = true) by (apply Nat.leb_le; lia).
  rewrite H4, H9.
  cbn [head_is is_char Ascii.eqb Bool.eqb andb tl].
  rewrite (takewhile_all _ _ Hbody).
  rewrite (rtrim_word_id _ Hlast).
  destruct body as [|b body]; [cbn in Hlast; discriminate|].
  reflexivity.
Qed.

Lemma head_rev_lower (p : ascii -> bool) (s : str) :
  (forall c, p (lower_char c) = p c) ->
  head_is p (rev (lower s)) = head_is p (rev s).
Proof.
  intro Hp. unfold lower. rewrite <- map_rev.
  destruct (rev s) as [|c l]; [reflexivity|].
  cbn [map head_is]. apply Hp.
Qed.

(** The lower-cased identifier is an identifier, wherever it stands
    after a character that is not a word character. *)
Lemma doi_token_lower (before rest tok before' : str) :
  doi_token_at before rest = Some tok ->
  head_is is_word before' = false ->
  doi_token_at before' (lower tok) = Some (lower tok).
Proof.
  intros Ht Hb'.
  destruct (doi_token_at_shape _ _ Ht) as [_ [Hg [_ Hlast]]].
  destruct Hg as [ds [body [E [Hlen [Hds [Hne Hbody]]]]]].
  subst tok.
  assert (El : lower (py "10." ++ ds ++ py "/" ++ body)
               = py "10." ++ ds ++ py "/" ++ lower body).
  { unfold lower. rewrite !map_app. fold (lower ds). fold (lower body).
    rewrite (lower_digits _ Hds). reflexivity. }
  rewrite El.
  apply doi_token_at_whole; try assumption.
  - rewrite forallb_lower; [assumption|].
    intro c. apply (lower_char_facts c).
  - rewrite head_rev_lower by (intro c; apply (lower_char_facts c)).
    rewrite !app_assoc in Hlast. rewrite rev_app_distr in Hlast.
    destruct (rev body) as [|x l] eqn:Er.
    + apply (f_equal (@rev ascii)) in Er. rewrite rev_involutive in Er.
      cbn in Er. contradiction.
    + cbn [app head_is] in Hlast. exact Hlast.
Qed.

Lemma leftmost_doi_token (s : str) :
  leftmost_doi s = []
  \/ exists before rest tok,
       doi_token_at before rest = Some tok /\ leftmost_doi s = lower tok.
Proof.
  unfold leftmost_doi.
  destruct (scan_left doi_token_at [] s) as [[i tok]|] eqn:E; [|left; reflexivity].
  right.
  destruct (scan_left_some _ _ _ E) as [sk [r' [_ [_ [Hf _]]]]].
  exists (rev sk ++ []), r', tok. split; [exact Hf|reflexivity].
Qed.

Lemma leftmost_doi_fixed (s : str) :
  leftmost_doi (leftmost_doi s) = leftmost_doi s.
Proof.
  destruct (leftmost_doi_token s) as [E|[before [rest [tok [Ht E]]]]].
  - rewrite E. reflexivity.
  - rewrite E. unfold leftmost_doi at 1.
    assert (H0 : doi_token_at [] (lower tok) = Some (lower tok))
      by (apply (doi_token_lower _ _ [] Ht); reflexivity).
    destruct (lower tok) as [|c l] eqn:El.
    + cbn in H0. discriminate.
    + cbn [scan_left]. rewrite H0. rewrite <- El. apply lower_lower.
Qed.

Lemma affil_parse_doi_leftmost (s : str) : Affil.parse_doi s = leftmost_doi s.
Proof. apply plain_parse_doi_leftmost. Qed.

Lemma scan_parse_doi_leftmost (s : str) : Scan.parse_doi_from_link s = leftmost_doi s.
Proof. apply plain_parse_doi_leftmost. Qed.

(** X1.  On text below U+0100, reading an identifier out of an
    extracted identifier changes nothing: each of the three extractors
    is idempotent, and the two plain extractors read the result of the
    builder's extractor back as it is. *)
Theorem parse_doi_idempotent (s : str) :
  Sort.parse_doi (Sort.parse_doi s) = Sort.parse_doi s
  /\ Affil.parse_doi (Affil.parse_doi s) = Affil.parse_doi s
  /\ Scan.parse_doi_from_link (Scan.parse_doi_from_link s)
     = Scan.parse_doi_from_link s
  /\ Affil.parse_doi (Sort.parse_doi s) = Sort.parse_doi s
  /\ Scan.parse_doi_from_link (Sort.parse_doi s) = Sort.parse_doi s.
Proof.
  rewrite ?sort_parse_doi_leftmost, ?affil_parse_doi_leftmost,
          ?scan_parse_doi_leftmost.
  rewrite ?sort_parse_doi_leftmost, ?affil_parse_doi_leftmost,
          ?scan_parse_doi_leftmost.
  rewrite leftmost_doi_fixed.
  split; [reflexivity|]. split; [reflexivity|]. split; [reflexivity|].
  split; reflexivity.
Qed.

Lemma doi_token_needs_one (before rest : str) :
  head_is (is_char "1") rest = false -> doi_token_at before rest = None.
Proof.
  intro H. unfold doi_token_at.
  destruct rest as [|c rest].
  - cbn [starts_with py list_ascii_of_string]. rewrite andb_false_r. reflexivity.
  - cbn [head_is] in H. unfold is_char in H.
    cbn [starts_with py list_ascii_of_string]. rewrite H.
    cbn [andb]. rewrite andb_false_r. reflexivity.
Qed.

Lemma scan_left_skip (pre : str) :
  forallb (fun c => negb (is_char "1" c)) pre = true ->
  forall before rest,
    match scan_left doi_token_at before (pre ++ rest),
          scan_left doi_token_at (rev pre ++ before) rest with
    | Some (_, t), Some (_, t') => t = t'
    | None, None => True
    | _, _ => False
    end.
Proof.
  induction pre as [|c pre IH]; intros Hp before rest.
  - cbn [app rev].
    destruct (scan_left doi_token_at before rest) as [[i t]|]; [reflexivity|exact I].
  - cbn [forallb] in Hp. apply andb_prop in Hp. destruct Hp as [Hc Hp].
    cbn [app scan_left].
    rewrite doi_token_needs_one.
    + cbn [rev]. rewrite <- app_assoc. cbn [app]. apply IH. exact Hp.
    + cbn [head_is]. apply negb_true_iff. exact Hc.
Qed.

Lemma doi_url_read_back (text : str) :
  leftmost_doi text <> [] ->
  leftmost_doi (doi_url (leftmost_doi text)) = leftmost_doi text.
Proof.
  intro Hne.
  destruct (leftmost_doi_token text) as [E|[before [rest [tok [Ht E]]]]];
    [contradiction|].
  rewrite E.
  assert (H0 : doi_token_at (rev (py "https://doi.org/") ++ []) (lower tok)
               = Some (lower tok))
    by (apply (doi_token_lower _ _ _ Ht); reflexivity).
  pose proof (@scan_left_skip (py "https://doi.org/") eq_refl [] (lower tok)) as Hs.
  unfold leftmost_doi at 1. unfold doi_url.
  destruct (lower tok) as [|c l] eqn:El; [cbn in H0; discriminate|].
  destruct (scan_left doi_token_at [] (py "https://doi.org/" ++ c :: l))
    as [[i t]|];
    destruct (scan_left doi_token_at (rev (py "https://doi.org/") ++ []) (c :: l))
      as [[i' t']|] eqn:E2; try contradiction.
  - subst t'. cbn [scan_left] in E2. rewrite H0 in E2.
    injection E2 as _ E2. subst t. rewrite <- El. apply lower_lower.
  - cbn [scan_left] in E2. rewrite H0 in E2. discriminate.
Qed.

(** X2.  On text below U+0100, the Link cell the builder writes for
    an identifier it extracted is read back to that identifier by the
    two scripts that consume the workbook. *)
Theorem link_round_trip (text : str) :
  Sort.parse_doi text <> [] ->
  Scan.parse_doi_from_link (doi_url (Sort.parse_doi text)) = Sort.parse_doi text
  /\ Affil.parse_doi (doi_url (Sort.parse_doi text)) = Sort.parse_doi text.
Proof.
  intro Hne.
  rewrite ?affil_parse_doi_leftmost, ?scan_parse_doi_leftmost.
  rewrite sort_parse_doi_leftmost in *.
  split; apply doi_url_read_back; exact Hne.
Qed.

End DoiRoundTrip.

Lemma link_round_trip_witness :
  Sort.parse_doi (py "MRM doi:10.1002/MRM.29876. Accepted") <> []
  /\ Scan.parse_doi_from_link
       (doi_url (Sort.parse_doi (py "MRM doi:10.1002/MRM.29876. Accepted")))
     = Sort.parse_doi (py "MRM doi:10.1002/MRM.29876. Accepted")
  /\ Affil.parse_doi
       (doi_url (Sort.parse_doi (py "MRM doi:10.1002/MRM.29876. Accepted")))
     = Sort.parse_doi (py "MRM doi:10.1002/MRM.29876. Accepted").
Proof.
  split; [vm_compute; discriminate|].
  apply (@link_round_trip (py "MRM doi:10.1002/MRM.29876. Accepted")).
  vm_compute. discriminate.
Defined.

(* ================================================================== *)
(** * The index of the keyword scanner *)
(* ================================================================== *)

Section IndexFacts.

Lemma dict_set_new {V : Type} (d : list (str * V)) (k : str) (v : V) :
  ~ In k (dict_keys d) -> dict_set d k v = d ++ [(k, v)].
Proof.
  induction d as [|[k' v'] d IH]; intro Hn; [reflexivity|].
  cbn [dict_set app].
  destruct (str_eqb k k') eqn:E.
  - apply str_eqb_eq in E. exfalso. apply Hn. left. symmetry. exact E.
  - rewrite IH; [reflexivity|]. intro H. apply Hn. right. exact H.
Qed.

Lemma fold_left_same {A B : Type} (f g : A -> B -> A) (l : list B) :
  (forall a b, f a b = g a b) ->
  forall a, fold_left f l a = fold_left g l a.
Proof.
  intro H. induction l as [|b l IH]; intro a; [reflexivity|].
  cbn [fold_left]. rewrite H. apply IH.
Qed.

Lemma index_step (out : list (str * list (str * nat))) (ws : Xl.sheet) :
  (fun out ws =>
     let header := Xl.header ws in
     match Xl.index_of header (py "Link") with
     | Some i =>
         if Xl.has_column header (py "Filename")
            && Xl.has_column header (py "Keywords Matched")
         then
           let link_col := i + 1 in
           dict_set out (Xl.sheet_name ws)
             (map (fun r =>
                     (Scan.parse_doi_from_link (or_empty (Xl.cell_value ws r link_col)), r))
                  (Scan.data_rows ws))
         else out
     | None => out
     end) out ws
  = if indexed ws then dict_set out (fst (index_entry ws)) (snd (index_entry ws))
    else out.
Proof.
  unfold indexed, index_entry, link_at. cbv beta zeta. cbn [fst snd].
  destruct (Xl.index_of (Xl.header ws) (py "Link")) as [i|]; [|reflexivity].
  destruct (Xl.has_column (Xl.header ws) (py "Filename")
            && Xl.has_column (Xl.header ws) (py "Keywords Matched")); reflexivity.
Qed.

Lemma index_fold (wb : Xl.workbook) :
  NoDup (Xl.sheetnames wb) ->
  forall out,
    (forall ws, In ws wb -> ~ In (Xl.sheet_name ws) (dict_keys out)) ->
    fold_left
      (fun out ws =>
         if indexed ws then dict_set out (fst (index_entry ws)) (snd (index_entry ws))
         else out) wb out
    = out ++ map index_entry (filter indexed wb).
Proof.
  induction wb as [|ws wb IH]; intros Hnd out Hout.
  - cbn [fold_left filter map]. rewrite app_nil_r. reflexivity.
  - cbn [Xl.sheetnames map] in Hnd. inversion Hnd as [|? ? Hn Hnd']; subst.
    cbn [fold_left filter].
    destruct (indexed ws) eqn:E.
    + rewrite dict_set_new by (apply Hout; left; reflexivity).
      rewrite IH; [| exact Hnd' |].
      * cbn [map]. rewrite <- app_assoc.
        destruct (index_entry ws). reflexivity.
      * intros ws' Hin Hk. unfold dict_keys in Hk. rewrite map_app in Hk.
        apply in_app_or in Hk. destruct Hk as [Hk|Hk].
        -- apply (Hout ws' (or_intror Hin)). exact Hk.
        -- cbn in Hk. destruct Hk as [Hk|[]].
           apply Hn. rewrite Hk. apply in_map. exact Hin.
    + apply IH; [exact Hnd'|].
      intros ws' Hin. apply Hout. right. exact Hin.
Qed.

(** With sheet names that differ, the index is the list of the covered
    sheets with their rows. *)
Lemma build_workbook_index_eq (wb : Xl.workbook) :
  NoDup (Xl.sheetnames wb) ->
  Scan.build_workbook_index wb = map index_entry (filter indexed wb).
Proof.
  intro Hnd. unfold Scan.build_workbook_index.
  rewrite (fold_left_same _ _ wb index_step).
  rewrite (@index_fold wb Hnd []); [reflexivity|]. intros ws _ [].
Qed.

Lemma dict_get_none {V : Type} (d : list (str * V)) (k : str) :
  ~ In k (dict_keys d) -> dict_get d k = None.
Proof.
  induction d as [|[k' v'] d IH]; intro Hn; [reflexivity|].
  cbn [dict_get]. destruct (str_eqb k k') eqn:E.
  - apply str_eqb_eq in E. exfalso. apply Hn. left. symmetry. exact E.
  - apply IH. intro H. apply Hn. right. exact H.
Qed.

Lemma dict_get_in {V : Type} (d : list (str * V)) (k : str) (v : V) :
  NoDup (dict_keys d) -> In (k, v) d -> dict_get d k = Some v.
Proof.
  induction d as [|[k' v'] d IH]; intros Hnd Hin; [destruct Hin|].
  cbn [dict_keys map fst] in Hnd. inversion Hnd as [|? ? Hn Hnd']; subst.
  cbn [dict_get]. destruct Hin as [Hin|Hin].
  - injection Hin as -> ->. rewrite str_eqb_refl. reflexivity.
  - destruct (str_eqb k k') eqn:E.
    + apply str_eqb_eq in E. subst k'. exfalso. apply Hn.
      change k with (fst (k, v)). apply in_map. exact Hin.
    + apply IH; assumption.
Qed.

Lemma same_name_same_sheet (wb : Xl.workbook) (a b : Xl.sheet) :
  NoDup (Xl.sheetnames wb) -> In a wb -> In b wb ->
  Xl.sheet_name a = Xl.sheet_name b -> a = b.
Proof.
  induction wb as [|ws wb IH]; intros Hnd Ha Hb E; [destruct Ha|].
  cbn [Xl.sheetnames map] in Hnd. inversion Hnd as [|? ? Hn Hnd']; subst.
  destruct Ha as [Ha|Ha], Hb as [Hb|Hb].
  - congruence.
  - subst ws. exfalso. apply Hn. rewrite E. apply in_map. exact Hb.
  - subst ws. exfalso. apply Hn. rewrite <- E. apply in_map. exact Ha.
  - apply IH; assumption.
Qed.

Lemma index_keys_nodup (wb : Xl.workbook) :
  NoDup (Xl.sheetnames wb) ->
  NoDup (dict_keys (map index_entry (filter indexed wb))).
Proof.
  unfold dict_keys. rewrite map_map. cbn [index_entry fst].
  induction wb as [|ws wb IH]; intro Hnd; [constructor|].
  cbn [Xl.sheetnames map] in Hnd. inversion Hnd as [|? ? Hn Hnd']; subst.
  cbn [filter]. destruct (indexed ws).
  - cbn [map]. constructor; [|apply IH; exact Hnd'].
    intro H. apply Hn. apply in_map_iff in H. destruct H as [ws' [E Hin]].
    apply filter_In in Hin. rewrite <- E. apply in_map. apply Hin.
  - apply IH. exact Hnd'.
Qed.

(** X3.  In a workbook whose sheet names differ, the index holds
    exactly the sheets that have the Link, Filename and Keywords Matched
    columns, in workbook order; a covered sheet is listed with every row
    from 2 to its last row, in increasing order and never row 1, each
    with the identifier read from its Link cell; a sheet lacking one of
    the columns is not a key of the index. *)
Theorem workbook_index_lookup (wb : Xl.workbook) :
  NoDup (Xl.sheetnames wb) ->
  dict_keys (Scan.build_workbook_index wb)
  = map Xl.sheet_name (filter indexed wb)
  /\ forall ws, In ws wb ->
       dict_get (Scan.build_workbook_index wb) (Xl.sheet_name ws)
       = if indexed ws
         then Some (map (fun r => (Scan.parse_doi_from_link (link_at ws r), r))
                        (seq 2 (Xl.max_row ws - 1)))
         else None.
Proof.
  intro Hnd. rewrite (@build_workbook_index_eq wb Hnd). split.
  - unfold dict_keys. rewrite map_map. reflexivity.
  - intros ws Hin. destruct (indexed ws) eqn:E.
    + apply dict_get_in; [apply index_keys_nodup; exact Hnd|].
      change (In (index_entry ws) (map index_entry (filter indexed wb))).
      apply in_map. apply filter_In. split; assumption.
    + apply dict_get_none. unfold dict_keys. rewrite map_map. cbn [index_entry fst].
      intro H. apply in_map_iff in H. destruct H as [ws' [En Hin']].
      apply filter_In in Hin'. destruct Hin' as [Hin' E'].
      rewrite (@same_name_same_sheet wb ws' ws Hnd Hin' Hin En) in E'. congruence.
Qed.

End IndexFacts.

Lemma workbook_index_lookup_witness :
  NoDup (Xl.sheetnames wb_dup)
  /\ dict_keys (Scan.build_workbook_index wb_dup)
     = map Xl.sheet_name (filter indexed wb_dup).
Proof.
  assert (H : NoDup (Xl.sheetnames wb_dup))
    by (vm_compute; constructor; [intros []|constructor]).
  split; [exact H|].
  apply (proj1 (@workbook_index_lookup wb_dup H)).
Defined.

(* ================================================================== *)
(** * The workbook the builder builds *)
(* ================================================================== *)

Section BuiltWorkbook.

Variable det_get_gender : str -> str.
Variable HAVE_GENDERIZE : bool.
Variable genderize_get : str -> outcome (list (option str)).
Variable crossref_lookup : str -> str * str * str.
Variable popular_map : list (str * str).
Variable use_genderize : bool.

Local Abbreviation row_of :=
  (Sort.workbook_row det_get_gender HAVE_GENDERIZE genderize_get
                     crossref_lookup popular_map use_genderize).
Local Abbreviation step :=
  (Sort.process_pdf det_get_gender HAVE_GENDERIZE genderize_get
                    crossref_lookup popular_map use_genderize).
Local Abbreviation run :=
  (Sort.main det_get_gender HAVE_GENDERIZE genderize_get
             crossref_lookup popular_map use_genderize).

Lemma workbook_row_cells (p : Sort.pdf_input) :
  let doi := Sort.parse_doi (Sort.pdf_text p) in
  let acc := Sort.parse_accepted_date (Sort.pdf_text p) in
  exists title additional g_first g_last,
    snd (fst (row_of p))
    = [title; Sort.month_cell_value acc; py "[]"; []; [];
       if Sort.is_empty doi then [] else doi_url doi;
       []; []; []; additional; g_first; g_last]
    /\ snd (row_of p)
       = Sort.MkLogRow (Sort.pdf_rel p) doi
           (match acc with Some d => Sort.isoformat d | None => [] end)
           (match acc with
            | Some _ => if Sort.is_empty doi then py "needs_review" else py "ok"
            | None => py "needs_review"
            end)
           additional.
Proof.
  cbv zeta. unfold Sort.workbook_row.
  destruct (if Sort.is_empty (Sort.parse_doi (Sort.pdf_text p))
            then ([], [], [])
            else crossref_lookup (Sort.parse_doi (Sort.pdf_text p)))
    as [[title first_fn] last_fn].
  cbn [fst snd].
  eexists _, _, _, _. split; reflexivity.
Qed.

Lemma append_row_sheets (names : list str) (s : str) (row : list Xl.cell) :
  NoDup names ->
  forall g : str -> list (list Xl.cell),
    Xl.append_row (map (fun n => Xl.Sheet n (g n)) names) s row
    = map (fun n => Xl.Sheet n (g n ++ if str_eqb s n then [row] else [])) names.
Proof.
  intros Hnd g. induction Hnd as [|n names Hn Hnd IH]; [reflexivity|].
  cbn [map Xl.append_row Xl.sheet_name Xl.sheet_rows].
  destruct (str_eqb s n) eqn:E.
  - f_equal. apply map_ext_in. intros n' Hin.
    destruct (str_eqb s n') eqn:E'.
    + apply str_eqb_eq in E, E'. subst. contradiction.
    + rewrite app_nil_r. reflexivity.
  - rewrite app_nil_r. f_equal. exact IH.
Qed.

Lemma rows_sent_cons (p : Sort.pdf_input) (ps : list Sort.pdf_input) (n : str) :
  rows_sent row_of (p :: ps) n
  = (if str_eqb (fst (fst (row_of p))) n
     then [map Some (snd (fst (row_of p)))] else [])
    ++ rows_sent row_of ps n.
Proof.
  unfold rows_sent. cbn [filter].
  destruct (str_eqb (fst (fst (row_of p))) n); reflexivity.
Qed.

Lemma fold_step_workbook (pdfs : list Sort.pdf_input) :
  forall st,
    fst (fold_left step pdfs st)
    = fold_left (fun wb p => Xl.append_row wb (fst (fst (row_of p)))
                               (map Some (snd (fst (row_of p)))))
                pdfs (fst st)
    /\ snd (fold_left step pdfs st) = snd st ++ map (fun p => snd (row_of p)) pdfs.
Proof.
  induction pdfs as [|p ps IH]; intro st.
  - cbn [fold_left map]. rewrite app_nil_r. split; reflexivity.
  - cbn [fold_left map]. destruct (IH (step st p)) as [E1 E2].
    rewrite E1, E2, process_pdf_workbook. split; [reflexivity|].
    unfold Sort.process_pdf at 1.
    destruct (row_of p) as [[sheet row] lg]. cbn [snd].
    rewrite <- app_assoc. reflexivity.
Qed.

Lemma fold_append_sheets (names : list str) (pdfs : list Sort.pdf_input) :
  NoDup names ->
  forall g : str -> list (list Xl.cell),
    fold_left (fun wb p => Xl.append_row wb (fst (fst (row_of p)))
                             (map Some (snd (fst (row_of p)))))
              pdfs (map (fun n => Xl.Sheet n (g n)) names)
    = map (fun n => Xl.Sheet n (g n ++ rows_sent row_of pdfs n)) names.
Proof.
  intro Hnd. induction pdfs as [|p ps IH]; intro g.
  - cbn [fold_left]. apply map_ext. intro n.
    unfold rows_sent. cbn [filter map]. rewrite app_nil_r. reflexivity.
  - cbn [fold_left]. rewrite (append_row_sheets _ _ Hnd).
    etransitivity;
      [apply (IH (fun n => g n ++ if str_eqb (fst (fst (row_of p))) n
                                  then [map Some (snd (fst (row_of p)))] else []))|].
    apply map_ext. intro n. rewrite rows_sent_cons, <- app_assoc. reflexivity.
Qed.

Lemma sheet_names_nodup : NoDup sheet_names.
Proof.
  apply (proj2 (NoDup_count_occ' (list_eq_dec ascii_dec) _)).
  intros x Hin.
  repeat (destruct Hin as [Hin|Hin]; [subst x; vm_compute; reflexivity|]).
  destruct Hin.
Qed.

(** The workbook after the run, in closed form. *)
Lemma main_workbook (pdfs : list Sort.pdf_input) :
  fst (run pdfs)
  = map (fun n => Xl.Sheet n (map Some Sort.COLUMNS :: rows_sent row_of pdfs n))
        sheet_names.
Proof.
  unfold Sort.main.
  rewrite (proj1 (fold_step_workbook pdfs _)). cbn [fst].
  change Sort.create_workbook
    with (map (fun n => Xl.Sheet n [map Some Sort.COLUMNS]) sheet_names).
  rewrite (fold_append_sheets pdfs sheet_names_nodup). reflexivity.
Qed.

Lemma main_log (pdfs : list Sort.pdf_input) :
  snd (run pdfs) = map (fun p => snd (row_of p)) pdfs.
Proof.
  unfold Sort.main. rewrite (proj2 (fold_step_workbook pdfs _)). reflexivity.
Qed.

Lemma row_sheet_known (p : Sort.pdf_input) : In (fst (fst (row_of p))) sheet_names.
Proof.
  rewrite workbook_row_sheet. apply month_sheet_name_known.
  destruct (Sort.parse_accepted_date (Sort.pdf_text p)) as [d|] eqn:E; [|exact I].
  apply (parse_accepted_date_valid _ E).
Qed.

Lemma list_sum_indicator (s : str) (f : str -> nat) (names : list str) :
  NoDup names ->
  list_sum (map (fun n => (if str_eqb s n then 1 else 0) + f n) names)
  = (if in_dec (list_eq_dec ascii_dec) s names then 1 else 0)
    + list_sum (map f names).
Proof.
  induction names as [|n names IHn]; intro Hnd; [reflexivity|].
  inversion Hnd as [|? ? Hn Hnd']; subst.
  change (list_sum (map (fun n0 => (if str_eqb s n0 then 1 else 0) + f n0) (n :: names)))
    with ((if str_eqb s n then 1 else 0) + f n
          + list_sum (map (fun n0 => (if str_eqb s n0 then 1 else 0) + f n0) names)).
  change (list_sum (map f (n :: names))) with (f n + list_sum (map f names)).
  rewrite (IHn Hnd').
  destruct (str_eqb s n) eqn:E.
  - apply str_eqb_eq in E. subst n.
    destruct (in_dec (list_eq_dec ascii_dec) s (s :: names)) as [_|Hc];
      [|exfalso; apply Hc; left; reflexivity].
    destruct (in_dec (list_eq_dec ascii_dec) s names) as [Hc|_];
      [contradiction|]. lia.
  - apply str_eqb_neq in E.
    destruct (in_dec (list_eq_dec ascii_dec) s (n :: names)) as [Hc|Hc];
      destruct (in_dec (list_eq_dec ascii_dec) s names) as [Hd|Hd]; try lia.
    + destruct Hc as [Hc|Hc]; [exfalso; apply E; symmetry; exact Hc|contradiction].
    + exfalso. apply Hc. right. exact Hd.
Qed.

Lemma count_sent (names : list str) (pdfs : list Sort.pdf_input) :
  NoDup names ->
  (forall p, In p pdfs -> In (fst (fst (row_of p))) names) ->
  list_sum (map (fun n => length (rows_sent row_of pdfs n)) names) = length pdfs.
Proof.
  intros Hnd. induction pdfs as [|p ps IH]; intro Hin.
  - unfold rows_sent. cbn [filter map length].
    clear. induction names as [|n names IHn]; [reflexivity|].
    cbn [map list_sum length Nat.add]. exact IHn.
  - cbn [length]. rewrite <- IH by (intros q Hq; apply Hin; right; exact Hq).
    assert (Hs : In (fst (fst (row_of p))) names) by (apply Hin; left; reflexivity).
    rewrite (map_ext _ (fun n => (if str_eqb (fst (fst (row_of p))) n then 1 else 0)
                                 + length (rows_sent row_of ps n))).
    + rewrite (list_sum_indicator _ _ Hnd).
      destruct (in_dec (list_eq_dec ascii_dec) (fst (fst (row_of p))) names);
        [reflexivity|contradiction].
    + intro n. rewrite rows_sent_cons, length_app.
      destruct (str_eqb (fst (fst (row_of p))) n); reflexivity.
Qed.

(** X4.  Whatever the PDFs, the workbook the builder builds has its
    thirteen sheets, each with the twelve column titles in row 1 and
    twelve cells in every row; it holds one data row per PDF in all;
    and the log has one entry per PDF, in the order of the PDFs, whose
    status is ok exactly when both an identifier and an Accepted date
    were read, and needs_review otherwise. *)
Theorem main_workbook_shape (pdfs : list Sort.pdf_input) :
  let wb := fst (run pdfs) in
  let log := snd (run pdfs) in
  Xl.sheetnames wb = sheet_names
  /\ (forall ws, In ws wb ->
        Xl.header ws = map Some Sort.COLUMNS
        /\ forall row, In row (Xl.sheet_rows ws) -> length row = 12)
  /\ data_row_count wb = length pdfs
  /\ map Sort.pdf log = map Sort.pdf_rel pdfs
  /\ forall lg, In lg log ->
       (Sort.status lg = py "ok"
        /\ Sort.doi lg <> [] /\ Sort.accepted_date lg <> [])
       \/ (Sort.status lg = py "needs_review"
           /\ (Sort.doi lg = [] \/ Sort.accepted_date lg = [])).
Proof.
  cbv zeta. rewrite main_workbook, main_log.
  split; [|split; [|split; [|split]]].
  - unfold Xl.sheetnames. rewrite map_map. cbn [Xl.sheet_name]. apply map_id.
  - intros ws Hin. apply in_map_iff in Hin. destruct Hin as [n [E _]]. subst ws.
    cbn [Xl.header Xl.sheet_rows hd]. split; [reflexivity|].
    intros row [Hr|Hr]; [subst row; reflexivity|].
    unfold rows_sent in Hr. apply in_map_iff in Hr.
    destruct Hr as [p [E _]]. subst row.
    destruct (workbook_row_cells p) as [t [a [g1 [g2 [E _]]]]].
    rewrite E. reflexivity.
  - unfold data_row_count. rewrite map_map. cbn [Xl.max_row Xl.sheet_rows length].
    rewrite <- (count_sent pdfs sheet_names_nodup (fun p _ => row_sheet_known p)).
    f_equal. apply map_ext. intro n. lia.
  - rewrite map_map. apply map_ext. intro p.
    destruct (workbook_row_cells p) as [t [a [g1 [g2 [_ E]]]]].
    rewrite E. reflexivity.
  - intros lg Hin. apply in_map_iff in Hin. destruct Hin as [p [E _]]. subst lg.
    destruct (workbook_row_cells p) as [t [a [g1 [g2 [_ E]]]]].
    rewrite E. cbn [Sort.status Sort.doi Sort.accepted_date].
    destruct (Sort.parse_accepted_date (Sort.pdf_text p)) as [d|].
    + destruct (Sort.parse_doi (Sort.pdf_text p)) as [|c l].
      * right. split; [reflexivity|]. left. reflexivity.
      * left. split; [reflexivity|]. split; [discriminate|].
        unfold Sort.isoformat. intro H.
        apply (f_equal (@length ascii)) in H.
        rewrite !length_app in H. cbn in H. lia.
    + right. split; [reflexivity|]. right. reflexivity.
Qed.

Lemma find_row_exists (d : str) (rows : list (str * nat)) (r : nat) :
  d <> [] -> In (d, r) rows ->
  exists r', Scan.find_row d rows = Some r' /\ In (d, r') rows.
Proof.
  intro Hd. induction rows as [|[d0 r0] rows IH]; intro Hin; [destruct Hin|].
  cbn [Scan.find_row].
  destruct (Scan.nonempty d0 && str_eqb d0 d) eqn:E.
  - exists r0. split; [reflexivity|].
    apply andb_prop in E. destruct E as [_ E]. apply str_eqb_eq in E.
    subst d0. left. reflexivity.
  - destruct Hin as [Hin|Hin].
    + injection Hin as -> ->. rewrite str_eqb_refl in E.
      destruct d; [contradiction|discriminate].
    + destruct (IH Hin) as [r' [E1 E2]]. exists r'.
      split; [exact E1|right; exact E2].
Qed.

Lemma match_by_doi_exists (index : list (str * list (str * nat)))
    (d s : str) (rows : list (str * nat)) (r : nat) :
  d <> [] -> In (s, rows) index -> In (d, r) rows ->
  exists s' rows' r',
    Scan.match_by_doi index d = Some (s', r')
    /\ In (s', rows') index /\ In (d, r') rows'.
Proof.
  intros Hd Hin Hr. induction index as [|[s0 rows0] index IH]; [destruct Hin|].
  cbn [Scan.match_by_doi].
  destruct (Scan.find_row d rows0) as [r0|] eqn:E.
  - exists s0, rows0, r0. split; [reflexivity|]. split; [left; reflexivity|].
    destruct (find_row_first _ _ E) as [b [a [Er _]]].
    rewrite Er. apply in_or_app. right. left. reflexivity.
  - destruct Hin as [Hin|Hin].
    + injection Hin as -> ->.
      destruct (@find_row_exists d rows r Hd Hr) as [r' [E' _]]. congruence.
    + destruct (IH Hin) as [s' [rows' [r' [E1 [E2 E3]]]]].
      exists s', rows', r'. split; [exact E1|]. split; [right; exact E2|exact E3].
Qed.

Lemma get_sheet_sheets (names : list str) (g : str -> list (list Xl.cell)) (n : str) :
  In n names ->
  Xl.get_sheet (map (fun n => Xl.Sheet n (g n)) names) n = Some (Xl.Sheet n (g n)).
Proof.
  induction names as [|n0 names IH]; intro Hin; [destruct Hin|].
  cbn [map Xl.get_sheet Xl.sheet_name].
  destruct (str_eqb n n0) eqn:E.
  - apply str_eqb_eq in E. subst n0. reflexivity.
  - apply IH. destruct Hin as [Hin|Hin]; [|exact Hin].
    apply str_eqb_neq in E. exfalso. apply E. symmetry. exact Hin.
Qed.

Lemma workbook_row_link (p : Sort.pdf_input) :
  nth 5 (map Some (snd (fst (row_of p)))) None
  = Some (link_cell (Sort.pdf_text p)).
Proof.
  destruct (workbook_row_cells p) as [t [a [g1 [g2 [E _]]]]].
  rewrite E. reflexivity.
Qed.

(** The Link cell is read back to the identifier of the text, also
    when there is none. *)
Lemma link_cell_read (text : str) :
  Scan.parse_doi_from_link (link_cell text) = Sort.parse_doi text.
Proof.
  unfold link_cell.
  destruct (Sort.parse_doi text) as [|c l] eqn:E; [reflexivity|].
  cbn [Sort.is_empty]. rewrite <- E.
  rewrite scan_parse_doi_leftmost, sort_parse_doi_leftmost.
  apply doi_url_read_back. rewrite <- sort_parse_doi_leftmost, E. discriminate.
Qed.

(** The data rows of a sheet of the built workbook are rows of PDFs. *)
Lemma built_row (pdfs : list Sort.pdf_input) (n : str) (r : nat) :
  In r (seq 2 (length (rows_sent row_of pdfs n))) ->
  exists q,
    In q pdfs
    /\ Xl.cell_value (Xl.Sheet n (map Some Sort.COLUMNS :: rows_sent row_of pdfs n)) r 6
       = Some (link_cell (Sort.pdf_text q)).
Proof.
  intro Hr. apply in_seq in Hr.
  unfold Xl.cell_value. cbn [Xl.sheet_rows].
  destruct r as [|[|j]]; [lia|lia|].
  change (S (S j) - 1) with (S j). cbn [nth]. change (6 - 1) with 5.
  unfold rows_sent in *. rewrite length_map in Hr.
  set (l := filter (fun p => str_eqb (fst (fst (row_of p))) n) pdfs) in *.
  assert (Hj : j < length l) by lia.
  destruct l as [|q0 l'] eqn:El; [cbn in Hj; lia|].
  rewrite <- El in *.
  exists (nth j l q0). split.
  - assert (Hin : In (nth j l q0) l) by (apply nth_In; exact Hj).
    subst l. apply filter_In in Hin. apply Hin.
  - rewrite (nth_indep _ [] (map Some (snd (fst (row_of q0)))))
      by (rewrite length_map; exact Hj).
    rewrite (map_nth (fun p => map Some (snd (fst (row_of p))))).
    apply workbook_row_link.
Qed.

(** The row of a PDF is a data row of its sheet. *)
Lemma sent_row (pdfs : list Sort.pdf_input) (p : Sort.pdf_input) :
  In p pdfs ->
  let n := fst (fst (row_of p)) in
  exists r,
    In r (seq 2 (length (rows_sent row_of pdfs n)))
    /\ Xl.cell_value (Xl.Sheet n (map Some Sort.COLUMNS :: rows_sent row_of pdfs n)) r 6
       = Some (link_cell (Sort.pdf_text p)).
Proof.
  intros Hin n.
  assert (Hf : In p (filter (fun q => str_eqb (fst (fst (row_of q))) n) pdfs)).
  { apply filter_In. split; [exact Hin|]. apply str_eqb_refl. }
  destruct (In_nth _ _ p Hf) as [j [Hj Ej]].
  exists (S (S j)). split.
  - apply in_seq. unfold rows_sent. rewrite length_map. lia.
  - unfold Xl.cell_value. cbn [Xl.sheet_rows].
    change (S (S j) - 1) with (S j). cbn [nth]. change (6 - 1) with 5.
    unfold rows_sent.
    rewrite (nth_indep _ [] (map Some (snd (fst (row_of p)))))
      by (rewrite length_map; exact Hj).
    rewrite (map_nth (fun q => map Some (snd (fst (row_of q))))).
    rewrite Ej. apply workbook_row_link.
Qed.

Lemma built_indexed (pdfs : list Sort.pdf_input) :
  filter indexed (fst (run pdfs)) = fst (run pdfs).
Proof.
  rewrite main_workbook.
  induction sheet_names as [|n names IH]; [reflexivity|].
  cbn [map filter].
  change (indexed (Xl.Sheet n (map Some Sort.COLUMNS :: rows_sent row_of pdfs n)))
    with true.
  cbv iota. f_equal. exact IH.
Qed.

Lemma built_link_at (n : str) (rows : list (list Xl.cell)) (r : nat) :
  link_at (Xl.Sheet n (map Some Sort.COLUMNS :: rows)) r
  = or_empty (Xl.cell_value (Xl.Sheet n (map Some Sort.COLUMNS :: rows)) r 6).
Proof. reflexivity. Qed.

(** The index of the built workbook leads an identifier the builder
    read to a data row whose Link cell is the URL of that identifier. *)
Lemma built_index_finds
    (pdfs : list Sort.pdf_input) (p : Sort.pdf_input) :
  In p pdfs ->
  Sort.parse_doi (Sort.pdf_text p) <> [] ->
  let wb := fst (run pdfs) in
  let d := Sort.parse_doi (Sort.pdf_text p) in
  exists sheet r ws,
    Scan.match_by_doi (Scan.build_workbook_index wb) d = Some (sheet, r)
    /\ Xl.get_sheet wb sheet = Some ws
    /\ 2 <= r <= Xl.max_row ws
    /\ Xl.cell_value ws r 6 = Some (doi_url d).
Proof.
  intros Hin Hd wb d.
  assert (Hnd : NoDup (Xl.sheetnames wb)).
  { subst wb. rewrite main_sheetnames. exact sheet_names_nodup. }
  assert (Ei : Scan.build_workbook_index wb = map index_entry wb).
  { rewrite (@build_workbook_index_eq wb Hnd). subst wb.
    rewrite built_indexed. reflexivity. }
  rewrite Ei. subst wb. rewrite main_workbook. rewrite map_map.
  destruct (sent_row pdfs p Hin) as [r [Hr Hc]].
  set (n := fst (fst (row_of p))) in *.
  set (sh := fun n => Xl.Sheet n (map Some Sort.COLUMNS :: rows_sent row_of pdfs n)).
  assert (Hn : In n sheet_names) by apply row_sheet_known.
  assert (Hrow : In (d, r) (snd (index_entry (sh n)))).
  { unfold index_entry. cbn [snd]. apply in_map_iff. exists r. split.
    - subst sh. cbv beta. rewrite built_link_at, Hc. cbn [or_empty].
      rewrite link_cell_read. reflexivity.
    - unfold Scan.data_rows, Xl.max_row. subst sh. cbn [Xl.sheet_rows length].
      rewrite Nat.sub_succ, Nat.sub_0_r. exact Hr. }
  assert (Hent : In (n, snd (index_entry (sh n)))
                    (map (fun x => index_entry (sh x)) sheet_names)).
  { apply in_map_iff. exists n. split; [reflexivity|exact Hn]. }
  pose proof (@match_by_doi_exists) as M.
  specialize (M _ _ _ _ _ Hd Hent Hrow).
  destruct M as [s' [rows' [r' [Em [He Hr']]]]].
  apply in_map_iff in He. destruct He as [n' [En' Hn']].
  assert (Es : s' = n') by (apply (f_equal fst) in En'; symmetry; exact En').
  assert (Er : rows' = snd (index_entry (sh n'))) by (rewrite En'; reflexivity).
  subst s' rows'. clear En'.
  unfold index_entry in Hr'. cbn [snd] in Hr'.
  apply in_map_iff in Hr'. destruct Hr' as [r0 [Er0 Hr0]].
  assert (Ed : Scan.parse_doi_from_link (link_at (sh n') r0) = d)
    by (apply (f_equal fst) in Er0; exact Er0).
  assert (Err : r0 = r') by (apply (f_equal snd) in Er0; exact Er0).
  subst r0. clear Er0.
  assert (Hr1 : In r' (seq 2 (length (rows_sent row_of pdfs n')))).
  { unfold Scan.data_rows, Xl.max_row in Hr0. subst sh.
    cbn [Xl.sheet_rows length] in Hr0.
    rewrite Nat.sub_succ, Nat.sub_0_r in Hr0. exact Hr0. }
  destruct (built_row pdfs n' r' Hr1) as [q [Hq Hcq]].
  exists n', r', (sh n').
  split; [exact Em|].
  split; [apply get_sheet_sheets; exact Hn'|].
  split.
  - apply in_seq in Hr1. unfold Xl.max_row. subst sh. cbn [Xl.sheet_rows length]. lia.
  - change (link_at (sh n') r')
      with (or_empty (Xl.cell_value
              (Xl.Sheet n' (map Some Sort.COLUMNS :: rows_sent row_of pdfs n')) r' 6))
      in Ed.
    subst sh. cbv beta. rewrite Hcq in *. cbn [or_empty] in Ed.
    rewrite link_cell_read in Ed.
    f_equal. unfold link_cell. rewrite Ed. unfold d in *.
    destruct (Sort.parse_doi (Sort.pdf_text p));
      [exfalso; apply Hd; reflexivity|reflexivity].
Qed.

End BuiltWorkbook.

(* ================================================================== *)
(** * The affiliation script: index of PDFs and workbook column *)
(* ================================================================== *)

Unset Implicit Arguments.

Section PdfIndexFacts.

Variable max_pages : nat.

Lemma index_pdf_get (acc : list (str * Affil.pdf_doc)) (f : Affil.pdf_doc) (d : str) :
  dict_get (Affil.index_pdf max_pages acc f) d
  = match dict_get acc d with
    | Some g => Some g
    | None =>
        if Scan.nonempty d && str_eqb (doi_of_pdf max_pages f) d then Some f else None
    end.
Proof.
  unfold Affil.index_pdf. fold (doi_of_pdf max_pages f).
  destruct (doi_of_pdf max_pages f) as [|c l] eqn:E.
  - destruct (dict_get acc d); [reflexivity|].
    destruct d; reflexivity.
  - rewrite <- E.
    destruct (dict_get acc (doi_of_pdf max_pages f)) eqn:G.
    + destruct (dict_get acc d) eqn:Gd; [reflexivity|].
      destruct (str_eqb (doi_of_pdf max_pages f) d) eqn:Eq.
      * apply str_eqb_eq in Eq. rewrite Eq in G. congruence.
      * rewrite andb_false_r. reflexivity.
    + rewrite dict_get_set.
      destruct (str_eqb d (doi_of_pdf max_pages f)) eqn:Eq.
      * apply str_eqb_eq in Eq. subst d. rewrite G, str_eqb_refl, E. reflexivity.
      * destruct (dict_get acc d); [reflexivity|].
        replace (str_eqb (doi_of_pdf max_pages f) d) with false.
        -- rewrite andb_false_r. reflexivity.
        -- symmetry. apply str_eqb_neq. apply str_eqb_neq in Eq. congruence.
Qed.

Lemma index_fold_get (pdfs : list Affil.pdf_doc) (d : str) :
  forall acc,
    dict_get (fold_left (Affil.index_pdf max_pages) pdfs acc) d
    = match dict_get acc d with
      | Some g => Some g
      | None =>
          find (fun f => Scan.nonempty d && str_eqb (doi_of_pdf max_pages f) d) pdfs
      end.
Proof.
  induction pdfs as [|f pdfs IH]; intro acc.
  - cbn [fold_left find]. destruct (dict_get acc d); reflexivity.
  - cbn [fold_left find]. rewrite IH, index_pdf_get.
    destruct (dict_get acc d); [reflexivity|].
    destruct (Scan.nonempty d && str_eqb (doi_of_pdf max_pages f) d); reflexivity.
Qed.

Lemma index_pdf_keys (acc : list (str * Affil.pdf_doc)) (f : Affil.pdf_doc) :
  NoDup (dict_keys acc) -> ~ In [] (dict_keys acc) ->
  NoDup (dict_keys (Affil.index_pdf max_pages acc f))
  /\ ~ In [] (dict_keys (Affil.index_pdf max_pages acc f)).
Proof.
  intros Hnd Hne. unfold Affil.index_pdf. fold (doi_of_pdf max_pages f).
  destruct (doi_of_pdf max_pages f) as [|c l] eqn:E; [split; assumption|].
  destruct (dict_get acc (c :: l)) eqn:G; [split; assumption|].
  rewrite dict_set_new.
  - unfold dict_keys. rewrite map_app. cbn [map fst]. split.
    + apply NoDup_app; [exact Hnd|constructor; [intros []|constructor]|].
      intros x Hx [Hy|[]]. subst x.
      destruct (dict_get_key _ _ Hx) as [v Hv]. congruence.
    + intro H. apply in_app_or in H. destruct H as [H|[H|[]]];
        [contradiction|discriminate].
  - intro H. destruct (dict_get_key _ _ H) as [v Hv]. congruence.
Qed.

(** X6.  The index of PDFs maps an identifier to the first PDF, in the
    sorted order of the files, whose first pages yield that identifier;
    a later PDF with the same identifier never replaces it, the empty
    identifier is never a key, and no key is listed twice. *)
Theorem index_pdfs_first_wins (pdfs : list Affil.pdf_doc) (d : str) :
  dict_get (Affil.index_pdfs_by_doi pdfs max_pages) d
  = match d with
    | [] => None
    | _ => find (fun f => str_eqb (doi_of_pdf max_pages f) d) pdfs
    end
  /\ NoDup (dict_keys (Affil.index_pdfs_by_doi pdfs max_pages))
  /\ ~ In [] (dict_keys (Affil.index_pdfs_by_doi pdfs max_pages)).
Proof.
  unfold Affil.index_pdfs_by_doi. split.
  - rewrite index_fold_get. cbn [dict_get].
    destruct d as [|c l].
    + induction pdfs as [|f ps IH]; [reflexivity|exact IH].
    + reflexivity.
  - assert (G : forall acc, NoDup (dict_keys acc) -> ~ In [] (dict_keys acc) ->
              NoDup (dict_keys (fold_left (Affil.index_pdf max_pages) pdfs acc))
              /\ ~ In [] (dict_keys (fold_left (Affil.index_pdf max_pages) pdfs acc))).
    { induction pdfs as [|f ps IH]; intros acc H1 H2; [split; assumption|].
      cbn [fold_left]. destruct (index_pdf_keys acc f H1 H2) as [H3 H4].
      apply IH; assumption. }
    apply G; [constructor|intros []].
Qed.

End PdfIndexFacts.

Section ColumnFacts.

Lemma cell_eqb_eq (a b : Xl.cell) : Xl.cell_eqb a b = true <-> a = b.
Proof.
  destruct a as [x|], b as [y|]; cbn [Xl.cell_eqb].
  - rewrite str_eqb_eq. split; congruence.
  - split; discriminate.
  - split; discriminate.
  - split; reflexivity.
Qed.

Lemma index_of_some (h : list Xl.cell) (name : str) (i : nat) :
  Xl.index_of h name = Some i ->
  nth i h None = Some name /\ i < length h
  /\ forall j, j < i -> nth j h None <> Some name.
Proof.
  revert i. induction h as [|c h IH]; intros i H; [discriminate|].
  cbn [Xl.index_of] in H.
  destruct (Xl.cell_eqb c (Some name)) eqn:E.
  - injection H as <-. apply cell_eqb_eq in E. subst c.
    split; [reflexivity|]. split; [cbn; lia|]. intros j Hj. lia.
  - destruct (Xl.index_of h name) as [i'|]; [|discriminate].
    injection H as <-. destruct (IH i' eq_refl) as [H1 [H2 H3]].
    split; [exact H1|]. split; [cbn; lia|].
    intros [|j] Hj.
    + cbn [nth]. intro Hc. subst c. rewrite (proj2 (cell_eqb_eq _ _) eq_refl) in E.
      discriminate.
    + cbn [nth]. apply H3. lia.
Qed.

Lemma index_of_none (h : list Xl.cell) (name : str) :
  Xl.index_of h name = None -> ~ In (Some name) h.
Proof.
  induction h as [|c h IH]; intros H; [intros []|].
  cbn [Xl.index_of] in H.
  destruct (Xl.cell_eqb c (Some name)) eqn:E; [discriminate|].
  destruct (Xl.index_of h name); [discriminate|].
  intros [Hc|Hc].
  - subst c. rewrite (proj2 (cell_eqb_eq _ _) eq_refl) in E. discriminate.
  - apply (IH eq_refl Hc).
Qed.

Lemma nth_set_nth_same {A : Type} (n : nat) (x d d' : A) (l : list A) :
  nth n (Xl.set_nth n x d l) d' = x.
Proof.
  revert l. induction n as [|n IH]; intros [|y l]; cbn [Xl.set_nth nth];
    try reflexivity; apply IH.
Qed.

Lemma nth_set_nth_other {A : Type} (n m : nat) (x d : A) (l : list A) :
  m <> n -> nth m (Xl.set_nth n x d l) d = nth m l d.
Proof.
  revert m l. induction n as [|n IH]; intros m l Hm.
  - destruct l as [|y l]; destruct m as [|m]; cbn [Xl.set_nth nth]; try lia;
      try reflexivity. destruct m; reflexivity.
  - destruct l as [|y l]; destruct m as [|m]; cbn [Xl.set_nth nth]; try reflexivity.
    + rewrite IH by lia. destruct m; reflexivity.
    + apply IH. lia.
Qed.

Lemma cell_value_set_same (ws : Xl.sheet) (r col : nat) (v : Xl.cell) :
  Xl.cell_value (Xl.set_cell ws r col v) r col = v.
Proof.
  unfold Xl.cell_value, Xl.set_cell. cbn [Xl.sheet_rows].
  rewrite nth_set_nth_same. apply nth_set_nth_same.
Qed.

Lemma cell_value_set_other (ws : Xl.sheet) (r col r' col' : nat) (v : Xl.cell) :
  1 <= r -> 1 <= col -> 1 <= r' -> 1 <= col' ->
  (r', col') <> (r, col) ->
  Xl.cell_value (Xl.set_cell ws r col v) r' col' = Xl.cell_value ws r' col'.
Proof.
  intros Hr Hc Hr' Hc' Hne.
  unfold Xl.cell_value, Xl.set_cell. cbn [Xl.sheet_rows].
  destruct (Nat.eq_dec (r' - 1) (r - 1)) as [E|E].
  - rewrite E, nth_set_nth_same.
    apply nth_set_nth_other. intro E2. apply Hne. f_equal; lia.
  - rewrite nth_set_nth_other by exact E. reflexivity.
Qed.

Lemma header_set_cell (ws : Xl.sheet) (col : nat) (v : Xl.cell) :
  Xl.header (Xl.set_cell ws 1 col v)
  = Xl.set_nth (col - 1) v None (Xl.header ws).
Proof.
  unfold Xl.header, Xl.set_cell. cbn [Xl.sheet_rows].
  change (1 - 1) with 0.
  destruct (Xl.sheet_rows ws) as [|h rows]; reflexivity.
Qed.

Lemma index_of_set_nth (h : list Xl.cell) (name : str) (k : nat) :
  Xl.index_of h name = None ->
  Xl.index_of (Xl.set_nth k (Some name) None h) name = Some k.
Proof.
  revert h. induction k as [|k IH]; intros h H.
  - destruct h as [|c h]; cbn [Xl.set_nth Xl.index_of Xl.cell_eqb];
      rewrite str_eqb_refl; reflexivity.
  - destruct h as [|c h].
    + cbn [Xl.set_nth Xl.index_of Xl.cell_eqb].
      rewrite (IH (@nil (option str)) eq_refl). reflexivity.
    + cbn [Xl.index_of] in H. cbn [Xl.set_nth Xl.index_of].
      destruct (Xl.cell_eqb c (Some name)); [discriminate|].
      destruct (Xl.index_of h name) eqn:G; [discriminate|].
      rewrite (IH h G). reflexivity.
Qed.

Lemma max_column_bounds (ws : Xl.sheet) (r : nat) :
  length (nth r (Xl.sheet_rows ws) []) <= Xl.max_column ws.
Proof.
  unfold Xl.max_column.
  generalize (Xl.sheet_rows ws) as rows. intro rows. revert r.
  induction rows as [|row rows IH]; intros [|r]; cbn [nth map fold_right length];
    try lia.
  specialize (IH r). lia.
Qed.

(** X7.  [ensure_column] returns a column whose title cell holds the
    name; a second call returns the same column and changes nothing; a
    sheet that has the title is left as it is; otherwise the column is
    the one after the widest row, empty in every row before the call,
    and only its title cell is written. *)
Theorem ensure_column_spec (ws : Xl.sheet) (col_name : str) :
  let ws' := fst (Affil.ensure_column ws col_name) in
  let col := snd (Affil.ensure_column ws col_name) in
  1 <= col
  /\ Xl.cell_value ws' 1 col = Some col_name
  /\ Affil.ensure_column ws' col_name = (ws', col)
  /\ (Xl.has_column (Xl.header ws) col_name = true -> ws' = ws)
  /\ (Xl.has_column (Xl.header ws) col_name = false ->
        col = Xl.max_column ws + 1
        /\ forall r, Xl.cell_value ws r col = None)
  /\ forall r c, 1 <= r -> 1 <= c -> (r, c) <> (1, col) ->
       Xl.cell_value ws' r c = Xl.cell_value ws r c.
Proof.
  cbv zeta. unfold Affil.ensure_column.
  destruct (Xl.index_of (Xl.header ws) col_name) as [i|] eqn:E; cbn [fst snd].
  - destruct (index_of_some _ _ _ E) as [Hn [Hl _]].
    split; [lia|]. split.
    + unfold Xl.cell_value. change (1 - 1) with 0.
      replace (i + 1 - 1) with i by lia.
      unfold Xl.header in Hn. destruct (Xl.sheet_rows ws); exact Hn.
    + split; [rewrite E; reflexivity|]. split; [reflexivity|]. split.
      * intro H. exfalso. unfold Xl.has_column in H.
        assert (Hin : In (Some col_name) (Xl.header ws))
          by (rewrite <- Hn; apply nth_In; exact Hl).
        assert (Ht : existsb (Xl.cell_eqb (Some col_name)) (Xl.header ws) = true).
        { apply existsb_exists. exists (Some col_name). split; [exact Hin|].
          apply cell_eqb_eq. reflexivity. }
        congruence.
      * reflexivity.
  - split; [lia|]. split; [apply cell_value_set_same|]. split.
    + assert (Hi : Xl.index_of
                     (Xl.header (Xl.set_cell ws 1 (Xl.max_column ws + 1) (Some col_name)))
                     col_name = Some (Xl.max_column ws)).
      { rewrite header_set_cell.
        replace (Xl.max_column ws + 1 - 1) with (Xl.max_column ws) by lia.
        apply index_of_set_nth. exact E. }
      rewrite Hi. reflexivity.
    + split.
      * intro H. exfalso. unfold Xl.has_column in H.
        apply existsb_exists in H. destruct H as [c [Hin Hc]].
        apply cell_eqb_eq in Hc. subst c.
        apply (index_of_none _ _ E Hin).
      * split.
        -- intros _. split; [reflexivity|]. intro r.
           unfold Xl.cell_value. apply nth_overflow.
           pose proof (max_column_bounds ws (r - 1)). lia.
        -- intros r c Hr Hc Hne.
           apply cell_value_set_other; try assumption; lia.
Qed.

End ColumnFacts.

(* ================================================================== *)
(** * The country lookup: what it can and cannot find *)
(* ================================================================== *)

Section LookupFacts.

Lemma match_at_chr (p : ascii -> bool) (before rest : list ascii) :
  match_at (Chr p) before rest
  = match rest with
    | c :: _ => if p c then Some (S (length before), []) else None
    | [] => None
    end.
Proof.
  unfold match_at. cbn [exec remaining consumed spans].
  destruct rest as [|c rest]; [reflexivity|].
  destruct (p c); reflexivity.
Qed.

Lemma sub_chr (p : ascii -> bool) (s : str) (rest : list ascii) :
  forall before,
    sub_from (Chr p) [TLit (py " ")] s 0 before rest
    = map (fun c => if p c then " "%char else c) rest.
Proof.
  induction rest as [|c rest IH]; intros bf.
  - cbn [sub_from]. rewrite match_at_chr. reflexivity.
  - cbn [sub_from]. rewrite match_at_chr.
    destruct (p c) eqn:E.
    + cbn [mk_match m_end m_start fst snd].
      replace (S (length bf) - length bf) with 1 by lia.
      cbn [expand flat_map app py list_ascii_of_string map]. rewrite E.
      rewrite IH. reflexivity.
    + cbn [map]. rewrite E, IH. reflexivity.
Qed.

Lemma padded_eq (text : str) :
  Affil.padded text
  = squeeze false
      (map (fun c => if structural c then " "%char else c)
           (py " " ++ strip (lower text) ++ py " ")).
Proof.
  unfold Affil.padded. rewrite re_sub_ws. f_equal.
  unfold re_sub, Affil.PUNCT. apply sub_chr.
Qed.

Lemma squeeze_forallb (q : ascii -> bool) (s : str) (b : bool) :
  q " "%char = true -> forallb q s = true -> forallb q (squeeze b s) = true.
Proof.
  intro Hq. revert b. induction s as [|c s IH]; intros b H; [reflexivity|].
  cbn [forallb] in H. apply andb_prop in H. destruct H as [Hc Hs].
  cbn [squeeze]. destruct (is_space c).
  - destruct b; [apply IH; exact Hs|].
    cbn [forallb]. rewrite Hq. apply IH. exact Hs.
  - cbn [forallb]. rewrite Hc. apply IH. exact Hs.
Qed.

Lemma padded_plain (text : str) : plain_key (Affil.padded text) = true.
Proof.
  rewrite padded_eq. unfold plain_key.
  apply squeeze_forallb; [reflexivity|].
  rewrite forallb_forall. intros x Hx. apply in_map_iff in Hx.
  destruct Hx as [c [E _]]. subst x.
  destruct (structural c) eqn:Ec; [reflexivity|]. rewrite Ec. reflexivity.
Qed.

Lemma occurs_plain (k text : str) :
  occurs k (Affil.padded text) = true -> plain_key k = true.
Proof.
  intro H. unfold occurs in H. apply str_in_spec in H.
  destruct H as [pre [post E]].
  pose proof (padded_plain text) as P. rewrite E in P.
  unfold plain_key in *. rewrite !forallb_app in P.
  apply andb_prop in P. destruct P as [_ P].
  apply andb_prop in P. destruct P as [P _].
  apply andb_prop in P. destruct P as [_ P].
  apply andb_prop in P. destruct P as [P _]. exact P.
Qed.

Lemma first_hit_plain (t : str) (keys : list str) :
  (forall k, occurs k t = true -> plain_key k = true) ->
  Affil.first_hit t keys = Affil.first_hit t (filter plain_key keys).
Proof.
  intro H. induction keys as [|k keys IH]; [reflexivity|].
  rewrite first_hit_cons. cbn [filter].
  destruct (occurs k t) eqn:E.
  - rewrite (H k E). rewrite first_hit_cons, E. reflexivity.
  - destruct (plain_key k); [rewrite first_hit_cons, E|]; exact IH.
Qed.

(** X8.  A key that contains one of the characters ( ) [ ] { } ; is
    never found, whatever the text: the lookup turns these characters
    of the text into spaces but leaves the keys as they are.  The
    answer is the one the lookup gives with such keys removed. *)
Theorem punctuated_keys_never_found
    (text : str) (name_map : list (str * str)) (keys_sorted : list str) :
  (forall k, plain_key k = false -> occurs k (Affil.padded text) = false)
  /\ Affil.infer_country text name_map keys_sorted
     = Affil.infer_country text name_map (filter plain_key keys_sorted).
Proof.
  split.
  - intros k Hk. destruct (occurs k (Affil.padded text)) eqn:E; [|reflexivity].
    rewrite (occurs_plain k text E) in Hk. discriminate.
  - unfold Affil.infer_country. destruct text as [|c text]; [reflexivity|].
    rewrite (first_hit_plain _ keys_sorted (fun k => occurs_plain k (c :: text))).
    reflexivity.
Qed.

End LookupFacts.

(* ================================================================== *)
(** * The affiliation script: the text before the abstract *)
(* ================================================================== *)

Section PreAbstractFacts.

Lemma exec_lit_ci {R : Type} (w : str) :
  forall (st : mstate) (k : mstate -> option R),
    exec (lit_ci w) st k
    = match ci_prefix w (remaining st) with
      | Some r =>
          k (MState (rev (firstn (length w) (remaining st)) ++ consumed st) r (spans st))
      | None => None
      end.
Proof.
  induction w as [|x w IH]; intros [b s sp] k.
  - reflexivity.
  - cbn [lit_ci exec remaining consumed spans ci_prefix length].
    destruct s as [|c s]; [reflexivity|].
    destruct (Ascii.eqb (lower_char c) (lower_char x)); [|reflexivity].
    rewrite IH. cbn [remaining consumed spans firstn rev].
    destruct (ci_prefix w s); [|reflexivity].
    rewrite <- app_assoc. reflexivity.
Qed.

Lemma ci_prefix_some (w s r : str) :
  ci_prefix w s = Some r ->
  exists a, s = a ++ r /\ lower a = lower w.
Proof.
  revert s. induction w as [|x w IH]; intros s H.
  - cbn in H. injection H as <-. exists []. split; reflexivity.
  - destruct s as [|c s]; [discriminate|]. cbn [ci_prefix] in H.
    destruct (Ascii.eqb (lower_char c) (lower_char x)) eqn:E; [|discriminate].
    apply Ascii.eqb_eq in E.
    destruct (IH s H) as [a [E1 E2]]. exists (c :: a).
    split; [cbn; rewrite E1; reflexivity|].
    cbn [lower map]. fold (lower a). fold (lower w). rewrite E, E2. reflexivity.
Qed.

Lemma ci_prefix_lower (w a r : str) :
  lower a = lower w -> ci_prefix w (a ++ r) = Some r.
Proof.
  revert a. induction w as [|x w IH]; intros a H.
  - destruct a; [reflexivity|discriminate].
  - destruct a as [|c a]; [discriminate|].
    cbn [lower map] in H. injection H as Hc Ha.
    cbn [app ci_prefix]. rewrite Hc, (proj2 (Ascii.eqb_eq _ _) eq_refl).
    apply IH. exact Ha.
Qed.

Lemma rep_some {R : Type} (p : ascii -> bool) (lo : nat) (hi : option nat)
    (k : list ascii -> list ascii -> option R) (x : R) :
  forall rest n b,
    rep p lo hi n b rest k = Some x ->
    exists taken r,
      rest = taken ++ r /\ forallb p taken = true /\ k (rev taken ++ b) r = Some x.
Proof.
  induction rest as [|c rest IH]; intros n b H.
  - cbn [rep] in H. exists [], []. split; [reflexivity|]. split; [reflexivity|].
    destruct (lo <=? n); [exact H|discriminate].
  - cbn [rep] in H.
    assert (Stop : (if lo <=? n then k b (c :: rest) else None) = Some x ->
                   exists taken r,
                     c :: rest = taken ++ r /\ forallb p taken = true
                     /\ k (rev taken ++ b) r = Some x).
    { intro Hs. exists [], (c :: rest). split; [reflexivity|]. split; [reflexivity|].
      destruct (lo <=? n); [exact Hs|discriminate]. }
    destruct (p c && below n hi) eqn:E; [|apply Stop; exact H].
    destruct (rep p lo hi (S n) (c :: b) rest k) as [y|] eqn:Er; [|apply Stop; exact H].
    injection H as ->.
    destruct (IH _ _ Er) as [taken [r [E1 [E2 E3]]]].
    exists (c :: taken), r. split; [cbn; rewrite E1; reflexivity|].
    apply andb_prop in E. destruct E as [Ec _].
    split; [cbn [forallb]; rewrite Ec; exact E2|].
    cbn [rev]. rewrite <- app_assoc. exact E3.
Qed.

Lemma newline_is_linebreak : is_linebreak newline = true.
Proof. reflexivity. Qed.

Lemma newline_is_space : is_space newline = true.
Proof. reflexivity. Qed.

Lemma strip_last (s : str) : head_is is_space (rev (strip s)) = false.
Proof. unfold strip. apply rstrip_last. Qed.

Lemma strip_strip (s : str) : strip (strip s) = strip s.
Proof. apply strip_id; [apply strip_head|apply strip_last]. Qed.

Lemma strip_part (s : str) : exists front tail, s = front ++ strip s ++ tail.
Proof.
  destruct (lstrip_suffix s) as [front Ef].
  destruct (rstrip_prefix (lstrip s)) as [tail Et].
  exists front, tail. unfold strip. rewrite <- Et. exact Ef.
Qed.

Lemma strip_no_linebreak (s : str) :
  no_linebreak s = true -> no_linebreak (strip s) = true.
Proof.
  intro H. destruct (strip_part s) as [front [tail E]].
  unfold no_linebreak in *. rewrite E, !forallb_app in H.
  apply andb_prop in H. destruct H as [_ H].
  apply andb_prop in H. apply H.
Qed.

(** The pattern of the heading on a stripped line without a newline:
    the line is the word, whatever the case. *)
Lemma abstract_heading_eq (ln : str) :
  no_linebreak ln = true ->
  Affil.is_abstract_heading ln = reads_abstract ln.
Proof.
  intro Hnl. apply strip_no_linebreak in Hnl.
  unfold Affil.is_abstract_heading, reads_abstract.
  pose proof (strip_head ln) as Hh. pose proof (strip_last ln) as Hl.
  set (s := strip ln) in *.
  unfold re_match, pmatch_at, Affil.ABSTRACT_RE.
  cbn [pcat pexec at_bol consumed remaining spans cat exec star].
  rewrite (rep_stop _ _ _ _ _ _ _ Hh). cbn [Nat.leb].
  rewrite exec_lit_ci. cbn [remaining consumed spans].
  destruct (ci_prefix (py "abstract") s) as [r|] eqn:Ep.
  - destruct (ci_prefix_some _ _ _ Ep) as [a [Es Ea]].
    destruct r as [|c r].
    + cbn [rep Nat.leb at_eol option_map]. rewrite app_nil_r in Es.
      rewrite Es, Ea. reflexivity.
    + match goal with
      | |- context [rep ?p ?lo ?hi ?n ?b ?rest ?k] =>
          destruct (rep p lo hi n b rest k) as [f|] eqn:Er
      end.
      * exfalso.
        destruct (rep_some _ _ _ _ _ _ _ _ Er) as [taken [r' [E1 [E2 E3]]]].
        cbn [remaining] in E3.
        destruct r' as [|c' r'].
        -- rewrite app_nil_r in E1. rewrite Es, E1 in Hl.
           rewrite rev_app_distr in Hl.
           destruct (rev taken) as [|z l] eqn:Ez.
           ++ apply (f_equal (@length ascii)) in Ez. rewrite length_rev, <- E1 in Ez.
              discriminate.
           ++ cbn [app head_is] in Hl.
              assert (Hz : In z taken) by (apply in_rev; rewrite Ez; left; reflexivity).
              rewrite forallb_forall in E2. rewrite (E2 z Hz) in Hl. discriminate.
        -- cbn [at_eol] in E3.
           destruct (Ascii.eqb c' newline) eqn:En; [|discriminate].
           apply Ascii.eqb_eq in En. subst c'.
           unfold no_linebreak in Hnl. rewrite Es, E1, !forallb_app in Hnl.
           apply andb_prop in Hnl. destruct Hnl as [_ Hnl].
           apply andb_prop in Hnl. destruct Hnl as [_ Hnl].
           cbn [forallb] in Hnl. rewrite newline_is_linebreak in Hnl. discriminate.
      * cbn [option_map]. symmetry. apply str_eqb_neq. intro Hc.
        assert (Hlen : length s = 8)
          by (rewrite <- (length_map lower_char); fold (lower s); rewrite Hc; reflexivity).
        assert (Hla : length a = 8)
          by (rewrite <- (length_map lower_char); fold (lower a); rewrite Ea; reflexivity).
        rewrite Es, length_app, Hla in Hlen. cbn [length] in Hlen. lia.
  - cbn [option_map]. symmetry. apply str_eqb_neq. intro Hc.
    rewrite <- (app_nil_r s) in Ep.
    rewrite (ci_prefix_lower (py "abstract") s [] Hc) in Ep. discriminate.
Qed.

Lemma splitlines_from_lines (s : str) :
  forall cur, no_linebreak cur = true ->
    Forall (fun ln => no_linebreak ln = true) (splitlines_from cur s).
Proof.
  assert (Hrev : forall cur, no_linebreak cur = true -> no_linebreak (rev cur) = true).
  { intros cur H. unfold no_linebreak in *. rewrite forallb_forall in *.
    intros x Hx. apply H. apply in_rev. exact Hx. }
  assert (G : forall n s, length s <= n -> forall cur, no_linebreak cur = true ->
            Forall (fun ln => no_linebreak ln = true) (splitlines_from cur s)).
  { induction n as [|n IH]; intros s0 Hn cur Hc.
    - destruct s0; [|cbn in Hn; lia].
      cbn [splitlines_from]. destruct cur; [constructor|].
      constructor; [apply Hrev; exact Hc|constructor].
    - destruct s0 as [|c s0].
      + cbn [splitlines_from]. destruct cur; [constructor|].
        constructor; [apply Hrev; exact Hc|constructor].
      + cbn [length] in Hn. cbn [splitlines_from]. destruct (is_linebreak c) eqn:E.
        * destruct s0 as [|x s0].
          -- constructor; [apply Hrev; exact Hc|]. apply IH; [cbn; lia|reflexivity].
          -- cbn [length] in Hn.
             destruct (Ascii.eqb c "013" && Ascii.eqb x "010").
             ++ constructor; [apply Hrev; exact Hc|].
                apply IH; [lia|reflexivity].
             ++ constructor; [apply Hrev; exact Hc|].
                apply IH; [cbn; lia|reflexivity].
        * apply IH; [lia|]. unfold no_linebreak. cbn [forallb]. rewrite E. exact Hc. }
  intros cur Hc. apply (G (length s) s (le_n _) cur Hc).
Qed.

Lemma splitlines_lines (s : str) :
  Forall (fun ln => no_linebreak ln = true) (splitlines s).
Proof. apply splitlines_from_lines. reflexivity. Qed.

Lemma lines_before_abstract_eq (lines : list str) :
  Forall (fun ln => no_linebreak ln = true) lines ->
  Affil.lines_before_abstract lines = take_until reads_abstract lines.
Proof.
  induction 1 as [|ln lines Hln _ IH]; [reflexivity|].
  cbn [Affil.lines_before_abstract take_until].
  rewrite (abstract_heading_eq ln Hln), IH. reflexivity.
Qed.

Lemma take_until_lines (stop : str -> bool) (P : str -> Prop) (lines : list str) :
  Forall P lines -> Forall P (take_until stop lines).
Proof.
  induction 1 as [|ln lines Hln _ IH]; [constructor|].
  cbn [take_until]. destruct (stop ln); [constructor|].
  constructor; assumption.
Qed.

Lemma splitlines_from_app (l : str) :
  no_linebreak l = true ->
  forall cur rest, splitlines_from cur (l ++ rest) = splitlines_from (rev l ++ cur) rest.
Proof.
  induction l as [|c l IH]; intros H cur rest; [reflexivity|].
  unfold no_linebreak in H. cbn [forallb] in H. apply andb_prop in H.
  destruct H as [Hc Hl]. apply negb_true_iff in Hc.
  cbn [app splitlines_from]. rewrite Hc.
  rewrite (IH Hl). cbn [rev]. rewrite <- app_assoc. reflexivity.
Qed.

Lemma splitlines_from_newline (cur rest : str) :
  splitlines_from cur (newline :: rest) = rev cur :: splitlines_from [] rest.
Proof.
  cbn [splitlines_from]. rewrite newline_is_linebreak.
  destruct rest; reflexivity.
Qed.

(** Joining lines with newlines and splitting again gives the lines
    back, but for blank ones. *)
Lemma splitlines_join (lines : list str) :
  Forall (fun ln => no_linebreak ln = true) lines ->
  filter not_blank (splitlines (Sort.join [newline] lines)) = filter not_blank lines.
Proof.
  induction 1 as [|x lines Hx Hl IH]; [reflexivity|].
  destruct lines as [|y lines].
  - cbn [Sort.join]. unfold splitlines.
    rewrite <- (app_nil_r x) at 1. rewrite (splitlines_from_app x Hx).
    cbn [splitlines_from]. rewrite app_nil_r.
    destruct (rev x) as [|z l] eqn:E.
    + apply (f_equal (@rev ascii)) in E. rewrite rev_involutive in E. subst x.
      reflexivity.
    + rewrite <- E, rev_involutive. reflexivity.
  - change (Sort.join [newline] (x :: y :: lines))
      with (x ++ newline :: Sort.join [newline] (y :: lines)).
    unfold splitlines. rewrite (splitlines_from_app x Hx), app_nil_r.
    rewrite splitlines_from_newline, rev_involutive.
    cbn [filter]. fold (splitlines (Sort.join [newline] (y :: lines))).
    rewrite IH. reflexivity.
Qed.

Lemma reads_abstract_strip (ln : str) : reads_abstract (strip ln) = reads_abstract ln.
Proof. unfold reads_abstract. rewrite strip_strip. reflexivity. Qed.

Lemma reads_abstract_not_blank (ln : str) :
  reads_abstract ln = true -> not_blank ln = true.
Proof.
  unfold reads_abstract, not_blank. intro H. apply str_eqb_eq in H.
  destruct (strip ln); [discriminate|reflexivity].
Qed.

Lemma take_until_stripped (lines : list str) :
  map strip (filter not_blank (take_until reads_abstract lines))
  = take_until reads_abstract (map strip (filter not_blank lines)).
Proof.
  induction lines as [|ln lines IH]; [reflexivity|].
  cbn [take_until filter].
  destruct (reads_abstract ln) eqn:E.
  - rewrite (reads_abstract_not_blank ln E). cbn [map take_until].
    rewrite reads_abstract_strip, E. reflexivity.
  - cbn [filter]. destruct (not_blank ln).
    + cbn [map take_until]. rewrite reads_abstract_strip, E, IH. reflexivity.
    + exact IH.
Qed.

(** X9.  The text kept before the abstract is made of the lines of the
    text up to the first line that, stripped and whatever the case, is
    the single word abstract; a line such as Abstract: or Abstract
    followed by text does not end it.  The non-blank stripped lines the
    affiliation picker then reads are exactly the non-blank stripped
    lines of the text before that heading. *)
Theorem pre_abstract_lines (text : str) :
  Affil.split_pre_abstract text
  = Sort.join [newline] (take_until reads_abstract (splitlines text))
  /\ Affil.stripped_lines (Affil.split_pre_abstract text)
     = take_until reads_abstract (Affil.stripped_lines text).
Proof.
  assert (E : Affil.split_pre_abstract text
              = Sort.join [newline] (take_until reads_abstract (splitlines text))).
  { unfold Affil.split_pre_abstract. destruct text as [|c text]; [reflexivity|].
    rewrite (lines_before_abstract_eq _ (splitlines_lines (c :: text))).
    reflexivity. }
  split; [exact E|].
  rewrite E. unfold Affil.stripped_lines.
  change (fun ln => negb (Affil.is_blank (strip ln))) with not_blank.
  rewrite splitlines_join
    by (apply take_until_lines; apply splitlines_lines).
  apply take_until_stripped.
Qed.

End PreAbstractFacts.

(* ================================================================== *)
(** * The affiliation script: the line that is picked *)
(* ================================================================== *)

Section PickFacts.

Variable name_map : list (str * str).
Variable keys_sorted : list str.

Local Abbreviation country_of := (fun ln => Affil.infer_country ln name_map keys_sorted).

Lemma slice_substring (a b : nat) (s : str) : substring (slice a b s) s.
Proof.
  unfold substring, slice.
  exists (firstn a s), (skipn (b - a) (skipn a s)).
  rewrite firstn_skipn. rewrite firstn_skipn. reflexivity.
Qed.

Lemma group_substring (p : pattern) (s : str) (m : rmatch) (i : nat) :
  re_match p s = Some m -> group m i = [] \/ substring (group m i) s.
Proof.
  intro H. unfold re_match in H.
  destruct (pmatch_at p [] s) as [f|]; [|discriminate].
  injection H as <-. unfold group. cbn [mk_match m_spans m_string fst snd].
  destruct (assoc_nat i (snd f)) as [[a b]|]; [|left; reflexivity].
  right. apply slice_substring.
Qed.

Lemma is_blank_nil (s : str) : Affil.is_blank s = true <-> s = [].
Proof. destruct s; split; intro H; try reflexivity; discriminate. Qed.

Lemma enumerated_pass_some (lines : list str) (l c : str) :
  Affil.enumerated_pass name_map keys_sorted lines = Some (l, c) ->
  c <> [] /\ c = country_of l /\ exists ln, In ln lines /\ substring l ln.
Proof.
  induction lines as [|ln lines IH]; [discriminate|].
  cbn [Affil.enumerated_pass].
  destruct (re_match Affil.AFFIL_LEAD_RE ln) as [m|] eqn:Em.
  - destruct (Affil.is_blank (country_of (group m 2))) eqn:Eb.
    + intro H. destruct (IH H) as [H1 [H2 [ln' [H3 H4]]]].
      split; [exact H1|]. split; [exact H2|]. exists ln'. split; [right; exact H3|exact H4].
    + intro H. injection H as <- <-.
      split; [intro Hc; rewrite (proj2 (is_blank_nil _) Hc) in Eb; discriminate|].
      split; [reflexivity|]. exists ln. split; [left; reflexivity|].
      destruct (group_substring _ _ _ 2 Em) as [Hg|Hg]; [|exact Hg].
      exfalso. rewrite Hg in Eb. cbn in Eb. discriminate.
  - intro H. destruct (IH H) as [H1 [H2 [ln' [H3 H4]]]].
    split; [exact H1|]. split; [exact H2|]. exists ln'. split; [right; exact H3|exact H4].
Qed.

Lemma substring_refl (s : str) : substring s s.
Proof. exists [], []. rewrite app_nil_r. reflexivity. Qed.

Lemma marker_pass_some (lines : list str) (l c : str) :
  Affil.marker_pass name_map keys_sorted lines = Some (l, c) ->
  c <> [] /\ c = country_of l /\ In l lines.
Proof.
  induction lines as [|ln lines IH]; [discriminate|].
  cbn [Affil.marker_pass].
  destruct (re_search_p Affil.MARKER_RE ln) as [m|].
  - destruct (Affil.is_blank (country_of ln)) eqn:Eb.
    + intro H. destruct (IH H) as [H1 [H2 H3]].
      split; [exact H1|]. split; [exact H2|right; exact H3].
    + intro H. injection H as <- <-.
      split; [intro Hc; rewrite (proj2 (is_blank_nil _) Hc) in Eb; discriminate|].
      split; [reflexivity|left; reflexivity].
  - intro H. destruct (IH H) as [H1 [H2 H3]].
    split; [exact H1|]. split; [exact H2|right; exact H3].
Qed.

Lemma any_pass_spec (lines : list str) :
  match Affil.any_pass name_map keys_sorted lines with
  | Some (l, c) =>
      c <> [] /\ c = country_of l
      /\ exists before after,
           lines = before ++ l :: after
           /\ forall ln, In ln before -> country_of ln = []
  | None => forall ln, In ln lines -> country_of ln = []
  end.
Proof.
  induction lines as [|ln lines IH]; [intros ln []|].
  cbn [Affil.any_pass].
  destruct (Affil.is_blank (country_of ln)) eqn:Eb.
  - apply is_blank_nil in Eb.
    destruct (Affil.any_pass name_map keys_sorted lines) as [[l c]|].
    + destruct IH as [H1 [H2 [before [after [H3 H4]]]]].
      split; [exact H1|]. split; [exact H2|].
      exists (ln :: before), after. split; [rewrite H3; reflexivity|].
      intros x [Hx|Hx]; [subst x; exact Eb|apply H4; exact Hx].
    + intros x [Hx|Hx]; [subst x; exact Eb|apply IH; exact Hx].
  - split; [intro Hc; rewrite (proj2 (is_blank_nil _) Hc) in Eb; discriminate|].
    split; [reflexivity|]. exists [], lines. split; [reflexivity|intros x []].
Qed.

(** X10.  What [pick_first_affiliation_line] returns, in two
    implications.  If the country is empty, so is the line, and no
    stripped line of the text yields a country.  If the country is not
    empty, it is the one the lookup gives for the returned line, and
    the returned line is a block of a stripped line of the text (the
    line itself, or the text after the enumerator of an enumerated
    line).  The converse of the first implication is not claimed. *)
Theorem pick_first_affiliation_line_spec (pre_abstract_text : str) :
  let r := Affil.pick_first_affiliation_line name_map keys_sorted pre_abstract_text in
  (snd r = [] ->
     fst r = []
     /\ forall ln, In ln (Affil.stripped_lines pre_abstract_text) ->
          Affil.infer_country ln name_map keys_sorted = [])
  /\ (snd r <> [] ->
        snd r = Affil.infer_country (fst r) name_map keys_sorted
        /\ exists ln, In ln (Affil.stripped_lines pre_abstract_text)
                      /\ substring (fst r) ln).
Proof.
  cbv zeta. unfold Affil.pick_first_affiliation_line.
  destruct pre_abstract_text as [|c0 text].
  - cbn [fst snd]. split.
    + intros _. split; [reflexivity|]. intros ln [].
    + intro H. exfalso. apply H. reflexivity.
  - set (lines := Affil.stripped_lines (c0 :: text)).
    destruct (Affil.enumerated_pass name_map keys_sorted lines) as [[l c]|] eqn:E1.
    { destruct (enumerated_pass_some _ _ _ E1) as [H1 [H2 H3]]. cbn [fst snd].
      split; [intro H; contradiction|]. intros _. split; assumption. }
    destruct (Affil.marker_pass name_map keys_sorted lines) as [[l c]|] eqn:E2.
    { destruct (marker_pass_some _ _ _ E2) as [H1 [H2 H3]]. cbn [fst snd].
      split; [intro H; contradiction|]. intros _. split; [exact H2|].
      exists l. split; [exact H3|apply substring_refl]. }
    pose proof (any_pass_spec lines) as H3.
    destruct (Affil.any_pass name_map keys_sorted lines) as [[l c]|].
    + destruct H3 as [H1 [H2 [before [after [H4 _]]]]]. cbn [fst snd].
      split; [intro H; contradiction|]. intros _. split; [exact H2|].
      exists l. split; [rewrite H4; apply in_or_app; right; left; reflexivity|].
      apply substring_refl.
    + cbn [fst snd]. split.
      * intros _. split; [reflexivity|exact H3].
      * intro H. exfalso. apply H. reflexivity.
Qed.

End PickFacts.

(* ================================================================== *)
(** * The affiliation script: what a run writes *)
(* ================================================================== *)

Section AffilRunFacts.

Variable name_map : list (str * str).
Variable keys_sorted : list str.
Variable doi_to_pdf : list (str * Affil.pdf_doc).
Variable max_pages_affil : nat.

Local Abbreviation found := (country_found name_map keys_sorted doi_to_pdf max_pages_affil).
Local Abbreviation row_step :=
  (Affil.process_row name_map keys_sorted doi_to_pdf max_pages_affil).
Local Abbreviation sheet_step :=
  (Affil.process_sheet name_map keys_sorted doi_to_pdf max_pages_affil).
Local Abbreviation run := (Affil.main name_map keys_sorted doi_to_pdf max_pages_affil).
Local Abbreviation write := (write_row name_map keys_sorted doi_to_pdf max_pages_affil).
Local Abbreviation after := (sheet_after name_map keys_sorted doi_to_pdf max_pages_affil).

Lemma process_row_sheet (name : str) (link_col out_col : nat)
    (st : Xl.sheet * list Affil.log_row) (r : nat) :
  fst (row_step name link_col out_col st r) = write link_col out_col (fst st) r.
Proof.
  unfold Affil.process_row, write_row, country_found.
  destruct (Affil.parse_doi (or_empty (Xl.cell_value (fst st) r link_col)))
    as [|c d]; [reflexivity|].
  destruct (dict_get doi_to_pdf (c :: d)) as [f|]; [|reflexivity].
  destruct (Affil.pick_first_affiliation_line name_map keys_sorted
              (Affil.split_pre_abstract
                 (Affil.extract_first_pages_text f max_pages_affil))) as [l co].
  cbn [snd]. destruct co; reflexivity.
Qed.

Lemma fold_rows_sheet (name : str) (link_col out_col : nat) (rows : list nat) :
  forall st,
    fst (fold_left (row_step name link_col out_col) rows st)
    = fold_left (write link_col out_col) rows (fst st).
Proof.
  induction rows as [|r rows IH]; intro st; [reflexivity|].
  cbn [fold_left]. rewrite IH, process_row_sheet. reflexivity.
Qed.

Lemma set_cell_name (ws : Xl.sheet) (r c : nat) (v : Xl.cell) :
  Xl.sheet_name (Xl.set_cell ws r c v) = Xl.sheet_name ws.
Proof. reflexivity. Qed.

Lemma write_row_cells (link_col out_col : nat) (ws : Xl.sheet) (r : nat) :
  1 <= r -> 1 <= out_col ->
  Xl.sheet_name (write link_col out_col ws r) = Xl.sheet_name ws
  /\ Xl.cell_value (write link_col out_col ws r) r out_col
     = match found ws link_col r with
       | Some v => Some v
       | None => Xl.cell_value ws r out_col
       end
  /\ forall r' c, 1 <= r' -> 1 <= c -> (r', c) <> (r, out_col) ->
       Xl.cell_value (write link_col out_col ws r) r' c = Xl.cell_value ws r' c.
Proof.
  intros Hr Hc. unfold write_row.
  destruct (found ws link_col r) as [v|].
  - split; [reflexivity|]. split; [apply cell_value_set_same|].
    intros r' c Hr' Hc' Hne. apply cell_value_set_other; assumption.
  - split; [reflexivity|]. split; [reflexivity|]. intros. reflexivity.
Qed.

Lemma found_same (ws ws' : Xl.sheet) (link_col r : nat) :
  Xl.cell_value ws' r link_col = Xl.cell_value ws r link_col ->
  found ws' link_col r = found ws link_col r.
Proof. intro H. unfold country_found. rewrite H. reflexivity. Qed.

(** The rows are independent: what is written for a row is what the
    sheet before the loop determines. *)
Lemma fold_rows_cells (link_col out_col : nat) (rows : list nat) :
  1 <= link_col -> 1 <= out_col -> link_col <> out_col ->
  NoDup rows -> (forall r, In r rows -> 1 <= r) ->
  forall ws,
    let ws2 := fold_left (write link_col out_col) rows ws in
    Xl.sheet_name ws2 = Xl.sheet_name ws
    /\ (forall r, In r rows ->
          Xl.cell_value ws2 r out_col
          = match found ws link_col r with
            | Some v => Some v
            | None => Xl.cell_value ws r out_col
            end)
    /\ (forall r c, 1 <= r -> 1 <= c -> c <> out_col \/ ~ In r rows ->
          Xl.cell_value ws2 r c = Xl.cell_value ws r c).
Proof.
  intros Hl Ho Hne. induction rows as [|r0 rows IH]; intros Hnd Hpos ws.
  - cbn [fold_left]. split; [reflexivity|]. split; [intros r []|]. intros. reflexivity.
  - inversion Hnd as [|? ? Hn Hnd']; subst.
    assert (Hr0 : 1 <= r0) by (apply Hpos; left; reflexivity).
    destruct (write_row_cells link_col out_col ws r0 Hr0 Ho) as [W1 [W2 W3]].
    specialize (IH Hnd' (fun r H => Hpos r (or_intror H))
                   (write link_col out_col ws r0)).
    cbv zeta in IH. destruct IH as [I1 [I2 I3]].
    cbn [fold_left]. cbv zeta. split; [rewrite I1; exact W1|]. split.
    + intros r [Hr|Hr].
      * subst r. rewrite I3; [exact W2|exact Hr0|exact Ho|right; exact Hn].
      * rewrite (I2 r Hr).
        assert (Hrr : r <> r0) by (intro E; subst r; contradiction).
        assert (Hr1 : 1 <= r) by (apply Hpos; right; exact Hr).
        rewrite (found_same ws (write link_col out_col ws r0) link_col r).
        -- destruct (found ws link_col r); [reflexivity|].
           apply W3; [exact Hr1|exact Ho|]. intro E. apply Hrr. congruence.
        -- apply W3; [exact Hr1|exact Hl|]. intro E. apply Hne. congruence.
    + intros r c Hr Hc Hor. rewrite I3; [|exact Hr|exact Hc|].
      * apply W3; [exact Hr|exact Hc|]. intro E.
        destruct Hor as [H|H]; [apply H; congruence|apply H; left; congruence].
      * destruct Hor as [H|H]; [left; exact H|right; intro Hin; apply H; right; exact Hin].
Qed.

Lemma ensure_column_cases (ws : Xl.sheet) (col_name : str) :
  (exists j, Xl.index_of (Xl.header ws) col_name = Some j
             /\ Affil.ensure_column ws col_name = (ws, j + 1))
  \/ (Xl.index_of (Xl.header ws) col_name = None
      /\ Affil.ensure_column ws col_name
         = (Xl.set_cell ws 1 (Xl.max_column ws + 1) (Some col_name),
            Xl.max_column ws + 1)).
Proof.
  unfold Affil.ensure_column.
  destruct (Xl.index_of (Xl.header ws) col_name) as [j|].
  - left. exists j. split; reflexivity.
  - right. split; reflexivity.
Qed.

Lemma header_width (ws : Xl.sheet) : length (Xl.header ws) <= Xl.max_column ws.
Proof.
  unfold Xl.header. pose proof (max_column_bounds ws 0) as H.
  destruct (Xl.sheet_rows ws) as [|h rows]; [cbn; lia|exact H].
Qed.

Lemma ensure_column_apart (ws : Xl.sheet) (col_name other : str) (i : nat) :
  Xl.index_of (Xl.header ws) other = Some i -> other <> col_name ->
  snd (Affil.ensure_column ws col_name) <> i + 1.
Proof.
  intros Hi Hne.
  destruct (index_of_some _ _ _ Hi) as [Hn [Hl _]].
  destruct (ensure_column_cases ws col_name) as [[j [Hj E]]|[Hj E]]; rewrite E; cbn [snd].
  - destruct (index_of_some _ _ _ Hj) as [Hn' _].
    intro Eq. assert (j = i) by lia. subst j. rewrite Hn in Hn'.
    injection Hn' as Hx. contradiction.
  - pose proof (header_width ws). lia.
Qed.

Lemma ensure_column_sheet (ws : Xl.sheet) (col_name : str) :
  Xl.sheet_rows ws <> [] ->
  let ws1 := fst (Affil.ensure_column ws col_name) in
  let col := snd (Affil.ensure_column ws col_name) in
  1 <= col
  /\ Xl.sheet_name ws1 = Xl.sheet_name ws
  /\ Xl.max_row ws1 = Xl.max_row ws
  /\ Xl.cell_value ws1 1 col = Some col_name
  /\ forall r c, 1 <= r -> 1 <= c -> (r, c) <> (1, col) ->
       Xl.cell_value ws1 r c = Xl.cell_value ws r c.
Proof.
  intro Hrows. cbv zeta.
  destruct (ensure_column_cases ws col_name) as [[j [Hj E]]|[Hj E]]; rewrite E;
    cbn [fst snd].
  - destruct (index_of_some _ _ _ Hj) as [Hn _].
    split; [lia|]. split; [reflexivity|]. split; [reflexivity|]. split.
    + unfold Xl.cell_value. change (1 - 1) with 0.
      replace (j + 1 - 1) with j by lia.
      unfold Xl.header in Hn. destruct (Xl.sheet_rows ws); exact Hn.
    + intros. reflexivity.
  - split; [lia|]. split; [reflexivity|]. split.
    + unfold Xl.max_row, Xl.set_cell. cbn [Xl.sheet_rows]. change (1 - 1) with 0.
      destruct (Xl.sheet_rows ws) as [|h rows]; [contradiction|reflexivity].
    + split; [apply cell_value_set_same|].
      intros r c Hr Hc Hne. apply cell_value_set_other; try assumption; lia.
Qed.

Lemma get_set_sheet (wb : Xl.workbook) (ws : Xl.sheet) (name : str) :
  Xl.get_sheet (Xl.set_sheet wb ws) name
  = if str_eqb name (Xl.sheet_name ws)
    then match Xl.get_sheet wb name with Some _ => Some ws | None => None end
    else Xl.get_sheet wb name.
Proof.
  induction wb as [|ws0 wb IH].
  - cbn [Xl.set_sheet Xl.get_sheet]. destruct (str_eqb name (Xl.sheet_name ws)); reflexivity.
  - cbn [Xl.set_sheet].
    destruct (str_eqb (Xl.sheet_name ws) (Xl.sheet_name ws0)) eqn:E.
    + apply str_eqb_eq in E. cbn [Xl.get_sheet]. rewrite <- E.
      destruct (str_eqb name (Xl.sheet_name ws)); reflexivity.
    + cbn [Xl.get_sheet]. destruct (str_eqb name (Xl.sheet_name ws0)) eqn:E0.
      * apply str_eqb_eq in E0. subst name.
        replace (str_eqb (Xl.sheet_name ws0) (Xl.sheet_name ws)) with false;
          [reflexivity|].
        symmetry. apply str_eqb_neq. apply str_eqb_neq in E. congruence.
      * exact IH.
Qed.

Lemma sheetnames_set_sheet (wb : Xl.workbook) (ws : Xl.sheet) :
  Xl.sheetnames (Xl.set_sheet wb ws) = Xl.sheetnames wb.
Proof.
  induction wb as [|ws0 wb IH]; [reflexivity|].
  cbn [Xl.set_sheet].
  destruct (str_eqb (Xl.sheet_name ws) (Xl.sheet_name ws0)) eqn:E.
  - apply str_eqb_eq in E. cbn [Xl.sheetnames map]. rewrite E. reflexivity.
  - cbn [Xl.sheetnames map]. fold (Xl.sheetnames (Xl.set_sheet wb ws)).
    fold (Xl.sheetnames wb). rewrite IH. reflexivity.
Qed.

Lemma get_sheet_name (wb : Xl.workbook) (name : str) (ws : Xl.sheet) :
  Xl.get_sheet wb name = Some ws -> Xl.sheet_name ws = name.
Proof.
  induction wb as [|ws0 wb IH]; [discriminate|].
  cbn [Xl.get_sheet]. destruct (str_eqb name (Xl.sheet_name ws0)) eqn:E.
  - intro H. injection H as <-. apply str_eqb_eq in E. symmetry. exact E.
  - exact IH.
Qed.

Lemma sheet_after_name (ws : Xl.sheet) : Xl.sheet_name (after ws) = Xl.sheet_name ws.
Proof.
  unfold sheet_after.
  destruct (Xl.index_of (Xl.header ws) (py "Link")) as [i|]; [|reflexivity].
  generalize (Affil.data_rows (fst (Affil.ensure_column ws Affil.NEW_COL))) as rows.
  assert (E : Xl.sheet_name (fst (Affil.ensure_column ws Affil.NEW_COL))
              = Xl.sheet_name ws).
  { destruct (ensure_column_cases ws Affil.NEW_COL) as [[j [_ E]]|[_ E]];
      rewrite E; reflexivity. }
  rewrite <- E.
  generalize (fst (Affil.ensure_column ws Affil.NEW_COL)) as ws1.
  intros ws1 rows. revert ws1.
  induction rows as [|r rows IH]; intro ws1; [reflexivity|].
  cbn [fold_left]. rewrite IH. unfold write_row.
  destruct (found ws1 (i + 1) r); reflexivity.
Qed.

Lemma process_sheet_workbook (st : Xl.workbook * list Affil.log_row) (n : str) :
  fst (sheet_step st n)
  = match Xl.get_sheet (fst st) n with
    | Some ws => Xl.set_sheet (fst st) (after ws)
    | None => fst st
    end.
Proof.
  unfold Affil.process_sheet, sheet_after.
  destruct (Xl.get_sheet (fst st) n) as [ws|] eqn:G; [|reflexivity].
  destruct (Xl.index_of (Xl.header ws) (py "Link")) as [i|] eqn:Hi.
  - destruct (Affil.ensure_column ws Affil.NEW_COL) as [ws1 oc]. cbn [fst snd].
    pose proof (fold_rows_sheet n (i + 1) oc (Affil.data_rows ws1) (ws1, [])) as F.
    cbn [fst] in F. rewrite <- F. clear F.
    destruct (fold_left (row_step n (i + 1) oc) (Affil.data_rows ws1) (ws1, []))
      as [ws2 rows]. reflexivity.
  - assert (E : Xl.set_sheet (fst st) ws = fst st).
    { clear Hi. revert G. generalize (fst st) as wb. intro wb.
      induction wb as [|ws0 wb IH]; [discriminate|].
      cbn [Xl.get_sheet Xl.set_sheet].
      destruct (str_eqb n (Xl.sheet_name ws0)) eqn:E.
      - intro H. injection H as ->. rewrite str_eqb_refl. reflexivity.
      - intro H. pose proof (get_sheet_name _ _ _ H) as Hn.
        rewrite Hn, E. rewrite (IH H). reflexivity. }
    symmetry. exact E.
Qed.

Lemma process_sheet_get (st : Xl.workbook * list Affil.log_row) (n name : str) :
  Xl.get_sheet (fst (sheet_step st n)) name
  = if str_eqb name n then option_map after (Xl.get_sheet (fst st) name)
    else Xl.get_sheet (fst st) name.
Proof.
  rewrite process_sheet_workbook.
  destruct (Xl.get_sheet (fst st) n) as [ws|] eqn:G.
  - rewrite get_set_sheet, sheet_after_name, (get_sheet_name _ _ _ G).
    destruct (str_eqb name n) eqn:E; [|reflexivity].
    apply str_eqb_eq in E. subst name. rewrite G. reflexivity.
  - destruct (str_eqb name n) eqn:E; [|reflexivity].
    apply str_eqb_eq in E. subst name. rewrite G. reflexivity.
Qed.

Lemma fold_sheets_get (names : list str) (name : str) :
  NoDup names ->
  forall st,
    Xl.get_sheet (fst (fold_left sheet_step names st)) name
    = if in_list name names then option_map after (Xl.get_sheet (fst st) name)
      else Xl.get_sheet (fst st) name.
Proof.
  induction names as [|n names IH]; intros Hnd st; [reflexivity|].
  inversion Hnd as [|? ? Hn Hnd']; subst.
  cbn [fold_left]. rewrite (IH Hnd'), process_sheet_get.
  unfold in_list. cbn [existsb]. fold (in_list name names).
  destruct (str_eqb name n) eqn:E.
  - apply str_eqb_eq in E. subst n.
    replace (in_list name names) with false; [reflexivity|].
    symmetry. apply not_true_is_false. intro H. apply Hn.
    unfold in_list in H. apply existsb_exists in H. destruct H as [x [Hx Ex]].
    apply str_eqb_eq in Ex. subst x. exact Hx.
  - reflexivity.
Qed.

Lemma fold_sheets_names (names : list str) :
  forall st,
    Xl.sheetnames (fst (fold_left sheet_step names st)) = Xl.sheetnames (fst st).
Proof.
  induction names as [|n names IH]; intro st; [reflexivity|].
  cbn [fold_left]. rewrite IH, process_sheet_workbook.
  destruct (Xl.get_sheet (fst st) n); [apply sheetnames_set_sheet|reflexivity].
Qed.

Lemma month_sheets_nodup : NoDup Affil.MONTH_SHEETS.
Proof. exact sheet_names_nodup. Qed.

Lemma header_rows (ws : Xl.sheet) (name : str) (i : nat) :
  Xl.index_of (Xl.header ws) name = Some i -> Xl.sheet_rows ws <> [].
Proof.
  unfold Xl.header. destruct (Xl.sheet_rows ws); [discriminate|]. intros _. discriminate.
Qed.

(** X11.  What a run of the affiliation script leaves in the workbook.
    The sheet names are kept.  A sheet that is not one of the thirteen
    month sheets, or has no Link column, is left as it is.  In a month
    sheet with a Link column the country column (the existing one, or
    a new one after the widest row) has its title in row 1; no cell
    outside that column changes; and in each data row the country cell
    holds the country picked in the PDF indexed under the identifier of
    the row (the empty text when none is picked), while a row without
    identifier, or whose identifier has no PDF, keeps its cell. *)
Theorem affil_main_writes (wb : Xl.workbook) (name : str) :
  let wb' := fst (run wb) in
  Xl.sheetnames wb' = Xl.sheetnames wb
  /\ match Xl.get_sheet wb name with
     | None => Xl.get_sheet wb' name = None
     | Some ws =>
         match Xl.index_of (Xl.header ws) (py "Link") with
         | Some i =>
             if in_list name Affil.MONTH_SHEETS then
               let col := snd (Affil.ensure_column ws Affil.NEW_COL) in
               exists ws',
                 Xl.get_sheet wb' name = Some ws'
                 /\ Xl.cell_value ws' 1 col = Some Affil.NEW_COL
                 /\ (forall r c, 1 <= r -> 1 <= c -> c <> col ->
                       Xl.cell_value ws' r c = Xl.cell_value ws r c)
                 /\ (forall r, 2 <= r <= Xl.max_row ws ->
                       Xl.cell_value ws' r col
                       = match found ws (i + 1) r with
                         | Some v => Some v
                         | None => Xl.cell_value ws r col
                         end)
             else Xl.get_sheet wb' name = Some ws
         | None => Xl.get_sheet wb' name = Some ws
         end
     end.
Proof.
  cbv zeta. unfold Affil.main. split; [apply fold_sheets_names|].
  rewrite (fold_sheets_get Affil.MONTH_SHEETS name month_sheets_nodup). cbn [fst].
  destruct (Xl.get_sheet wb name) as [ws|] eqn:G.
  2:{ destruct (in_list name Affil.MONTH_SHEETS); reflexivity. }
  destruct (Xl.index_of (Xl.header ws) (py "Link")) as [i|] eqn:Hi.
  2:{ destruct (in_list name Affil.MONTH_SHEETS); [|reflexivity].
      cbn [option_map]. unfold sheet_after. rewrite Hi. reflexivity. }
  destruct (in_list name Affil.MONTH_SHEETS); [|reflexivity].
  cbn [option_map]. exists (after ws). split; [reflexivity|].
  unfold sheet_after. rewrite Hi.
  pose proof (ensure_column_sheet ws Affil.NEW_COL (header_rows ws _ _ Hi)) as HE.
  cbv zeta in HE. destruct HE as [Hc [_ [Hm [Ht Hf]]]].
  pose proof (ensure_column_apart ws Affil.NEW_COL (py "Link") i Hi
                ltac:(discriminate)) as Hap.
  set (ws1 := fst (Affil.ensure_column ws Affil.NEW_COL)) in *.
  set (col := snd (Affil.ensure_column ws Affil.NEW_COL)) in *.
  assert (Hrows : forall r, In r (Affil.data_rows ws1) <-> 2 <= r <= Xl.max_row ws).
  { intro r. unfold Affil.data_rows. rewrite Hm, in_seq. lia. }
  destruct (fold_rows_cells (i + 1) col (Affil.data_rows ws1)
              ltac:(lia) Hc ltac:(intro E; apply Hap; symmetry; exact E)
              (seq_NoDup _ _)
              (fun r H => ltac:(apply Hrows in H; lia)) ws1) as [_ [F2 F3]].
  split; [|split].
  - rewrite F3; [exact Ht|lia|exact Hc|]. right. intro H. apply Hrows in H. lia.
  - intros r c Hr Hcc Hne. rewrite F3; [|exact Hr|exact Hcc|left; exact Hne].
    apply Hf; [exact Hr|exact Hcc|]. intro E. apply Hne. congruence.
  - intros r Hr. rewrite (F2 r (proj2 (Hrows r) Hr)).
    rewrite (found_same ws ws1 (i + 1) r).
    + destruct (found ws (i + 1) r); [reflexivity|].
      apply Hf; [lia|exact Hc|]. intro E. assert (r = 1) by congruence. lia.
    + apply Hf; [lia|lia|]. intro E. assert (r = 1) by congruence. lia.
Qed.

End AffilRunFacts.

(* ================================================================== *)
(** * The acceptance date does not depend on the kind of whitespace *)
(* ================================================================== *)

Section WhitespaceFacts.

Lemma squeeze_respaced (g : ascii -> ascii) (s : str) :
  respaces g -> forall b, squeeze b (map g s) = squeeze b s.
Proof.
  intro Hg. induction s as [|c s IH]; intro b; [reflexivity|].
  cbn [map squeeze]. specialize (Hg c).
  destruct (is_space c) eqn:E.
  - rewrite Hg. destruct b; rewrite IH; reflexivity.
  - rewrite Hg, E, IH. reflexivity.
Qed.

Lemma replace_respaces (old : ascii) :
  is_space old = true -> respaces (fun c => if Ascii.eqb c old then " "%char else c).
Proof.
  intros Ho c. destruct (Ascii.eqb c old) eqn:E.
  - apply Ascii.eqb_eq in E. subst c. rewrite Ho. reflexivity.
  - destruct (is_space c); reflexivity.
Qed.

Lemma squeeze_replaced (s : str) :
  squeeze false (replace_char "009" " " (replace_char "160" " " s)) = squeeze false s.
Proof.
  unfold replace_char.
  rewrite (squeeze_respaced _ _ (replace_respaces "009" eq_refl)).
  apply (squeeze_respaced _ _ (replace_respaces "160" eq_refl)).
Qed.

Lemma normalize_respaced (g : ascii -> ascii) (text : str) :
  respaces g ->
  Sort.normalize_text_for_dates (map g text) = Sort.normalize_text_for_dates text.
Proof.
  intro Hg. rewrite !normalize_eq.
  destruct text as [|c text]; [reflexivity|].
  change (map g (c :: text)) with (g c :: map g text).
  change (g c :: map g text) with (map g (c :: text)).
  rewrite !squeeze_replaced, (squeeze_respaced g _ Hg). reflexivity.
Qed.

(** X12.  The normalizer, and so the Accepted date that is read, do not
    depend on which whitespace characters separate the words: replacing
    any whitespace character by any other (a line feed, a tab or a
    no-break space by a space, say) changes neither.  In particular the
    two replacements of the normalizer before the squeeze of whitespace
    runs change nothing. *)
Theorem accepted_date_any_whitespace (g : ascii -> ascii) (text : str) :
  respaces g ->
  Sort.normalize_text_for_dates (map g text) = Sort.normalize_text_for_dates text
  /\ Sort.parse_accepted_date (map g text) = Sort.parse_accepted_date text.
Proof.
  intro Hg. pose proof (normalize_respaced g text Hg) as E.
  split; [exact E|]. unfold Sort.parse_accepted_date. rewrite E. reflexivity.
Qed.

End WhitespaceFacts.

Lemma accepted_date_any_whitespace_witness :
  respaces break_to_space
  /\ Sort.parse_accepted_date
       (map break_to_space (py "Accepted:" ++ [newline] ++ py "2 April" ++ [newline] ++ py "2025"))
     = Sort.parse_accepted_date
         (py "Accepted:" ++ [newline] ++ py "2 April" ++ [newline] ++ py "2025").
Proof.
  assert (H : respaces break_to_space).
  { intro c. unfold break_to_space.
    destruct (Ascii.eqb c newline) eqn:E.
    - apply Ascii.eqb_eq in E. subst c. reflexivity.
    - destruct (is_space c); reflexivity. }
  split; [exact H|].
  apply (proj2 (accepted_date_any_whitespace break_to_space
                  (py "Accepted:" ++ [newline] ++ py "2 April" ++ [newline] ++ py "2025")
                  H)).
Defined.

(* ================================================================== *)
(** * The builder on PDFs without text *)
(* ================================================================== *)

Section TextlessFacts.

Variable det_get_gender : str -> str.
Variable HAVE_GENDERIZE : bool.
Variable genderize_get : str -> outcome (list (option str)).
Variable crossref_lookup : str -> str * str * str.
Variable popular_map : list (str * str).
Variable use_genderize : bool.

Local Abbreviation row_of :=
  (Sort.workbook_row det_get_gender HAVE_GENDERIZE genderize_get
                     crossref_lookup popular_map use_genderize).

Lemma scan_left_no_one (s : str) :
  forallb (fun c => negb (is_char "1" c)) s = true ->
  forall bf, scan_left doi_token_at bf s = None.
Proof.
  induction s as [|c s IH]; intros H bf.
  - cbn [scan_left]. rewrite doi_token_needs_one; reflexivity.
  - cbn [forallb] in H. apply andb_prop in H. destruct H as [Hc Hs].
    cbn [scan_left]. rewrite doi_token_needs_one.
    + apply IH. exact Hs.
    + cbn [head_is]. apply negb_true_iff. exact Hc.
Qed.

Lemma space_not_one (c : ascii) : is_space c = true -> negb (is_char "1" c) = true.
Proof.
  intro H. destruct (is_char "1" c) eqn:E; [|reflexivity].
  unfold is_char in E. apply Ascii.eqb_eq in E. subst c. discriminate.
Qed.

Lemma blank_no_doi (text : str) :
  forallb is_space text = true -> Sort.parse_doi text = [].
Proof.
  intro H. rewrite sort_parse_doi_leftmost. unfold leftmost_doi.
  rewrite scan_left_no_one; [reflexivity|].
  rewrite forallb_forall in *. intros c Hc. apply space_not_one. apply H. exact Hc.
Qed.

Lemma squeeze_blank (s : str) :
  forallb is_space s = true ->
  squeeze true s = [] /\ (squeeze false s = [] \/ squeeze false s = py " ").
Proof.
  induction s as [|c s IH]; intro H; [split; [reflexivity|left; reflexivity]|].
  cbn [forallb] in H. apply andb_prop in H. destruct H as [Hc Hs].
  destruct (IH Hs) as [I1 _]. cbn [squeeze]. rewrite Hc, I1.
  split; [reflexivity|right; reflexivity].
Qed.

Lemma blank_no_date (text : str) :
  forallb is_space text = true -> Sort.parse_accepted_date text = None.
Proof.
  intro H. unfold Sort.parse_accepted_date. rewrite normalize_eq.
  destruct text as [|c text]; [reflexivity|].
  rewrite squeeze_replaced.
  destruct (proj2 (squeeze_blank _ H)) as [E|E]; rewrite E; reflexivity.
Qed.

Lemma workbook_row_textless (rel text : str) :
  Sort.parse_doi text = [] -> Sort.parse_accepted_date text = None ->
  row_of (Sort.PdfInput rel text)
  = let note :=
      if Sort.is_empty text
      then py "pdf_parse_failed;doi_not_found;accepted_not_found"
      else py "doi_not_found;accepted_not_found" in
    (py "Sheet7",
     [[]; []; py "[]"; []; []; []; []; []; []; note; py "unknown"; py "unknown"],
     Sort.MkLogRow rel [] [] (py "needs_review") note).
Proof.
  intros Hd Ha. unfold Sort.workbook_row. cbn [Sort.pdf_text Sort.pdf_rel].
  rewrite Hd, Ha. destruct text; reflexivity.
Qed.

Lemma join_blank (chunks : list str) :
  Forall (fun x => x = []) chunks ->
  Sort.join [newline] chunks = repeat newline (length chunks - 1).
Proof.
  induction 1 as [|x chunks Hx Hc IH]; [reflexivity|].
  subst x. destruct chunks as [|y chunks]; [reflexivity|].
  change (Sort.join [newline] ([] :: y :: chunks))
    with (newline :: Sort.join [newline] (y :: chunks)).
  rewrite IH. cbn [length Nat.sub]. rewrite Nat.sub_0_r. reflexivity.
Qed.

Lemma textless_text (path : Sort.pdf_source) (max_pages : nat) :
  textless path max_pages ->
  Sort.extract_text_pypdf2 path max_pages
  = repeat newline (pages_read path max_pages - 1).
Proof.
  unfold textless, pages_read, Sort.extract_text_pypdf2.
  destruct path as [e|pages]; [reflexivity|]. intro H.
  rewrite join_blank.
  - rewrite length_map, length_firstn. reflexivity.
  - apply Forall_map. exact H.
Qed.

(** X13.  A PDF that cannot be opened, or whose pages read yield no
    text, gets a row in Sheet7 with empty title, month and link, both
    genders unknown and status needs_review, whatever the lookup
    services answer.  The note pdf_parse_failed is written only when at
    most one page was read: with two or more pages the text is made of
    the line feeds that join the empty pages, it is not empty, and the
    note only says that no identifier and no Accepted date were found. *)
Theorem textless_pdf_row (rel : str) (path : Sort.pdf_source) (max_pages : nat) :
  textless path max_pages ->
  let text := Sort.extract_text_pypdf2 path max_pages in
  let note :=
    if pages_read path max_pages <=? 1
    then py "pdf_parse_failed;doi_not_found;accepted_not_found"
    else py "doi_not_found;accepted_not_found" in
  text = repeat newline (pages_read path max_pages - 1)
  /\ row_of (Sort.PdfInput rel text)
     = (py "Sheet7",
        [[]; []; py "[]"; []; []; []; []; []; []; note; py "unknown"; py "unknown"],
        Sort.MkLogRow rel [] [] (py "needs_review") note).
Proof.
  intro H. cbv zeta. rewrite (textless_text path max_pages H).
  split; [reflexivity|].
  assert (Hb : forallb is_space (repeat newline (pages_read path max_pages - 1)) = true).
  { apply forallb_forall. intros c Hc. apply repeat_spec in Hc. subst c. reflexivity. }
  rewrite (workbook_row_textless rel _ (blank_no_doi _ Hb) (blank_no_date _ Hb)).
  cbv zeta.
  destruct (pages_read path max_pages) as [|[|k]]; reflexivity.
Qed.

End TextlessFacts.

Lemma textless_pdf_row_witness :
  textless scanned_pdf 3
  /\ Sort.extract_text_pypdf2 scanned_pdf 3 = [newline; newline]
  /\ Sort.workbook_row det_none false oracle_down crossref_none popular_sample false
       (Sort.PdfInput (py "scan.pdf") (Sort.extract_text_pypdf2 scanned_pdf 3))
     = (py "Sheet7",
        [[]; []; py "[]"; []; []; []; []; []; [];
         py "doi_not_found;accepted_not_found"; py "unknown"; py "unknown"],
        Sort.MkLogRow (py "scan.pdf") [] [] (py "needs_review")
                      (py "doi_not_found;accepted_not_found")).
Proof.
  assert (H : textless scanned_pdf 3).
  { cbn. repeat constructor. }
  split; [exact H|].
  apply (textless_pdf_row det_none false oracle_down crossref_none popular_sample false
           (py "scan.pdf") scanned_pdf 3 H).
Defined.

(* ================================================================== *)
(** * The table of popular names *)
(* ================================================================== *)

Section PopularNamesFacts.

Lemma dict_set_in {V : Type} (d : list (str * V)) (k : str) (v : V) (k' : str) (v' : V) :
  In (k', v') (dict_set d k v) -> (k' = k /\ v' = v) \/ In (k', v') d.
Proof.
  induction d as [|[k0 v0] d IH]; cbn [dict_set].
  - intros [H|[]]. injection H as <- <-. left. split; reflexivity.
  - destruct (str_eqb k k0) eqn:E.
    + apply str_eqb_eq in E. subst k0. intros [H|H].
      * injection H as <- <-. left. split; reflexivity.
      * right. right. exact H.
    + intros [H|H]; [right; left; exact H|].
      destruct (IH H) as [H1|H1]; [left; exact H1|right; right; exact H1].
Qed.

Lemma dict_set_keys_nodup {V : Type} (d : list (str * V)) (k : str) (v : V) :
  NoDup (dict_keys d) -> NoDup (dict_keys (dict_set d k v)).
Proof.
  induction d as [|[k0 v0] d IH]; intro H.
  - cbn. constructor; [intros []|constructor].
  - cbn [dict_keys map fst] in H. inversion H as [|? ? Hn Hnd]; subst.
    cbn [dict_set]. destruct (str_eqb k k0) eqn:E.
    + cbn [dict_keys map fst]. constructor; assumption.
    + cbn [dict_keys map fst]. constructor; [|apply IH; exact Hnd].
      intro Hin. apply Hn. fold (dict_keys (dict_set d k v)) in Hin.
      apply dict_keys_set in Hin. destruct Hin as [Hin|Hin]; [|exact Hin].
      subst k0. rewrite str_eqb_refl in E. discriminate.
Qed.

Lemma head_lower (p : ascii -> bool) (s : str) :
  (forall c, p (lower_char c) = p c) -> head_is p (lower s) = head_is p s.
Proof. intro H. destruct s as [|c s]; [reflexivity|]. cbn [lower map head_is]. apply H. Qed.

Lemma stripped_key (x : str) :
  strip x <> [] -> clean_key (lower (strip x)).
Proof.
  intro H. split; [|split].
  - intro E. apply H. destruct (strip x); [reflexivity|discriminate].
  - apply lower_lower.
  - apply strip_id.
    + rewrite head_lower by (intro c; apply (lower_char_facts c)). apply strip_head.
    + rewrite head_rev_lower by (intro c; apply (lower_char_facts c)). apply strip_last.
Qed.

Lemma field_key (row : list (str * str)) (col : str) :
  Sort.field row col <> [] -> clean_key (lower (Sort.field row col)).
Proof. unfold Sort.field. apply stripped_key. Qed.

Lemma add_wide_ok (mc fc : str) (out : list (str * str)) (row : list (str * str)) :
  table_ok [py "male"; py "female"] out ->
  table_ok [py "male"; py "female"] (Sort.add_wide mc fc out row).
Proof.
  intros [Hnd Hin]. unfold Sort.add_wide.
  assert (S1 : table_ok [py "male"; py "female"]
                 (match Sort.field row mc with
                  | [] => out
                  | _ :: _ => dict_set out (lower (Sort.field row mc)) (py "male")
                  end)).
  { destruct (Sort.field row mc) as [|c m] eqn:E; [split; assumption|].
    rewrite <- E. split; [apply dict_set_keys_nodup; exact Hnd|].
    intros k v H. apply dict_set_in in H. destruct H as [[-> ->]|H]; [|apply Hin; exact H].
    split; [apply field_key; rewrite E; discriminate|left; reflexivity]. }
  destruct S1 as [Hnd1 Hin1].
  destruct (Sort.field row fc) as [|c w] eqn:E; [split; assumption|].
  rewrite <- E. split; [apply dict_set_keys_nodup; exact Hnd1|].
  intros k v H. apply dict_set_in in H. destruct H as [[-> ->]|H]; [|apply Hin1; exact H].
  split; [apply field_key; rewrite E; discriminate|right; left; reflexivity].
Qed.

Lemma add_long_ok (nc gc : str) (out : list (str * str)) (row : list (str * str)) :
  table_ok genders out -> table_ok genders (Sort.add_long nc gc out row).
Proof.
  intros [Hnd Hin]. unfold Sort.add_long.
  destruct (Sort.field row nc) as [|c m] eqn:E; [split; assumption|].
  rewrite <- E.
  assert (Hk : clean_key (lower (Sort.field row nc)))
    by (apply field_key; rewrite E; discriminate).
  destruct (in_list (lower (Sort.field row gc)) [py "m"; py "male"; py "man"]);
    [|destruct (in_list (lower (Sort.field row gc)) [py "f"; py "female"; py "woman"])];
    (split; [apply dict_set_keys_nodup; exact Hnd|]);
    intros k v H; apply dict_set_in in H;
    (destruct H as [[-> ->]|H]; [|apply Hin; exact H]);
    (split; [exact Hk|]).
  - left. reflexivity.
  - right. left. reflexivity.
  - right. right. left. reflexivity.
Qed.

Lemma fold_ok (vals : list str) (step : list (str * str) -> list (str * str) -> list (str * str))
    (rows : list (list (str * str))) :
  (forall out row, table_ok vals out -> table_ok vals (step out row)) ->
  forall out, table_ok vals out -> table_ok vals (fold_left step rows out).
Proof.
  intro Hs. induction rows as [|row rows IH]; intros out H; [exact H|].
  cbn [fold_left]. apply IH. apply Hs. exact H.
Qed.

Lemma empty_ok (vals : list str) : table_ok vals [].
Proof. split; [constructor|intros k v []]. Qed.

Lemma wide_in_genders (out : list (str * str)) :
  table_ok [py "male"; py "female"] out -> table_ok genders out.
Proof.
  intros [H1 H2]. split; [exact H1|]. intros k v H. destruct (H2 k v H) as [Hk Hv].
  split; [exact Hk|]. destruct Hv as [<-|[<-|[]]]; [left|right; left]; reflexivity.
Qed.

(** X14.  The table of popular names, whatever the file: no key is
    listed twice; every key is non-empty, lower case and without
    surrounding whitespace; every value is male, female or unknown.  A
    missing file, a file without header line or a header that fits
    neither layout gives the empty table. *)
Theorem popular_table_normalized (path : option Sort.csv_table) :
  NoDup (dict_keys (Sort.load_popular_names_csv path))
  /\ (forall k v, In (k, v) (Sort.load_popular_names_csv path) ->
        clean_key k /\ In v genders)
  /\ (match path with
      | None => True
      | Some reader => Sort.fieldnames reader = []
      end -> Sort.load_popular_names_csv path = []).
Proof.
  assert (H : table_ok genders (Sort.load_popular_names_csv path)).
  { unfold Sort.load_popular_names_csv.
    destruct path as [reader|]; [|apply empty_ok].
    destruct (Sort.fieldnames reader) as [|f0 fs] eqn:Ef; [apply empty_ok|].
    rewrite <- Ef.
    set (fields := map (fun c => lower (strip c)) (Sort.fieldnames reader)).
    destruct (in_list (py "male") fields && in_list (py "female") fields
              && (length fields =? 2)).
    - apply wide_in_genders. apply fold_ok; [|apply empty_ok].
      intros out row. apply add_wide_ok.
    - destruct (Sort.first_column _ (Sort.fieldnames reader) fields) as [nc|];
        [|apply empty_ok].
      destruct (Sort.first_column _ (Sort.fieldnames reader) fields) as [gc|];
        [|apply empty_ok].
      destruct (Sort.is_empty nc || Sort.is_empty gc); [apply empty_ok|].
      apply fold_ok; [|apply empty_ok]. intros out row. apply add_long_ok. }
  destruct H as [H1 H2]. split; [exact H1|]. split; [exact H2|].
  destruct path as [reader|]; [|reflexivity].
  intro E. unfold Sort.load_popular_names_csv. rewrite E. reflexivity.
Qed.

End PopularNamesFacts.

(* ================================================================== *)
(** * Month names *)
(* ================================================================== *)

Section MonthNameFacts.

Lemma dict_get_some_in {V : Type} (d : list (str * V)) (k : str) (v : V) :
  dict_get d k = Some v -> In (k, v) d.
Proof.
  induction d as [|[k0 v0] d IH]; [discriminate|].
  cbn [dict_get]. destruct (str_eqb k k0) eqn:E.
  - intro H. injection H as <-. apply str_eqb_eq in E. subst k0. left. reflexivity.
  - intro H. right. apply IH. exact H.
Qed.

Lemma month_lookup_prefixes :
  forallb (fun kv =>
             match dict_get Sort.MONTH_LOOKUP (firstn 3 (fst kv)) with
             | Some i => (i =? snd kv)%N && (1 <=? i)%N && (i <=? 12)%N
             | None => false
             end) Sort.MONTH_LOOKUP = true.
Proof. vm_compute. reflexivity. Qed.

Lemma month_lookup_range :
  forallb (fun kv => (1 <=? snd kv)%N && (snd kv <=? 12)%N) Sort.MONTH_LOOKUP = true.
Proof. vm_compute. reflexivity. Qed.

(** X15.  A month name is resolved by its first three letters alone,
    whatever the case and whatever follows them: the answer is the
    entry of the table for the first three characters of the
    lower-cased name.  The answer, when there is one, is a month number
    from 1 to 12. *)
Theorem month_by_first_three_letters (mon : str) :
  Sort.month_of_name mon = dict_get Sort.MONTH_LOOKUP (firstn 3 (lower mon))
  /\ forall m, Sort.month_of_name mon = Some m -> (1 <= m <= 12)%N.
Proof.
  assert (E : Sort.month_of_name mon
              = dict_get Sort.MONTH_LOOKUP (firstn 3 (lower mon))).
  { unfold Sort.month_of_name.
    destruct (dict_get Sort.MONTH_LOOKUP (lower mon)) as [i|] eqn:G; [|reflexivity].
    apply dict_get_some_in in G.
    pose proof (proj1 (forallb_forall _ _) month_lookup_prefixes _ G) as H.
    cbn [fst snd] in H.
    destruct (dict_get Sort.MONTH_LOOKUP (firstn 3 (lower mon))) as [j|];
      [|discriminate].
    apply andb_prop in H. destruct H as [H _].
    apply andb_prop in H. destruct H as [H _].
    apply N.eqb_eq in H. subst j. reflexivity. }
  split; [exact E|].
  intros m Hm. rewrite E in Hm. apply dict_get_some_in in Hm.
  pose proof (proj1 (forallb_forall _ _) month_lookup_range _ Hm) as H.
  cbn [snd] in H. apply andb_prop in H. destruct H as [H1 H2].
  apply N.leb_le in H1, H2. split; assumption.
Qed.

End MonthNameFacts.

(* ================================================================== *)
(** * The identifier of a PDF is in the PDF *)
(* ================================================================== *)

Section ContainsFacts.

Lemma first_doi_page (ps : list Scan.page) :
  Scan.first_doi ps = []
  \/ exists p m,
       In p ps /\ re_search Scan.DOI_RE (Scan.doi_text p) = Some m
       /\ Scan.first_doi ps = lower (m_text m).
Proof.
  induction ps as [|p ps IH]; [left; reflexivity|].
  cbn [Scan.first_doi].
  destruct (re_search Scan.DOI_RE (Scan.doi_text p)) as [m|] eqn:E.
  - right. exists p, m. split; [left; reflexivity|]. split; [exact E|reflexivity].
  - destruct IH as [IH|[p' [m [H1 [H2 H3]]]]]; [left; exact IH|].
    right. exists p', m. split; [right; exact H1|]. split; assumption.
Qed.

Lemma re_search_text (r : regex) (s : str) (m : rmatch) :
  re_search r s = Some m -> substring (m_text m) s.
Proof.
  unfold re_search. destruct (search_from r [] s) as [x|]; [|discriminate].
  intro H. injection H as <-. unfold m_text, mk_match.
  cbn [m_start m_end m_string]. apply slice_substring.
Qed.

Lemma lower_app (a b : str) : lower (a ++ b) = lower a ++ lower b.
Proof. apply map_app. Qed.

Lemma firstn_more {A : Type} (n k : nat) (l : list A) (x : A) :
  n <= k -> In x (firstn n l) -> In x (firstn k l).
Proof.
  revert k l. induction n as [|n IH]; intros k l Hk Hin; [destruct Hin|].
  destruct l as [|y l]; [destruct Hin|].
  destruct k as [|k]; [lia|]. cbn [firstn] in *.
  destruct Hin as [Hin|Hin]; [left; exact Hin|right].
  apply (IH k l); [lia|exact Hin].
Qed.

(** X16.  On page text below U+0100, the identifier the update loop
    reads in the first two pages of a PDF is contained in that PDF in
    the sense of [pdf_contains_doi], for any number of pages from two
    on. *)
Theorem extracted_doi_is_contained (f : Scan.pdf_file) (max_pages : nat) :
  2 <= max_pages ->
  Scan.doi_in_pdf f <> [] ->
  Scan.pdf_contains_doi f (Scan.doi_in_pdf f) max_pages = true.
Proof.
  intros Hn Hd. unfold Scan.pdf_contains_doi.
  destruct (Scan.doi_in_pdf f) as [|c d] eqn:E; [contradiction|].
  rewrite <- E. unfold Scan.doi_in_pdf in *.
  destruct (Scan.pages f) as [e|ps]; [discriminate|].
  destruct (first_doi_page (firstn 2 ps)) as [H|[p [m [H1 [H2 H3]]]]]; [congruence|].
  apply existsb_exists. exists p.
  split; [apply (firstn_more 2 max_pages); assumption|].
  rewrite H3, lower_lower. apply str_in_spec.
  destruct (re_search_text _ _ _ H2) as [pre [post Es]].
  exists (lower pre), (lower post). rewrite Es, !lower_app. reflexivity.
Qed.

End ContainsFacts.

Lemma extracted_doi_is_contained_witness :
  2 <= 2 /\ Scan.doi_in_pdf doc_second_page <> []
  /\ Scan.pdf_contains_doi doc_second_page (Scan.doi_in_pdf doc_second_page) 2 = true.
Proof.
  split; [apply le_n|]. split; [vm_compute; discriminate|].
  apply (extracted_doi_is_contained doc_second_page 2);
    [apply le_n|vm_compute; discriminate].
Defined.

(* ================================================================== *)
(** * The keyword scanner changes keyword cells only *)
(* ================================================================== *)

Section KeywordRunFacts.

Variable re_compile : str -> outcome (str -> bool).

Lemma same_but_keywords_refl (ws : Xl.sheet) : same_but_keywords ws ws.
Proof. split; [reflexivity|]. intros. reflexivity. Qed.

Lemma same_but_keywords_trans (a b c : Xl.sheet) :
  same_but_keywords a b -> same_but_keywords b c -> same_but_keywords a c.
Proof.
  intros [H1 H2] [H3 H4]. split; [rewrite H3; exact H1|].
  intros r col Hr Hc Hne. rewrite H4; [apply H2; assumption|exact Hr|exact Hc|].
  unfold keywords_col in *. rewrite H1. exact Hne.
Qed.

Lemma workbook_kept_refl (wb : Xl.workbook) : workbook_kept wb wb.
Proof.
  split; [reflexivity|]. intro name.
  destruct (Xl.get_sheet wb name); [apply same_but_keywords_refl|exact I].
Qed.

Lemma workbook_kept_trans (a b c : Xl.workbook) :
  workbook_kept a b -> workbook_kept b c -> workbook_kept a c.
Proof.
  intros [H1 H2] [H3 H4]. split; [rewrite H3; exact H1|].
  intro name. specialize (H2 name). specialize (H4 name).
  destruct (Xl.get_sheet a name), (Xl.get_sheet b name), (Xl.get_sheet c name);
    try contradiction; try exact I.
  eapply same_but_keywords_trans; eassumption.
Qed.

Lemma header_set_cell_below (ws : Xl.sheet) (r c : nat) (v : Xl.cell) :
  2 <= r -> Xl.header (Xl.set_cell ws r c v) = Xl.header ws.
Proof.
  intro Hr. unfold Xl.header, Xl.set_cell. cbn [Xl.sheet_rows].
  destruct r as [|[|r]]; [lia|lia|].
  change (S (S r) - 1) with (S r).
  destruct (Xl.sheet_rows ws) as [|h rows]; reflexivity.
Qed.

Lemma set_cell_kept (wb : Xl.workbook) (s : str) (ws : Xl.sheet) (i r : nat)
    (v : Xl.cell) :
  Xl.get_sheet wb s = Some ws ->
  Xl.index_of (Xl.header ws) (py "Keywords Matched") = Some i ->
  2 <= r ->
  workbook_kept wb (Xl.set_sheet wb (Xl.set_cell ws r (i + 1) v)).
Proof.
  intros G Hi Hr. split; [apply sheetnames_set_sheet|].
  intro name. rewrite get_set_sheet.
  change (Xl.sheet_name (Xl.set_cell ws r (i + 1) v)) with (Xl.sheet_name ws).
  rewrite (get_sheet_name _ _ _ G).
  destruct (str_eqb name s) eqn:E.
  - apply str_eqb_eq in E. subst name. rewrite G. split.
    + apply header_set_cell_below. exact Hr.
    + intros r' c Hr' Hc Hne. apply cell_value_set_other; try assumption; try lia.
      intro Eq. apply Hne. unfold keywords_col. rewrite Hi. cbn [option_map].
      congruence.
  - destruct (Xl.get_sheet wb name); [apply same_but_keywords_refl|exact I].
Qed.

Lemma match_row_below (wb : Xl.workbook) (index : list (str * list (str * nat)))
    (month : str) (f : Scan.pdf_file) (s : str) (r : nat) :
  index_rows_ok index ->
  Scan.match_row wb index month f = Returned (Some (s, r)) -> 2 <= r.
Proof.
  intros Hok. unfold Scan.match_row.
  destruct (if Scan.nonempty (Scan.doi_in_pdf f)
            then Scan.match_by_doi index (Scan.doi_in_pdf f) else None)
    as [[s0 r0]|] eqn:E.
  - intro H. injection H as <- <-.
    destruct (Scan.nonempty (Scan.doi_in_pdf f)); [|discriminate].
    destruct (@match_by_doi_first _ _ _ _ E) as [earlier [rows [later [Ei [Ef _]]]]].
    destruct (@find_row_first _ _ _ Ef) as [bf [af [Er _]]].
    apply (Hok s0 rows (Scan.doi_in_pdf f) r0).
    + rewrite Ei. apply in_or_app. right. left. reflexivity.
    + rewrite Er. apply in_or_app. right. left. reflexivity.
  - unfold Scan.match_by_title.
    destruct (Xl.get_sheet wb month) as [ws|]; [|discriminate].
    destruct (Xl.index_of (Xl.header ws) (py "Filename")) as [i|]; [|discriminate].
    pose proof (find_title_row_seq ws (i + 1) f (Xl.max_row ws - 1) 2) as Hs.
    unfold Scan.data_rows.
    destruct (Scan.find_title_row ws (i + 1) f (seq 2 (Xl.max_row ws - 1))) as [r1|];
      [|discriminate].
    intro H. injection H as <- <-. lia.
Qed.

Lemma update_pdf_kept (wb wb' : Xl.workbook) (index : list (str * list (str * nat)))
    (month : str) (f : Scan.pdf_file) (row : Scan.log_row) :
  index_rows_ok index ->
  Scan.update_pdf re_compile wb index month f = Returned (wb', row) ->
  workbook_kept wb wb'.
Proof.
  intros Hok. unfold Scan.update_pdf.
  destruct (Scan.notebook_style_keyword_scan re_compile f Scan.SEARCH_TERMS)
    as [e|[|kw kws]].
  - intro H. injection H as <- _. apply workbook_kept_refl.
  - intro H. injection H as <- _. apply workbook_kept_refl.
  - destruct (Scan.match_row wb index month f) as [e|[[s r]|]] eqn:Em; [discriminate| |].
    + destruct (Xl.get_sheet wb s) as [ws|] eqn:G; [|discriminate].
      destruct (Xl.index_of (Xl.header ws) (py "Keywords Matched")) as [i|] eqn:Hi;
        [|discriminate].
      intro H. injection H as <- _.
      apply (set_cell_kept wb s ws i r _ G Hi).
      apply (match_row_below wb index month f s r Hok Em).
    + intro H. injection H as <- _. apply workbook_kept_refl.
Qed.

Lemma update_month_kept (index : list (str * list (str * nat))) (month : str)
    (pdfs : list Scan.pdf_file) :
  index_rows_ok index ->
  forall st st',
    Scan.update_month re_compile index month pdfs st = Returned st' ->
    workbook_kept (fst st) (fst st')
    /\ length (snd st') = length (snd st) + length pdfs.
Proof.
  intro Hok. induction pdfs as [|f pdfs IH]; intros st st'.
  - cbn [Scan.update_month]. intro H. injection H as <-.
    split; [apply workbook_kept_refl|cbn; lia].
  - cbn [Scan.update_month].
    destruct (Scan.update_pdf re_compile (fst st) index month f) as [e|[wb1 row]] eqn:E;
      [discriminate|].
    intro H. destruct (IH _ _ H) as [H1 H2]. cbn [fst snd] in *.
    split.
    + eapply workbook_kept_trans; [|exact H1].
      apply (update_pdf_kept _ _ _ _ _ _ Hok E).
    + rewrite H2, length_app. cbn [length]. lia.
Qed.

Lemma update_months_kept (index : list (str * list (str * nat)))
    (year_folder : str -> option (list Scan.pdf_file)) (months : list str) :
  index_rows_ok index ->
  forall st st',
    Scan.update_months re_compile index year_folder months st = Returned st' ->
    workbook_kept (fst st) (fst st')
    /\ length (snd st')
       = length (snd st)
         + length (flat_map (fun m => match year_folder m with
                                      | Some pdfs => pdfs
                                      | None => []
                                      end) months).
Proof.
  intro Hok. induction months as [|m months IH]; intros st st'.
  - cbn [Scan.update_months]. intro H. injection H as <-.
    split; [apply workbook_kept_refl|cbn; lia].
  - cbn [Scan.update_months flat_map].
    destruct (year_folder m) as [pdfs|].
    + destruct (Scan.update_month re_compile index m pdfs st) as [e|st1] eqn:E;
        [discriminate|].
      intro H. destruct (IH _ _ H) as [H1 H2].
      destruct (update_month_kept index m pdfs Hok _ _ E) as [H3 H4].
      split; [eapply workbook_kept_trans; eassumption|].
      rewrite H2, H4, length_app. lia.
    + intro H. destruct (IH _ _ H) as [H1 H2]. split; [exact H1|].
      rewrite H2. reflexivity.
Qed.

Lemma build_index_rows_ok (wb : Xl.workbook) :
  index_rows_ok (Scan.build_workbook_index wb).
Proof.
  unfold Scan.build_workbook_index.
  rewrite (fold_left_same _ _ wb index_step).
  assert (G : forall out, index_rows_ok out ->
            index_rows_ok
              (fold_left (fun out ws =>
                            if indexed ws
                            then dict_set out (fst (index_entry ws)) (snd (index_entry ws))
                            else out) wb out)).
  { induction wb as [|ws wb IH]; intros out Hout; [exact Hout|].
    cbn [fold_left]. apply IH.
    destruct (indexed ws); [|exact Hout].
    intros s rows d r Hin Hr. apply dict_set_in in Hin.
    destruct Hin as [[_ ->]|Hin]; [|apply (Hout s rows d r Hin Hr)].
    unfold index_entry in Hr. cbn [snd] in Hr. apply in_map_iff in Hr.
    destruct Hr as [r0 [Er Hr0]]. injection Er as _ <-.
    unfold Scan.data_rows in Hr0. apply in_seq in Hr0. lia. }
  apply G. intros s rows d r [].
Qed.

(** X17.  A run of the keyword scanner that ends without an exception
    keeps the sheet names and every header row, and changes no cell
    outside the Keywords Matched column of a sheet; so the links and
    titles the index was built from stay as they were during the run.
    The log has one row per PDF of the month folders that exist. *)
Theorem keyword_run_keeps_workbook
    (wb wb' : Xl.workbook) (year_folder : str -> option (list Scan.pdf_file))
    (log : list Scan.log_row) :
  Scan.update_keywords_in_workbook re_compile wb year_folder = Returned (wb', log) ->
  workbook_kept wb wb'
  /\ length log = length (scanned_pdfs year_folder).
Proof.
  unfold Scan.update_keywords_in_workbook. intro H.
  destruct (update_months_kept _ year_folder Scan.MONTH_NAMES
              (build_index_rows_ok wb) _ _ H) as [H1 H2].
  split; [exact H1|exact H2].
Qed.

End KeywordRunFacts.

Lemma keyword_run_keeps_workbook_witness :
  exists wb' log,
    Scan.update_keywords_in_workbook compile_plain wb_dup folder_january
    = Returned (wb', log)
    /\ workbook_kept wb_dup wb'
    /\ length log = 1.
Proof.
  destruct (Scan.update_keywords_in_workbook compile_plain wb_dup folder_january)
    as [e|[wb' log]] eqn:E; [vm_compute in E; discriminate|].
  exists wb', log. split; [reflexivity|].
  apply (keyword_run_keeps_workbook compile_plain wb_dup wb' folder_january log E).
Defined.

(* ================================================================== *)
(** * The country lexicon: aliases and keys *)
(* ================================================================== *)

Section AliasFacts.

Variable countries : list Affil.country.

Local Abbreviation name_map := (fst (Affil.build_country_matchers countries)).
Local Abbreviation keys_sorted := (snd (Affil.build_country_matchers countries)).

Lemma aliases_lower :
  forallb (fun kv => str_eqb (lower (fst kv)) (fst kv)) Affil.ALIASES = true.
Proof. vm_compute. reflexivity. Qed.

Lemma add_country_nodup (m : list (str * str)) (c : Affil.country) :
  NoDup (dict_keys m) -> NoDup (dict_keys (Affil.add_country m c)).
Proof.
  intro H. unfold Affil.add_country.
  destruct (Affil.official_name c), (Affil.common_name c);
    repeat apply dict_set_keys_nodup; exact H.
Qed.

Lemma name_map_nodup : NoDup (dict_keys name_map).
Proof.
  unfold Affil.build_country_matchers. cbn [fst].
  assert (G1 : forall m, NoDup (dict_keys m) ->
             NoDup (dict_keys (fold_left Affil.add_country countries m))).
  { induction countries as [|c cs IH]; intros m H; [exact H|].
    cbn [fold_left]. apply IH. apply add_country_nodup. exact H. }
  assert (G2 : forall (al : list (str * str)) m, NoDup (dict_keys m) ->
             NoDup (dict_keys (fold_left
                                 (fun m kv => dict_set m (lower (fst kv)) (snd kv)) al m))).
  { induction al as [|kv al IH]; intros m H; [exact H|].
    cbn [fold_left]. apply IH. apply dict_set_keys_nodup. exact H. }
  apply G2. apply G1. constructor.
Qed.

Lemma insert_by_len_nodup (k : str) (l : list str) :
  NoDup l -> ~ In k l -> NoDup (Affil.insert_by_len k l).
Proof.
  induction l as [|x l IH]; intros Hnd Hn.
  - cbn. constructor; [intros []|constructor].
  - cbn [Affil.insert_by_len]. destruct (length x <? length k).
    + constructor; assumption.
    + inversion Hnd as [|? ? Hx Hl]; subst. constructor.
      * intro H. apply insert_by_len_In in H. destruct H as [H|H].
        -- apply Hn. left. exact H.
        -- contradiction.
      * apply IH; [exact Hl|]. intro H. apply Hn. right. exact H.
Qed.

Lemma sorted_len_desc_nodup (keys : list str) :
  NoDup keys -> NoDup (Affil.sorted_len_desc keys).
Proof.
  unfold Affil.sorted_len_desc.
  assert (G : forall acc, NoDup acc -> NoDup keys ->
            (forall x, In x keys -> ~ In x acc) ->
            NoDup (fold_left (fun acc k => Affil.insert_by_len k acc) keys acc)
            /\ forall x, In x (fold_left (fun acc k => Affil.insert_by_len k acc) keys acc)
                         <-> In x acc \/ In x keys).
  { induction keys as [|k keys IH]; intros acc Ha Hk Hd.
    - cbn [fold_left]. split; [exact Ha|]. intro x. split; [intro H; left; exact H|].
      intros [H|[]]. exact H.
    - inversion Hk as [|? ? Hn Hk']; subst. cbn [fold_left].
      destruct (IH (Affil.insert_by_len k acc)) as [I1 I2].
      + apply insert_by_len_nodup; [exact Ha|]. apply Hd. left. reflexivity.
      + exact Hk'.
      + intros x Hx H. apply insert_by_len_In in H. destruct H as [H|H].
        * subst x. contradiction.
        * apply (Hd x (or_intror Hx) H).
      + split; [exact I1|]. intro x. rewrite I2, insert_by_len_In.
        cbn [In]. split.
        * intros [[H|H]|H]; [right; left; symmetry; exact H|left; exact H|right; right; exact H].
        * intros [H|[H|H]]; [left; right; exact H|left; left; symmetry; exact H|right; exact H]. }
  intro H. apply (G [] (NoDup_nil _) H). intros x _ [].
Qed.

(** X18.  Whatever the registry of countries, every alias resolves to
    the canonical name the alias table gives it: an entry of the
    registry with the same lower-cased name cannot override an alias.
    The list of keys names each key of the lexicon once. *)
Theorem aliases_take_precedence (k v : str) :
  In (k, v) Affil.ALIASES ->
  dict_get name_map k = Some v
  /\ In k keys_sorted
  /\ NoDup keys_sorted
  /\ forall x, In x keys_sorted <-> In x (dict_keys name_map).
Proof.
  intro Hin.
  assert (El : lower k = k).
  { pose proof (proj1 (forallb_forall _ _) aliases_lower _ Hin) as H.
    cbn [fst] in H. apply str_eqb_eq in H. exact H. }
  destruct (@alias_in_lexicon countries k v Hin) as [H1 H2].
  rewrite El in H1, H2.
  split; [exact H1|]. split; [exact H2|]. split.
  - unfold Affil.build_country_matchers. cbn [snd].
    apply sorted_len_desc_nodup. exact name_map_nodup.
  - apply (proj2 (keys_sorted_spec countries)).
Qed.

End AliasFacts.

Lemma aliases_take_precedence_witness :
  In (py "russia", py "Russian Federation") Affil.ALIASES
  /\ dict_get (fst (Affil.build_country_matchers
                      [Affil.Country (py "Russia") None None]))
              (py "russia") = Some (py "Russian Federation").
Proof.
  assert (H : In (py "russia", py "Russian Federation") Affil.ALIASES).
  { do 9 right. left. reflexivity. }
  split; [exact H|].
  apply (proj1 (aliases_take_precedence [Affil.Country (py "Russia") None None]
                  (py "russia") (py "Russian Federation") H)).
Defined.

(* ================================================================== *)
(** * No Accepted date without the word *)
(* ================================================================== *)

Section AcceptedWordFacts.

Lemma spaced_refl (s : str) : spaced s s.
Proof. induction s as [|c s IH]; constructor; exact IH. Qed.

Lemma space_between_spaced (p q : ascii -> bool) (s : str) :
  spaced s (space_between p q s).
Proof.
  assert (G : forall n s, length s <= n -> spaced s (space_between p q s)).
  { induction n as [|n IH]; intros s0 Hn.
    - destruct s0; [constructor|cbn in Hn; lia].
    - destruct s0 as [|a s0]; [constructor|].
      destruct s0 as [|b s0]; [cbn; constructor; constructor|].
      rewrite (@space_between_cons2 p q a b s0). cbn [length] in Hn.
      destruct (p a && q b).
      + constructor. constructor. constructor. apply IH. lia.
      + constructor. apply IH. cbn [length]. lia. }
  apply (G (length s) s (le_n _)).
Qed.

Lemma letter_not_blank (c : ascii) : is_letter c = true -> c <> " "%char.
Proof. intros H E. subst c. discriminate. Qed.

Lemma spaced_prefix (s y : str) :
  spaced s y ->
  forall w rest, letters w = true -> y = w ++ rest -> exists rest', s = w ++ rest'.
Proof.
  induction 1 as [|c s y H IH|s y H IH]; intros w rest Hw E.
  - destruct w; [|discriminate]. exists []. reflexivity.
  - destruct w as [|x w]; [exists (c :: s); reflexivity|].
    cbn [app] in E. injection E as Ex Ey. subst x.
    cbn [letters forallb] in Hw. apply andb_prop in Hw. destruct Hw as [_ Hw].
    destruct (IH w rest Hw Ey) as [rest' E']. exists rest'. rewrite E'. reflexivity.
  - destruct w as [|x w]; [exists s; reflexivity|].
    cbn [app] in E. injection E as Ex Ey. subst x.
    cbn [letters forallb] in Hw. apply andb_prop in Hw. destruct Hw as [Hx _].
    discriminate.
Qed.

Lemma spaced_suffix (s y : str) :
  spaced s y ->
  forall pre y2, y = pre ++ y2 -> exists s1 s2, s = s1 ++ s2 /\ spaced s2 y2.
Proof.
  induction 1 as [|c s y H IH|s y H IH]; intros pre y2 E.
  - destruct pre; [|discriminate]. cbn in E. subst y2.
    exists [], []. split; [reflexivity|constructor].
  - destruct pre as [|x pre].
    + cbn in E. subst y2. exists [], (c :: s). split; [reflexivity|constructor; exact H].
    + cbn [app] in E. injection E as _ Ey.
      destruct (IH pre y2 Ey) as [s1 [s2 [E1 E2]]].
      exists (c :: s1), s2. split; [rewrite E1; reflexivity|exact E2].
  - destruct pre as [|x pre].
    + cbn in E. subst y2. exists [], s. split; [reflexivity|constructor; exact H].
    + cbn [app] in E. injection E as _ Ey. apply (IH pre y2 Ey).
Qed.

Lemma spaced_block (s y w : str) :
  spaced s y -> letters w = true -> substring w y -> substring w s.
Proof.
  intros H Hw [pre [post E]].
  destruct (spaced_suffix _ _ H pre (w ++ post) E) as [s1 [s2 [E1 E2]]].
  destruct (spaced_prefix _ _ E2 w post Hw eq_refl) as [rest' E3].
  exists s1, rest'. rewrite E1, E3. reflexivity.
Qed.

Lemma squeeze_suffix (s : str) :
  forall b pre y, squeeze b s = pre ++ y ->
    exists s1 s2 b', s = s1 ++ s2 /\ squeeze b' s2 = y.
Proof.
  induction s as [|a s IH]; intros b pre y E.
  - cbn in E. destruct pre; [|discriminate]. cbn in E. subst y.
    exists [], [], b. split; reflexivity.
  - destruct pre as [|x pre].
    + cbn [app] in E. exists [], (a :: s), b. split; [reflexivity|exact E].
    + cbn [squeeze] in E. destruct (is_space a).
      * destruct b.
        -- destruct (IH true (x :: pre) y E) as [s1 [s2 [b' [E1 E2]]]].
           exists (a :: s1), s2, b'. split; [rewrite E1; reflexivity|exact E2].
        -- cbn [app] in E. injection E as _ E.
           destruct (IH true pre y E) as [s1 [s2 [b' [E1 E2]]]].
           exists (a :: s1), s2, b'. split; [rewrite E1; reflexivity|exact E2].
      * cbn [app] in E. injection E as _ E.
        destruct (IH false pre y E) as [s1 [s2 [b' [E1 E2]]]].
        exists (a :: s1), s2, b'. split; [rewrite E1; reflexivity|exact E2].
Qed.

Lemma squeeze_prefix_strict (w : str) :
  letters w = true ->
  forall s rest, squeeze false s = w ++ rest -> exists rest', s = w ++ rest'.
Proof.
  induction w as [|c w IH]; intros Hw s rest E; [exists s; reflexivity|].
  cbn [letters forallb] in Hw. apply andb_prop in Hw. destruct Hw as [Hc Hw].
  destruct s as [|a s]; [discriminate|].
  cbn [squeeze] in E. destruct (is_space a) eqn:Ea.
  - cbn [app] in E. injection E as Ec _. subst c. discriminate.
  - cbn [app] in E. injection E as Ec E. subst a.
    destruct (IH Hw s rest E) as [rest' E']. exists rest'. rewrite E'. reflexivity.
Qed.

Lemma squeeze_prefix (w : str) :
  w <> [] -> letters w = true ->
  forall s b rest, squeeze b s = w ++ rest -> substring w s.
Proof.
  intros Hne Hw. destruct w as [|c w]; [contradiction|].
  induction s as [|a s IH]; intros b rest E; [discriminate|].
  cbn [squeeze] in E. destruct (is_space a) eqn:Ea.
  - destruct b.
    + destruct (IH true rest E) as [pre [post E']].
      exists (a :: pre), post. rewrite E'. reflexivity.
    + cbn [app] in E. injection E as Ec _. subst c.
      cbn [letters forallb] in Hw. discriminate.
  - cbn [app] in E. injection E as Ec E. subst a.
    cbn [letters forallb] in Hw. apply andb_prop in Hw. destruct Hw as [_ Hw].
    destruct (squeeze_prefix_strict w Hw s rest E) as [rest' E'].
    exists [], rest'. rewrite E'. reflexivity.
Qed.

Lemma squeeze_block (s w : str) (b : bool) :
  w <> [] -> letters w = true -> substring w (squeeze b s) -> substring w s.
Proof.
  intros Hne Hw [pre [post E]].
  destruct (squeeze_suffix s b pre (w ++ post) E) as [s1 [s2 [b' [E1 E2]]]].
  destruct (squeeze_prefix w Hne Hw s2 b' post E2) as [p2 [q2 E3]].
  exists (s1 ++ p2), q2. rewrite E1, E3, <- app_assoc. reflexivity.
Qed.

(** A block of letters of the normalized text is a block of the text. *)
Lemma normalize_block (text w : str) :
  w <> [] -> letters w = true ->
  substring w (Sort.normalize_text_for_dates text) -> substring w text.
Proof.
  intros Hne Hw H. rewrite normalize_eq in H.
  destruct text as [|c text].
  - destruct H as [pre [post E]]. destruct pre; [|discriminate].
    destruct w; [contradiction|discriminate].
  - rewrite squeeze_replaced in H.
    set (s0 := squeeze false (c :: text)) in *.
    set (s1 := space_between is_digit is_letter s0) in *.
    set (s2 := space_between is_letter is_digit s1) in *.
    assert (H2 : substring w s2).
    { destruct (strip_part s2) as [front [tail E]].
      destruct H as [pre [post E']]. exists (front ++ pre), (post ++ tail).
      rewrite E, E', <- !app_assoc. reflexivity. }
    assert (H1 : substring w s1)
      by (apply (spaced_block _ _ _ (space_between_spaced _ _ s1) Hw H2)).
    assert (H0 : substring w s0)
      by (apply (spaced_block _ _ _ (space_between_spaced _ _ s0) Hw H1)).
    apply (squeeze_block (c :: text) w false Hne Hw H0).
Qed.

Lemma accepted_pattern_head (r : regex) (b s : list ascii) (f : found) :
  match_at (Cat WordB (Cat (lit_ci (py "Accepted")) r)) b s = Some f ->
  exists rest, ci_prefix (py "Accepted") s = Some rest.
Proof.
  unfold match_at.
  change (exec (Cat WordB (Cat (lit_ci (py "Accepted")) r)) (MState b s [])
               (fun st => Some (length (consumed st), spans st)))
    with (if boundary b s
          then exec (lit_ci (py "Accepted")) (MState b s [])
                    (fun st' => exec r st'
                       (fun st => Some (length (consumed st), spans st)))
          else None).
  destruct (boundary b s); [|discriminate].
  rewrite exec_lit_ci. cbn [remaining].
  destruct (ci_prefix (py "Accepted") s) as [rest|]; [|discriminate].
  intros _. exists rest. reflexivity.
Qed.

Lemma is_letter_lower :
  for_all_chars (fun c => Bool.eqb (is_letter (lower_char c)) (is_letter c)) = true.
Proof. vm_compute. reflexivity. Qed.

Lemma letters_lower (a w : str) :
  lower a = lower w -> letters w = true -> letters a = true.
Proof.
  intros E Hw. unfold letters in *.
  rewrite <- (forallb_lower is_letter a), E, (forallb_lower is_letter w); [exact Hw| |];
    intro c; apply Bool.eqb_prop; apply (for_all_chars_spec _ is_letter_lower c).
Qed.

Lemma search_accepted (r : regex) (t : str) (m : rmatch) :
  re_search (Cat WordB (Cat (lit_ci (py "Accepted")) r)) t = Some m ->
  exists a, substring a t /\ lower a = py "accepted".
Proof.
  unfold re_search. rewrite search_from_scan.
  destruct (scan_left (match_at (Cat WordB (Cat (lit_ci (py "Accepted")) r))) [] t)
    as [[i f]|] eqn:E; [|discriminate].
  intros _. destruct (scan_left_some _ _ _ E) as [sk [r' [Et [_ [Hm _]]]]].
  destruct (accepted_pattern_head _ _ _ _ Hm) as [rest Hp].
  destruct (ci_prefix_some _ _ _ Hp) as [a [Ea El]].
  exists a. split; [|exact El].
  exists sk, rest. rewrite Et, Ea. reflexivity.
Qed.

(** X19.  A text in which the word accepted does not occur, in any
    case, has no Accepted date: its row goes to Sheet7.  The word has
    to be in the text as it is extracted; the normalizer cannot make
    it. *)
Theorem no_accepted_word_no_date (text : str) :
  str_in (py "accepted") (lower text) = false ->
  Sort.parse_accepted_date text = None
  /\ Sort.month_sheet_name (Sort.parse_accepted_date text) = py "Sheet7".
Proof.
  intro Hno.
  assert (Hnone : forall r m,
            re_search (Cat WordB (Cat (lit_ci (py "Accepted")) r))
                      (Sort.normalize_text_for_dates text) = Some m -> False).
  { intros r m Hm. destruct (search_accepted _ _ _ Hm) as [a [Ha El]].
    assert (Hl : letters a = true) by (apply (letters_lower a (py "accepted") El eq_refl)).
    assert (Hne : a <> []) by (intro E; subst a; discriminate).
    destruct (normalize_block text a Hne Hl Ha) as [pre [post E]].
    assert (Hin : str_in (py "accepted") (lower text) = true).
    { apply str_in_spec. exists (lower pre), (lower post).
      rewrite E, !lower_app, El. reflexivity. }
    congruence. }
  assert (E : Sort.parse_accepted_date text = None).
  { unfold Sort.parse_accepted_date.
    destruct (Sort.normalize_text_for_dates text) as [|c t] eqn:En; [reflexivity|].
    rewrite <- En in *.
    destruct (re_search Sort.ACC_DMY (Sort.normalize_text_for_dates text)) as [m|] eqn:E1;
      [exfalso; apply (Hnone _ m E1)|].
    destruct (re_search Sort.ACC_MDY (Sort.normalize_text_for_dates text)) as [m|] eqn:E2;
      [exfalso; apply (Hnone _ m E2)|].
    destruct (re_search Sort.ACC_YMD_DASH (Sort.normalize_text_for_dates text))
      as [m|] eqn:E3; [exfalso; apply (Hnone _ m E3)|].
    destruct (re_search Sort.ACC_DMY_SLASH (Sort.normalize_text_for_dates text))
      as [m|] eqn:E4; [exfalso; apply (Hnone _ m E4)|].
    reflexivity. }
  split; [exact E|]. rewrite E. reflexivity.
Qed.

End AcceptedWordFacts.

Lemma no_accepted_word_no_date_witness :
  str_in (py "accepted") (lower (py "Received 2 April 2025, revised 3 May 2025")) = false
  /\ Sort.parse_accepted_date (py "Received 2 April 2025, revised 3 May 2025") = None.
Proof.
  split; [vm_compute; reflexivity|].
  apply (proj1 (no_accepted_word_no_date
                  (py "Received 2 April 2025, revised 3 May 2025") eq_refl)).
Defined.

(* ================================================================== *)
(** * The matcher on a block of a text *)
(* ================================================================== *)

Section WindowFacts.

(** The text before the window, reversed, and the text after it. *)
Variable B V : str.

Lemma boundary_in_sound (before rest : list ascii) :
  boundary_in (head_is is_word B) (hd_error V) before rest
  = boundary (before ++ B) (rest ++ V).
Proof.
  unfold boundary_in, boundary. f_equal.
  - destruct before; reflexivity.
  - destruct rest; [|reflexivity]. destruct V; reflexivity.
Qed.

Lemma rep_in_sound {R R' : Type} (f : R -> R') (p : ascii -> bool) (lo : nat)
    (hi : option nat) (kw : list ascii -> list ascii -> verdict R)
    (k : list ascii -> list ascii -> option R') :
  (forall b r, agrees f (kw b r) (k (b ++ B) (r ++ V))) ->
  forall rest n before,
    agrees f (rep_in (hd_error V) p lo hi n before rest kw)
             (rep p lo hi n (before ++ B) (rest ++ V) k).
Proof.
  intros Hk. induction rest as [|c rest IH]; intros n before.
  - cbn [rep_in app]. pose proof (Hk before []) as H0. cbn [app] in H0.
    destruct V as [|v V'].
    + cbn [hd_error rep]. destruct (lo <=? n); [exact H0|reflexivity].
    + cbn [hd_error rep]. destruct (p v && below n hi); [exact I|].
      destruct (lo <=? n); [exact H0|reflexivity].
  - cbn [rep_in rep app].
    pose proof (Hk before (c :: rest)) as H0. cbn [app] in H0.
    destruct (p c && below n hi).
    + pose proof (IH (S n) (c :: before)) as H1. cbn [app] in H1.
      destruct (rep_in (hd_error V) p lo hi (S n) (c :: before) rest kw)
        as [x| |]; cbn [agrees] in H1 |- *.
      * rewrite H1. reflexivity.
      * rewrite H1. destruct (lo <=? n); [exact H0|reflexivity].
      * exact I.
    + destruct (lo <=? n); [exact H0|reflexivity].
Qed.

Lemma exec_in_sound {R R' : Type} (f : R -> R') (r : regex) :
  forall (kw : mstate -> verdict R) (k : mstate -> option R') (sw st : mstate),
    placed B V sw st ->
    (forall sw' st', placed B V sw' st' -> agrees f (kw sw') (k st')) ->
    agrees f (exec_in (head_is is_word B) (hd_error V) r sw kw) (exec r st k).
Proof.
  induction r as [|p| |r1 IH1 r2 IH2|p lo hi|r1 IH1|i r1 IH1];
    intros kw k sw st Hp Hk; cbn [exec_in exec].
  - apply Hk. exact Hp.
  - destruct Hp as (Hc & Hr & Hs). rewrite Hr.
    destruct (remaining sw) as [|c rest].
    + cbn [app]. destruct V as [|v V']; cbn [hd_error]; [reflexivity|].
      destruct (p v); [exact I|reflexivity].
    + cbn [app]. destruct (p c); [|reflexivity].
      apply Hk. repeat split; cbn [consumed remaining spans]; auto.
      rewrite Hc. reflexivity.
  - destruct Hp as (Hc & Hr & Hs). rewrite boundary_in_sound, <- Hc, <- Hr.
    destruct (boundary (consumed st) (remaining st)); [|reflexivity].
    apply Hk. repeat split; assumption.
  - apply IH1; [exact Hp|]. intros sw' st' Hp'. apply IH2; assumption.
  - destruct Hp as (Hc & Hr & Hs). rewrite Hc, Hr.
    apply rep_in_sound. intros b r'. apply Hk.
    repeat split; cbn [consumed remaining spans]; auto.
  - pose proof (IH1 kw k sw st Hp Hk) as H1.
    destruct (exec_in (head_is is_word B) (hd_error V) r1 sw kw) as [x| |];
      cbn [agrees] in H1 |- *.
    + rewrite H1. reflexivity.
    + rewrite H1. apply Hk. exact Hp.
    + exact I.
  - apply IH1; [exact Hp|]. intros sw' st' (Hc' & Hr' & Hs'). apply Hk.
    destruct Hp as (Hc & _ & _).
    repeat split; cbn [consumed remaining spans]; auto.
    rewrite Hc, Hc', Hs', !length_app. reflexivity.
Qed.

(** What the matcher answers on the window it answers in the text. *)
Lemma match_in_sound (r : regex) (w : str) :
  agrees (fun x => (fst x + length B, shift_spans (length B) (snd x)))
         (match_in (head_is is_word B) (hd_error V) r w)
         (match_at r B (w ++ V)).
Proof.
  unfold match_in, match_at. apply exec_in_sound.
  - repeat split.
  - intros sw' st' (Hc & _ & Hs). cbn [agrees fst snd].
    rewrite Hc, Hs, length_app. reflexivity.
Qed.

End WindowFacts.

(** After the window, an inert character is as good as the end. *)
Section InertFacts.

Variable wb : bool.
Variable c : ascii.

Lemma rep_in_inert {R : Type} (p : ascii -> bool) (lo : nat) (hi : option nat)
    (k k' : list ascii -> list ascii -> verdict R) :
  p c = false ->
  (forall b r, k b r = k' b r) ->
  forall rest n before,
    rep_in (Some c) p lo hi n before rest k
    = rep_in None p lo hi n before rest k'.
Proof.
  intros Hp Hk. induction rest as [|x rest IH]; intros n before; cbn [rep_in].
  - rewrite Hp, Hk. reflexivity.
  - rewrite IH, Hk. reflexivity.
Qed.

Lemma exec_in_inert {R : Type} (r : regex) :
  inert r c = true ->
  forall (k k' : mstate -> verdict R) (st : mstate),
    (forall s, k s = k' s) ->
    exec_in wb (Some c) r st k = exec_in wb None r st k'.
Proof.
  unfold inert. rewrite andb_true_iff, negb_true_iff. intros [Hw Hc].
  induction r as [|p| |r1 IH1 r2 IH2|p lo hi|r1 IH1|i r1 IH1];
    intros k k' st Hk; cbn [exec_in]; cbn [classes] in Hc.
  - apply Hk.
  - cbn [forallb] in Hc. rewrite andb_true_r, negb_true_iff in Hc.
    destruct (remaining st) as [|x rest]; [rewrite Hc; reflexivity|].
    rewrite Hk. reflexivity.
  - unfold boundary_in. rewrite Hw, Hk. reflexivity.
  - rewrite forallb_app, andb_true_iff in Hc. destruct Hc as [H1 H2].
    apply (IH1 H1). intros s. apply (IH2 H2). exact Hk.
  - cbn [forallb] in Hc. rewrite andb_true_r, negb_true_iff in Hc.
    apply rep_in_inert; [exact Hc|]. intros b r'. apply Hk.
  - rewrite (IH1 Hc k k' st Hk), Hk. reflexivity.
  - apply (IH1 Hc). intros s. apply Hk.
Qed.

Lemma match_in_inert (r : regex) (w : str) :
  inert r c = true -> match_in wb (Some c) r w = match_in wb None r w.
Proof. intros H. unfold match_in. apply (exec_in_inert r H). reflexivity. Qed.

End InertFacts.

Lemma check_chain_in_inert (c : ascii) (ps : list (regex * layout)) (w : str) (n : nat) (m d : N) :
  forallb (fun rl => inert (fst rl) c) ps = true ->
  forall j, check_chain_in (Some c) ps j w n m d = check_chain_in None ps j w n m d.
Proof.
  induction ps as [|[r l] ps IH]; intros H j; [reflexivity|].
  cbn [forallb fst] in H. apply andb_true_iff in H. destruct H as [Hr Hps].
  cbn [check_chain_in]. rewrite (match_in_inert false c r w Hr).
  destruct j as [|j]; [reflexivity|].
  destruct (match_in false None r w); try reflexivity. apply IH. exact Hps.
Qed.

(* ================================================================== *)
(** * The one place of the word Accepted *)
(* ================================================================== *)

Section PlaceFacts.

Lemma scan_left_at {A : Type} (f : str -> str -> option A) (rest : str) (x : A) :
  forall pre before,
    (forall sk r', pre = sk ++ r' -> r' <> [] ->
       f (rev sk ++ before) (r' ++ rest) = None) ->
    f (rev pre ++ before) rest = Some x ->
    scan_left f before (pre ++ rest) = Some (length before + length pre, x).
Proof.
  induction pre as [|c pre IH]; intros before Hn Hx.
  - cbn [rev app] in Hx. cbn [app length]. rewrite Nat.add_0_r.
    destruct rest; cbn [scan_left]; rewrite Hx; reflexivity.
  - pose proof (Hn [] (c :: pre) eq_refl ltac:(discriminate)) as H0.
    cbn [rev app] in H0. cbn [app scan_left]. cbn [app] in H0. rewrite H0.
    rewrite (IH (c :: before)).
    + cbn [length]. f_equal. f_equal. lia.
    + intros sk r' E Hr. specialize (Hn (c :: sk) r').
      cbn [rev] in Hn. rewrite <- app_assoc in Hn. apply Hn; [|exact Hr].
      rewrite E. reflexivity.
    + cbn [rev] in Hx. rewrite <- app_assoc in Hx. exact Hx.
Qed.

Lemma scan_left_nowhere {A : Type} (f : str -> str -> option A) :
  forall t before,
    (forall sk r', t = sk ++ r' -> f (rev sk ++ before) r' = None) ->
    scan_left f before t = None.
Proof.
  induction t as [|c t IH]; intros before Hn.
  - pose proof (Hn [] [] eq_refl) as H0. cbn [rev app] in H0.
    cbn [scan_left]. rewrite H0. reflexivity.
  - pose proof (Hn [] (c :: t) eq_refl) as H0. cbn [rev app] in H0.
    cbn [scan_left]. rewrite H0.
    apply IH. intros sk r' E. specialize (Hn (c :: sk) r').
    cbn [rev] in Hn. rewrite <- app_assoc in Hn. apply Hn. rewrite E. reflexivity.
Qed.

Lemma ci_prefix_long (w l z : str) :
  forall rest, length w <= length l ->
    ci_prefix w (l ++ z) = Some rest -> exists r, ci_prefix w l = Some r.
Proof.
  revert l. induction w as [|x w IH]; intros l rest L H.
  - exists l. destruct l; reflexivity.
  - destruct l as [|c l]; [cbn in L; lia|].
    cbn [app ci_prefix] in H |- *.
    destruct (Ascii.eqb (lower_char c) (lower_char x)); [|discriminate].
    apply (IH l rest); [cbn in L; lia|exact H].
Qed.

Lemma ci_prefix_block (w v rest x : str) :
  ci_prefix w v = Some rest -> str_in (lower w) (lower (x ++ v)) = true.
Proof.
  intros H. destruct (ci_prefix_some _ _ _ H) as [a [E El]].
  apply str_in_spec. exists (lower x), (lower rest).
  rewrite E, !lower_app, El. reflexivity.
Qed.

Lemma ci_prefix_starts (w : str) :
  forall s z rest,
    ci_prefix w (s ++ z) = Some rest ->
    starts_with (lower (firstn (length w) s)) (lower w) = true.
Proof.
  induction w as [|x w IH]; intros s z rest H; [reflexivity|].
  destruct s as [|c s]; [reflexivity|].
  cbn [app ci_prefix] in H. cbn [length firstn lower map starts_with].
  destruct (Ascii.eqb (lower_char c) (lower_char x)); [|discriminate].
  cbn [andb]. apply (IH s z rest H).
Qed.

Lemma accepted_not_astride (l z : str) :
  l <> [] -> length l < 8 ->
  ci_prefix (py "Accepted") (l ++ py "Accepted" ++ z) = None.
Proof.
  intros Hne Hl.
  destruct l as [|c1 l]; [contradiction|].
  repeat (destruct l as [|? l];
          [cbn [app ci_prefix py list_ascii_of_string];
           repeat match goal with
           | |- context [Ascii.eqb (lower_char ?c) ?x] =>
               is_var c; destruct (Ascii.eqb (lower_char c) x)
           end; reflexivity|]).
  cbn [length] in Hl. lia.
Qed.

(** In a text made of a phrase, of a text before it and of a text
    after it, neither of which has the word, the word begins at the
    phrase only. *)
Lemma accepted_only_here (pre w tail post u v : str) :
  w = py "Accepted" ++ tail ->
  accepted_later w = false ->
  str_in (py "accepted") (lower pre) = false ->
  str_in (py "accepted") (lower post) = false ->
  pre ++ w ++ post = u ++ v ->
  ci_prefix (py "Accepted") v <> None ->
  u = pre.
Proof.
  intros Ew Hl Hpre Hpost E Hv.
  destruct (ci_prefix (py "Accepted") v) as [rest|] eqn:Ev; [clear Hv|contradiction].
  apply app_eq_app in E. destruct E as [l [[E1 E2]|[E1 E2]]].
  - destruct l as [|c l]; [rewrite app_nil_r in E1; symmetry; exact E1|].
    exfalso. destruct (Nat.lt_ge_cases (length (c :: l)) 8) as [Hs|Hs].
    + rewrite E2, Ew, <- app_assoc in Ev.
      rewrite accepted_not_astride in Ev; [discriminate|discriminate|exact Hs].
    + rewrite E2 in Ev. destruct (ci_prefix_long (py "Accepted") (c :: l) (w ++ post) rest Hs Ev) as [r Hr].
      pose proof (ci_prefix_block _ _ _ u Hr) as H. rewrite <- E1 in H.
      change (lower (py "Accepted")) with (py "accepted") in H. congruence.
  - destruct l as [|c l]; [rewrite app_nil_r in E1; exact E1|].
    exfalso. apply app_eq_app in E2. destruct E2 as [l2 [[E3 E4]|[E3 E4]]].
    + destruct l2 as [|c2 l2].
      * cbn [app] in E4. subst v.
        pose proof (ci_prefix_block _ _ _ [] Ev) as H. cbn [app] in H.
        change (lower (py "Accepted")) with (py "accepted") in H. congruence.
      * rewrite E4 in Ev.
        pose proof (ci_prefix_starts _ _ _ _ Ev) as H.
        change (lower (py "Accepted")) with (py "accepted") in H.
        change (length (py "Accepted")) with 8 in H.
        assert (Hx : accepted_later w = true).
        { unfold accepted_later. apply existsb_exists.
          exists (length (c :: l)). split.
          - apply in_seq. rewrite E3, length_app. cbn [length]. lia.
          - rewrite E3, skipn_app, skipn_all, Nat.sub_diag. exact H. }
        congruence.
    + rewrite E4 in Hpost.
      pose proof (ci_prefix_block _ _ _ l2 Ev) as H.
      change (lower (py "Accepted")) with (py "accepted") in H. congruence.
Qed.

Lemma assoc_shift (i off : nat) (sp : list (nat * (nat * nat))) :
  assoc_nat i (shift_spans off sp)
  = option_map (fun ab => (fst ab + off, snd ab + off)) (assoc_nat i sp).
Proof.
  induction sp as [|[j [a b]] sp IH]; [reflexivity|].
  cbn [shift_spans map assoc_nat fst snd].
  destruct (i =? j); [reflexivity|exact IH].
Qed.

Lemma within_assoc (n i a b : nat) (sp : list (nat * (nat * nat))) :
  within n sp = true -> assoc_nat i sp = Some (a, b) -> b <= n.
Proof.
  induction sp as [|[j [a' b']] sp IH]; [discriminate|].
  cbn [within forallb assoc_nat fst snd]. rewrite andb_true_iff.
  intros [H1 H2]. destruct (i =? j).
  - intros E. injection E as <- <-. apply Nat.leb_le. exact H1.
  - apply IH. exact H2.
Qed.

Lemma slice_placed (x w z : str) (a b : nat) :
  b <= length w ->
  slice (a + length x) (b + length x) (x ++ w ++ z) = slice a b w.
Proof.
  intros Hb. unfold slice.
  replace (b + length x - (a + length x)) with (b - a) by lia.
  rewrite skipn_app, (skipn_all2 x) by lia.
  replace (a + length x - length x) with a by lia. cbn [app].
  rewrite skipn_app, firstn_app, length_skipn.
  replace (b - a - (length w - a)) with 0 by lia.
  cbn [firstn]. apply app_nil_r.
Qed.

Lemma check_groups_placed (l : layout) (sp : list (nat * (nat * nat)))
    (x w z : str) (n : nat) (m d : N) :
  within (length w) sp = true ->
  check_groups l sp w n m d = true ->
  check_groups l (shift_spans (length x) sp) (x ++ w ++ z) (length x + n) m d = true.
Proof.
  intros Hw. unfold check_groups. rewrite !assoc_shift.
  destruct (assoc_nat (year_group l) sp) as [[ya yb]|] eqn:Ey; [|discriminate].
  destruct (assoc_nat (month_group l) sp) as [[ma mb]|] eqn:Em; [|discriminate].
  destruct (assoc_nat (day_group l) sp) as [[da db]|] eqn:Ed; [|discriminate].
  cbn [option_map fst snd].
  pose proof (within_assoc _ _ _ _ _ Hw Em) as Lm.
  pose proof (within_assoc _ _ _ _ _ Hw Ed) as Ld.
  rewrite !(slice_placed x w z) by assumption.
  rewrite !andb_true_iff. intros [[[[Hy Hm] Hd] Hmo] Hda].
  repeat split; try assumption.
  - unfold is_year_span in *. cbn [fst snd] in *.
    apply andb_true_iff in Hy. destruct Hy as [H1 H2].
    apply Nat.eqb_eq in H1, H2. apply andb_true_iff.
    split; apply Nat.eqb_eq; lia.
  - unfold beside_year in *. cbn [fst snd] in *.
    apply andb_true_iff in Hm. destruct Hm as [H1 H2].
    apply Nat.leb_le in H1. apply orb_true_iff in H2.
    apply andb_true_iff. split; [apply Nat.leb_le; lia|].
    apply orb_true_iff. destruct H2 as [H2|H2]; apply Nat.leb_le in H2;
      [left|right]; apply Nat.leb_le; lia.
  - unfold beside_year in *. cbn [fst snd] in *.
    apply andb_true_iff in Hd. destruct Hd as [H1 H2].
    apply Nat.leb_le in H1. apply orb_true_iff in H2.
    apply andb_true_iff. split; [apply Nat.leb_le; lia|].
    apply orb_true_iff. destruct H2 as [H2|H2]; apply Nat.leb_le in H2;
      [left|right]; apply Nat.leb_le; lia.
Qed.

(** What is checked on the window holds in the text. *)
Lemma check_chain_in_sound (pre w post : str) :
  (forall u v, pre ++ w ++ post = u ++ v ->
     ci_prefix (py "Accepted") v <> None -> u = pre) ->
  head_is is_word (rev pre) = false ->
  forall ps,
    Forall (fun rl => exists r', fst rl = Cat WordB (Cat (lit_ci (py "Accepted")) r')) ps ->
    forall j n m d,
      check_chain_in (hd_error post) ps j w n m d = true ->
      check_chain ps j (pre ++ w ++ post) (length pre + n) m d = true.
Proof.
  intros HU HL. induction ps as [|[r l] ps IH]; intros Hps j n m d H; [discriminate|].
  inversion Hps as [|rl ps' [r' Er] Hps']; subst. cbn [fst] in Er.
  cbn [check_chain_in] in H. cbn [check_chain]. rewrite search_from_scan.
  pose proof (match_in_sound (rev pre) post r w) as S. rewrite HL in S.
  assert (Hskip : forall sk v, pre ++ w ++ post = sk ++ v -> sk <> pre ->
            match_at r (rev sk ++ []) v = None).
  { intros sk v E Hne. destruct (match_at r (rev sk ++ []) v) as [x|] eqn:Em;
      [|reflexivity].
    exfalso. apply Hne. apply (HU sk v E). rewrite Er in Em.
    destruct (accepted_pattern_head _ _ _ _ Em) as [rest Hr]. congruence. }
  destruct j as [|j].
  - destruct (match_in false (hd_error post) r w) as [[e sp]| |]; try discriminate.
    cbn [agrees fst snd] in S. apply andb_true_iff in H. destruct H as [Hw Hg].
    rewrite (scan_left_at (match_at r) (w ++ post)
               (e + length (rev pre), shift_spans (length (rev pre)) sp) pre []).
    + rewrite length_rev. apply check_groups_placed; assumption.
    + intros sk r'' E Hr. apply Hskip; [rewrite E, <- app_assoc; reflexivity|].
      intros E'. apply Hr. rewrite E' in E.
      rewrite <- (app_nil_r pre) in E at 1. apply app_inv_head in E.
      symmetry. exact E.
    + rewrite app_nil_r. exact S.
  - destruct (match_in false (hd_error post) r w) as [[e sp]| |]; try discriminate.
    cbn [agrees] in S.
    rewrite scan_left_nowhere; [apply IH; assumption|].
    intros sk v E.
    destruct (list_eq_dec ascii_dec sk pre) as [->|Hne]; [|apply Hskip; assumption].
    apply app_inv_head in E. rewrite <- E, app_nil_r. exact S.
Qed.

End PlaceFacts.

(* ================================================================== *)
(** * The normalizer around a block that it leaves as it is *)
(* ================================================================== *)

Section AroundFacts.

Lemma head_is_app (f : ascii -> bool) (x y : str) :
  x <> [] -> head_is f (x ++ y) = head_is f x.
Proof. destruct x; [contradiction|reflexivity]. Qed.

(** The last character of a text with one more character in front. *)
Lemma last_cons (f : ascii -> bool) (a : ascii) (s : str) :
  head_is f (rev (a :: s)) = match s with [] => f a | _ => head_is f (rev s) end.
Proof.
  destruct s as [|b s]; [reflexivity|].
  cbn [rev]. apply head_is_app.
  intros E. apply app_eq_nil in E. destruct E as [_ E]. discriminate.
Qed.

Lemma last_app (f : ascii -> bool) (x y : str) :
  y <> [] -> head_is f (rev (x ++ y)) = head_is f (rev y).
Proof.
  intros H. rewrite rev_app_distr. apply head_is_app.
  intros E. apply H. apply (f_equal (@rev ascii)) in E.
  rewrite rev_involutive in E. exact E.
Qed.

Lemma dropwhile_app (p : ascii -> bool) (x y : str) :
  head_is p y = false -> dropwhile p (x ++ y) = dropwhile p x ++ y.
Proof.
  intros H. induction x as [|a x IH]; [apply dropwhile_none; exact H|].
  cbn [app dropwhile]. destruct (p a); [exact IH|reflexivity].
Qed.

Lemma lstrip_app (x y : str) :
  head_is is_space y = false -> lstrip (x ++ y) = lstrip x ++ y.
Proof. apply dropwhile_app. Qed.

Lemma rstrip_app (x y : str) :
  head_is is_space (rev x) = false -> rstrip (x ++ y) = x ++ rstrip y.
Proof.
  intros H. unfold rstrip. rewrite rev_app_distr, (dropwhile_app _ _ _ H).
  rewrite rev_app_distr, rev_involutive. reflexivity.
Qed.

Lemma last_dropwhile (f p : ascii -> bool) (s : str) :
  head_is f (rev s) = false -> head_is f (rev (dropwhile p s)) = false.
Proof.
  intros H. pose proof (takewhile_dropwhile p s) as E.
  destruct (dropwhile p s) as [|c t] eqn:Ed; [reflexivity|].
  rewrite <- E in H. rewrite last_app in H; [exact H|discriminate].
Qed.

Lemma head_rstrip (f : ascii -> bool) (s : str) :
  head_is f s = false -> head_is f (rstrip s) = false.
Proof.
  intros H. destruct (rstrip_prefix s) as [tail E].
  destruct (rstrip s) as [|c t]; [reflexivity|].
  rewrite E in H. exact H.
Qed.

(** *** Whitespace runs *)

Lemma squeeze_app (x y : str) :
  forall b,
    squeeze b (x ++ y)
    = squeeze b x ++ squeeze (match x with [] => b | _ => head_is is_space (rev x) end) y.
Proof.
  induction x as [|a x IH]; intros b; [reflexivity|].
  cbn [app squeeze]. rewrite last_cons.
  destruct (is_space a) eqn:Ea.
  - destruct b; rewrite IH; destruct x; reflexivity.
  - rewrite IH. destruct x; reflexivity.
Qed.

Lemma squeeze_last (f : ascii -> bool) (x : str) :
  (forall c, is_space c = true -> f c = false) ->
  forall b, head_is f (rev (squeeze b x)) = head_is f (rev x).
Proof.
  intros Hf. assert (Hsp : f " "%char = false) by (apply Hf; reflexivity).
  induction x as [|a x IH]; intros b; [reflexivity|].
  cbn [squeeze]. rewrite (last_cons f a x).
  destruct (is_space a) eqn:Ea.
  - assert (G : head_is f (rev (squeeze true x))
                = match x with [] => f a | _ => head_is f (rev x) end).
    { rewrite IH. destruct x; [cbn; symmetry; apply Hf; exact Ea|reflexivity]. }
    destruct b; [exact G|].
    rewrite last_cons. destruct (squeeze true x) eqn:Es; [|exact G].
    rewrite <- G. cbn. exact Hsp.
  - rewrite last_cons. destruct x as [|b' x]; [reflexivity|].
    destruct (squeeze false (b' :: x)) eqn:Es; [|rewrite <- Es; apply IH].
    cbn [squeeze] in Es. destruct (is_space b'); discriminate.
Qed.

Lemma squeeze_first (f : ascii -> bool) (x : str) :
  (forall c, is_space c = true -> f c = false) ->
  head_is f (squeeze false x) = head_is f x.
Proof.
  intros Hf. destruct x as [|a x]; [reflexivity|].
  cbn [squeeze]. destruct (is_space a) eqn:Ea; [|reflexivity].
  cbn [head_is]. rewrite (Hf a Ea). apply Hf. reflexivity.
Qed.

(** *** Spaces put between two classes that do not meet *)

Section Between.

Variable p q : ascii -> bool.
Hypothesis Hpq : forall c, q c = true -> p c = false.

Lemma space_between_cons (a : ascii) (s : str) :
  space_between p q (a :: s)
  = a :: (if p a && head_is q s then [" "%char] else []) ++ space_between p q s.
Proof.
  destruct s as [|b s]; [cbn; rewrite andb_false_r; reflexivity|].
  rewrite space_between_cons2. cbn [head_is].
  destruct (p a && q b) eqn:E; [|reflexivity].
  apply andb_true_iff in E. destruct E as [_ Hq].
  cbn [app]. f_equal. f_equal.
  destruct s as [|c s]; [reflexivity|].
  rewrite space_between_cons2, (Hpq b Hq). reflexivity.
Qed.

Lemma space_between_app (x y : str) :
  space_between p q (x ++ y)
  = space_between p q x
    ++ (if head_is p (rev x) && head_is q y then [" "%char] else [])
    ++ space_between p q y.
Proof.
  induction x as [|a x IH]; [reflexivity|].
  cbn [app]. rewrite !space_between_cons, IH, last_cons.
  destruct x as [|b x].
  - cbn [app head_is rev space_between]. rewrite andb_false_r. reflexivity.
  - cbn [app head_is]. rewrite <- !app_assoc. reflexivity.
Qed.

Lemma space_between_last (f : ascii -> bool) (s : str) :
  head_is f (rev (space_between p q s)) = head_is f (rev s).
Proof.
  destruct s as [|a s] using rev_ind; [reflexivity|].
  rewrite space_between_app. cbn [space_between].
  rewrite !app_assoc, !rev_app_distr. reflexivity.
Qed.

Lemma space_between_first (f : ascii -> bool) (s : str) :
  head_is f (space_between p q s) = head_is f s.
Proof. rewrite !head_is_hd, space_between_head. reflexivity. Qed.

End Between.

Lemma space_not_word (c : ascii) : is_space c = true -> is_word c = false.
Proof.
  pose proof (for_all_chars_spec (fun c => negb (is_space c && is_word c))
                ltac:(vm_compute; reflexivity) c) as H.
  cbv beta in H. intros E. rewrite E in H. destruct (is_word c); [discriminate|reflexivity].
Qed.

Lemma letter_is_word (c : ascii) : is_letter c = true -> is_word c = true.
Proof.
  pose proof (for_all_chars_spec (fun c => negb (is_letter c) || is_word c)
                ltac:(vm_compute; reflexivity) c) as H.
  cbv beta in H. intros E. rewrite E in H. exact H.
Qed.

Lemma digit_is_word (c : ascii) : is_digit c = true -> is_word c = true.
Proof.
  pose proof (for_all_chars_spec (fun c => negb (is_digit c) || is_word c)
                ltac:(vm_compute; reflexivity) c) as H.
  cbv beta in H. intros E. rewrite E in H. exact H.
Qed.

Lemma spaced_end (s : str) : spaced s (s ++ [" "%char]).
Proof. induction s as [|c s IH]; cbn; repeat constructor. exact IH. Qed.

Lemma substring_part (x front s tail : str) :
  substring x s -> substring x (front ++ s ++ tail).
Proof.
  intros [a [b E]]. exists (front ++ a), (b ++ tail).
  rewrite E, <- !app_assoc. reflexivity.
Qed.

(** The normalizer leaves a normalized block in its place when the
    block begins with a letter and ends with a digit; of what stands
    around it, it keeps the runs of letters, and it parts the block
    from a word character on either side. *)
Lemma normalize_around (pre w post : str) :
  tidy w = true ->
  head_is is_letter w = true -> head_is is_digit (rev w) = true ->
  opens_word pre = true -> closes_number post = true ->
  exists pre' post',
    Sort.normalize_text_for_dates (pre ++ w ++ post) = pre' ++ w ++ post'
    /\ head_is is_word (rev pre') = false
    /\ head_is is_word post' = false
    /\ (forall x, x <> [] -> letters x = true -> substring x pre' -> substring x pre)
    /\ (forall x, x <> [] -> letters x = true -> substring x post' -> substring x post).
Proof.
  intros Ht Hh Hl Ho Hc.
  unfold tidy in Ht. rewrite !andb_true_iff, !negb_true_iff in Ht.
  destruct Ht as [[[[[P C] D] L] H1] H2].
  assert (Hne : w <> []) by (intros ->; discriminate).
  set (a := squeeze false pre). set (c := squeeze false post).
  set (dl := space_between is_digit is_letter).
  set (ld := space_between is_letter is_digit).
  set (J1 := if head_is is_digit (rev a) then [" "%char] else []).
  set (J2 := if head_is is_letter c then [" "%char] else []).
  set (a1 := dl a ++ J1). set (c1 := J2 ++ dl c).
  exists (lstrip (ld a1)), (rstrip (ld c1)).
  assert (E0 : squeeze false (pre ++ w ++ post) = a ++ w ++ c).
  { rewrite squeeze_app. fold a. f_equal. rewrite squeeze_app.
    rewrite squeeze_id; [|exact P|exact C|intros _; exact H1].
    f_equal. destruct w; [contradiction|]. rewrite H2. reflexivity. }
  assert (E1 : dl (a ++ w ++ c) = a1 ++ w ++ c1).
  { unfold dl, a1, c1, J1, J2.
    rewrite (space_between_app is_digit is_letter letter_not_digit a).
    rewrite (space_between_app is_digit is_letter letter_not_digit w).
    rewrite (head_is_app is_letter w c Hne), Hh, Hl, andb_true_r. cbn [andb].
    rewrite (@space_between_id is_digit is_letter w D).
    rewrite <- !app_assoc. reflexivity. }
  assert (E2 : ld (a1 ++ w ++ c1) = ld a1 ++ w ++ ld c1).
  { unfold ld.
    rewrite (space_between_app is_letter is_digit digit_not_letter a1).
    rewrite (space_between_app is_letter is_digit digit_not_letter w).
    rewrite (head_is_app is_digit w c1 Hne).
    assert (Hd : head_is is_digit w = false).
    { destruct w as [|x w']; [reflexivity|]. cbn in Hh |- *.
      apply letter_not_digit. exact Hh. }
    assert (Hl' : head_is is_letter (rev w) = false).
    { destruct (rev w) as [|x w']; [reflexivity|]. cbn in Hl |- *.
      apply digit_not_letter. exact Hl. }
    rewrite Hd, Hl', andb_false_r. cbn [andb app].
    rewrite (@space_between_id is_letter is_digit w L).
    reflexivity. }
  assert (E3 : strip (ld a1 ++ w ++ ld c1) = lstrip (ld a1) ++ w ++ rstrip (ld c1)).
  { unfold strip. rewrite lstrip_app.
    - rewrite app_assoc, rstrip_app, <- app_assoc; [reflexivity|].
      rewrite last_app by exact Hne. exact H2.
    - rewrite head_is_app by exact Hne. exact H1. }
  split.
  { rewrite normalize_eq, squeeze_replaced.
    destruct (pre ++ w ++ post) as [|x0 t0] eqn:Et.
    - exfalso. apply app_eq_nil in Et. destruct Et as [_ Et].
      apply app_eq_nil in Et. destruct Et as [Et _]. contradiction.
    - fold dl ld. rewrite E0, E1, E2, E3. reflexivity. }
  split.
  { apply last_dropwhile. unfold ld. rewrite space_between_last by exact digit_not_letter.
    unfold a1, J1. destruct (head_is is_digit (rev a)) eqn:Ea.
    - rewrite last_app by discriminate. reflexivity.
    - rewrite app_nil_r. unfold dl. rewrite space_between_last by exact letter_not_digit.
      unfold a in *. rewrite squeeze_last in Ea |- * by
        (intros x Hx; first [apply space_not_word; exact Hx
                            | destruct (is_digit x) eqn:Ex; [|reflexivity];
                              apply digit_is_word in Ex;
                              rewrite (space_not_word x Hx) in Ex; discriminate]).
      unfold opens_word in Ho. destruct (rev pre) as [|x r]; [reflexivity|].
      cbn [head_is] in *. rewrite Ea, orb_false_r in Ho.
      apply negb_true_iff in Ho. exact Ho. }
  split.
  { apply head_rstrip. unfold ld. rewrite space_between_first.
    unfold c1, J2. destruct (head_is is_letter c) eqn:Ec; [reflexivity|].
    cbn [app]. unfold dl. rewrite space_between_first.
    unfold c in *. rewrite squeeze_first in Ec |- * by
      (intros x Hx; first [apply space_not_word; exact Hx
                          | destruct (is_letter x) eqn:Ex; [|reflexivity];
                            apply letter_is_word in Ex;
                            rewrite (space_not_word x Hx) in Ex; discriminate]).
    unfold closes_number in Hc. destruct post as [|x r]; [reflexivity|].
    cbn [head_is] in *. rewrite Ec, orb_false_r in Hc.
    apply negb_true_iff in Hc. exact Hc. }
  split.
  - intros x Hx Lx Hs.
    assert (S2 : substring x (ld a1)).
    { destruct (lstrip_suffix (ld a1)) as [front E].
      rewrite E. apply (substring_part x front _ []) in Hs.
      rewrite app_nil_r in Hs. exact Hs. }
    assert (S1 : substring x a1)
      by (apply (spaced_block _ _ _ (space_between_spaced _ _ a1) Lx S2)).
    assert (S0 : substring x (dl a)).
    { unfold a1, J1 in S1. destruct (head_is is_digit (rev a)).
      - apply (spaced_block _ _ _ (spaced_end (dl a)) Lx S1).
      - rewrite app_nil_r in S1. exact S1. }
    assert (Sa : substring x a)
      by (apply (spaced_block _ _ _ (space_between_spaced _ _ a) Lx S0)).
    apply (squeeze_block pre x false Hx Lx Sa).
  - intros x Hx Lx Hs.
    assert (S2 : substring x (ld c1)).
    { destruct (rstrip_prefix (ld c1)) as [tail E].
      rewrite E. apply (substring_part x [] _ tail) in Hs. exact Hs. }
    assert (S1 : substring x c1)
      by (apply (spaced_block _ _ _ (space_between_spaced _ _ c1) Lx S2)).
    assert (S0 : substring x (dl c)).
    { unfold c1, J2 in S1. destruct (head_is is_letter c).
      - apply (spaced_block _ _ _ (spaced_put (spaced_refl (dl c))) Lx S1).
      - exact S1. }
    assert (Sc : substring x c)
      by (apply (spaced_block _ _ _ (space_between_spaced _ _ c) Lx S0)).
    apply (squeeze_block post x false Hx Lx Sc).
Qed.

End AroundFacts.

(* ================================================================== *)
(** * Accepted phrases in the four forms, inside a text *)
(* ================================================================== *)

Section PhraseInTextFacts.

Lemma all_phrases_checked_in :
  forallb (fun colon =>
    forallb (fun f =>
      forallb (fun m =>
        forallb (fun d => check_phrase_in colon f m d) (tl (upto 32%N)))
        (tl (upto 13%N)))
      all_forms)
    [true; false] = true.
Proof. vm_compute. reflexivity. Qed.

Lemma inert_or_listed :
  for_all_chars (fun c =>
    is_word c || is_space c || one_of (py ":,-/") c
    || forallb (fun rl => inert (fst rl) c) accepted_patterns) = true.
Proof. vm_compute. reflexivity. Qed.

Lemma phrase_checked_in (colon : bool) (f : date_form) (m d : N) :
  (1 <= m <= 12)%N -> (1 <= d <= 31)%N -> check_phrase_in colon f m d = true.
Proof.
  intros Hm Hd. pose proof all_phrases_checked_in as A.
  rewrite forallb_forall in A.
  assert (Hc : In colon [true; false]) by (destruct colon; simpl; auto).
  specialize (A colon Hc). rewrite forallb_forall in A.
  assert (Hf : In f all_forms) by (destruct f; simpl; auto).
  specialize (A f Hf). rewrite forallb_forall in A.
  assert (Hmi : In m (tl (upto 13%N))).
  { assert (H : In m (upto 13%N)) by (apply In_upto; lia).
    change (upto 13%N) with (0%N :: tl (upto 13%N)) in H.
    destruct H as [H|H]; [lia|exact H]. }
  specialize (A m Hmi). rewrite forallb_forall in A.
  apply A.
  assert (H : In d (upto 32%N)) by (apply In_upto; lia).
  change (upto 32%N) with (0%N :: tl (upto 32%N)) in H.
  destruct H as [H|H]; [lia|exact H].
Qed.

Lemma accepted_patterns_headed :
  Forall (fun rl => exists r', fst rl = Cat WordB (Cat (lit_ci (py "Accepted")) r'))
         accepted_patterns.
Proof. repeat constructor; eexists; reflexivity. Qed.

(** A text that keeps the runs of letters of another has the word
    accepted only if the other has it. *)
Lemma no_word_kept (s s' : str) :
  (forall x, x <> [] -> letters x = true -> substring x s' -> substring x s) ->
  str_in (py "accepted") (lower s) = false ->
  str_in (py "accepted") (lower s') = false.
Proof.
  intros Hk Hs. destruct (str_in (py "accepted") (lower s')) eqn:E; [|reflexivity].
  apply str_in_spec in E. destruct E as [p [q E]].
  unfold lower in E. apply map_eq_app in E. destruct E as [l1 [l2 [E1 [_ E2]]]].
  apply map_eq_app in E2. destruct E2 as [x [l3 [E2 [Ex _]]]].
  assert (Lx : letters x = true) by (apply (letters_lower x (py "accepted") Ex eq_refl)).
  assert (Hx : x <> []) by (intros ->; discriminate).
  destruct (Hk x Hx Lx) as [a [b Eab]]; [exists l1, l3; rewrite E1, E2; reflexivity|].
  assert (Hin : str_in (py "accepted") (lower s) = true).
  { apply str_in_spec. exists (lower a), (lower b).
    rewrite Eab, !lower_app. unfold lower at 2. rewrite Ex. reflexivity. }
  congruence.
Qed.

(** The character after the phrase in the normalized text is one of
    those the check went through, or as good as the end of the text. *)
Lemma check_chain_in_next (t post : str) (j n : nat) (w : str) (m d : N) :
  forallb plain_space post = true ->
  head_is is_word post = false ->
  forallb (fun next => check_chain_in next accepted_patterns j w n m d) after_number
  = true ->
  check_chain_in (hd_error post) accepted_patterns j w n m d = true.
Proof.
  intros Hp Hw H. rewrite forallb_forall in H.
  destruct post as [|c post]; [apply H; simpl; auto|].
  cbn [hd_error]. cbn [head_is] in Hw. cbn [forallb] in Hp.
  apply andb_true_iff in Hp. destruct Hp as [Hp _].
  pose proof (for_all_chars_spec _ inert_or_listed c) as K. cbv beta in K.
  rewrite Hw in K. cbn [orb] in K.
  destruct (is_space c) eqn:Es.
  - unfold plain_space in Hp. rewrite Es in Hp. cbn [negb orb] in Hp.
    unfold is_char in Hp. apply Ascii.eqb_eq in Hp. subst c.
    apply H. simpl. auto.
  - cbn [orb] in K. destruct (one_of (py ":,-/") c) eqn:Eo.
    + unfold one_of in Eo. apply existsb_exists in Eo.
      destruct Eo as [x [Hx Ex]]. apply Ascii.eqb_eq in Ex. subst x.
      apply H. simpl in Hx. simpl.
      destruct Hx as [<-|[<-|[<-|[<-|[]]]]]; auto 10.
    + cbn [orb] in K. rewrite (check_chain_in_inert c _ w n m d K).
      apply H. simpl. auto.
Qed.


End PhraseInTextFacts.


(* ================================================================== *)
(** * The builder and the keyword scanner on the same PDF *)
(* ================================================================== *)

Section SamePdfFacts.

Lemma takewhile_line (p : ascii -> bool) (s more : str) :
  p newline = false -> takewhile p (s ++ newline :: more) = takewhile p s.
Proof.
  intros Hp. induction s as [|a s IH]; cbn [app takewhile]; [rewrite Hp; reflexivity|].
  destruct (p a); [rewrite IH; reflexivity|reflexivity].
Qed.

Lemma dropwhile_line (p : ascii -> bool) (s more : str) :
  p newline = false ->
  dropwhile p (s ++ newline :: more) = dropwhile p s ++ newline :: more.
Proof.
  intros Hp. induction s as [|a s IH]; cbn [app dropwhile]; [rewrite Hp; reflexivity|].
  destruct (p a); [exact IH|reflexivity].
Qed.

(** An identifier does not go over the end of a line. *)
Lemma doi_token_at_line (before s more : str) :
  doi_token_at before (s ++ newline :: more) = doi_token_at before s.
Proof.
  unfold doi_token_at.
  assert (Hb : boundary before (s ++ newline :: more) = boundary before s)
    by (unfold boundary; destruct s; reflexivity).
  rewrite Hb. destruct (boundary before s); [|reflexivity]. cbn [andb].
  destruct s as [|c1 s]; [reflexivity|].
  cbn [app starts_with py list_ascii_of_string].
  destruct (Ascii.eqb "1" c1); [|reflexivity].
  destruct s as [|c2 s]; [reflexivity|].
  cbn [app starts_with andb].
  destruct (Ascii.eqb "0" c2); [|reflexivity].
  destruct s as [|c3 s]; [reflexivity|].
  cbn [app starts_with andb].
  destruct (Ascii.eqb "." c3); [|reflexivity].
  cbn [andb skipn].
  rewrite (takewhile_line is_digit s more eq_refl).
  rewrite (dropwhile_line is_digit s more eq_refl).
  destruct ((4 <=? length (takewhile is_digit s))
            && (length (takewhile is_digit s) <=? 9)); [|reflexivity].
  cbn [andb]. destruct (dropwhile is_digit s) as [|c4 r2]; [reflexivity|].
  cbn [app head_is]. destruct (is_char "/" c4); [|reflexivity].
  cbn [tl]. rewrite (takewhile_line Sort.doi_body r2 more eq_refl). reflexivity.
Qed.

Lemma doi_token_at_before (b b' rest : str) :
  head_is is_word b = head_is is_word b' ->
  doi_token_at b rest = doi_token_at b' rest.
Proof. intros H. unfold doi_token_at, boundary. rewrite H. reflexivity. Qed.

Lemma scan_doi_before (rest : str) :
  forall b b',
    head_is is_word b = head_is is_word b' ->
    option_map snd (scan_left doi_token_at b rest)
    = option_map snd (scan_left doi_token_at b' rest).
Proof.
  induction rest as [|c rest IH]; intros b b' H; cbn [scan_left];
    rewrite (doi_token_at_before b b' _ H).
  - destruct (doi_token_at b' []); reflexivity.
  - destruct (doi_token_at b' (c :: rest)); [reflexivity|].
    apply IH. reflexivity.
Qed.

Lemma scan_doi_line (more chunk : str) :
  forall b,
    option_map snd (scan_left doi_token_at b (chunk ++ newline :: more))
    = match scan_left doi_token_at b chunk with
      | Some (_, tok) => Some tok
      | None => option_map snd (scan_left doi_token_at [] more)
      end.
Proof.
  induction chunk as [|c chunk IH]; intros b.
  - cbn [app scan_left].
    pose proof (doi_token_at_line b [] more) as H. cbn [app] in H. rewrite H.
    assert (H0 : doi_token_at b [] = None)
      by (unfold doi_token_at; destruct (boundary b []); reflexivity).
    rewrite H0. apply scan_doi_before. reflexivity.
  - cbn [app scan_left].
    pose proof (doi_token_at_line b (c :: chunk) more) as H. cbn [app] in H. rewrite H.
    destruct (doi_token_at b (c :: chunk)); [reflexivity|]. apply IH.
Qed.

Lemma leftmost_doi_scan (s : str) :
  leftmost_doi s
  = match option_map snd (scan_left doi_token_at [] s) with
    | Some tok => lower tok
    | None => []
    end.
Proof.
  unfold leftmost_doi. destruct (scan_left doi_token_at [] s) as [[i tok]|]; reflexivity.
Qed.

Lemma doi_token_nonempty (before rest tok : str) :
  doi_token_at before rest = Some tok -> lower tok <> [].
Proof.
  intros H. destruct (doi_token_at_shape _ _ H) as [_ [[ds [body [E _]]] _]].
  rewrite E. discriminate.
Qed.

(** The identifier of pages joined by newlines is the identifier of
    the first page that has one. *)
Lemma leftmost_doi_join (chunks : list str) :
  leftmost_doi (Sort.join [newline] chunks) = first_nonempty (map leftmost_doi chunks).
Proof.
  induction chunks as [|x chunks IH]; [reflexivity|].
  destruct chunks as [|y chunks].
  - cbn [Sort.join map first_nonempty]. destruct (leftmost_doi x); reflexivity.
  - change (Sort.join [newline] (x :: y :: chunks))
      with (x ++ newline :: Sort.join [newline] (y :: chunks)).
    rewrite leftmost_doi_scan, scan_doi_line.
    change (map leftmost_doi (x :: y :: chunks))
      with (leftmost_doi x :: map leftmost_doi (y :: chunks)).
    cbn [first_nonempty]. rewrite <- IH.
    pose proof (eq_refl (leftmost_doi x)) as Ex. unfold leftmost_doi at 2 in Ex.
    destruct (scan_left doi_token_at [] x) as [[i tok]|] eqn:E; rewrite Ex.
    + destruct (scan_left_some _ _ _ E) as [sk [r' [_ [_ [Hf _]]]]].
      pose proof (doi_token_nonempty _ _ _ Hf) as Hne.
      destruct (lower tok); [contradiction|reflexivity].
    + rewrite leftmost_doi_scan. reflexivity.
Qed.

Lemma doi_search_leftmost (s : str) :
  match re_search Scan.DOI_RE s with
  | Some m => lower (m_text m) = leftmost_doi s /\ leftmost_doi s <> []
  | None => leftmost_doi s = []
  end.
Proof.
  unfold re_search, leftmost_doi, Scan.DOI_RE.
  pose proof (@search_doi s s [] eq_refl) as H.
  destruct (scan_left doi_token_at [] s) as [[i tok]|] eqn:E.
  - destruct H as [H1 H2]. rewrite H1. cbn [option_map].
    unfold m_text, mk_match. cbn [m_start m_end m_string fst snd]. rewrite H2.
    split; [reflexivity|].
    destruct (scan_left_some _ _ _ E) as [sk [r' [_ [_ [Hf _]]]]].
    apply (doi_token_nonempty _ _ _ Hf).
  - rewrite H. reflexivity.
Qed.

(** The identifier of the update loop, page by page. *)
Lemma first_doi_pages (ps : list Scan.page) :
  Scan.first_doi ps
  = first_nonempty (map (fun p => leftmost_doi (Scan.doi_text p)) ps).
Proof.
  induction ps as [|p ps IH]; [reflexivity|].
  cbn [Scan.first_doi map first_nonempty].
  pose proof (doi_search_leftmost (Scan.doi_text p)) as H.
  destruct (re_search Scan.DOI_RE (Scan.doi_text p)) as [m|].
  - destruct H as [H1 H2]. rewrite H1.
    destruct (leftmost_doi (Scan.doi_text p)); [contradiction|reflexivity].
  - rewrite H. exact IH.
Qed.

Lemma first_nonempty_more (k : nat) :
  forall n (l : list str),
    k <= n -> first_nonempty (firstn k l) <> [] ->
    first_nonempty (firstn n l) = first_nonempty (firstn k l).
Proof.
  induction k as [|k IH]; intros n l Hn Hne; [contradiction Hne; reflexivity|].
  destruct n as [|n]; [lia|].
  destruct l as [|x l]; [reflexivity|].
  cbn [firstn first_nonempty] in *.
  destruct x; [|reflexivity]. apply IH; [lia|exact Hne].
Qed.

(** The builder, reading two pages or more, and the update loop of
    the keyword scanner read the same identifier in a PDF in whose
    first two pages the update loop reads one. *)
Lemma same_identifier (f : Scan.pdf_file) (ps : list Scan.page) (max_pages : nat) :
  Scan.pages f = Returned ps ->
  2 <= max_pages ->
  Scan.doi_in_pdf f <> [] ->
  Sort.parse_doi (Sort.extract_text_pypdf2 (builder_source ps) max_pages)
  = Scan.doi_in_pdf f.
Proof.
  intros Hp Hn Hd. unfold Scan.doi_in_pdf in *. rewrite Hp in *.
  rewrite first_doi_pages in *.
  rewrite sort_parse_doi_leftmost.
  unfold Sort.extract_text_pypdf2, builder_source.
  rewrite leftmost_doi_join, firstn_map, !map_map.
  change (fun x => leftmost_doi (Sort.page_chunk (Scan.extract_text x)))
    with (fun p => leftmost_doi (Scan.doi_text p)).
  rewrite <- !firstn_map in *.
  apply first_nonempty_more; assumption.
Qed.

End SamePdfFacts.

(** X5.  The keyword scanner finds by identifier what the builder
    filed, on page text below U+0100.  Take a PDF that the builder
    filed reading its first [max_pages] pages, two or more, and in
    whose first two pages the update loop of the keyword scanner reads
    an identifier.  Then the row match of the scanner over the built
    workbook and its index succeeds, whatever the month folder, on a
    data row of the workbook whose Link cell is the URL of that
    identifier.  (Nothing is said of a PDF whose identifier stands on
    a later page: the builder may read it there, the update loop does
    not.) *)
Theorem built_workbook_matched_by_doi
    (det_get_gender : str -> str) (HAVE_GENDERIZE : bool)
    (genderize_get : str -> outcome (list (option str)))
    (crossref_lookup : str -> str * str * str)
    (popular_map : list (str * str)) (use_genderize : bool)
    (pdfs : list Sort.pdf_input) (p : Sort.pdf_input)
    (f : Scan.pdf_file) (ps : list Scan.page) (max_pages : nat) (month : str) :
  In p pdfs ->
  Scan.pages f = Returned ps ->
  Sort.pdf_text p = Sort.extract_text_pypdf2 (builder_source ps) max_pages ->
  2 <= max_pages ->
  Scan.doi_in_pdf f <> [] ->
  let wb := fst (Sort.main det_get_gender HAVE_GENDERIZE genderize_get
                           crossref_lookup popular_map use_genderize pdfs) in
  exists sheet r ws,
    Scan.match_row wb (Scan.build_workbook_index wb) month f
    = Returned (Some (sheet, r))
    /\ Xl.get_sheet wb sheet = Some ws
    /\ 2 <= r <= Xl.max_row ws
    /\ Xl.cell_value ws r 6 = Some (doi_url (Scan.doi_in_pdf f)).
Proof.
  intros Hin Hp Ht Hn Hd wb.
  pose proof (same_identifier f ps max_pages Hp Hn Hd) as Es. rewrite <- Ht in Es.
  assert (Hd' : Sort.parse_doi (Sort.pdf_text p) <> []) by (rewrite Es; exact Hd).
  destruct (@built_index_finds det_get_gender HAVE_GENDERIZE genderize_get
              crossref_lookup popular_map use_genderize pdfs p Hin Hd')
    as [sheet [r [ws [Hm [Hs [Hr Hc]]]]]].
  rewrite Es in Hm, Hc.
  exists sheet, r, ws. split; [|split; [exact Hs|split; [exact Hr|exact Hc]]].
  unfold Scan.match_row. fold wb in Hm.
  destruct (Scan.doi_in_pdf f) as [|c d] eqn:E; [contradiction|].
  cbn [Scan.nonempty]. rewrite Hm. reflexivity.
Qed.

Lemma built_workbook_matched_by_doi_witness :
  Scan.doi_in_pdf doc_april = py "10.1002/mrm.30001"
  /\ exists sheet r ws,
       Scan.match_row
         (fst (Sort.main det_none false oracle_down crossref_none
                         popular_sample false [pdf_undated; pdf_april]))
         (Scan.build_workbook_index
            (fst (Sort.main det_none false oracle_down crossref_none
                            popular_sample false [pdf_undated; pdf_april])))
         (py "January") doc_april
       = Returned (Some (sheet, r))
       /\ Xl.get_sheet
            (fst (Sort.main det_none false oracle_down crossref_none
                            popular_sample false [pdf_undated; pdf_april])) sheet
          = Some ws
       /\ 2 <= r <= Xl.max_row ws
       /\ Xl.cell_value ws r 6 = Some (doi_url (Scan.doi_in_pdf doc_april)).
Proof.
  split; [vm_compute; reflexivity|].
  apply (built_workbook_matched_by_doi det_none false oracle_down crossref_none
           popular_sample false [pdf_undated; pdf_april] pdf_april
           doc_april april_pages 3 (py "January")).
  - right. left. reflexivity.
  - reflexivity.
  - vm_compute. reflexivity.
  - lia.
  - vm_compute. discriminate.
Defined.
